(* ===== verification/_CoqProject ===== *)
-Q . S2P
Prelude.v
RustStr.v
Route.v
RouteTable.v
Store.v
Redis.v
Tracker.v
Registry.v
RegistryConc.v
Metrics.v
Activity.v
Percent.v
Http.v
Sidecar.v
Config.v
Upstream.v
Errors.v
ChunkGrammar.v
ErrorClient.v
SocketAddr.v
Lifecycle.v
Api.v
Proxy.v
DataPlane.v
Backends.v
EndToEnd.v
SidecarBackend.v
Legacy.v
FileSystem.v
PathOwnership.v
Portable.v
Publication.v
PublicService.v
Listener.v
ErrorFiles.v
Startup.v
Redaction.v
Unwinding.v
Waiting.v
System.v
