(* ===== verification/Prelude.v ===== *)
(** * A verification library for pingora-reverse-proxy

    The program is a reverse proxy compatible with JupyterHub's
    configurable-http-proxy (CHP): a management API edits a table of routes, a
    data plane forwards each public request to the target of the deepest matching
    route, and activity stamps flow back into the table and its backend.  Around
    them the process takes its PID file and its TCP and Unix listeners, serves,
    and shuts down in order.  This library translates the Rust code under src/src/
    into executable definitions and proves what makes it correct.

    ** The parts and their files

    Routes and backends:
    - route.rs and the first half of route_table.rs: [Route] has keys
      ([normalize]) and records, [RouteTable] the ordered route map, the segment
      trie built from it and the lookup [resolve].
    - store/mod.rs, store/memory.rs: [Store] has the trait as a class of
      state-passing operations, its documented contract as a step relation
      ([commits], [store_step], class [StoreContract]), and [MemoryStore] as an
      instance.  The contract is for the calls the program makes: rooted keys and
      metadata without the reserved fields ([clean_call]).  The registry is proved
      against the contract only.
    - store/redis.rs: [Redis], the record codec and each operation command by
      command against a server with failures, deadlines and other clients;
      [Backends] has the same operations as an instance of [Store] and, with no
      other client, of its contract.
    - store/sidecar.rs: [Sidecar], each HTTP exchange with its retries and checks
      against any peer that follows the documented protocol; [SidecarBackend] has
      it as an instance of [Store] in the same way.
    - the second half of route_table.rs: [Tracker] has mutation admission, the
      terminal seals and the diagnostic ring; [Registry] the operations of
      [RouteRegistry] run alone, with their supervision ([run_mutation]);
      [RegistryConc] the same code as a step relation over tasks, lock-free
      observers, cancellation and drain ([step]), and with remote writes that land
      after their outcome was given up as lost ([late_step]).
    - activity.rs: [Activity], the coalescing writer as a state machine with ghost
      fields for what was accepted and attempted.  metrics.rs: [Metrics].

    Requests:
    - config.rs: [Config], [AppConfig::try_from] over an environment.
    - upstream.rs: [Upstream], targets, peers, URIs and header policy.
    - errors.rs: [Errors] has error pages, the exchange with a custom error
      service, chunked bodies, and the resolver cache with its lease
      ([Errors.Resolver]); [ChunkGrammar] says what the chunked decoder accepts;
      [ErrorClient] the TLS client of that service;
      [ErrorFiles] how error files are opened.
    - api.rs: [Api], the router and every handler.
    - proxy.rs: [Proxy], the Pingora callbacks and the life of a request;
      [DataPlane] has many requests interleaved over one proxy, and [EndToEnd] a
      management request followed by a public one over the registry they share,
      or by a restart on the same Redis hash.
    - utils.rs, redis_utils.rs, mgmt_api.rs: [Legacy], helpers no module declares.

    The process:
    - api_server.rs (first part), shutdown.rs: [Lifecycle], traffic admission
      under interleaved atomics and the ordered shutdown ([Lifecycle.Shutdown]).
    - path_ownership.rs and the PID file of shutdown.rs: [FileSystem] is an inode
      store and a monad of system calls over it, in which other processes change
      anything between any two calls and any call may fail; [PathOwnership] has
      authenticated directories, private directories, owned entries, quarantine
      and cleanup.  [Portable] has what the same file compiles to elsewhere: by
      path where there are no descriptors ([NonUnix]), by the answers of Apple's
      calls ([Apple]), and the refusals of other Unix systems ([OtherUnix]).
    - the listeners of api_server.rs: [Publication] binds Unix sockets through a
      staging directory; [PublicService] hands the public descriptor to Pingora;
      [Listener] has the accept loops ([Management], [Tls]), the TLS acceptor,
      binding, and redirects ([Redirect]).
    - main.rs: [Startup] is [run] from the arguments to the exit code over all of
      the above; [Unwinding] follows what it has published in a ledger, through
      its services to its end, whatever the order of their drops.
    - [Waiting] has the loops that await a [tokio::sync::Notify] (the two
      lifecycles, the registry's drain, the activity flush) as one step relation
      with an instance each.  [System] puts the concurrent registry, the traffic
      counter, the activity writer and the coordinator of shutdown.rs into one
      state.
    - [Redaction] has the hand-written [Debug] implementations of config.rs,
      activity.rs, the stores and the listeners, and the panic hook of main.rs.

    [Percent] has the percent codecs of six source files; [RustStr] the part of
    [core::str] the code uses, [SocketAddr] and [Http] the number and address
    parsers of the standard library, and the printing of socket addresses; [Http] also the interfaces of the crates
    [http] and [url].  This file holds results, machine integers, tactics and
    hints.

    State is passed explicitly; fallible code returns [result] or [option], and a
    panic that the source can reach is a value too ([None], [PopPanic],
    [Panicked]).  Rust strings and byte slices are [string]s of bytes, integers
    are [Z] with their width written at each operation, [BTreeMap]s are [gmap]s
    with a sorted enumeration where order shows.  Third-party code is a class of
    operations, with a second class of the documented facts used; each has an
    executable instance, which the witnesses compute with: [HeaderLib], [UrlLib],
    [UriLib], [F64], [RecordLib], [ErrorLib], [Rustls], [OpenSsl], [RetryLib],
    [Platform] for what the kernel decides (identities, path resolution, sizes).
    The Pingora future of the public service is a script of its answers, and what
    clap, tokio, TCP and the server answer at startup is the record [Outside],
    whose [serve] also says how the server ended and in which order its services
    were dropped.

    ** What is shown

    - Routing: the trie lookup is the deepest match, newest among equals
      ([resolve_deepest_route]), and a forwarded request follows it
      ([forwarded_requests_follow_the_best_route]).
    - Registry: published routes track the backend, publications are serial and
      stamps monotone, a terminal failure is fail-stop even while a lost write still
      lands, tasks terminate, failures publish nothing whether the backend answers
      or panics, and the executable operations are runs of the step relation.
    - Backends: the Redis and the sidecar operations refine the contract whatever
      the network loses, and so does [MemoryStore].
    - End to end: creations and deletions change where public requests go, exactly
      under their key ([management_reaches_the_data_plane]); creating and deleting
      again is invisible ([create_then_delete_is_invisible]); with the routes in
      Redis, what the API acknowledged is what a restarted process serves, and the
      hash always loads again ([redis_routes_survive_a_restart]); a sidecar holds
      what was acknowledged ([sidecar_holds_what_was_acknowledged]).
    - Data plane: admission is released exactly once, and concurrent requests refine
      the traffic relation the shutdown waits on
      ([concurrent_requests_refine_traffic]); hop-by-hop headers and
      those the client nominated never reach an upstream but as the proxy sets them
      itself, body framing is unambiguous.
    - Activity: flush keeps its promise, the writer is bounded and never stalls.
    - API: unauthorized requests are inert and learn nothing of the routes, creations
      are served, a token is accepted exactly as the regular expression of CHP
      captures it.
    - Error pages: bounded; the chunked decoder is its dialect, which contains the bodies
      of RFC 9112 without trailers ([decode_chunked_is_the_grammar]); leased addresses
      are pinned; error files are reached through no link whatever others do; the
      error service is reached under the upstream TLS policy.
    - Files: cleanup removes only what it owns and published sockets are ready,
      while others interfere short of this user's private directories; anchoring saw
      a safe path whatever others do, and is exact in a file system at rest, where
      taking and dropping the PID file, and binding, change nothing else.
    - Listeners: the public service fails closed (given that Pingora builds its
      listener before it waits) and releases its descriptors, the API stops accepting before it reports its shutdown, TLS handshakes are
      bounded, a TLS configuration is never dropped, within the versions and TLS 1.3
      suites of Mozilla's policy.
    - Process: shutdown is ordered and bounded, the admission count is exact, an
      accepted configuration is valid, and a process that has ended, at whatever
      point and in whatever order, leaves no trace ([process_leaves_no_trace]).
    - Waiting: no wake-up is lost ([no_wakeup_is_lost]) and a flush returns
      ([flush_returns]).  The composed system: what each phase of a completed
      shutdown established holds from then on, whatever still runs
      ([completed_shutdown_is_final]); the coordinator always completes
      ([coordinator_always_completes]), and until it seals the registry a clean end
      stays reachable ([shutdown_can_always_end_well]).
    - Diagnostics: what [Debug] prints and what the panic hook reports depend on no
      secret ([diagnostics_are_redacted]).
    - What the code does not do: a repeated request header loses all but its first
      value ([repeated_request_headers_lose_values]); the activity flush, which
      runs after the drain sealed the registry, persists nothing
      ([flush_after_drain_persists_nothing]); a bare file name is refused as a path
      ([bare_names_are_refused]); the redirect listener needs an address literal,
      which the default host is not ([redirect_needs_an_address_literal]); where
      ownership is by path, cleanup restores what it must not remove with a rename
      that replaces whatever has taken the name meanwhile
      ([path_cleanup_needs_the_path_to_stay_missing]).

    Three notions say what others may do: in a [calm] world they leave this user's
    mode-0700 directories alone (as the kernel makes other users do; processes of
    the same user, and root, could do otherwise and are outside the trust boundary
    of docs/compatibility.md), in a [sheltered] one also what only such a directory
    names, and a [quiet] one is at rest: nobody else acts and no call fails.  The
    safety theorems assume the weakest that the code relies on; exactness theorems
    are [quiet].

    ** Bounds and fuel

    Five loops carry fuel, the length of the string each consumes: [trim_loop]
    (shown to leave nothing to trim), [decode_chunked_loop] (shown to accept
    every chunk list, so that its fuel never runs out), [decode_loop] in [Percent] (shown to be [decode_bytes]), and
    [skip_whitespace] and [extract_token_loop] in [Api], whose turns each consume
    at least one byte (a client's header is shown to be accepted exactly when its
    token is right).  The retry loops of [Redis] recurse over the
    rounds their deadline leaves time for, those of [Sidecar] and [PathOwnership]
    over the attempts the source counts.  Counters are [Z] with saturating or
    wrapping addition as in the source; the concurrent theorems assume fewer than
    [usize::MAX] simultaneous tasks, which [step] states as a guard.  A start
    draws at most ten random names before it fails, which [supplied] grants.

    ** What is not modelled

    clap's parsing of the arguments (its result is a parameter), the text of log
    lines (but for [Legacy]), the stubs that stand for Unix sockets and error files
    on systems without them (each only refuses), errors of building headers from
    values that are header values already, JSON numbers that [serde_json] would
    print otherwise than it read them, and memory orderings weaker than sequential
    consistency. *)

From stdpp Require Export base gmap list option strings pretty sorting.
From Stdlib Require Export Ascii ZArith Lia.

#[global] Set Default Proof Using "Type".

Open Scope Z_scope.

#[global] Arguments String.append !_ _ : simpl nomatch.

(** ** Rust results *)

Inductive result (A E : Type) : Type :=
| Ok (a : A)
| Err (e : E).
Arguments Ok {A E} a.
Arguments Err {A E} e.

Declare Scope rust_scope.
Delimit Scope rust_scope with rust.
Open Scope rust_scope.

(** [let? x := e in k] is Rust's [let x = e?; k]. *)
Notation "'let?' x := e 'in' k" :=
  (match e with Ok x => k | Err err => Err err end)
  (at level 10, x pattern at level 0, e at level 150, k at level 200,
   format "'[hv' 'let?'  x  :=  e  'in'  '/' k ']'") : rust_scope.

(** [guard? b 'else' e 'in' k] is [if !b { return Err(e); } k]. *)
Notation "'guard?' b 'else' e 'in' k" :=
  (if b then k else Err e)
  (at level 10, b at level 150, e at level 150, k at level 200) : rust_scope.

Definition map_err {A E F} (f : E -> F) (r : result A E) : result A F :=
  match r with Ok a => Ok a | Err e => Err (f e) end.

Definition result_map {A B E} (f : A -> B) (r : result A E) : result B E :=
  match r with Ok a => Ok (f a) | Err e => Err e end.

Definition ok_or {A E} (o : option A) (e : E) : result A E :=
  match o with Some a => Ok a | None => Err e end.

Definition ok {A E} (r : result A E) : option A :=
  match r with Ok a => Some a | Err _ => None end.

Definition is_ok {A E} (r : result A E) : bool :=
  match r with Ok _ => true | Err _ => false end.

(** [iter().map(f).collect::<Result<Vec<_>, _>>()]: stops at the first error. *)
Fixpoint collect {A B E} (f : A -> result B E) (l : list A) : result (list B) E :=
  match l with
  | [] => Ok []
  | a :: l' => let? b := f a in let? bs := collect f l' in Ok (b :: bs)
  end.

Definition opt_filter {A} (p : A -> bool) (o : option A) : option A :=
  match o with Some a => if p a then Some a else None | None => None end.

Definition opt_or_else {A} (o o' : option A) : option A :=
  match o with Some a => Some a | None => o' end.

Definition is_some {A} (o : option A) : bool :=
  match o with Some _ => true | None => false end.

Definition is_none {A} (o : option A) : bool := negb (is_some o).

Definition is_none_or {A} (p : A -> bool) (o : option A) : bool :=
  match o with Some a => p a | None => true end.

Definition is_some_and {A} (p : A -> bool) (o : option A) : bool :=
  match o with Some a => p a | None => false end.

(** ** Machine integers, kept at their width in [Z] *)

Definition u16_max : Z := 65535.
Definition u32_max : Z := 4294967295.
Definition u64_max : Z := 18446744073709551615.
Definition usize_max : Z := u64_max.

Definition saturating_add (width_max a b : Z) : Z := Z.min width_max (a + b).
Definition saturating_sub (a b : Z) : Z := Z.max 0 (a - b).
Definition checked_add (width_max a b : Z) : option Z :=
  if a + b <=? width_max then Some (a + b) else None.
(** [AtomicU64::fetch_add] wraps around on overflow. *)
Definition wrapping_add (width_max a b : Z) : Z := (a + b) mod (width_max + 1).

Definition in_width (width_max a : Z) : Prop := 0 <= a <= width_max.

(** Decimal rendering, as [Display] does for unsigned integers. *)
Definition show_Z (z : Z) : string := pretty (Z.to_N z).
Definition show_nat (n : nat) : string := pretty (N.of_nat n).

(** An instant of [chrono::DateTime<Utc>], in nanoseconds since the epoch: the
    code only compares instants and takes maxima. *)
Abbreviation DateTime := Z (only parsing).
(** [std::time::Duration], in nanoseconds. *)
Abbreviation Duration := Z (only parsing).

Definition from_millis (ms : Z) : Duration := ms * 1000000.
Definition from_secs (s : Z) : Duration := s * 1000000000.

(** ** Tactics and hints *)

Create HintDb proxy discriminated.

(** Case analysis on the innermost scrutinee of a match in the goal. *)
Ltac case_goal :=
  match goal with
  | |- context [match ?x with _ => _ end] =>
      lazymatch x with
      | context [match _ with _ => _ end] => fail
      | _ => destruct x eqn:?
      end
  end.

Ltac case_hyp H :=
  match type of H with
  | context [match ?x with _ => _ end] =>
      lazymatch x with
      | context [match _ with _ => _ end] => fail
      | _ => destruct x eqn:?
      end
  end.

Ltac bool_simp :=
  repeat match goal with
  | H : (_ && _)%bool = true |- _ => apply andb_true_iff in H as [? ?]
  | H : (_ || _)%bool = false |- _ => apply orb_false_iff in H as [? ?]
  | H : negb _ = true |- _ => apply negb_true_iff in H
  | H : negb _ = false |- _ => apply negb_false_iff in H
  | H : (_ <=? _) = true |- _ => apply Z.leb_le in H
  | H : (_ <=? _) = false |- _ => apply Z.leb_gt in H
  | H : (_ <? _) = true |- _ => apply Z.ltb_lt in H
  | H : (_ <? _) = false |- _ => apply Z.ltb_ge in H
  | H : (_ =? _) = true |- _ => apply Z.eqb_eq in H
  | H : (_ =? _) = false |- _ => apply Z.eqb_neq in H
  end.

(** ** Generic lemmas *)

Lemma saturating_add_width m a b :
  in_width m a -> 0 <= b -> in_width m (saturating_add m a b).
Proof. unfold in_width, saturating_add; lia. Qed.

Lemma saturating_sub_width m a b :
  in_width m a -> 0 <= b -> in_width m (saturating_sub a b).
Proof. unfold in_width, saturating_sub; lia. Qed.

Lemma saturating_add_exact m a b : a + b <= m -> saturating_add m a b = a + b.
Proof. unfold saturating_add; lia. Qed.

Lemma saturating_sub_exact a b : b <= a -> saturating_sub a b = a - b.
Proof. unfold saturating_sub; lia. Qed.

Lemma checked_add_Some m a b c :
  checked_add m a b = Some c -> c = a + b /\ a + b <= m.
Proof. unfold checked_add; case_goal; intros; simplify_eq; bool_simp; lia. Qed.

Lemma opt_filter_Some {A} (p : A -> bool) o a :
  opt_filter p o = Some a <-> o = Some a /\ p a = true.
Proof.
  destruct o as [x|]; simpl; [|naive_solver].
  destruct (p x) eqn:Hp; split; intros; destruct_and?; simplify_eq; eauto; congruence.
Qed.

Lemma ok_or_Ok {A E} (o : option A) (e : E) a : ok_or o e = Ok a <-> o = Some a.
Proof. destruct o; simpl; split; intros; congruence. Qed.

Lemma collect_Ok_Forall2 {A B E} (f : A -> result B E) l bs :
  collect f l = Ok bs <-> Forall2 (fun a b => f a = Ok b) l bs.
Proof.
  revert bs; induction l as [|a l IH]; intros bs; simpl.
  - split; [intros; simplify_eq; constructor | by inversion 1].
  - split.
    + intros H. destruct (f a) eqn:?; [|done]. destruct (collect f l) eqn:?; [|done].
      simplify_eq. constructor; [done|]. by apply IH.
    + intros (b & bs' & Hb & Hbs & ->)%Forall2_cons_inv_l.
      rewrite Hb. apply IH in Hbs. by rewrite Hbs.
Qed.

Lemma Ok_inj {A E} (a b : A) : Ok (E := E) a = Ok b -> a = b.
Proof. congruence. Qed.

Lemma guard_ok {A E} (b : bool) (e : E) (k : result A E) a :
  (guard? b else e in k) = Ok a -> b = true /\ k = Ok a.
Proof. by destruct b. Qed.

(** Inversion of a chain of [let?] and [guard?] that returned. *)
Ltac inv_ok H :=
  repeat match type of H with
  | (if ?b then _ else Err _) = Ok _ => apply guard_ok in H as [? H]
  | (match ?r with Ok _ => _ | Err _ => _ end) = Ok _ =>
      let r' := fresh "r" in let E := fresh "E" in
      destruct r as [r'|] eqn:E; [|discriminate H]
  end.

#[export] Hint Resolve saturating_add_width saturating_sub_width : proxy.

(** ** Byte-lexicographic order on strings and [BTreeMap] key order *)

Definition string_le (a b : string) : Prop := String.leb a b = true.

#[export] Instance string_le_dec a b : Decision (string_le a b).
Proof. unfold string_le; apply _. Defined.

Lemma ascii_compare_lt_trans a b c :
  Ascii.compare a b = Lt -> Ascii.compare b c = Lt -> Ascii.compare a c = Lt.
Proof. unfold Ascii.compare; rewrite !N.compare_lt_iff; lia. Qed.

Lemma ascii_compare_eq a b : Ascii.compare a b = Eq -> a = b.
Proof.
  unfold Ascii.compare; rewrite N.compare_eq_iff; intros H.
  by rewrite <- (Ascii.ascii_N_embedding a), <- (Ascii.ascii_N_embedding b), H.
Qed.

Lemma ascii_compare_refl a : Ascii.compare a a = Eq.
Proof. apply N.compare_refl. Qed.

Lemma string_compare_refl s : String.compare s s = Eq.
Proof. induction s as [|a s IH]; simpl; [done|]. by rewrite ascii_compare_refl. Qed.

Lemma string_compare_lt_trans a b c :
  String.compare a b = Lt -> String.compare b c = Lt -> String.compare a c = Lt.
Proof.
  revert b c; induction a as [|x a IH]; intros [|y b] [|z c]; simpl; try done.
  destruct (Ascii.compare x y) eqn:Exy; [|intros _|done];
    destruct (Ascii.compare y z) eqn:Eyz; try done.
  - apply ascii_compare_eq in Exy as ->. rewrite Eyz. apply IH.
  - apply ascii_compare_eq in Exy as ->. by rewrite Eyz.
  - apply ascii_compare_eq in Eyz as <-. by rewrite Exy.
  - by rewrite (ascii_compare_lt_trans _ _ _ Exy Eyz).
Qed.

#[export] Instance string_le_trans : Transitive string_le.
Proof.
  intros a b c. unfold string_le, String.leb.
  destruct (String.compare a b) eqn:Eab; [| |done];
    destruct (String.compare b c) eqn:Ebc; try done; intros _ _.
  - apply String.compare_eq_iff in Eab as ->. by rewrite Ebc.
  - apply String.compare_eq_iff in Eab as ->. by rewrite Ebc.
  - apply String.compare_eq_iff in Ebc as <-. by rewrite Eab.
  - by rewrite (string_compare_lt_trans _ _ _ Eab Ebc).
Qed.

#[export] Instance string_le_total : Total string_le.
Proof. intros a b. apply String.leb_total. Qed.

#[export] Instance string_le_antisym : AntiSymm (=) string_le.
Proof. intros a b. apply String.leb_antisym. Qed.

(** ** Bits as text: the printer the witnesses' codecs are built from *)

Fixpoint show_pos (p : positive) : string :=
  match p with xH => "" | xO p => String "0" (show_pos p) | xI p => String "1" (show_pos p) end.

Fixpoint read_pos (s : string) : positive :=
  match s with
  | EmptyString => xH
  | String c rest => if Ascii.eqb c "0" then xO (read_pos rest) else xI (read_pos rest)
  end.

Lemma read_show p : read_pos (show_pos p) = p.
Proof. induction p as [p IH|p IH|]; simpl; by rewrite ?IH. Qed.
