(* ===== verification/RustStr.v ===== *)
(** * Rust strings

    What the proxy uses of [core::str], [char] and [String].  A Rust string is
    its UTF-8 byte sequence: a [string] of 8-bit [ascii] values, whose
    [String.length] is Rust's [len()].  Every function below is executable; the
    lemmas are the ones the components share. *)

From S2P Require Import Prelude.

(** ** Bytes *)

Definition code (c : ascii) : Z := Z.of_N (N_of_ascii c).
(** A [u8] from its value, wrapped to 8 bits. *)
Definition chr (z : Z) : ascii := ascii_of_N (Z.to_N (Z.land z 255)).

Definition byte_in (lo hi : Z) (c : ascii) : bool := (lo <=? code c) && (code c <=? hi).

Definition is_ascii_digit (c : ascii) : bool := byte_in 48 57 c.
Definition is_ascii_lower (c : ascii) : bool := byte_in 97 122 c.
Definition is_ascii_upper (c : ascii) : bool := byte_in 65 90 c.
Definition is_ascii_alphabetic (c : ascii) : bool := is_ascii_lower c || is_ascii_upper c.
Definition is_ascii_alphanumeric (c : ascii) : bool := is_ascii_alphabetic c || is_ascii_digit c.
Definition is_ascii_hexdigit (c : ascii) : bool :=
  is_ascii_digit c || byte_in 97 102 c || byte_in 65 70 c.

Definition to_lower (c : ascii) : ascii := if is_ascii_upper c then chr (code c + 32) else c.

Fixpoint str_map (f : ascii -> ascii) (s : string) : string :=
  match s with "" => "" | String c s' => String (f c) (str_map f s') end.

Definition to_ascii_lowercase : string -> string := str_map to_lower.
Definition eq_ignore_ascii_case (a b : string) : bool :=
  String.eqb (to_ascii_lowercase a) (to_ascii_lowercase b).

Definition slash : ascii := "/"%char.
Definition colon : ascii := ":"%char.
Definition question : ascii := "?"%char.
Definition newline : ascii := chr 10.
Definition quote : ascii := chr 34.
Definition backslash : ascii := chr 92.
Definition nul : ascii := chr 0.

(** ** Searching and slicing *)

Definition str1 (c : ascii) : string := String c "".

Definition is_empty (s : string) : bool := match s with "" => true | _ => false end.

Fixpoint contains_char (c : ascii) (s : string) : bool :=
  match s with "" => false | String a s' => Ascii.eqb a c || contains_char c s' end.

Fixpoint all_chars (p : ascii -> bool) (s : string) : bool :=
  match s with "" => true | String a s' => p a && all_chars p s' end.

Definition starts_with_char (c : ascii) (s : string) : bool :=
  match s with String a _ => Ascii.eqb a c | "" => false end.

Fixpoint ends_with_char (c : ascii) (s : string) : bool :=
  match s with
  | "" => false
  | String a "" => Ascii.eqb a c
  | String _ s' => ends_with_char c s'
  end.

(** Drops the last byte; Rust's [pop] when the last character is ASCII. *)
Fixpoint pop_byte (s : string) : string :=
  match s with
  | "" => ""
  | String _ "" => ""
  | String a s' => String a (pop_byte s')
  end.

Fixpoint strip_prefix (p s : string) : option string :=
  match p, s with
  | "", _ => Some s
  | String a p', String b s' => if Ascii.eqb a b then strip_prefix p' s' else None
  | _, "" => None
  end.

Fixpoint strip_suffix (t s : string) : option string :=
  if String.eqb s t then Some "" else
  match s with "" => None | String a s' => String a <$> strip_suffix t s' end.

Definition starts_with (p s : string) : bool := is_some (strip_prefix p s).
Definition ends_with (t s : string) : bool := is_some (strip_suffix t s).

(** The bytes from index [n] on, when [n] is in range. *)
Fixpoint drop_bytes (n : nat) (s : string) : option string :=
  match n, s with
  | O, _ => Some s
  | S n', String _ s' => drop_bytes n' s'
  | S _, "" => None
  end.

Fixpoint take_bytes (n : nat) (s : string) : string :=
  match n, s with
  | S n', String a s' => String a (take_bytes n' s')
  | _, _ => ""
  end.

Fixpoint trim_start_matches (c : ascii) (s : string) : string :=
  match s with
  | "" => ""
  | String a s' => if Ascii.eqb a c then trim_start_matches c s' else s
  end.

Fixpoint trim_end_matches (c : ascii) (s : string) : string :=
  match s with
  | "" => ""
  | String a s' =>
      match trim_end_matches c s' with
      | "" => if Ascii.eqb a c then "" else str1 a
      | t => String a t
      end
  end.

Definition trim_matches (c : ascii) (s : string) : string :=
  trim_end_matches c (trim_start_matches c s).

Fixpoint split (c : ascii) (s : string) : list string :=
  match s with
  | "" => [""]
  | String a s' =>
      if Ascii.eqb a c then "" :: split c s'
      else match split c s' with
           | h :: t => String a h :: t
           | [] => [str1 a]
           end
  end.

Fixpoint split_once (c : ascii) (s : string) : option (string * string) :=
  match s with
  | "" => None
  | String a s' =>
      if Ascii.eqb a c then Some ("", s')
      else match split_once c s' with
           | Some (l, r) => Some (String a l, r)
           | None => None
           end
  end.

Fixpoint rsplit_once (c : ascii) (s : string) : option (string * string) :=
  match s with
  | "" => None
  | String a s' =>
      match rsplit_once c s' with
      | Some (l, r) => Some (String a l, r)
      | None => if Ascii.eqb a c then Some ("", s') else None
      end
  end.

Fixpoint join (sep : string) (l : list string) : string :=
  match l with
  | [] => ""
  | [s] => s
  | s :: l' => s +:+ sep +:+ join sep l'
  end.

Fixpoint count_byte (c : ascii) (s : string) : nat :=
  match s with
  | "" => 0
  | String a s' => ((if Ascii.eqb a c then 1 else 0) + count_byte c s')%nat
  end.

(** ** UTF-8 *)

Definition is_cont (c : ascii) : bool := byte_in 128 191 c.

(** The validity check of [String::from_utf8] (Unicode table 3-7). *)
Fixpoint utf8_valid (s : string) : bool :=
  match s with
  | "" => true
  | String a s1 =>
      if code a <? 128 then utf8_valid s1 else
      match s1 with
      | "" => false
      | String b1 s2 =>
          if byte_in 194 223 a then is_cont b1 && utf8_valid s2 else
          match s2 with
          | "" => false
          | String b2 s3 =>
              if code a =? 224 then byte_in 160 191 b1 && is_cont b2 && utf8_valid s3
              else if code a =? 237 then byte_in 128 159 b1 && is_cont b2 && utf8_valid s3
              else if byte_in 225 239 a then is_cont b1 && is_cont b2 && utf8_valid s3
              else match s3 with
              | "" => false
              | String b3 s4 =>
                  if code a =? 240 then
                    byte_in 144 191 b1 && is_cont b2 && is_cont b3 && utf8_valid s4
                  else if byte_in 241 243 a then
                    is_cont b1 && is_cont b2 && is_cont b3 && utf8_valid s4
                  else if code a =? 244 then
                    byte_in 128 143 b1 && is_cont b2 && is_cont b3 && utf8_valid s4
                  else false
              end
          end
      end
  end.

Definition from_utf8 (bytes : string) : option string :=
  if utf8_valid bytes then Some bytes else None.

(** [str::encode_utf16().count()]: one unit per character, two for those
    outside the basic plane (a leading byte of 0xF0 or more). *)
Fixpoint utf16_len (s : string) : nat :=
  match s with
  | "" => 0
  | String a s' =>
      ((if is_cont a then 0 else if (240 <=? code a)%Z then 2 else 1) + utf16_len s')%nat
  end.

(** [str::get(n..)]: [None] out of range or off a character boundary. *)
Definition get_from (n : nat) (s : string) : option string :=
  match drop_bytes n s with
  | Some (String a t) => if is_cont a then None else Some (String a t)
  | o => o
  end.

Definition encode_utf8 (cp : Z) : string :=
  if cp <? 128 then str1 (chr cp)
  else if cp <? 2048 then
    String (chr (192 + Z.shiftr cp 6)) (str1 (chr (128 + Z.land cp 63)))
  else String (chr (224 + Z.shiftr cp 12))
        (String (chr (128 + Z.land (Z.shiftr cp 6) 63)) (str1 (chr (128 + Z.land cp 63)))).

(** ** [str::trim]: Unicode White_Space *)

Definition white_space_code_points : list Z :=
  [9; 10; 11; 12; 13; 32; 133; 160; 5760;
   8192; 8193; 8194; 8195; 8196; 8197; 8198; 8199; 8200; 8201; 8202;
   8232; 8233; 8239; 8287; 12288].

Definition white_space : list string := map encode_utf8 white_space_code_points.

Fixpoint strip_any (strip : string -> string -> option string) (pats : list string) (s : string)
  : option string :=
  match pats with
  | [] => None
  | p :: pats' => opt_or_else (strip p s) (strip_any strip pats' s)
  end.

Fixpoint trim_loop (strip : string -> string -> option string) (fuel : nat) (s : string) : string :=
  match fuel with
  | O => s
  | S n => match strip_any strip white_space s with
           | Some s' => trim_loop strip n s'
           | None => s
           end
  end.

Definition trim_start (s : string) : string := trim_loop strip_prefix (String.length s) s.
Definition trim_end (s : string) : string := trim_loop strip_suffix (String.length s) s.
Definition trim (s : string) : string := trim_end (trim_start s).

(** ** Lemmas *)

Lemma str_app_nil_r s : s +:+ "" = s.
Proof. induction s as [|a s IH]; simpl; congruence. Qed.

Lemma str_app_assoc a b c : a +:+ (b +:+ c) = (a +:+ b) +:+ c.
Proof. induction a as [|x a IH]; simpl; congruence. Qed.

Lemma str_length_app a b : String.length (a +:+ b) = (String.length a + String.length b)%nat.
Proof. induction a as [|x a IH]; simpl; congruence. Qed.

Lemma ascii_eqb_refl c : Ascii.eqb c c = true.
Proof. by apply Ascii.eqb_eq. Qed.

Lemma ascii_eqb_true a b : Ascii.eqb a b = true -> a = b.
Proof. apply Ascii.eqb_eq. Qed.

Lemma ascii_eqb_false a b : Ascii.eqb a b = false <-> a <> b.
Proof. apply Ascii.eqb_neq. Qed.

Lemma ends_with_char_split c s : ends_with_char c s = true -> s = pop_byte s +:+ str1 c.
Proof.
  induction s as [|a [|b s] IH]; [done| |].
  - simpl. intros ->%ascii_eqb_true. done.
  - intros H. change (ends_with_char c (String b s) = true) in H. specialize (IH H).
    change (String a (String b s) = String a (pop_byte (String b s) +:+ str1 c)). congruence.
Qed.

Lemma ends_with_char_app c s : ends_with_char c (s +:+ str1 c) = true.
Proof. induction s as [|a [|b s] IH]; simpl in *; rewrite ?ascii_eqb_refl; done. Qed.

Lemma pop_byte_app c s : pop_byte (s +:+ str1 c) = s.
Proof. induction s as [|a [|b s] IH]; simpl in *; congruence. Qed.

Lemma trim_end_matches_app c s : trim_end_matches c (s +:+ str1 c) = trim_end_matches c s.
Proof.
  induction s as [|a s IH]; simpl; [by rewrite ascii_eqb_refl|]. by rewrite IH.
Qed.

Lemma trim_start_matches_app c s :
  trim_start_matches c (s +:+ str1 c) =
  match trim_start_matches c s with "" => "" | t => t +:+ str1 c end.
Proof.
  induction s as [|a s IH]; simpl; [by rewrite ascii_eqb_refl|].
  destruct (Ascii.eqb a c); [apply IH|done].
Qed.

Lemma trim_matches_app c s : trim_matches c (s +:+ str1 c) = trim_matches c s.
Proof.
  unfold trim_matches. rewrite trim_start_matches_app.
  destruct (trim_start_matches c s) as [|a t]; [done|]. apply trim_end_matches_app.
Qed.

Lemma trim_matches_cons c s : trim_matches c (String c s) = trim_matches c s.
Proof. unfold trim_matches. simpl. by rewrite ascii_eqb_refl. Qed.

Lemma split_nonempty c s : split c s <> [].
Proof. destruct s as [|a s]; simpl; [done|]. case_match; [done|]. by case_match. Qed.

Lemma join_split c s : join (str1 c) (split c s) = s.
Proof.
  induction s as [|a s IH]; simpl; [done|].
  destruct (Ascii.eqb a c) eqn:Ha.
  - apply ascii_eqb_true in Ha as ->. pose proof (split_nonempty c s).
    destruct (split c s) as [|h l]; [done|].
    change (str1 c +:+ join (str1 c) (h :: l) = String c s). by rewrite IH.
  - pose proof (split_nonempty c s).
    destruct (split c s) as [|h [|t l]]; [done| |]; cbn [join String.append] in *; congruence.
Qed.

Lemma split_plain c s : contains_char c s = false -> split c s = [s].
Proof.
  induction s as [|a s IH]; [done|]. simpl. intros [Ha Hs]%orb_false_iff. rewrite Ha, (IH Hs). done.
Qed.

Lemma split_app c a b : contains_char c a = false -> split c (a +:+ String c b) = a :: split c b.
Proof.
  induction a as [|x a IH]; simpl; [by rewrite ascii_eqb_refl|].
  intros [Ha Hs]%orb_false_iff. by rewrite Ha, (IH Hs).
Qed.

Lemma split_once_Some c s l r :
  split_once c s = Some (l, r) -> s = l +:+ String c r /\ contains_char c l = false.
Proof.
  revert l r. induction s as [|a s IH]; intros l r; simpl; [done|].
  destruct (Ascii.eqb a c) eqn:Ha.
  - apply ascii_eqb_true in Ha as ->. intros. by simplify_eq.
  - destruct (split_once c s) as [[l' r']|]; [|done]. intros. simplify_eq.
    destruct (IH l' r) as [-> Hc]; [done|]. simpl. by rewrite Ha, Hc.
Qed.

Lemma split_once_None c s : split_once c s = None <-> contains_char c s = false.
Proof.
  induction s as [|a s IH]; simpl; [done|]. destruct (Ascii.eqb a c); simpl; [done|].
  rewrite <- IH. by destruct (split_once c s) as [[]|].
Qed.

Lemma split_once_app c l r :
  contains_char c l = false -> split_once c (l +:+ String c r) = Some (l, r).
Proof.
  induction l as [|a l IH]; simpl; [by rewrite ascii_eqb_refl|].
  intros [Ha Hl]%orb_false_iff. by rewrite Ha, IH.
Qed.

Lemma strip_prefix_Some p s r : strip_prefix p s = Some r <-> s = p +:+ r.
Proof.
  revert s. induction p as [|a p IH]; intros s; simpl.
  - split; congruence.
  - destruct s as [|b s]; [done|]. destruct (Ascii.eqb a b) eqn:Hab.
    + apply ascii_eqb_true in Hab as ->. rewrite IH. split; congruence.
    + apply ascii_eqb_false in Hab. split; [done|]. congruence.
Qed.

Lemma strip_suffix_Some t s l : strip_suffix t s = Some l -> s = l +:+ t.
Proof.
  revert l. induction s as [|a s IH]; intros l; cbn [strip_suffix].
  - destruct (String.eqb_spec "" t) as [<-|]; [|done]. by intros [= <-].
  - destruct (String.eqb_spec (String a s) t) as [<-|]; [by intros [= <-]|].
    destruct (strip_suffix t s) as [l'|] eqn:Hs; [|done]. intros [= <-].
    simpl. f_equal. by apply IH.
Qed.

(** The fuel of [trim] is enough: no white space is left at either end. *)
Lemma white_space_nonempty p : p ∈ white_space -> p <> "".
Proof.
  assert (H : forallb (fun p => negb (is_empty p)) white_space = true) by reflexivity.
  rewrite list_elem_of_In. intros Hin. rewrite forallb_forall in H. specialize (H _ Hin).
  by destruct p.
Qed.

Lemma strip_any_shorter strip pats s s' :
  (forall p s s', p ∈ pats -> strip p s = Some s' -> (String.length s' < String.length s)%nat) ->
  strip_any strip pats s = Some s' -> (String.length s' < String.length s)%nat.
Proof.
  induction pats as [|p pats IH]; simpl; intros Hstrip H; [done|].
  destruct (strip p s) eqn:Hp; simpl in H; simplify_eq.
  - eapply Hstrip; [|done]. set_solver.
  - apply IH; [|done]. intros. eapply Hstrip; [|done]. set_solver.
Qed.

Lemma trim_loop_done strip n s :
  (forall p s s', p ∈ white_space -> strip p s = Some s' -> (String.length s' < String.length s)%nat) ->
  (String.length s <= n)%nat ->
  strip_any strip white_space (trim_loop strip n s) = None.
Proof.
  intros Hstrip. revert s. induction n as [|n IH]; intros s Hn; cbn [trim_loop].
  - destruct (strip_any strip white_space s) as [s'|] eqn:Hs; [|done].
    apply strip_any_shorter in Hs; [lia|done].
  - destruct (strip_any strip white_space s) as [s'|] eqn:Hs; [|done].
    apply strip_any_shorter in Hs; [|done]. apply IH. lia.
Qed.

Lemma strip_prefix_shorter p s s' :
  p ∈ white_space -> strip_prefix p s = Some s' -> (String.length s' < String.length s)%nat.
Proof.
  intros Hp%white_space_nonempty ->%strip_prefix_Some. rewrite str_length_app.
  destruct p; simpl; [done|lia].
Qed.

Lemma strip_suffix_shorter p s s' :
  p ∈ white_space -> strip_suffix p s = Some s' -> (String.length s' < String.length s)%nat.
Proof.
  intros Hp%white_space_nonempty ->%strip_suffix_Some. rewrite str_length_app.
  destruct p; simpl; [done|lia].
Qed.

Lemma trim_start_done s : strip_any strip_prefix white_space (trim_start s) = None.
Proof. apply trim_loop_done; [apply strip_prefix_shorter|done]. Qed.

Lemma trim_end_done s : strip_any strip_suffix white_space (trim_end s) = None.
Proof. apply trim_loop_done; [apply strip_suffix_shorter|done]. Qed.

(** *** Prefixes *)

Lemma code_range b : 0 <= code b < 256.
Proof. unfold code. pose proof (N_ascii_bounded b). lia. Qed.

Lemma drop_bytes_app a b : drop_bytes (String.length a) (a +:+ b) = Some b.
Proof. induction a as [|c a IH]; [by destruct b|done]. Qed.

Lemma str_app_cancel a b c : a +:+ b = a +:+ c -> b = c.
Proof. induction a as [|x a IH]; [done|]. intros [= Heq]. by apply IH. Qed.

Lemma starts_with_app x s : starts_with x s = true <-> exists rest, s = x +:+ rest.
Proof.
  unfold starts_with. split.
  - destruct (strip_prefix x s) as [r|] eqn:Hp; [|done]. intros _. apply strip_prefix_Some in Hp. by exists r.
  - intros [rest Hs]. apply strip_prefix_Some in Hs. by rewrite Hs.
Qed.

Lemma app_prefixes x y r r' : x +:+ r = y +:+ r' -> starts_with x y = true \/ starts_with y x = true.
Proof.
  revert y. induction x as [|a x IH]; intros y Heq; [by left|]. destruct y as [|b y]; [by right|].
  injection Heq as -> Heq. unfold starts_with in *. simpl. rewrite ascii_eqb_refl. by apply IH.
Qed.
