(* ===== verification/Route.v ===== *)
(** * Route keys and route records (src/route.rs)

    [RouteKey] is the newtype of a cleaned CHP key: values are only built by
    [normalize].  [RouteData] is the persisted record. *)

From S2P Require Import Prelude RustStr.

(** ** JSON values: the data [serde_json] hands to the code *)

(** Numbers keep their literal text, as if [serde_json] printed back what it read:
    the proxy stores and returns them, it never computes with them.  [serde_json::Map] is an ordered map, so equal as maps
    means equal. *)
Inductive Value : Type :=
| VNull
| VBool (b : bool)
| VNumber (literal : string)
| VString (s : string)
| VArray (l : list Value)
| VObject (m : gmap string Value).

(** ** Route keys *)

Record RouteKey : Type := mkRouteKey { as_str : string }.

#[export] Instance RouteKey_eq_dec : EqDecision RouteKey.
Proof. solve_decision. Defined.

#[export] Instance RouteKey_countable : Countable RouteKey.
Proof. by apply (inj_countable' as_str mkRouteKey); intros []. Defined.

(** [RouteError = Infallible]. *)
Definition RouteError : Type := Empty_set.

Definition normalize (input : string) : RouteKey :=
  let normalized := input in
  let normalized :=
    if is_empty normalized || negb (starts_with_char slash normalized)
    then String slash normalized else normalized in
  let normalized :=
    if (1 <? String.length normalized)%nat && ends_with_char slash normalized
    then pop_byte normalized else normalized in
  mkRouteKey normalized.

Definition parse (input : string) : result RouteKey RouteError := Ok (normalize input).

(** [impl Deserialize for RouteKey]: a string, normalized. *)
Definition deserialize_key (v : Value) : option RouteKey :=
  match v with VString raw => Some (normalize raw) | _ => None end.

(** The callers' [match RouteKey::parse(value) { Ok(key) => key, Err(e) => match e {} }]. *)
Definition route_key (value : string) : RouteKey :=
  match parse value with
  | Ok key => key
  | Err error => match error with end
  end.

(** [derive(Ord)] on the newtype: byte order of the key text. *)
Definition key_le (a b : RouteKey) : Prop := string_le (as_str a) (as_str b).

#[export] Instance key_le_dec a b : Decision (key_le a b).
Proof. unfold key_le; apply _. Defined.

(** ** Route records *)

Record RouteData : Type := mkRouteData {
  target : string;
  last_activity : DateTime;
  extra : gmap string Value
}.

Definition set_last_activity (at_ : DateTime) (d : RouteData) : RouteData :=
  {| target := target d; last_activity := at_; extra := extra d |}.

(** The part of a record that is not its activity stamp. *)
Definition static_part (d : RouteData) : string * gmap string Value := (target d, extra d).

(** The route map keyed in ascending [RouteKey] order: the iteration order of
    [BTreeMap<RouteKey, _>]. *)
Definition btree_keys {A} (m : gmap RouteKey A) : list RouteKey :=
  merge_sort key_le (map_to_list m).*1.

Section Serialization.
(** [DateTime::to_rfc3339_opts(SecondsFormat::Millis, true)] of chrono. *)
Variable to_rfc3339_millis : DateTime -> string.

Definition serialize_chp_date (value : DateTime) : Value := VString (to_rfc3339_millis value).

(** [derive(Serialize)] with [serde(flatten)]: the named fields come first and
    the flattened entries of [extra] are inserted after them, so an entry named
    like a field overrides it. *)
Definition serialize_route (d : RouteData) : Value :=
  VObject (extra d ∪
    {["target" := VString (target d); "last_activity" := serialize_chp_date (last_activity d)]}).
End Serialization.

(** * Lemmas *)

Lemma set_last_activity_static t d : static_part (set_last_activity t d) = static_part d.
Proof. done. Qed.

Lemma set_last_activity_id d : set_last_activity (last_activity d) d = d.
Proof. by destruct d. Qed.

Lemma normalize_slash input : starts_with_char slash (as_str (normalize input)) = true.
Proof.
  unfold normalize. destruct input as [|c s]; [done|]. cbn [is_empty orb starts_with_char as_str].
  destruct (Ascii.eqb c slash) eqn:Hc; cbn [negb].
  - destruct ((1 <? String.length (String c s))%nat && ends_with_char slash (String c s)) eqn:He; [|done].
    by destruct s; [done|].
  - destruct ((1 <? String.length (String slash (String c s)))%nat && ends_with_char slash (String slash (String c s))); done.
Qed.

#[export] Instance key_le_trans : Transitive key_le.
Proof. intros a b c; unfold key_le; apply string_le_trans. Qed.

#[export] Instance key_le_total : Total key_le.
Proof. intros a b; unfold key_le; apply string_le_total. Qed.

#[export] Instance key_le_antisym : AntiSymm (=) key_le.
Proof.
  intros [a] [b] H1 H2. f_equal. by apply (string_le_antisym a b).
Qed.

Lemma btree_keys_sorted {A} (m : gmap RouteKey A) : StronglySorted key_le (btree_keys m).
Proof. apply StronglySorted_merge_sort; apply _. Qed.

Lemma elem_of_btree_keys {A} (m : gmap RouteKey A) k : k ∈ btree_keys m <-> k ∈ dom m.
Proof.
  unfold btree_keys. rewrite merge_sort_Permutation, list_elem_of_fmap, elem_of_dom.
  split.
  - intros ([? v] & -> & Hkv). apply elem_of_map_to_list in Hkv. by exists v.
  - intros [v Hv]. exists (k, v). by rewrite elem_of_map_to_list.
Qed.

Lemma btree_keys_NoDup {A} (m : gmap RouteKey A) : NoDup (btree_keys m).
Proof. unfold btree_keys. rewrite merge_sort_Permutation. apply NoDup_fst_map_to_list. Qed.
