(* ===== verification/RouteTable.v ===== *)
(** * The segment-indexed route table (src/route_table.rs, first half)

    [Node] is the trie, [OrderedRoutes] the logical route map with its mutation
    order, [RouteSnapshot] the immutable pair published to readers.  The main
    result is that the trie lookup [resolve] returns exactly the deepest stored
    route on segment boundaries, the most recently mutated one when several keys
    share their segments. *)

From S2P Require Import Prelude RustStr Route.

(** ** Definitions *)

Definition segments (path : string) : list string :=
  let path := trim_matches slash path in
  List.filter (fun _ => negb (is_empty path)) (split slash path).

Record RouteMatch : Type := mkRouteMatch { rm_key : RouteKey; rm_data : RouteData }.

Inductive Node : Type := mkNode {
  children : gmap string Node;
  route : option RouteMatch
}.

Definition Node_default : Node := {| children := ∅; route := None |}.

Record OrderedRoutes : Type := mkOrderedRoutes {
  by_key : gmap RouteKey RouteData;
  mutation_order : list RouteKey
}.

Definition from_sorted (m : gmap RouteKey RouteData) : OrderedRoutes :=
  {| by_key := m; mutation_order := btree_keys m |}.

(** [Vec::retain(|existing| existing != &key)]. *)
Definition retain_ne (key : RouteKey) (l : list RouteKey) : list RouteKey :=
  List.filter (fun existing => negb (bool_decide (existing = key))) l.

Definition replace (key : RouteKey) (data : RouteData) (r : OrderedRoutes) : OrderedRoutes :=
  {| by_key := <[key := data]> (by_key r);
     mutation_order := retain_ne key (mutation_order r) ++ [key] |}.

Definition replace_preserving_activity
    (key : RouteKey) (data : RouteData) (r : OrderedRoutes) : OrderedRoutes :=
  let data :=
    match by_key r !! key with
    | Some existing => set_last_activity (Z.max (last_activity data) (last_activity existing)) data
    | None => data
    end in
  replace key data r.

Definition update_activity (key : RouteKey) (at_ : DateTime) (r : OrderedRoutes) : OrderedRoutes :=
  match by_key r !! key with
  | Some route =>
      {| by_key := <[key := set_last_activity (Z.max (last_activity route) at_) route]> (by_key r);
         mutation_order := mutation_order r |}
  | None => r
  end.

Definition remove (key : RouteKey) (r : OrderedRoutes) : OrderedRoutes :=
  {| by_key := delete key (by_key r); mutation_order := retain_ne key (mutation_order r) |}.

(** The walk [node = node.children.entry(segment).or_default()] down to the
    node of the last segment, where the match is stored. *)
Fixpoint insert_route (segs : list string) (m : RouteMatch) (node : Node) : Node :=
  match segs with
  | [] => {| children := children node; route := Some m |}
  | s :: rest =>
      {| children :=
           <[s := insert_route rest m (default Node_default (children node !! s))]> (children node);
         route := route node |}
  end.

(** One iteration of the loop of [from_ordered_routes]; the [None] branch is the
    [debug_assert!(false)] followed by [continue]. *)
Definition insert_key (routes : OrderedRoutes) (root : Node) (key : RouteKey) : Node :=
  match by_key routes !! key with
  | None => root
  | Some data =>
      insert_route (segments (as_str key)) {| rm_key := key; rm_data := data |} root
  end.

Record RouteSnapshot : Type := mkRouteSnapshot { root : Node; routes : OrderedRoutes }.

Definition from_ordered_routes (r : OrderedRoutes) : RouteSnapshot :=
  {| root := fold_left (insert_key r) (mutation_order r) Node_default; routes := r |}.

Definition from_routes (m : gmap RouteKey RouteData) : RouteSnapshot :=
  from_ordered_routes (from_sorted m).

Fixpoint resolve_loop (node : Node) (matched : option RouteMatch) (segs : list string)
  : option RouteMatch :=
  match segs with
  | [] => matched
  | s :: rest =>
      match children node !! s with
      | None => matched
      | Some child =>
          resolve_loop child (if is_some (route child) then route child else matched) rest
      end
  end.

Definition resolve (snapshot : RouteSnapshot) (request_path : string) : option RouteMatch :=
  resolve_loop (root snapshot) (route (root snapshot)) (segments request_path).

(** ** Invariant and specification *)

(** Every ordered key is in the map and every mapped key is ordered, once. *)
Definition routes_wf (r : OrderedRoutes) : Prop :=
  NoDup (mutation_order r) /\ forall k, k ∈ mutation_order r <-> is_Some (by_key r !! k).

(** What a snapshot published by the registry satisfies: its trie is the one
    built from its routes. *)
Definition snapshot_wf (s : RouteSnapshot) : Prop :=
  routes_wf (routes s) /\ s = from_ordered_routes (routes s).

Definition key_segments (k : RouteKey) : list string := segments (as_str k).

(** [k] comes last in [l] among the keys with its segments. *)
Definition latest_in (l : list RouteKey) (k : RouteKey) : Prop :=
  exists l1 l2, l = l1 ++ k :: l2 /\ forall k', k' ∈ l2 -> key_segments k' <> key_segments k.

(** The contract of a lookup: a stored route whose segments are a prefix of the
    request's, no stored prefix being longer, the latest among equal ones. *)
Definition is_best_match (r : OrderedRoutes) (path : string) (m : RouteMatch) : Prop :=
  by_key r !! rm_key m = Some (rm_data m) /\
  key_segments (rm_key m) `prefix_of` segments path /\
  (forall k, is_Some (by_key r !! k) -> key_segments k `prefix_of` segments path ->
     (length (key_segments k) <= length (key_segments (rm_key m)))%nat) /\
  latest_in (mutation_order r) (rm_key m).

Definition no_match (r : OrderedRoutes) (path : string) : Prop :=
  forall k, is_Some (by_key r !! k) -> ~ key_segments k `prefix_of` segments path.

(** The route stored at an exact segment path of the trie. *)
Fixpoint node_at (segs : list string) (n : Node) : option RouteMatch :=
  match segs with
  | [] => route n
  | s :: rest => match children n !! s with Some c => node_at rest c | None => None end
  end.

(** ** Lemmas: the mutation order *)

Lemma elem_of_retain_ne key l k : k ∈ retain_ne key l <-> k ∈ l /\ k <> key.
Proof.
  unfold retain_ne. rewrite !list_elem_of_In, filter_In, negb_true_iff, bool_decide_eq_false. done.
Qed.

Lemma NoDup_retain_ne key l : NoDup l -> NoDup (retain_ne key l).
Proof. rewrite !NoDup_ListNoDup. apply List.NoDup_filter. Qed.

Lemma retain_ne_not_in key l : key ∉ l -> retain_ne key l = l.
Proof.
  unfold retain_ne. induction l as [|x l IH]; intros Hni; [done|]. simpl.
  rewrite bool_decide_eq_false_2 by set_solver. simpl. rewrite IH by set_solver. done.
Qed.

Lemma from_sorted_wf m : routes_wf (from_sorted m).
Proof.
  split; [apply btree_keys_NoDup|]. intros k. simpl.
  by rewrite elem_of_btree_keys, elem_of_dom.
Qed.

Lemma replace_wf k d r : routes_wf r -> routes_wf (replace k d r).
Proof.
  intros [Hnd Hin]. split; simpl.
  - apply NoDup_app. split_and!; [by apply NoDup_retain_ne| |by apply NoDup_singleton].
    intros x [_ Hne]%elem_of_retain_ne. set_solver.
  - intros x. rewrite elem_of_app, elem_of_retain_ne, list_elem_of_singleton, Hin, lookup_insert_is_Some.
    destruct (decide (x = k)); naive_solver.
Qed.

Lemma replace_preserving_activity_wf k d r :
  routes_wf r -> routes_wf (replace_preserving_activity k d r).
Proof. apply replace_wf. Qed.

Lemma update_activity_wf k at_ r : routes_wf r -> routes_wf (update_activity k at_ r).
Proof.
  intros [Hnd Hin]. unfold update_activity. destruct (by_key r !! k) eqn:Hk; [|done].
  split; simpl; [done|]. intros x. rewrite Hin, lookup_insert_is_Some.
  destruct (decide (k = x)); [|naive_solver]. subst. rewrite Hk. naive_solver.
Qed.

Lemma remove_wf k r : routes_wf r -> routes_wf (remove k r).
Proof.
  intros [Hnd Hin]. split; simpl; [by apply NoDup_retain_ne|].
  intros x. rewrite elem_of_retain_ne, Hin, lookup_delete_is_Some. naive_solver.
Qed.

Lemma from_ordered_routes_wf r : routes_wf r -> snapshot_wf (from_ordered_routes r).
Proof. done. Qed.

#[export] Hint Resolve from_sorted_wf replace_wf replace_preserving_activity_wf
  update_activity_wf remove_wf from_ordered_routes_wf : proxy.

(** ** Lemmas: the trie *)

Lemma node_at_default segs : node_at segs Node_default = None.
Proof. destruct segs; simpl; [done|]. by rewrite lookup_empty. Qed.

Lemma node_at_insert q p m n :
  node_at q (insert_route p m n) = if decide (q = p) then Some m else node_at q n.
Proof.
  revert q n; induction p as [|s p IH]; intros q n.
  - by destruct q.
  - destruct q as [|t q]; [done|]. cbn [node_at insert_route children].
    destruct (decide (s = t)) as [->|Hne].
    + rewrite lookup_insert_eq, IH. destruct (decide (q = p)) as [->|].
      * by rewrite decide_True.
      * rewrite (decide_False (P := t :: q = t :: p)) by congruence.
        destruct (children n !! t); simpl; [done|apply node_at_default].
    + rewrite lookup_insert_ne by done.
      by rewrite (decide_False (P := t :: q = s :: p)) by congruence.
Qed.

(** The owner of an exact path is the last ordered key with those segments. *)
Lemma node_at_fold r l q m :
  (forall k, k ∈ l -> is_Some (by_key r !! k)) ->
  node_at q (fold_left (insert_key r) l Node_default) = Some m <->
  key_segments (rm_key m) = q /\ by_key r !! rm_key m = Some (rm_data m) /\ latest_in l (rm_key m).
Proof.
  revert m. induction l as [|k l IH] using rev_ind; intros m Hl.
  - simpl. rewrite node_at_default. split; [done|].
    intros (_ & _ & l1 & l2 & Heq & _). by destruct l1.
  - destruct (Hl k) as [d Hd]; [set_solver|].
    rewrite fold_left_app. simpl. unfold insert_key at 1. rewrite Hd, node_at_insert.
    fold (key_segments k). destruct (decide (q = key_segments k)) as [->|Hne].
    + split.
      * intros [= <-]. simpl. split_and!; [done|done|]. exists l, []. set_solver.
      * intros (Hs & Hm & l1 & l2 & Heq & Hlast). destruct m as [mk md]; simpl in *.
        destruct l2 as [|x l2' _] using rev_ind.
        -- apply app_inj_tail in Heq as [_ ->]. congruence.
        -- rewrite app_comm_cons, app_assoc in Heq. apply app_inj_tail in Heq as [_ ->].
           exfalso. apply (Hlast x); [set_solver|congruence].
    + rewrite IH by set_solver. split; intros (Hs & Hm & l1 & l2 & Heq & Hlast); split_and!; try done.
      * exists l1, (l2 ++ [k]). subst. split; [by rewrite <- app_assoc|].
        intros k' [?|Hk]%elem_of_app; [by apply Hlast|]. apply list_elem_of_singleton in Hk as ->. done.
      * destruct l2 as [|x l2' _] using rev_ind.
        -- apply app_inj_tail in Heq as [_ ->]. congruence.
        -- rewrite app_comm_cons, app_assoc in Heq. apply app_inj_tail in Heq as [-> ->].
           exists l1, l2'. split; [done|]. set_solver.
Qed.

Definition better_prefix (n : Node) (segs p : list string) (m : RouteMatch) : Prop :=
  p `prefix_of` segs /\ node_at p n = Some m /\
  forall p', p' `prefix_of` segs -> is_Some (node_at p' n) -> (length p' <= length p)%nat.

Lemma resolve_loop_spec n matched segs :
  match resolve_loop n matched segs with
  | Some m =>
      (exists p, p <> [] /\ better_prefix n segs p m) \/
      (matched = Some m /\ forall p, p <> [] -> p `prefix_of` segs -> node_at p n = None)
  | None => matched = None /\ forall p, p <> [] -> p `prefix_of` segs -> node_at p n = None
  end.
Proof.
  revert n matched. induction segs as [|s segs IH]; intros n matched; simpl.
  { destruct matched; [right|]; split; try done; intros p Hp ->%prefix_nil_inv; done. }
  destruct (children n !! s) as [c|] eqn:Hc; cycle 1.
  { assert (Hnone : forall p, p <> [] -> p `prefix_of` s :: segs -> node_at p n = None).
    { intros [|t p] ? Hp; [done|]. apply prefix_cons_inv_1 in Hp as ->. simpl. by rewrite Hc. }
    destruct matched; [right|]; done. }
  assert (Hcons : forall p, node_at (s :: p) n = node_at p c) by (intros; simpl; by rewrite Hc).
  assert (Hpre : forall p, p <> [] -> p `prefix_of` s :: segs ->
                  exists p', p = s :: p' /\ p' `prefix_of` segs).
  { intros [|t p] ? Hp; [done|]. pose proof (prefix_cons_inv_1 _ _ _ _ Hp) as ->.
    apply prefix_cons_inv_2 in Hp. by exists p. }
  assert (Hstep : forall p m, better_prefix c segs p m ->
            exists p', p' <> [] /\ better_prefix n (s :: segs) p' m).
  { intros p m (Hp & Hat & Hmax). exists (s :: p). split; [done|].
    split_and!; [by apply prefix_cons|by rewrite Hcons|].
    intros [|t p'] Hp' Hs; simpl; [lia|].
    destruct (Hpre (t :: p')) as (p'' & Heq & Hp''); [done|done|]. simplify_eq.
    rewrite Hcons in Hs. specialize (Hmax _ Hp'' Hs). lia. }
  specialize (IH c (if is_some (route c) then route c else matched)).
  destruct (resolve_loop _ _ _) as [m|].
  - destruct IH as [(p & _ & Hbest)|[Hm Hnone]]; [left; eauto|].
    destruct (route c) as [rc|] eqn:Hrc; simpl in Hm.
    + simplify_eq. left. apply (Hstep []). split_and!; [apply prefix_nil|done|].
      intros [|t p'] Hp' [x Hx]; [done|]. by rewrite Hnone in Hx.
    + right. split; [done|]. intros p Hne Hp. destruct (Hpre p Hne Hp) as ([|t p'] & -> & Hp').
      * by rewrite Hcons.
      * rewrite Hcons. by apply Hnone.
  - destruct IH as [Hm Hnone]. destruct (route c) as [rc|] eqn:Hrc; simpl in Hm; [done|].
    split; [done|]. intros p Hne Hp. destruct (Hpre p Hne Hp) as ([|t p'] & -> & Hp').
    * by rewrite Hcons.
    * rewrite Hcons. by apply Hnone.
Qed.

Lemma resolve_root_spec n segs :
  match resolve_loop n (route n) segs with
  | Some m => exists p, better_prefix n segs p m
  | None => forall p, p `prefix_of` segs -> node_at p n = None
  end.
Proof.
  pose proof (resolve_loop_spec n (route n) segs) as H. destruct (resolve_loop _ _ _) as [m|].
  - destruct H as [(p & _ & Hp)|[Hm Hnone]]; [eauto|].
    exists []. split_and!; [apply prefix_nil|done|].
    intros [|t p] Hp [x Hx]; simpl; [lia|]. by rewrite Hnone in Hx.
  - destruct H as [Hm Hnone]. intros [|t p] Hp; [done|]. by apply Hnone.
Qed.

(** Each stored route is found at its own segments, or a later key with the same
    segments is. *)
Lemma stored_key_has_node r k :
  routes_wf r -> is_Some (by_key r !! k) ->
  is_Some (node_at (key_segments k) (root (from_ordered_routes r))).
Proof.
  intros [Hnd Hin] Hk. apply Hin in Hk. cbn [root from_ordered_routes].
  assert (Hall : forall x, x ∈ mutation_order r -> is_Some (by_key r !! x)) by (intros; by apply Hin).
  revert Hk Hall. generalize (mutation_order r) as l. clear Hnd Hin. intros l.
  induction l as [|x l IH] using rev_ind; intros Hk Hall; [set_solver|].
  destruct (Hall x) as [d Hd]; [set_solver|].
  rewrite fold_left_app. simpl. unfold insert_key at 1. rewrite Hd, node_at_insert.
  case_decide; [done|]. apply IH; [|set_solver].
  apply elem_of_app in Hk as [?|Hk]; [done|]. apply list_elem_of_singleton in Hk as ->. done.
Qed.

Lemma segments_eq path :
  segments path =
  if is_empty (trim_matches slash path) then [] else split slash (trim_matches slash path).
Proof.
  unfold segments. destruct (is_empty (trim_matches slash path)); simpl.
  - by induction (split slash (trim_matches slash path)).
  - by induction (split slash (trim_matches slash path)) as [|x l IH]; simpl; rewrite ?IH.
Qed.

Lemma segments_trim a b : trim_matches slash a = trim_matches slash b -> segments a = segments b.
Proof. intros H. by rewrite !segments_eq, H. Qed.

Lemma latest_in_unique l k1 k2 :
  latest_in l k1 -> latest_in l k2 -> key_segments k1 = key_segments k2 -> k1 = k2.
Proof.
  intros (a1 & b1 & -> & H1) (a2 & b2 & Heq & H2) Hs.
  destruct (app_eq_inv _ _ _ _ Heq) as [([|x c] & Ha & Hb)|([|x c] & Ha & Hb)]; simpl in Hb.
  - congruence.
  - injection Hb as <- Hb. exfalso. apply (H2 k1); [rewrite Hb; set_solver|done].
  - congruence.
  - injection Hb as <- Hb. exfalso. apply (H1 k2); [rewrite Hb; set_solver|done].
Qed.

Lemma prefix_same_length {A} (p q l : list A) :
  p `prefix_of` l -> q `prefix_of` l -> length p = length q -> p = q.
Proof.
  intros [a ->] [b Heq] Hlen. by apply app_inj_1 in Heq as [-> _].
Qed.

Lemma is_best_match_unique r path m1 m2 :
  is_best_match r path m1 -> is_best_match r path m2 -> m1 = m2.
Proof.
  intros (Hl1 & Hp1 & Hm1 & Ho1) (Hl2 & Hp2 & Hm2 & Ho2).
  assert (Hlen : key_segments (rm_key m1) = key_segments (rm_key m2)).
  { apply (prefix_same_length _ _ (segments path)); [done|done|].
    assert (is_Some (by_key r !! rm_key m1)) by eauto.
    assert (is_Some (by_key r !! rm_key m2)) by eauto.
    apply Nat.le_antisymm; [by apply Hm2|by apply Hm1]. }
  assert (rm_key m1 = rm_key m2) by (by eapply latest_in_unique).
  destruct m1, m2; simpl in *. congruence.
Qed.

Lemma resolve_best r path :
  routes_wf r ->
  match resolve (from_ordered_routes r) path with
  | Some m => is_best_match r path m
  | None => no_match r path
  end.
Proof.
  intros Hwf. unfold resolve. set (n := root (from_ordered_routes r)).
  assert (Hat : forall q m, node_at q n = Some m <-> key_segments (rm_key m) = q /\
            by_key r !! rm_key m = Some (rm_data m) /\ latest_in (mutation_order r) (rm_key m)).
  { intros. apply node_at_fold. intros. by apply (proj2 Hwf). }
  pose proof (resolve_root_spec n (segments path)) as Hs. destruct (resolve_loop _ _ _) as [m|].
  - destruct Hs as (p & Hp & Hm & Hmax). apply Hat in Hm as (<- & Hlk & Hlast).
    split_and!; try done. intros k Hk Hpre. apply Hmax; [done|]. by apply stored_key_has_node.
  - intros k Hk Hpre. destruct (stored_key_has_node r k Hwf Hk) as [m Hm].
    fold n in Hm. by rewrite Hs in Hm.
Qed.

(** A lookup is determined by its contract. *)
Lemma resolve_intro r path m :
  routes_wf r -> is_best_match r path m -> resolve (from_ordered_routes r) path = Some m.
Proof.
  intros Hwf Hm. pose proof (resolve_best r path Hwf) as Hr.
  destruct (resolve _ _) as [m'|].
  - f_equal. by eapply is_best_match_unique.
  - destruct Hm as (Hl & Hp & _). exfalso. eapply Hr; eauto.
Qed.

(** *** Paths a mutated key does not match *)

Lemma retain_ne_app key l1 l2 : retain_ne key (l1 ++ l2) = retain_ne key l1 ++ retain_ne key l2.
Proof. apply List.filter_app. Qed.

Lemma latest_in_retain key l k : k <> key -> latest_in l k -> latest_in (retain_ne key l) k.
Proof.
  intros Hne (l1 & l2 & -> & Hl). exists (retain_ne key l1), (retain_ne key l2). split.
  - rewrite retain_ne_app. unfold retain_ne at 2. simpl. by rewrite bool_decide_eq_false_2.
  - intros k' [Hk _]%elem_of_retain_ne. by apply Hl.
Qed.

Lemma latest_in_snoc key l k : key_segments key <> key_segments k -> latest_in l k -> latest_in (l ++ [key]) k.
Proof.
  intros Hne (l1 & l2 & -> & Hl). exists l1, (l2 ++ [key]). split; [by rewrite <- app_assoc|].
  intros k' [Hk| ->%list_elem_of_singleton]%elem_of_app; auto.
Qed.

(** A lookup depends on the records and the order of the keys it can match. *)
Lemma resolve_other r r' key path :
  routes_wf r -> routes_wf r' -> ~ key_segments key `prefix_of` segments path ->
  (forall k, k <> key -> by_key r' !! k = by_key r !! k) ->
  (forall k, k <> key -> key_segments k <> key_segments key ->
     latest_in (mutation_order r) k -> latest_in (mutation_order r') k) ->
  resolve (from_ordered_routes r') path = resolve (from_ordered_routes r) path.
Proof.
  intros Hwf Hwf' Hnot Hsame Hlate. pose proof (resolve_best r path Hwf) as Hr.
  assert (Hne : forall k, key_segments k `prefix_of` segments path -> k <> key) by (by intros k Hk ->).
  destruct (resolve (from_ordered_routes r) path) as [m|].
  - destruct Hr as (Hl & Hp & Hmax & Hlast). apply resolve_intro; [done|]. split_and!; [|done| |].
    + rewrite Hsame; auto.
    + intros k Hk Hpre. apply Hmax; [|done]. rewrite <- Hsame; auto.
    + apply Hlate; [auto| |done]. intros Heq. rewrite Heq in Hp. done.
  - pose proof (resolve_best r' path Hwf') as Hr'. destruct (resolve (from_ordered_routes r') path) as [m|]; [|done].
    destruct Hr' as (Hl & Hp & _). exfalso. apply (Hr (rm_key m)); [|done]. rewrite <- Hsame by auto. eauto.
Qed.

Lemma resolve_replace_other r key data path :
  routes_wf r -> ~ key_segments key `prefix_of` segments path ->
  resolve (from_ordered_routes (replace key data r)) path = resolve (from_ordered_routes r) path.
Proof.
  intros Hwf Hnot. apply (resolve_other _ _ key); [done|by apply replace_wf|done| |].
  - intros k Hk. simpl. by rewrite lookup_insert_ne.
  - intros k Hk Hseg Hl. apply latest_in_snoc; [done|]. by apply latest_in_retain.
Qed.

Lemma resolve_remove_other r key path :
  routes_wf r -> ~ key_segments key `prefix_of` segments path ->
  resolve (from_ordered_routes (remove key r)) path = resolve (from_ordered_routes r) path.
Proof.
  intros Hwf Hnot. apply (resolve_other _ _ key); [done|by apply remove_wf|done| |].
  - intros k Hk. simpl. by rewrite lookup_delete_ne.
  - intros k Hk _. by apply latest_in_retain.
Qed.

(** The key just replaced wins the paths it matches at the greatest depth. *)
Definition covers (r : OrderedRoutes) (key : RouteKey) (path : string) : Prop :=
  key_segments key `prefix_of` segments path /\
  forall k, is_Some (by_key r !! k) -> key_segments k `prefix_of` segments path ->
    (length (key_segments k) <= length (key_segments key))%nat.

Lemma resolve_covered r key data path :
  routes_wf r -> covers r key path ->
  resolve (from_ordered_routes (replace key data r)) path = Some (mkRouteMatch key data).
Proof.
  intros Hwf [Hp Hmax]. apply resolve_intro; [by apply replace_wf|]. split_and!; simpl.
  - apply lookup_insert_eq.
  - done.
  - intros k Hk Hpre. destruct (decide (k = key)) as [->|Hne]; [done|]. rewrite lookup_insert_ne in Hk by done. auto.
  - exists (retain_ne key (mutation_order r)), []. set_solver.
Qed.

Lemma resolve_replaced r key data :
  routes_wf r ->
  resolve (from_ordered_routes (replace key data r)) (as_str key) = Some (mkRouteMatch key data).
Proof. intros Hwf. apply resolve_covered; [done|]. split; [done|]. intros k _ Hpre. by apply prefix_length in Hpre. Qed.

(** Removing a key that was just added restores the routes. *)
Lemma remove_replace r key data : routes_wf r -> by_key r !! key = None -> remove key (replace key data r) = r.
Proof.
  intros [_ Hin] Hk. assert (Hni : key ∉ mutation_order r) by (rewrite Hin, Hk; by intros [? [=]]).
  unfold remove, replace. simpl. rewrite retain_ne_app, !(retain_ne_not_in key (mutation_order r)) by done.
  unfold retain_ne. simpl. rewrite bool_decide_eq_true_2 by done. simpl. rewrite app_nil_r.
  rewrite delete_insert_id by done. by destruct r.
Qed.

Lemma update_activity_by_key k at_ r x :
  by_key (update_activity k at_ r) !! x =
  if decide (x = k)
  then (fun d => set_last_activity (Z.max (last_activity d) at_) d) <$> by_key r !! k
  else by_key r !! x.
Proof.
  unfold update_activity. destruct (by_key r !! k) as [d|] eqn:Hk; simpl.
  - case_decide; simplify_map_eq; done.
  - case_decide; simplify_map_eq; done.
Qed.

Lemma update_activity_order k at_ r : mutation_order (update_activity k at_ r) = mutation_order r.
Proof. unfold update_activity. by case_match. Qed.

Lemma update_activity_is_Some k at_ r x :
  is_Some (by_key (update_activity k at_ r) !! x) <-> is_Some (by_key r !! x).
Proof.
  rewrite update_activity_by_key. case_decide; subst; [|done]. by rewrite fmap_is_Some.
Qed.

(** ** Theorems *)

Definition sample_routes : OrderedRoutes :=
  from_sorted {[ normalize "/" := mkRouteData "http://hub:8081" 0 ∅;
                 normalize "/user/alice" := mkRouteData "http://a:1" 5 ∅;
                 normalize "/user/alice//" := mkRouteData "http://b:2" 7 ∅ ]}.

(** C5: the trie lookup of a snapshot built from a well-formed route map returns
    a route exactly when some stored key's segments are a prefix of the request's
    segments; the returned record is the stored one, its key is the deepest such
    key, and it is the most recently mutated among keys with the same segments. *)
Theorem resolve_deepest_route r path :
  routes_wf r ->
  match resolve (from_ordered_routes r) path with
  | Some m => is_best_match r path m
  | None => no_match r path
  end.
Proof. apply resolve_best. Qed.

Lemma resolve_deepest_route_witness :
  resolve (from_ordered_routes sample_routes) "/user/alice/tree" =
    Some (mkRouteMatch (mkRouteKey "/user/alice/") (mkRouteData "http://b:2" 7 ∅)) /\
  match resolve (from_ordered_routes sample_routes) "/user/alice/tree" with
  | Some m => is_best_match sample_routes "/user/alice/tree" m
  | None => no_match sample_routes "/user/alice/tree"
  end.
Proof.
  split; [vm_compute; reflexivity|].
  apply (resolve_deepest_route sample_routes). apply from_sorted_wf.
Defined.

(** Cleaning a route key never changes which requests it matches: the
    segments of a normalized key are those of the raw input. *)
Theorem normalize_preserves_segments input :
  key_segments (normalize input) = segments input.
Proof.
  apply segments_trim. unfold normalize. cbn [as_str].
  set (s := if is_empty input || _ then _ else input).
  assert (Hs : trim_matches slash s = trim_matches slash input).
  { unfold s. case_match; [|done]. apply trim_matches_cons. }
  rewrite <- Hs. case_match eqn:Hpop; [|done]. apply andb_true_iff in Hpop as [_ Hend].
  rewrite (ends_with_char_split _ _ Hend) at 2. by rewrite trim_matches_app.
Qed.

(** The map/order invariant holds of every loaded map and is preserved by
    every operation on [OrderedRoutes], so the [debug_assert!(false)] branch of
    the trie construction is never reached. *)
Theorem ordered_routes_invariant :
  (forall m, routes_wf (from_sorted m)) /\
  (forall r key data at_, routes_wf r ->
     routes_wf (replace key data r) /\ routes_wf (replace_preserving_activity key data r) /\
     routes_wf (update_activity key at_ r) /\ routes_wf (remove key r)) /\
  (forall r key, routes_wf r -> key ∈ mutation_order r -> by_key r !! key <> None).
Proof.
  split_and!; eauto with proxy.
  - intros. split_and!; eauto with proxy.
  - intros r key [_ Hin] Hk%Hin. by apply not_eq_None_Some.
Qed.

(** After a route is added or replaced, a request for exactly its key is
    answered by it, with the stored data, whatever else is in the table. *)
Theorem replaced_route_answers_its_path r key data :
  routes_wf r ->
  resolve (from_ordered_routes (replace key data r)) (as_str key) = Some (mkRouteMatch key data).
Proof. apply resolve_replaced. Qed.

Lemma replaced_route_answers_its_path_witness :
  resolve (from_ordered_routes
             (replace (normalize "/user/alice") (mkRouteData "http://c:3" 9 ∅) sample_routes))
          "/user/alice"
  = Some (mkRouteMatch (normalize "/user/alice") (mkRouteData "http://c:3" 9 ∅)).
Proof.
  apply (replaced_route_answers_its_path sample_routes (normalize "/user/alice")).
  apply from_sorted_wf.
Defined.

(** Recording activity never changes routing: every request resolves to the
    same key before and after, and only the stamp of [key] can differ. *)
Theorem activity_update_keeps_routing r key at_ path :
  routes_wf r ->
  let before := resolve (from_ordered_routes r) path in
  let after := resolve (from_ordered_routes (update_activity key at_ r)) path in
  rm_key <$> after = rm_key <$> before /\
  (static_part ∘ rm_data) <$> after = (static_part ∘ rm_data) <$> before.
Proof.
  intros Hwf before after. unfold after, before.
  pose proof (resolve_best r path Hwf) as Hr. destruct (resolve (from_ordered_routes r) path) as [m|].
  - destruct Hr as (Hlk & Hpre & Hmax & Hlast).
    assert (Hnew : exists d, by_key (update_activity key at_ r) !! rm_key m = Some d /\
                             static_part d = static_part (rm_data m)).
    { rewrite update_activity_by_key. case_decide; subst; rewrite Hlk; eauto. }
    destruct Hnew as (d & Hd & Hstat).
    rewrite (resolve_intro _ path (mkRouteMatch (rm_key m) d)).
    + simpl. split; f_equal; done.
    + by apply update_activity_wf.
    + split_and!; simpl; [done|done| |by rewrite update_activity_order].
      intros k Hk%update_activity_is_Some. by apply Hmax.
  - pose proof (resolve_best _ path (update_activity_wf key at_ r Hwf)) as Hr'.
    destruct (resolve _ _) as [m'|]; [|done]. exfalso. destruct Hr' as (Hl & Hp & _).
    eapply Hr; [|exact Hp]. eapply update_activity_is_Some. eauto.
Qed.

Lemma activity_update_keeps_routing_witness :
  let before := resolve (from_ordered_routes sample_routes) "/user/alice/x" in
  let after := resolve (from_ordered_routes
                 (update_activity (normalize "/user/alice//") 11 sample_routes)) "/user/alice/x" in
  rm_key <$> after = rm_key <$> before /\
  (static_part ∘ rm_data) <$> after = (static_part ∘ rm_data) <$> before.
Proof. apply (activity_update_keeps_routing sample_routes). apply from_sorted_wf. Defined.
