(* ===== verification/Store.v ===== *)
(** * The route store interface and its in-memory backend
      (src/store/mod.rs, src/store/memory.rs)

    [Store] is the trait as a class of state-passing operations, [StoreContract]
    the promises its documentation makes to the registry, stated against the
    abstract step relation [store_step]; [MemoryStore] is the default backend
    and an instance of both. *)

From S2P Require Import Prelude RustStr Route.

(** ** Errors *)

Inductive StoreError : Type :=
| Message (text : string)
| Backend (operation : string)
| Indeterminate (operation : string)
| CorruptData (operation key : string).

Definition message (text : string) : StoreError := Message text.

Definition is_indeterminate_error (e : StoreError) : bool :=
  match e with Indeterminate _ => true | _ => false end.

(** ** Clock of the debug-only differential harness *)

(** [debug_assertions] is the build flag, [env_value] the variable
    [PINGORA_CHP_DIFFERENTIAL_FIXED_NOW], [parse_from_rfc3339] chrono's parser. *)
Definition differential_fixed_now (parse_from_rfc3339 : string -> option DateTime)
    (debug_assertions : bool) (env_value : option string) : option DateTime :=
  if debug_assertions then
    match env_value with
    | Some value => match parse_from_rfc3339 value with Some v => Some v | None => None end
    | None => None
    end
  else None.

(** ** Activity floors *)

(** A closure that reads the newest activity from the world [W] it captured. *)
Record ActivityFloor (W : Type) : Type := mkActivityFloor { floor_fn : W -> option DateTime }.
Arguments mkActivityFloor {W} _.
Arguments floor_fn {W} _ _.

Definition fixed {W} (at_ : option DateTime) : ActivityFloor W := mkActivityFloor (fun _ => at_).
Definition dynamic {W} (current : W -> option DateTime) : ActivityFloor W := mkActivityFloor current.
Definition current {W} (f : ActivityFloor W) (w : W) : option DateTime := floor_fn f w.

(** [activity_floor.current().map_or(t, |floor| t.max(floor))]. *)
Definition raise_to_floor (floor : option DateTime) (t : DateTime) : DateTime :=
  match floor with Some f => Z.max t f | None => t end.

(** ** The trait *)

(** [W] is the world the floor closures read at the commit point, [Env] what the
    backend reads from its surroundings (its clock). *)
Class Store (Env W St : Type) : Type := {
  snapshot : St -> result (gmap RouteKey RouteData) StoreError;
  add : Env -> RouteKey -> string -> gmap string Value -> ActivityFloor W -> W -> St ->
        result RouteData StoreError * St;
  put : RouteKey -> RouteData -> St -> result unit StoreError * St;
  put_preserving_activity : RouteKey -> RouteData -> ActivityFloor W -> W -> St ->
        result RouteData StoreError * St;
  store_update_activity : RouteKey -> DateTime -> St -> result unit StoreError * St;
  delete_route : RouteKey -> St -> result (option RouteData) StoreError * St
}.

(** ** The documented contract *)

(** The mutations a registry asks of its backend. *)
Inductive StoreCall : Type :=
| CallAdd (key : RouteKey) (target : string) (extra : gmap string Value)
| CallPut (key : RouteKey) (data : RouteData)
| CallPutPreserving (key : RouteKey) (data : RouteData)
| CallUpdateActivity (key : RouteKey) (at_ : DateTime)
| CallDelete (key : RouteKey).

Inductive StoreReply : Type :=
| ReplyUnit
| ReplyRecord (data : RouteData)
| ReplyDeleted (prior : option RouteData).

Definition above_floor (floor : option DateTime) (t : DateTime) : Prop :=
  match floor with Some f => f <= t | None => True end.

(** One atomic commit of a call: the new contents and the reply it must give.
    Additions commit target, metadata and a final stamp not below the sampled
    floor as one record, and reply with that exact record. *)
Inductive commits (floor : option DateTime) (m : gmap RouteKey RouteData) :
    StoreCall -> StoreReply -> gmap RouteKey RouteData -> Prop :=
| commit_add key t e d :
    target d = t -> extra d = e -> above_floor floor (last_activity d) ->
    commits floor m (CallAdd key t e) (ReplyRecord d) (<[key := d]> m)
| commit_put key d :
    commits floor m (CallPut key d) ReplyUnit (<[key := d]> m)
| commit_put_preserving key data d :
    static_part d = static_part data -> above_floor floor (last_activity d) ->
    commits floor m (CallPutPreserving key data) (ReplyRecord d) (<[key := d]> m)
| commit_update_activity key at_ :
    commits floor m (CallUpdateActivity key at_) ReplyUnit (alter (set_last_activity at_) key m)
| commit_delete key :
    commits floor m (CallDelete key) (ReplyDeleted (m !! key)) (delete key m).

(** What a call can do to the persisted contents: an ordinary error leaves them
    unchanged, an indeterminate one may or may not have committed. *)
Inductive store_step (floor : option DateTime) (m : gmap RouteKey RouteData) (c : StoreCall) :
    result StoreReply StoreError -> gmap RouteKey RouteData -> Prop :=
| store_committed r m' : commits floor m c r m' -> store_step floor m c (Ok r) m'
| store_rejected e : is_indeterminate_error e = false -> store_step floor m c (Err e) m
| store_lost_before op : store_step floor m c (Err (Indeterminate op)) m
| store_lost_after op r m' : commits floor m c r m' -> store_step floor m c (Err (Indeterminate op)) m'.

(** What the registry hands to a backend: keys are rooted (every [RouteKey] is
    normalized), and metadata never carries a reserved field (the API takes them
    out; a loaded record has none). *)
Definition rooted (key : RouteKey) : Prop := starts_with_char slash (as_str key) = true.

Definition reserved_free (e : gmap string Value) : Prop := e !! "target" = None /\ e !! "last_activity" = None.

Lemma reserved_free_empty : reserved_free ∅.
Proof. by split; apply lookup_empty. Qed.

Definition clean_call (c : StoreCall) : Prop :=
  match c with
  | CallAdd key _ e => rooted key /\ reserved_free e
  | CallPut key d | CallPutPreserving key d => rooted key /\ reserved_free (extra d)
  | CallUpdateActivity key _ | CallDelete key => rooted key
  end.

Class StoreContract (Env W St : Type) `{Store Env W St} : Type := {
  contents : St -> gmap RouteKey RouteData;
  snapshot_contract s : match snapshot s with Ok m => m = contents s | Err _ => True end;
  add_contract env key t e f w s :
    clean_call (CallAdd key t e) ->
    store_step (current f w) (contents s) (CallAdd key t e)
      (result_map ReplyRecord (add env key t e f w s).1) (contents (add env key t e f w s).2);
  put_contract key d s :
    clean_call (CallPut key d) ->
    store_step None (contents s) (CallPut key d)
      (result_map (fun _ => ReplyUnit) (put key d s).1) (contents (put key d s).2);
  put_preserving_contract key d f w s :
    clean_call (CallPutPreserving key d) ->
    store_step (current f w) (contents s) (CallPutPreserving key d)
      (result_map ReplyRecord (put_preserving_activity key d f w s).1)
      (contents (put_preserving_activity key d f w s).2);
  update_activity_contract key at_ s :
    clean_call (CallUpdateActivity key at_) ->
    store_step None (contents s) (CallUpdateActivity key at_)
      (result_map (fun _ => ReplyUnit) (store_update_activity key at_ s).1)
      (contents (store_update_activity key at_ s).2);
  delete_contract key s :
    clean_call (CallDelete key) ->
    store_step None (contents s) (CallDelete key)
      (result_map ReplyDeleted (delete_route key s).1) (contents (delete_route key s).2)
}.

(** ** The in-memory backend *)

Module MemoryStore.

Record t : Type := mk { routes : gmap RouteKey RouteData }.

Definition new : t := {| routes := ∅ |}.

(** The clock as [add] reads it: the frozen harness clock, else [Utc::now]. *)
Record Clock : Type := mkClock { fixed_now : option DateTime; utc_now : DateTime }.

Definition now (env : Clock) : DateTime := default (utc_now env) (fixed_now env).

Definition snapshot_op (s : t) : result (gmap RouteKey RouteData) StoreError := Ok (routes s).

Definition add_op {W} (env : Clock) (key : RouteKey) (target : string) (extra : gmap string Value)
    (floor : ActivityFloor W) (w : W) (s : t) : result RouteData StoreError * t :=
  let data := {| target := target;
                 last_activity := raise_to_floor (current floor w) (now env);
                 extra := extra |} in
  (Ok data, {| routes := <[key := data]> (routes s) |}).

Definition put_op (key : RouteKey) (data : RouteData) (s : t) : result unit StoreError * t :=
  (Ok tt, {| routes := <[key := data]> (routes s) |}).

Definition put_preserving_activity_op {W} (key : RouteKey) (data : RouteData)
    (floor : ActivityFloor W) (w : W) (s : t) : result RouteData StoreError * t :=
  let data :=
    match current floor w with
    | Some f => set_last_activity (Z.max (last_activity data) f) data
    | None => data
    end in
  (Ok data, {| routes := <[key := data]> (routes s) |}).

Definition update_activity_op (key : RouteKey) (at_ : DateTime) (s : t) : result unit StoreError * t :=
  (Ok tt, {| routes := alter (set_last_activity at_) key (routes s) |}).

Definition delete_op (key : RouteKey) (s : t) : result (option RouteData) StoreError * t :=
  (Ok (routes s !! key), {| routes := delete key (routes s) |}).

#[global] Instance store {W} : Store Clock W t := {
  snapshot := snapshot_op;
  add := add_op;
  put := put_op;
  put_preserving_activity := put_preserving_activity_op;
  store_update_activity := update_activity_op;
  delete_route := delete_op
}.

#[global] Instance contract {W} : StoreContract Clock W t.
Proof.
  refine (Build_StoreContract Clock W t store routes _ _ _ _ _ _).
  - done.
  - intros. apply store_committed. constructor; [done|done|]. simpl.
    unfold above_floor, raise_to_floor. destruct (current f w); lia.
  - intros. apply store_committed. constructor.
  - intros. apply store_committed. simpl. unfold put_preserving_activity_op. constructor.
    + by destruct (current f w).
    + destruct (current f w); simpl; lia.
  - intros. apply store_committed. constructor.
  - intros. apply store_committed. constructor.
Defined.

End MemoryStore.

(** ** Lemmas *)

Lemma commits_deterministic_dom floor m c r m' key :
  commits floor m c r m' ->
  match c with
  | CallAdd k _ _ | CallPut k _ | CallPutPreserving k _ =>
      key <> k -> m' !! key = m !! key
  | CallUpdateActivity k _ => static_part <$> m' !! key = static_part <$> m !! key
  | CallDelete k => key <> k -> m' !! key = m !! key
  end.
Proof.
  destruct 1; intros; rewrite ?lookup_insert_ne, ?lookup_delete_ne by done; try done.
  rewrite lookup_alter. case_decide; subst; [|done].
  by destruct (m !! _).
Qed.

(** ** Theorems *)

(** The in-memory backend keeps every promise the [Store] trait documents:
    it never fails, each mutation is one atomic commit of the contract's step
    relation, and the stamp an addition returns is the clock raised to the floor
    sampled inside the commit. *)
Theorem memory_store_refines_contract {W} (env : MemoryStore.Clock) key t e d at_
    (f : ActivityFloor W) w s :
  (exists m', commits (current f w) (MemoryStore.routes s) (CallAdd key t e)
     (ReplyRecord (mkRouteData t (raise_to_floor (current f w) (MemoryStore.now env)) e)) m' /\
     MemoryStore.add_op env key t e f w s
       = (Ok (mkRouteData t (raise_to_floor (current f w) (MemoryStore.now env)) e),
          MemoryStore.mk m')) /\
  (exists d' m', commits (current f w) (MemoryStore.routes s) (CallPutPreserving key d)
     (ReplyRecord d') m' /\ last_activity d <= last_activity d' /\
     MemoryStore.put_preserving_activity_op key d f w s = (Ok d', MemoryStore.mk m')) /\
  (exists m', commits None (MemoryStore.routes s) (CallPut key d) ReplyUnit m' /\
     MemoryStore.put_op key d s = (Ok tt, MemoryStore.mk m')) /\
  (exists m', commits None (MemoryStore.routes s) (CallUpdateActivity key at_) ReplyUnit m' /\
     MemoryStore.update_activity_op key at_ s = (Ok tt, MemoryStore.mk m')) /\
  (exists p m', commits None (MemoryStore.routes s) (CallDelete key) (ReplyDeleted p) m' /\
     MemoryStore.delete_op key s = (Ok p, MemoryStore.mk m')).
Proof.
  split_and!.
  - eexists. split; [|done]. constructor; [done|done|].
    unfold above_floor, raise_to_floor; simpl. destruct (current f w); lia.
  - unfold MemoryStore.put_preserving_activity_op. eexists _, _. split_and!; [| |done].
    + constructor; destruct (current f w); simpl; done || lia.
    + destruct (current f w); simpl; lia.
  - eexists. split; [constructor|done].
  - eexists. split; [constructor|done].
  - eexists _, _. split; [constructor|done].
Qed.
