(* ===== verification/Redis.v ===== *)
(** * The Redis backend (src/store/redis.rs)

    One Redis hash maps each key to the JSON text of its record.  Every command
    is one step against the server; before it another client may have replaced
    the hash, and it may fail before or after it took effect.  A loop under a
    deadline recurses over its rounds: when they are used up, the deadline has
    passed.  JSON and dates are parameters.  The refinement theorem shows that
    each operation keeps the contract of Store.v. *)

From S2P Require Import Prelude RustStr Route Store.

(** ** JSON and dates of the crates [serde_json] and [chrono] *)

Class RecordLib : Type := {
  json_to_string : Value -> option string;
  (** The entries of a JSON object in textual order; [None] for anything else. *)
  json_object_entries : string -> option (list (string * Value));
  to_rfc3339_millis : DateTime -> string;
  to_rfc3339_nanos : DateTime -> string;
  date_from_str : string -> option DateTime
}.

(** The scope of the first law: the objects the code serialises were read by
    [serde_json] from a request or from the store, so they nest no deeper than its
    parser allows and their numbers are printed as the text it reads back.  A
    floating-point literal that the parser would round to another text is outside
    the model, where a number is its literal. *)
Class RecordLaws `{RecordLib} : Prop := {
  json_round_trip m s : json_to_string (VObject m) = Some s ->
    exists l, json_object_entries s = Some l /\ NoDup l.*1 /\ list_to_map l = m;
  date_round_trip t : date_from_str (to_rfc3339_nanos t) = Some t
}.

Section Codec.
Context `{RecordLib}.

Definition field_is (name : string) (kv : string * Value) : bool := String.eqb kv.1 name.

(** [derive(Deserialize)] of a named field: exactly one entry. *)
Definition only_field (name : string) (l : list (string * Value)) : option Value :=
  match List.filter (field_is name) l with [(_, v)] => Some v | _ => None end.

(** The flattened rest; a repeated key keeps its last value. *)
Definition rest_fields (l : list (string * Value)) : gmap string Value :=
  list_to_map (reverse (List.filter (fun kv => negb (field_is "target" kv || field_is "last_activity" kv)) l)).

Definition deserialize_route (l : list (string * Value)) : option RouteData :=
  match only_field "target" l, only_field "last_activity" l with
  | Some (VString target), Some (VString date) =>
      at_ ← date_from_str date; Some (mkRouteData target at_ (rest_fields l))
  | _, _ => None
  end.

(** [encode]: the record's JSON with its stamp rewritten to nanoseconds. *)
Definition encode (operation : string) (data : RouteData) : result string StoreError :=
  let corrupt := CorruptData operation "<outgoing>" in
  match serialize_route to_rfc3339_millis data with
  | VObject object =>
      ok_or (json_to_string (VObject
        (<["last_activity" := VString (to_rfc3339_nanos (last_activity data))]> object))) corrupt
  | _ => Err corrupt
  end.

Definition decode (operation key encoded : string) : result RouteData StoreError :=
  ok_or (l ← json_object_entries encoded; deserialize_route l) (CorruptData operation key).

Definition decode_key (field : string) : result RouteKey StoreError :=
  if negb (starts_with_char slash field) then Err (CorruptData "snapshot" field)
  else
    let parse_input :=
      if (1 <? String.length field)%nat && ends_with_char slash field
      then field +:+ str1 slash else field in
    Ok (normalize parse_input).

End Codec.

(** ** The server and its commands *)

Abbreviation Hash := (gmap string string) (only parsing).

Inductive Fate : Type := Served | NotSent | ReplyLost.

(** One command: what another client stored just before it, and how it fares. *)
Record Turn : Type := mkTurn { foreign : option Hash; fate : Fate }.

(** [effects] is ghost: the writes of this store, as before and after. *)
Record Wire : Type := mkWire {
  hash : Hash;
  watched : option bool;        (** [Some dirty] after [WATCH] *)
  connected : bool;             (** the cached connection *)
  effects : list (Hash * Hash)
}.

Definition interfere (t : Turn) (w : Wire) : Wire :=
  match foreign t with
  | None => w
  | Some h => mkWire h (match watched w with Some _ => Some true | None => None end) (connected w) (effects w)
  end.

Definition store_hash (h : Hash) (w : Wire) : Wire :=
  mkWire h None (connected w) ((hash w, h) :: effects w).

(** A command that changes nothing: [None] is an error. *)
Definition query {A} (t : Turn) (answer : Wire -> A) (w : Wire) : option A * Wire :=
  let w := interfere t w in
  match fate t with Served => (Some (answer w), w) | NotSent | ReplyLost => (None, w) end.

Definition WATCH (t : Turn) (w : Wire) : option unit * Wire :=
  let w := interfere t w in
  match fate t with
  | Served => (Some tt, mkWire (hash w) (Some false) (connected w) (effects w))
  | NotSent | ReplyLost => (None, w)
  end.

(** A write: [Some] answers carry what the server replied. *)
Definition write {A} (t : Turn) (run : Wire -> A * Wire) (w : Wire) : option A * Wire :=
  let w := interfere t w in
  match fate t with
  | Served => let (a, w) := run w in (Some a, w)
  | NotSent => (None, w)
  | ReplyLost => let (_, w) := run w in (None, w)
  end.

(** [MULTI; HSET; EXEC]: [false] when the watched key was touched. *)
Definition exec_hset (field value : string) (w : Wire) : bool * Wire :=
  match watched w with
  | Some true => (false, mkWire (hash w) None (connected w) (effects w))
  | _ => (true, store_hash (<[field := value]> (hash w)) w)
  end.

Definition hset (field value : string) (w : Wire) : unit * Wire :=
  (tt, store_hash (<[field := value]> (hash w)) w).

(** [DELETE_SCRIPT] with [ARGV = field, exists, expected]. *)
Definition delete_script (field : string) (expected_exists : bool) (expected : string) (w : Wire) :
    Z * Wire :=
  let prior := hash w !! field in
  if negb (Bool.eqb (is_some prior) expected_exists)
     || is_some_and (fun p => negb (String.eqb p expected)) prior
  then (0, w)
  else (1, match prior with
           | Some _ => store_hash (delete field (hash w)) w
           | None => w
           end).

(** ** Operations *)

Section Operations.
Context `{RecordLib} {W : Type}.

(** The turns of one pass of a loop under a deadline: whether the remaining time
    is used up before each command, the commands, and the world the activity
    floor reads. *)
Record Round : Type := mkRound {
  late_watch : bool; watch_turn : Turn;
  late_get : bool; get_turn : Turn;
  late_write : bool; write_turn : Turn;
  round_world : W
}.

Definition drop_connection (w : Wire) : Wire := mkWire (hash w) None false (effects w).
Definition return_connection (w : Wire) : Wire := mkWire (hash w) (watched w) true (effects w).

(** [take_connection]: the cached connection, or a new one. *)
Definition take_connection (operation : string) (t : Turn) (w : Wire) : result unit StoreError * Wire :=
  if connected w then (Ok tt, mkWire (hash w) (watched w) false (effects w))
  else
    let w := interfere t w in
    match fate t with
    | Served => (Ok tt, mkWire (hash w) None false (effects w))
    | NotSent | ReplyLost => (Err (Backend operation), w)
    end.

(** Leaving an operation with an error drops its connection. *)
Definition fail {A} (e : StoreError) (w : Wire) : result A StoreError * Wire := (Err e, drop_connection w).

Fixpoint replace_loop (operation : string) (key : RouteKey) (floor : ActivityFloor W)
    (rounds : list Round) (data : RouteData) (w : Wire) : result RouteData StoreError * Wire :=
  match rounds with
  | [] => fail (Backend operation) w
  | r :: rounds =>
      if late_watch r then fail (Backend operation) w
      else
        let (watching, w) := WATCH (watch_turn r) w in
        match watching with
        | None => fail (Backend operation) w
        | Some _ =>
            let data := match current floor (round_world r) with
                        | Some f => set_last_activity (Z.max (last_activity data) f) data
                        | None => data
                        end in
            match encode operation data with
            | Err e => fail e w
            | Ok encoded =>
                match decode operation (as_str key) encoded with
                | Err e => fail e w
                | Ok committed_data =>
                    if late_write r then fail (Backend operation) w
                    else
                      let (transaction, w) := write (write_turn r) (exec_hset (as_str key) encoded) w in
                      match transaction with
                      | Some true => (Ok committed_data, return_connection w)
                      | Some false => replace_loop operation key floor rounds data w
                      | None => fail (Indeterminate operation) w
                      end
                end
            end
        end
  end.

Definition atomic_replace (operation : string) (key : RouteKey) (data : RouteData)
    (floor : ActivityFloor W) (connect : Turn) (rounds : list Round) (w : Wire) :
    result RouteData StoreError * Wire :=
  let (taken, w) := take_connection operation connect w in
  match taken with
  | Err e => (Err e, w)
  | Ok _ => replace_loop operation key floor rounds data w
  end.

Definition redis_add (utc_now : DateTime) (key : RouteKey) (target : string) (extra : gmap string Value)
    (floor : ActivityFloor W) (connect : Turn) (rounds : list Round) (w : Wire) :
    result RouteData StoreError * Wire :=
  atomic_replace "add" key (mkRouteData target utc_now extra) floor connect rounds w.

Definition redis_put_preserving_activity (key : RouteKey) (data : RouteData) (floor : ActivityFloor W)
    (connect : Turn) (rounds : list Round) (w : Wire) : result RouteData StoreError * Wire :=
  atomic_replace "put" key data floor connect rounds w.

Definition redis_put (key : RouteKey) (data : RouteData) (connect ping set_turn : Turn) (w : Wire) :
    result unit StoreError * Wire :=
  match encode "put" data with
  | Err e => (Err e, w)
  | Ok encoded =>
      let (taken, w) := take_connection "put" connect w in
      match taken with
      | Err e => (Err e, w)
      | Ok _ =>
          let (pong, w) := query ping (fun _ => tt) w in
          match pong with
          | None => fail (Backend "put") w
          | Some _ =>
              let (done, w) := write set_turn (hset (as_str key) encoded) w in
              match done with
              | Some _ => (Ok tt, return_connection w)
              | None => fail (Indeterminate "put") w
              end
          end
      end
  end.

Fixpoint update_loop (key : RouteKey) (at_ : DateTime) (rounds : list Round) (w : Wire) :
    result unit StoreError * Wire :=
  match rounds with
  | [] => fail (Backend "update_activity") w
  | r :: rounds =>
      if late_watch r then fail (Backend "update_activity") w
      else
        let (watching, w) := WATCH (watch_turn r) w in
        match watching with
        | None => fail (Backend "update_activity") w
        | Some _ =>
            if late_get r then fail (Backend "update_activity") w
            else
              let (got, w) := query (get_turn r) (fun w => hash w !! as_str key) w in
              match got with
              | None => fail (Backend "update_activity") w
              | Some None =>
                  if late_write r then fail (Backend "update_activity") w
                  else
                    let (unwatched, w) := query (write_turn r) (fun _ => tt) w in
                    match unwatched with
                    | None => fail (Backend "update_activity") w
                    | Some _ => (Ok tt, return_connection (mkWire (hash w) None (connected w) (effects w)))
                    end
              | Some (Some stored) =>
                  match decode "update_activity" (as_str key) stored with
                  | Err e => fail e w
                  | Ok data =>
                      match encode "update_activity" (set_last_activity at_ data) with
                      | Err e => fail e w
                      | Ok encoded =>
                          if late_write r then fail (Backend "update_activity") w
                          else
                            let (transaction, w) := write (write_turn r) (exec_hset (as_str key) encoded) w in
                            match transaction with
                            | Some true => (Ok tt, return_connection w)
                            | Some false => update_loop key at_ rounds w
                            | None => fail (Indeterminate "update_activity") w
                            end
                      end
                  end
              end
        end
  end.

Definition redis_update_activity (key : RouteKey) (at_ : DateTime) (connect : Turn) (rounds : list Round)
    (w : Wire) : result unit StoreError * Wire :=
  let (taken, w) := take_connection "update_activity" connect w in
  match taken with
  | Err e => (Err e, w)
  | Ok _ => update_loop key at_ rounds w
  end.

(** The rounds of [delete] do not watch. *)
Fixpoint delete_loop (key : RouteKey) (rounds : list Round) (w : Wire) :
    result (option RouteData) StoreError * Wire :=
  match rounds with
  | [] => fail (Backend "delete") w
  | r :: rounds =>
      if late_get r then fail (Backend "delete") w
      else
        let (got, w) := query (get_turn r) (fun w => hash w !! as_str key) w in
        match got with
        | None => fail (Backend "delete") w
        | Some stored =>
            let prior := match stored with
                         | None => Ok None
                         | Some encoded => result_map Some (decode "delete" (as_str key) encoded)
                         end in
            match prior with
            | Err e => fail e w
            | Ok prior =>
                if late_write r then fail (Backend "delete") w
                else
                  let (result, w) := write (write_turn r)
                    (delete_script (as_str key) (is_some stored) (default EmptyString stored)) w in
                  match result with
                  | Some 1 => (Ok prior, return_connection w)
                  | Some 0 => delete_loop key rounds w
                  | _ => fail (Indeterminate "delete") w
                  end
            end
        end
  end.

Definition redis_delete (key : RouteKey) (connect : Turn) (rounds : list Round) (w : Wire) :
    result (option RouteData) StoreError * Wire :=
  let (taken, w) := take_connection "delete" connect w in
  match taken with
  | Err e => (Err e, w)
  | Ok _ => delete_loop key rounds w
  end.

(** [snapshot]: the records in the order the server lists them. *)
Fixpoint decode_records (records : list (string * string)) (m : gmap RouteKey RouteData) :
    result (gmap RouteKey RouteData) StoreError :=
  match records with
  | [] => Ok m
  | (field, encoded) :: records =>
      let? key := decode_key field in
      let? data := decode "snapshot" (as_str key) encoded in
      decode_records records (<[key := data]> m)
  end.

Definition redis_snapshot (connect getall : Turn) (w : Wire) :
    result (gmap RouteKey RouteData) StoreError * Wire :=
  let (taken, w) := take_connection "snapshot" connect w in
  match taken with
  | Err e => (Err e, w)
  | Ok _ =>
      let (records, w) := query getall (fun w => map_to_list (hash w)) w in
      match records with
      | None => fail (Backend "snapshot") w
      | Some records =>
          match decode_records records ∅ with
          | Err e => fail e w
          | Ok m => (Ok m, return_connection w)
          end
      end
  end.

(** ** The contract *)

(** What a stored text means. *)
Definition record_of (encoded : string) : option RouteData :=
  l ← json_object_entries encoded; deserialize_route l.

Definition holds (h : Hash) (m : gmap RouteKey RouteData) : Prop :=
  forall key, h !! as_str key ≫= record_of = m !! key.

(** Only the field of the key differs, and what is put there is a record. *)
Definition touches (key : RouteKey) (h h' : Hash) : Prop :=
  (forall field, field <> as_str key -> h' !! field = h !! field) /\
  (forall s, h' !! as_str key = Some s -> h !! as_str key = Some s \/ is_Some (record_of s)).

Definition call_key (c : StoreCall) : RouteKey :=
  match c with
  | CallAdd key _ _ | CallPut key _ | CallPutPreserving key _ | CallUpdateActivity key _ | CallDelete key => key
  end.

(** From one hash to another as the contract's atomic commit. *)
Definition atomic (floor : option DateTime) (c : StoreCall) (reply : StoreReply) (h h' : Hash) : Prop :=
  touches (call_key c) h h' /\ forall m, holds h m -> exists m', holds h' m' /\ commits floor m c reply m'.

(** An operation took effect at one point, where the hash went from [h] to [h'],
    or not at all; with no other client these are the first and the last hash. *)
Definition refines {R} (quiet : Prop) (A : R -> Hash -> Hash -> Prop) (w0 : Wire)
    (out : result R StoreError * Wire) : Prop :=
  exists h h',
    (quiet -> h = hash w0 /\ h' = hash out.2) /\
    (effects out.2 = effects w0 /\ h' = h \/ effects out.2 = (h, h') :: effects w0) /\
    match out.1 with
    | Ok reply => A reply h h'
    | Err e => h' = h \/ (is_indeterminate_error e = true /\ exists reply, A reply h h')
    end.

Definition alone (t : Turn) : Prop := foreign t = None.
Definition round_alone (r : Round) : Prop := alone (watch_turn r) /\ alone (get_turn r) /\ alone (write_turn r).

(** *** The codec *)

Lemma only_field_lookup n (l : list (string * Value)) :
  NoDup l.*1 -> only_field n l = (list_to_map l : gmap string Value) !! n.
Proof.
  unfold only_field. induction l as [|[k v] l IH]; simpl; [done|]. intros [Hk Hnd]%NoDup_cons.
  unfold field_is at 1. simpl. destruct (String.eqb_spec k n) as [->|Hne].
  - rewrite lookup_insert_eq. replace (List.filter (field_is n) l) with (@nil (string * Value)); [done|].
    clear -Hk. induction l as [|[k' v'] l IH]; [done|]. simpl in *. unfold field_is at 1. simpl.
    destruct (String.eqb_spec k' n) as [->|]; [set_solver|]. apply IH. set_solver.
  - rewrite lookup_insert_ne by done. by apply IH.
Qed.

Lemma rest_fields_lookup n (l : list (string * Value)) :
  NoDup l.*1 -> rest_fields l !! n =
    if decide (n = "target" \/ n = "last_activity") then None else (list_to_map l : gmap string Value) !! n.
Proof.
  intros Hnd. unfold rest_fields.
  assert (Hnd' : NoDup (List.filter (fun kv => negb (field_is "target" kv || field_is "last_activity" kv)) l).*1).
  { clear -Hnd. induction l as [|kv l IH]; simpl in *; [constructor|]. apply NoDup_cons in Hnd as [Hk Hnd].
    destruct (negb _); simpl; [|by apply IH]. apply NoDup_cons. split; [|by apply IH].
    intros (x & Heq & Hx)%list_elem_of_fmap. apply Hk, list_elem_of_fmap. exists x. split; [done|].
    apply list_elem_of_In, filter_In in Hx as [Hx _]. by apply list_elem_of_In. }
  rewrite <- (list_to_map_proper _ _ Hnd' (Permutation_sym (reverse_Permutation _))). clear Hnd'.
  induction l as [|[k v] l IH]; simpl in *; [by case_decide|]. apply NoDup_cons in Hnd as [Hk Hnd].
  unfold field_is at 1 2. simpl.
  destruct (String.eqb_spec k "target") as [->|Hkt]; [|destruct (String.eqb_spec k "last_activity") as [->|Hkl]]; simpl.
  - rewrite IH by done. case_decide as Hd; [done|]. rewrite lookup_insert_ne; [done|]. intros <-. auto.
  - rewrite IH by done. case_decide as Hd; [done|]. rewrite lookup_insert_ne; [done|]. intros <-. auto.
  - destruct (decide (k = n)) as [<-|Hne].
    + rewrite !lookup_insert_eq. rewrite decide_False; [done|]. by intros [?|?].
    + rewrite !lookup_insert_ne by done. by apply IH.
Qed.

Lemma codec_round_trip `{!RecordLaws} op d s :
  reserved_free (extra d) -> encode op d = Ok s -> record_of s = Some d.
Proof.
  intros [Ht Hl]. unfold encode, serialize_route, record_of.
  destruct (json_to_string _) as [text|] eqn:Hj; [|done]. intros [= <-].
  apply json_round_trip in Hj as (l & -> & Hnd & Hm). cbn [mbind option_bind].
  unfold deserialize_route. rewrite !only_field_lookup, Hm by done.
  rewrite lookup_insert_eq, lookup_insert_ne by done. rewrite lookup_union_r by done. rewrite lookup_insert_eq.
  rewrite date_round_trip. cbn [mbind option_bind]. destruct d as [t a e]. simpl in *. do 2 f_equal.
  apply map_eq. intros n. rewrite rest_fields_lookup, Hm by done. case_decide as Hd.
  - by destruct Hd as [->| ->].
  - rewrite lookup_insert_ne by (intros <-; auto).
    destruct (e !! n) as [v|] eqn:He; [by apply lookup_union_Some_l|].
    rewrite lookup_union_r by done. rewrite lookup_insert_ne, lookup_singleton_ne; [done|intros <-; auto|intros <-; auto].
Qed.

Lemma decode_record op key s d : decode op key s = Ok d -> record_of s = Some d.
Proof. unfold decode, record_of. destruct (l ← json_object_entries s; deserialize_route l); by intros [= <-]. Qed.

Lemma record_reserved_free s d : record_of s = Some d -> reserved_free (extra d).
Proof.
  unfold record_of. intros (l & _ & Hd)%bind_Some. unfold deserialize_route in Hd.
  destruct (only_field "target" l) as [[]|]; try done. destruct (only_field "last_activity" l) as [[]|]; try done.
  apply bind_Some in Hd as (at_ & _ & [= <-]). simpl. unfold rest_fields.
  split; apply not_elem_of_list_to_map_1; intros (x & Heq & Hx)%list_elem_of_fmap;
    apply elem_of_reverse, list_elem_of_In, filter_In in Hx as [_ Hx]; destruct x as [k v]; simpl in *; subst;
    unfold field_is in Hx; simpl in Hx; done.
Qed.

Lemma holds_insert h m key s d :
  holds h m -> record_of s = Some d -> holds (<[as_str key := s]> h) (<[key := d]> m).
Proof.
  intros Hh Hs k. destruct (decide (key = k)) as [<-|Hne].
  - rewrite !lookup_insert_eq. done.
  - rewrite !lookup_insert_ne; [apply Hh|done|]. intros Heq. apply Hne. destruct key, k. simpl in *. by subst.
Qed.

Lemma holds_delete h m key : holds h m -> holds (delete (as_str key) h) (delete key m).
Proof.
  intros Hh k. destruct (decide (key = k)) as [<-|Hne].
  - by rewrite !lookup_delete_eq.
  - rewrite !lookup_delete_ne; [apply Hh|done|]. intros Heq. apply Hne. destruct key, k. simpl in *. by subst.
Qed.

Lemma touches_refl key h : touches key h h.
Proof. split; [done|]. by left. Qed.

Lemma touches_insert key h s d : record_of s = Some d -> touches key h (<[as_str key := s]> h).
Proof.
  intros Hs. split.
  - intros field Hne. by rewrite lookup_insert_ne.
  - intros s'. rewrite lookup_insert_eq. intros [= <-]. by right; eexists.
Qed.

Lemma touches_delete key h : touches key h (delete (as_str key) h).
Proof.
  split.
  - intros field Hne. by rewrite lookup_delete_ne.
  - intros s. by rewrite lookup_delete_eq.
Qed.

(** *** Commands *)

Lemma interfere_effects t w : effects (interfere t w) = effects w.
Proof. unfold interfere. by destruct (foreign t). Qed.

Lemma interfere_alone t w : alone t -> interfere t w = w.
Proof. unfold alone, interfere. by intros ->. Qed.

(** A state reached without writing: by other clients only. *)
Definition untouched (quiet : Prop) (w0 w1 : Wire) : Prop :=
  effects w1 = effects w0 /\ (quiet -> hash w1 = hash w0).

Lemma untouched_trans (q : Prop) w0 w1 w2 : untouched q w0 w1 -> untouched q w1 w2 -> untouched q w0 w2.
Proof. intros [H1 H2] [H3 H4]. split; [congruence|]. intros Hq. rewrite H4, H2 by done. done. Qed.

Lemma untouched_weaken (q q' : Prop) w0 w1 : (q' -> q) -> untouched q w0 w1 -> untouched q' w0 w1.
Proof. intros Hq [H1 H2]. split; auto. Qed.

Lemma interfere_untouched t w : untouched (alone t) w (interfere t w).
Proof. split; [apply interfere_effects|]. intros Ha. by rewrite interfere_alone. Qed.

Lemma WATCH_untouched t w : untouched (alone t) w (WATCH t w).2.
Proof. destruct (interfere_untouched t w). unfold WATCH. by destruct (fate t). Qed.

Lemma query_untouched {A} t (f : Wire -> A) w : untouched (alone t) w (query t f w).2.
Proof. destruct (interfere_untouched t w). unfold query. by destruct (fate t). Qed.

Lemma take_connection_untouched op t w : untouched (alone t) w (take_connection op t w).2.
Proof.
  unfold take_connection. destruct (connected w); [done|].
  destruct (interfere_untouched t w). by destruct (fate t).
Qed.

Lemma refines_after {R} (q : Prop) (A : R -> Hash -> Hash -> Prop) w0 w1 out :
  untouched q w0 w1 -> refines q A w1 out -> refines q A w0 out.
Proof.
  intros [He Hh] (h & h' & Hq & Hout & Hres). exists h, h'. rewrite He in Hout. split; [|done].
  intros Hquiet. rewrite <- Hh by done. by apply Hq.
Qed.

Lemma refines_weaken {R} (q q' : Prop) (A A' : R -> Hash -> Hash -> Prop) w0 out :
  (q' -> q) -> (forall r h h', A r h h' -> A' r h h') -> refines q A w0 out -> refines q' A' w0 out.
Proof.
  intros Hq HA (h & h' & Hquiet & Hout & Hres). exists h, h'. split; [auto|]. split; [done|].
  destruct out.1; [auto|]. destruct Hres as [?|[? [r ?]]]; [by left|]. right. eauto.
Qed.

Lemma refines_fail {R} (q : Prop) (A : R -> Hash -> Hash -> Prop) e w : refines q A w (fail e w).
Proof. exists (hash w), (hash w). split; [done|]. split; [by left|]. by left. Qed.

(** A written transaction, whatever its fate. *)
Lemma refines_exec {R} (q : Prop) (A : R -> Hash -> Hash -> Prop) (t : Turn) field value op
    (ok : R) (retry : Wire -> result R StoreError * Wire) w :
  (q -> alone t) ->
  (forall h, (watched w <> None -> h = hash w) -> A ok h (<[field := value]> h)) ->
  (forall w, refines q A w (retry w)) ->
  refines q A w
    (let (transaction, w) := write t (exec_hset field value) w in
     match transaction with
     | Some true => (Ok ok, return_connection w)
     | Some false => retry w
     | None => fail (Indeterminate op) w
     end).
Proof.
  intros Hal Hcommit Hretry.
  apply (refines_after q A w (interfere t w)); [apply (untouched_weaken (alone t)); [done|apply interfere_untouched]|].
  unfold write. set (w1 := interfere t w).
  assert (Hstep : (exec_hset field value w1).1 = false /\ untouched q w1 (exec_hset field value w1).2 \/
    (exec_hset field value w1).1 = true /\ hash (exec_hset field value w1).2 = <[field := value]> (hash w1) /\
    effects (exec_hset field value w1).2 = (hash w1, <[field := value]> (hash w1)) :: effects w1).
  { unfold exec_hset. destruct (watched w1) as [[]|]; [left|right|right]; done. }
  assert (Hsame : (exec_hset field value w1).1 = true -> watched w <> None -> hash w1 = hash w).
  { unfold exec_hset, w1, interfere. destruct (foreign t); simpl; by destruct (watched w) as [[]|]. }
  destruct (exec_hset field value w1) as [done_ w2]. simpl in Hstep, Hsame.
  destruct (fate t); [| |].
  - destruct Hstep as [[-> Hun]|(-> & Hh & He)]; [by apply (refines_after q A w1 w2)|].
    exists (hash w1), (hash w2). split; [done|]. simpl. rewrite He, Hh. split; [by right|]. apply Hcommit. by apply Hsame.
  - apply refines_fail.
  - destruct Hstep as [[-> Hun]|(-> & Hh & He)]; [by apply (refines_after q A w1 w2); [|apply refines_fail]|].
    exists (hash w1), (hash w2). split; [done|]. simpl. rewrite He, Hh. split; [by right|].
    right. split; [done|]. exists ok. apply Hcommit. by apply Hsame.
Qed.

(** *** Operations *)

(** The commit of a replacement: the record asked for, with a stamp at or above
    its own and the floor read in the committing round. *)
Definition replaced (key : RouteKey) (d0 : RouteData) (floor : ActivityFloor W) (rounds : list Round)
    (d : RouteData) (h h' : Hash) : Prop :=
  static_part d = static_part d0 /\ last_activity d0 <= last_activity d /\
  (exists r, r ∈ rounds /\ above_floor (current floor (round_world r)) (last_activity d)) /\
  touches key h h' /\ forall m, holds h m -> holds h' (<[key := d]> m).

Lemma replace_loop_refines `{!RecordLaws} op key floor rounds d0 data w :
  reserved_free (extra d0) -> static_part data = static_part d0 -> last_activity d0 <= last_activity data ->
  refines (Forall round_alone rounds) (replaced key d0 floor rounds) w (replace_loop op key floor rounds data w).
Proof.
  intros Hfree. revert data w. induction rounds as [|r rounds IH]; intros data w Hst Hle; [apply refines_fail|].
  cbn [replace_loop]. destruct (late_watch r); [apply refines_fail|].
  pose proof (WATCH_untouched (watch_turn r) w) as Hw. destruct (WATCH (watch_turn r) w) as [watching w1].
  apply (refines_after _ _ w w1).
  { apply (untouched_weaken (alone (watch_turn r))); [|done]. by intros [[? _] _]%Forall_cons. }
  destruct watching; [|apply refines_fail].
  set (data' := match current floor (round_world r) with Some f => _ | None => data end).
  assert (Hdata : static_part data' = static_part d0 /\ last_activity d0 <= last_activity data' /\
    above_floor (current floor (round_world r)) (last_activity data')).
  { subst data'. destruct (current floor (round_world r)) as [f|]; simpl; [|done]. split_and!; [done|lia|lia]. }
  destruct Hdata as (Hst' & Hle' & Hfl).
  destruct (encode op data') as [encoded|e] eqn:Henc; [|apply refines_fail].
  destruct (decode op (as_str key) encoded) as [committed|e] eqn:Hdec; [|apply refines_fail].
  assert (Hc : record_of encoded = Some data').
  { apply (codec_round_trip op); [|done]. injection Hst' as _ Hex. by rewrite Hex. }
  apply decode_record in Hdec. rewrite Hdec in Hc. injection Hc as ->.
  destruct (late_write r); [apply refines_fail|]. apply refines_exec.
  - by intros [(_ & _ & ?) _]%Forall_cons.
  - intros h _. split; [done|]. split; [done|]. split; [|split; [by eapply touches_insert|]].
    + exists r. split; [by left|done].
    + intros m Hh. by apply holds_insert.
  - intros w2. apply (refines_weaken (Forall round_alone rounds) _ (replaced key d0 floor rounds)).
    + by intros [_ ?]%Forall_cons.
    + intros d h h' (? & ? & (r' & ? & ?) & ? & ?). split; [done|]. split; [done|]. split; [|done].
      exists r'. split; [by right|done].
    + by apply IH.
Qed.

Lemma atomic_replace_refines `{!RecordLaws} op key floor connect rounds d0 w :
  reserved_free (extra d0) ->
  refines (alone connect /\ Forall round_alone rounds) (replaced key d0 floor rounds) w
    (atomic_replace op key d0 floor connect rounds w).
Proof.
  intros Hfree. unfold atomic_replace. pose proof (take_connection_untouched op connect w) as Ht.
  destruct (take_connection op connect w) as [taken w1].
  apply (refines_after _ _ w w1); [apply (untouched_weaken (alone connect)); [by intros []|done]|].
  destruct taken as [|e].
  - apply (refines_weaken (Forall round_alone rounds) _ (replaced key d0 floor rounds)); [by intros []|done|].
    by apply replace_loop_refines.
  - exists (hash w1), (hash w1). split; [done|]. split; by left.
Qed.

Lemma WATCH_watches t w w' : WATCH t w = (Some tt, w') -> watched w' <> None.
Proof. unfold WATCH. destruct (fate t); intros; by simplify_eq. Qed.

Lemma query_read {A} t (f : Wire -> A) w a w' :
  query t f w = (Some a, w') -> a = f w' /\ (watched w <> None -> watched w' <> None).
Proof.
  unfold query. destruct (fate t); intros; simplify_eq. split; [done|].
  unfold interfere. destruct (foreign t); simpl; by destruct (watched w).
Qed.

(** The edit of an activity update, on a stored record and on a missing one. *)
Lemma update_atomic `{!RecordLaws} op key at_ h stored data encoded :
  h !! as_str key = Some stored -> record_of stored = Some data ->
  encode op (set_last_activity at_ data) = Ok encoded ->
  atomic None (CallUpdateActivity key at_) ReplyUnit h (<[as_str key := encoded]> h).
Proof.
  intros Hs Hd He.
  assert (Hrec : record_of encoded = Some (set_last_activity at_ data)).
  { apply (codec_round_trip op); [|done]. exact (record_reserved_free stored data Hd). }
  split; [by eapply touches_insert|]. intros m Hh. exists (alter (set_last_activity at_) key m). split; [|constructor].
  pose proof (Hh key) as Hk. rewrite Hs in Hk. simpl in Hk. rewrite Hd in Hk.
  replace (alter (set_last_activity at_) key m) with (<[key := set_last_activity at_ data]> m).
  - by apply holds_insert.
  - apply map_eq. intros k. destruct (decide (key = k)) as [<-|Hne].
    + by rewrite lookup_insert_eq, lookup_alter_eq, <- Hk.
    + by rewrite lookup_insert_ne, lookup_alter_ne by done.
Qed.

Lemma update_missing key at_ h :
  h !! as_str key = None -> atomic None (CallUpdateActivity key at_) ReplyUnit h h.
Proof.
  intros Hn. split; [apply touches_refl|]. intros m Hh. exists (alter (set_last_activity at_) key m). split; [|constructor].
  pose proof (Hh key) as Hk. rewrite Hn in Hk. simpl in Hk.
  intros k. rewrite (Hh k). destruct (decide (key = k)) as [<-|Hne].
  - by rewrite lookup_alter_eq, <- Hk.
  - by rewrite lookup_alter_ne.
Qed.

Lemma update_loop_refines `{!RecordLaws} key at_ rounds w :
  refines (Forall round_alone rounds)
    (fun _ => atomic None (CallUpdateActivity key at_) ReplyUnit) w (update_loop key at_ rounds w).
Proof.
  revert w. induction rounds as [|r rounds IH]; intros w; [apply refines_fail|].
  cbn [update_loop]. destruct (late_watch r); [apply refines_fail|].
  pose proof (WATCH_untouched (watch_turn r) w) as Hw.
  destruct (WATCH (watch_turn r) w) as [[[]|] w1] eqn:Hwatch.
  2: { apply (refines_after _ _ w w1); [|apply refines_fail].
       apply (untouched_weaken (alone (watch_turn r))); [|done]. by intros [[? _] _]%Forall_cons. }
  apply WATCH_watches in Hwatch. apply (refines_after _ _ w w1).
  { apply (untouched_weaken (alone (watch_turn r))); [|done]. by intros [[? _] _]%Forall_cons. }
  destruct (late_get r); [apply refines_fail|].
  pose proof (query_untouched (get_turn r) (fun w => hash w !! as_str key) w1) as Hg.
  destruct (query (get_turn r) _ w1) as [got w2] eqn:Hget. apply (refines_after _ _ w1 w2).
  { apply (untouched_weaken (alone (get_turn r))); [|done]. by intros [(_ & ? & _) _]%Forall_cons. }
  destruct got as [[stored|]|]; [| |apply refines_fail]; apply query_read in Hget as [Hread Hwd].
  - destruct (decode _ (as_str key) stored) as [data|e] eqn:Hdec; [|apply refines_fail].
    destruct (encode _ (set_last_activity at_ data)) as [encoded|e] eqn:Henc; [|apply refines_fail].
    destruct (late_write r); [apply refines_fail|]. apply refines_exec.
    + by intros [(_ & _ & ?) _]%Forall_cons.
    + intros h Hh. rewrite Hh by auto. eapply update_atomic; [done|by eapply decode_record|done].
    + intros w3. apply (refines_weaken (Forall round_alone rounds) _
        (fun _ => atomic None (CallUpdateActivity key at_) ReplyUnit)); [by intros [_ ?]%Forall_cons|done|apply IH].
  - destruct (late_write r); [apply refines_fail|].
    pose proof (query_untouched (write_turn r) (fun _ => tt) w2) as Hu.
    destruct (query (write_turn r) (fun _ => tt) w2) as [[[]|] w3].
    + destruct Hu as [Hue Huh]. simpl in Hue, Huh. exists (hash w2), (hash w2). simpl. split_and!.
      * intros [(_ & _ & Hal) _]%Forall_cons. by rewrite Huh.
      * by left.
      * by apply update_missing.
    + apply (refines_after _ _ w2 w3); [|apply refines_fail].
      apply (untouched_weaken (alone (write_turn r))); [|done]. by intros [(_ & _ & ?) _]%Forall_cons.
Qed.

Lemma redis_update_refines `{!RecordLaws} key at_ connect rounds w :
  refines (alone connect /\ Forall round_alone rounds)
    (fun _ => atomic None (CallUpdateActivity key at_) ReplyUnit) w
    (redis_update_activity key at_ connect rounds w).
Proof.
  unfold redis_update_activity. pose proof (take_connection_untouched "update_activity" connect w) as Ht.
  destruct (take_connection _ connect w) as [taken w1].
  apply (refines_after _ _ w w1); [apply (untouched_weaken (alone connect)); [by intros []|done]|].
  destruct taken as [|e].
  - apply (refines_weaken (Forall round_alone rounds) _
      (fun _ => atomic None (CallUpdateActivity key at_) ReplyUnit)); [by intros []|done|apply update_loop_refines].
  - exists (hash w1), (hash w1). split; [done|]. split; by left.
Qed.

Definition deleted (key : RouteKey) (prior : option RouteData) (h h' : Hash) : Prop :=
  atomic None (CallDelete key) (ReplyDeleted prior) h h'.

(** What the script does on the answer it expects. *)
Lemma delete_script_step key stored w :
  let out := delete_script (as_str key) (is_some stored) (default EmptyString stored) w in
  (out.1 = 0 /\ out.2 = w) \/
  (out.1 = 1 /\ hash w !! as_str key = stored /\
   ((stored = None /\ out.2 = w) \/ out.2 = store_hash (delete (as_str key) (hash w)) w)).
Proof.
  unfold delete_script. destruct (hash w !! as_str key) as [p|], stored as [s|]; simpl; try (by left).
  - destruct (String.eqb_spec p s) as [->|]; simpl; [right|by left]. split_and!; [done|done|by right].
  - right. split_and!; [done|done|by left].
Qed.

Lemma delete_atomic key h stored prior :
  h !! as_str key = stored ->
  match stored with None => prior = None | Some s => exists d, record_of s = Some d /\ prior = Some d end ->
  deleted key prior h (delete (as_str key) h).
Proof.
  intros Hs Hp. split; [apply touches_delete|]. intros m Hh. exists (delete key m). split; [by apply holds_delete|].
  assert (m !! key = prior) as <-; [|constructor].
  rewrite <- Hh, Hs. destruct stored as [s|]; [|done]. destruct Hp as (d & Hd & ->). done.
Qed.

Lemma delete_loop_refines key rounds w :
  refines (Forall round_alone rounds) (deleted key) w (delete_loop key rounds w).
Proof.
  revert w. induction rounds as [|r rounds IH]; intros w; [apply refines_fail|].
  cbn [delete_loop]. destruct (late_get r); [apply refines_fail|].
  pose proof (query_untouched (get_turn r) (fun w => hash w !! as_str key) w) as Hg.
  destruct (query (get_turn r) _ w) as [[stored|] w1].
  2: { apply (refines_after _ _ w w1); [|apply refines_fail].
       apply (untouched_weaken (alone (get_turn r))); [|done]. by intros [(_ & ? & _) _]%Forall_cons. }
  apply (refines_after _ _ w w1).
  { apply (untouched_weaken (alone (get_turn r))); [|done]. by intros [(_ & ? & _) _]%Forall_cons. }
  set (prior := match stored with None => _ | Some _ => _ end).
  assert (Hprior : match prior with
    | Ok p => match stored with None => p = None | Some s => exists d, record_of s = Some d /\ p = Some d end
    | Err _ => True end).
  { subst prior. destruct stored as [s|]; [|done]. destruct (decode _ _ s) as [d|] eqn:Hd; simpl; [|done].
    apply decode_record in Hd. eauto. }
  destruct prior as [prior'|e]; [|apply refines_fail]. destruct (late_write r); [apply refines_fail|].
  set (t := write_turn r). apply (refines_after _ _ w1 (interfere t w1)).
  { apply (untouched_weaken (alone t)); [by intros [(_ & _ & ?) _]%Forall_cons|apply interfere_untouched]. }
  unfold write. set (w2 := interfere t w1). pose proof (delete_script_step key stored w2) as Hstep.
  assert (Hcommit : hash w2 !! as_str key = stored -> deleted key prior' (hash w2) (delete (as_str key) (hash w2)))
    by (intros Hs; by apply (delete_atomic key (hash w2) stored)).
  destruct (delete_script _ _ _ w2) as [code w3]. simpl in Hstep.
  destruct (fate t); [| apply refines_fail |].
  - destruct Hstep as [[-> ->]|(-> & Hs & [[Hn ->] | ->])].
    + apply (refines_weaken (Forall round_alone rounds) _ (deleted key)); [by intros [_ ?]%Forall_cons|done|apply IH].
    + exists (hash w2), (hash w2). split; [done|]. split; [by left|]. simpl.
      rewrite <- (delete_id (hash w2) (as_str key)) at 2 by by rewrite Hs. by apply Hcommit.
    + exists (hash w2), (delete (as_str key) (hash w2)). split; [done|]. split; [by right|]. by apply Hcommit.
  - destruct Hstep as [[-> ->]|(-> & Hs & [[Hn ->] | ->])]; [apply refines_fail|apply refines_fail|].
    exists (hash w2), (delete (as_str key) (hash w2)). split; [done|]. split; [by right|].
    right. split; [done|]. eauto.
Qed.

Lemma redis_delete_refines key connect rounds w :
  refines (alone connect /\ Forall round_alone rounds) (deleted key) w (redis_delete key connect rounds w).
Proof.
  unfold redis_delete. pose proof (take_connection_untouched "delete" connect w) as Ht.
  destruct (take_connection _ connect w) as [taken w1].
  apply (refines_after _ _ w w1); [apply (untouched_weaken (alone connect)); [by intros []|done]|].
  destruct taken as [|e].
  - apply (refines_weaken (Forall round_alone rounds) _ (deleted key)); [by intros []|done|apply delete_loop_refines].
  - exists (hash w1), (hash w1). split; [done|]. split; by left.
Qed.

Lemma redis_put_refines `{!RecordLaws} key data connect ping set_turn w :
  reserved_free (extra data) ->
  refines (alone connect /\ alone ping /\ alone set_turn)
    (fun _ => atomic None (CallPut key data) ReplyUnit) w (redis_put key data connect ping set_turn w).
Proof.
  intros Hfree. unfold redis_put. destruct (encode "put" data) as [encoded|e] eqn:Henc.
  2: { exists (hash w), (hash w). split; [done|]. split; by left. }
  pose proof (take_connection_untouched "put" connect w) as Ht.
  destruct (take_connection "put" connect w) as [taken w1].
  apply (refines_after _ _ w w1); [apply (untouched_weaken (alone connect)); [by intros []|done]|].
  destruct taken as [|e]; [|exists (hash w1), (hash w1); split; [done|]; split; by left].
  pose proof (query_untouched ping (fun _ => tt) w1) as Hp. destruct (query ping _ w1) as [pong w2].
  apply (refines_after _ _ w1 w2); [apply (untouched_weaken (alone ping)); [by intros (_ & ? & _)|done]|].
  destruct pong; [|apply refines_fail].
  apply (refines_after _ _ w2 (interfere set_turn w2)).
  { apply (untouched_weaken (alone set_turn)); [by intros (_ & _ & ?)|apply interfere_untouched]. }
  unfold write. set (w3 := interfere set_turn w2).
  assert (Hcommit : atomic None (CallPut key data) ReplyUnit (hash w3) (<[as_str key := encoded]> (hash w3))).
  { assert (Hrec : record_of encoded = Some data) by (by apply (codec_round_trip "put")).
    split; [by eapply touches_insert|]. intros m Hh. exists (<[key := data]> m). split; [|constructor].
    by apply holds_insert. }
  destruct (fate set_turn); [|apply refines_fail|];
    exists (hash w3), (<[as_str key := encoded]> (hash w3)); (split; [done|]); (split; [by right|]); [done|].
  right. split; [done|]. by exists tt.
Qed.

Lemma decode_key_exact field k : decode_key field = Ok k -> as_str k = field.
Proof.
  unfold decode_key. destruct (starts_with_char slash field) eqn:Hs; [|done]. intros [= <-].
  destruct ((1 <? String.length field)%nat && ends_with_char slash field) eqn:He.
  - unfold normalize. destruct field as [|c field]; [done|].
    change (String c field +:+ str1 slash) with (String c (field +:+ str1 slash)).
    cbn [is_empty starts_with_char] in *. rewrite Hs. cbn [orb negb].
    change (String c (field +:+ str1 slash)) with (String c field +:+ str1 slash).
    rewrite ends_with_char_app, pop_byte_app. rewrite str_length_app. simpl.
    by destruct (String.length field + 1)%nat eqn:Hl; [lia|].
  - unfold normalize. destruct field as [|c field]; [done|].
    cbn [is_empty starts_with_char] in *. rewrite Hs. cbn [orb negb]. by rewrite He.
Qed.

Lemma decode_records_spec records m0 m key :
  NoDup records.*1 -> decode_records records m0 = Ok m ->
  m !! key = match (list_to_map records : Hash) !! as_str key with
             | Some s => record_of s
             | None => m0 !! key
             end.
Proof.
  revert m0. induction records as [|[field s] records IH]; intros m0 Hnd; simpl; [by intros [= <-]|].
  apply NoDup_cons in Hnd as [Hf Hnd]. intros Hok. inv_ok Hok. rename Hok into Hrest.
  match goal with Hk : decode_key field = Ok ?k', Hd : decode _ _ s = Ok ?d' |- _ =>
    apply decode_key_exact in Hk; apply decode_record in Hd; rename k' into k; rename d' into d end.
  rewrite (IH _ Hnd Hrest). destruct (decide (field = as_str key)) as [->|Hne].
  - rewrite lookup_insert_eq. rewrite not_elem_of_list_to_map_1 by done.
    replace k with key by (destruct k, key; simpl in *; by subst). by rewrite lookup_insert_eq.
  - rewrite (lookup_insert_ne (list_to_map records)) by done.
    destruct ((list_to_map records : Hash) !! as_str key); [done|].
    rewrite lookup_insert_ne; [done|]. intros ->. done.
Qed.

Lemma redis_snapshot_holds connect getall w m w' :
  redis_snapshot connect getall w = (Ok m, w') -> holds (hash w') m /\ effects w' = effects w.
Proof.
  unfold redis_snapshot. pose proof (take_connection_untouched "snapshot" connect w) as [Ht _].
  destruct (take_connection "snapshot" connect w) as [[|e] w1]; [|done]. simpl in Ht.
  pose proof (query_untouched getall (fun w => map_to_list (hash w)) w1) as [Hq _].
  destruct (query getall _ w1) as [[records|] w2] eqn:Hget; [|done]. simpl in Hq.
  apply query_read in Hget as [-> _]. destruct (decode_records _ ∅) as [m'|] eqn:Hd; [|done].
  intros [= <- <-]. split; [|simpl; congruence]. intros key. simpl.
  rewrite (decode_records_spec _ _ _ key (NoDup_fst_map_to_list _) Hd), list_to_map_to_list.
  by destruct (hash w2 !! as_str key).
Qed.

Lemma redis_snapshot_quiet connect getall w out w' :
  alone connect -> alone getall -> redis_snapshot connect getall w = (out, w') -> hash w' = hash w.
Proof.
  intros Hc Hg. unfold redis_snapshot. pose proof (take_connection_untouched "snapshot" connect w) as [_ Ht].
  destruct (take_connection "snapshot" connect w) as [[|e] w1]; simpl in Ht; [|intros [= _ <-]; by apply Ht].
  pose proof (query_untouched getall (fun w => map_to_list (hash w)) w1) as [_ Hq].
  destruct (query getall _ w1) as [[records|] w2]; simpl in Hq.
  2: { intros [= _ <-]. simpl. by rewrite Hq, Ht. }
  by destruct (decode_records _ ∅); intros [= _ <-]; simpl; rewrite Hq, Ht.
Qed.

(** With no other client, a refining operation is one step of the contract. *)
Lemma refines_store_step {R} (q : Prop) floor c (reply : R -> StoreReply) w out m :
  refines q (fun r => atomic floor c (reply r)) w out -> q -> holds (hash w) m ->
  exists m', holds (hash out.2) m' /\ store_step floor m c (result_map reply out.1) m'.
Proof.
  intros (h & h' & Hq & _ & Hres) Hquiet Hm. destruct (Hq Hquiet) as [-> ->]. destruct out.1 as [r|e]; simpl.
  - destruct (proj2 Hres m Hm) as (m' & Hm' & Hc). exists m'. split; [done|]. by constructor.
  - destruct Hres as [Heq|[Hi [r Hr]]].
    + exists m. rewrite Heq. split; [done|]. destruct (is_indeterminate_error e) eqn:Hi; [|by apply store_rejected].
      destruct e; try done. apply store_lost_before.
    + destruct (proj2 Hr m Hm) as (m' & Hm' & Hc). exists m'. split; [done|].
      destruct e; try done. by eapply store_lost_after.
Qed.

(** ** Theorems *)

(** C31: the Redis backend keeps the contract of [Store] against any schedule of
    network failures, expired deadlines and writes of other clients: each
    operation takes effect at one point as the contract's atomic commit or not at
    all, an ordinary error means that it did not, no other field of the hash
    changes, an addition's stamp respects the floor read in its committing round,
    and a snapshot is what the hash holds. *)
Theorem redis_store_refines_contract `{!RecordLaws} w :
  (forall now key t e floor connect rounds, reserved_free e ->
     refines (alone connect /\ Forall round_alone rounds)
       (fun d h h' => exists r, r ∈ rounds /\
          atomic (current floor (round_world r)) (CallAdd key t e) (ReplyRecord d) h h')
       w (redis_add now key t e floor connect rounds w)) /\
  (forall key data floor connect rounds, reserved_free (extra data) ->
     refines (alone connect /\ Forall round_alone rounds)
       (fun d h h' => exists r, r ∈ rounds /\
          atomic (current floor (round_world r)) (CallPutPreserving key data) (ReplyRecord d) h h')
       w (redis_put_preserving_activity key data floor connect rounds w)) /\
  (forall key data connect ping set_turn, reserved_free (extra data) ->
     refines (alone connect /\ alone ping /\ alone set_turn)
       (fun _ => atomic None (CallPut key data) ReplyUnit) w (redis_put key data connect ping set_turn w)) /\
  (forall key at_ connect rounds,
     refines (alone connect /\ Forall round_alone rounds)
       (fun _ => atomic None (CallUpdateActivity key at_) ReplyUnit)
       w (redis_update_activity key at_ connect rounds w)) /\
  (forall key connect rounds,
     refines (alone connect /\ Forall round_alone rounds)
       (fun prior => atomic None (CallDelete key) (ReplyDeleted prior)) w (redis_delete key connect rounds w)) /\
  (forall connect getall m w', redis_snapshot connect getall w = (Ok m, w') ->
     holds (hash w') m /\ effects w' = effects w).
Proof.
  split_and!.
  - intros now key t e floor connect rounds Hfree.
    eapply (refines_weaken _ _ (replaced key (mkRouteData t now e) floor rounds)); [done| |by apply atomic_replace_refines].
    intros d h h' ([= Ht He] & _ & (r & Hr & Hfl) & Hto & Hh). exists r. split; [done|].
    split; [done|]. intros m Hm. exists (<[key := d]> m). split; [by apply Hh|]. by constructor.
  - intros key data floor connect rounds Hfree.
    eapply (refines_weaken _ _ (replaced key data floor rounds)); [done| |by apply atomic_replace_refines].
    intros d h h' (Hst & _ & (r & Hr & Hfl) & Hto & Hh). exists r. split; [done|].
    split; [done|]. intros m Hm. exists (<[key := d]> m). split; [by apply Hh|]. by constructor.
  - intros. by apply redis_put_refines.
  - intros. apply redis_update_refines.
  - intros. apply redis_delete_refines.
  - intros. by eapply redis_snapshot_holds.
Qed.

End Operations.

(** ** Witnesses *)

(** A codec for records whose metadata are strings: the bits of stdpp's encoding. *)
Module BitCodec.

Definition text_of (v : Value) : option string := match v with VString s => Some s | _ => None end.

Definition texts (m : gmap string Value) : gmap string string := omap text_of m.

Definition all_text (m : gmap string Value) : bool := forallb (fun kv => is_some (text_of kv.2)) (map_to_list m).

Lemma all_text_spec m : all_text m = true -> VString <$> texts m = m.
Proof.
  intros Hall. apply map_eq. intros k. unfold texts. rewrite lookup_fmap, lookup_omap.
  destruct (m !! k) as [v|] eqn:Hk; [|done]. simpl.
  pose proof (proj1 (forallb_forall _ _) Hall (k, v)) as Hv. simpl in Hv.
  destruct v; simpl in *; try done; by discriminate Hv; apply list_elem_of_In, elem_of_map_to_list.
Qed.

Definition entries (m : gmap string string) : list (string * Value) := map_to_list (VString <$> m).

#[global] Instance codec : RecordLib := {|
  json_to_string v := match v with
                      | VObject m => if all_text m then Some (show_pos (countable.encode (texts m)))
                                     else None
                      | _ => None
                      end;
  json_object_entries s :=
    match countable.decode (A := gmap string string) (read_pos s) with Some m => Some (entries m) | None => None end;
  to_rfc3339_millis := show_Z;
  to_rfc3339_nanos t := show_pos (countable.encode t);
  date_from_str s := countable.decode (read_pos s)
|}.

#[global] Instance codec_laws : RecordLaws.
Proof.
  split.
  - intros m s. simpl. destruct (all_text m) eqn:Hall; [|done]. intros [= <-].
    rewrite read_show, decode_encode. simpl. eexists. split; [done|]. split; [apply NoDup_fst_map_to_list|].
    unfold entries. rewrite list_to_map_to_list. by apply all_text_spec.
  - intros t. simpl. by rewrite read_show, decode_encode.
Qed.

End BitCodec.

Definition sample_round : Round (W := option DateTime) :=
  mkRound false (mkTurn None Served) false (mkTurn None Served) false (mkTurn None Served) (Some 9).

Definition sample_add (w : Wire) : result RouteData StoreError * Wire :=
  redis_add 5 (normalize "/a") "http://b" {["user" := VString "x"]} (dynamic id) (mkTurn None Served) [sample_round] w.

Lemma redis_store_refines_contract_witness :
  let w := mkWire ∅ None false [] in
  is_ok (sample_add w).1 = true /\
  refines (alone (mkTurn None Served) /\ Forall round_alone [sample_round])
    (fun d h h' => exists r, r ∈ [sample_round] /\
       atomic (round_world r) (CallAdd (normalize "/a") "http://b" {["user" := VString "x"]}) (ReplyRecord d) h h')
    w (sample_add w).
Proof.
  intros w. split; [vm_compute; reflexivity|].
  destruct (redis_store_refines_contract (W := option DateTime) w) as [Hadd _].
  apply (Hadd 5 (normalize "/a") "http://b" {["user" := VString "x"]} (dynamic id)). by split.
Defined.
