(* ===== verification/Tracker.v ===== *)
(** * Mutation admission and diagnostics (src/route_table.rs, [MutationTracker])

    The tracker counts admitted mutations, carries the terminal seal, and keeps
    a bounded ring of diagnostics for mutations whose caller went away.  Its
    state is only touched under one mutex, so each operation is one function on
    [MutationTrackerState]; their interleaving is in Registry.v. *)

From S2P Require Import Prelude RustStr Route Store.

(** ** Data *)

Inductive MutationOperation : Type := Add | Put | UpdateActivity | Delete.

Definition op_name (op : MutationOperation) : string :=
  match op with
  | Add => "add"
  | Put => "put"
  | UpdateActivity => "activity update"
  | Delete => "delete"
  end.

Definition panic_message (op : MutationOperation) : string :=
  "route " +:+ op_name op +:+ " mutation task panicked".

Record DetachedMutationFailure : Type := mkFailure {
  failure_operation : MutationOperation; failure_error : StoreError }.

Record DetachedMutationPanic : Type := mkPanic {
  panic_operation : MutationOperation; panic_text : string }.

Inductive DetachedMutationDiagnostic : Type :=
| DiagFailure (f : DetachedMutationFailure)
| DiagPanic (p : DetachedMutationPanic).

Record MutationDrainOutcome : Type := mkOutcome {
  timed_out : bool;
  active_mutations : Z;
  detached_failures : list DetachedMutationFailure;
  detached_panics : list DetachedMutationPanic;
  out_dropped_failures : Z;
  out_dropped_panics : Z
}.

(** The last constructor is the source's [MutationSeal::Indeterminate]. *)
Inductive MutationSeal : Type := Open | Shutdown | BackendPanic | SealIndeterminate.

#[export] Instance MutationSeal_eq_dec : EqDecision MutationSeal.
Proof. solve_decision. Defined.

Record MutationStatus : Type := mkStatus {
  sealed : bool; status_seal : MutationSeal; status_active : Z }.

Inductive ConsistencyStatus : Type := Consistent | StatusIndeterminate.

#[export] Instance ConsistencyStatus_eq_dec : EqDecision ConsistencyStatus.
Proof. solve_decision. Defined.

Definition MUTATION_ADMISSION_SEALED_ERROR : string :=
  "route registry is shutting down; mutation admission is sealed".
Definition MUTATION_PANIC_SEALED_ERROR : string :=
  "route registry is terminally sealed after a backend panic".
Definition MUTATION_INDETERMINATE_SEALED_ERROR : string :=
  "route registry is terminally sealed after an indeterminate backend mutation".

Definition DETACHED_MUTATION_DIAGNOSTIC_CAPACITY : nat := 256.

Record MutationTrackerState : Type := mkTracker {
  seal : MutationSeal;
  active : Z;
  diagnostics : list DetachedMutationDiagnostic;
  dropped_detached_failures : Z;
  dropped_detached_panics : Z
}.

Definition tracker_default : MutationTrackerState :=
  {| seal := Open; active := 0; diagnostics := [];
     dropped_detached_failures := 0; dropped_detached_panics := 0 |}.

Definition with_seal (s : MutationSeal) (t : MutationTrackerState) : MutationTrackerState :=
  {| seal := s; active := active t; diagnostics := diagnostics t;
     dropped_detached_failures := dropped_detached_failures t;
     dropped_detached_panics := dropped_detached_panics t |}.

Definition with_active (a : Z) (t : MutationTrackerState) : MutationTrackerState :=
  {| seal := seal t; active := a; diagnostics := diagnostics t;
     dropped_detached_failures := dropped_detached_failures t;
     dropped_detached_panics := dropped_detached_panics t |}.

Definition with_diagnostics (ds : list DetachedMutationDiagnostic) (t : MutationTrackerState) :
    MutationTrackerState :=
  {| seal := seal t; active := active t; diagnostics := ds;
     dropped_detached_failures := dropped_detached_failures t;
     dropped_detached_panics := dropped_detached_panics t |}.

(** ** Operations *)

(** The diagnostic ring: on overflow the oldest entry is popped and counted. *)
Definition push_diagnostic (d : DetachedMutationDiagnostic) (t : MutationTrackerState) :
    MutationTrackerState :=
  let t :=
    if (length (diagnostics t) =? DETACHED_MUTATION_DIAGNOSTIC_CAPACITY)%nat then
      match diagnostics t with
      | [] => t
      | DiagFailure _ :: rest =>
          {| seal := seal t; active := active t; diagnostics := rest;
             dropped_detached_failures :=
               saturating_add usize_max (dropped_detached_failures t) 1;
             dropped_detached_panics := dropped_detached_panics t |}
      | DiagPanic _ :: rest =>
          {| seal := seal t; active := active t; diagnostics := rest;
             dropped_detached_failures := dropped_detached_failures t;
             dropped_detached_panics :=
               saturating_add usize_max (dropped_detached_panics t) 1 |}
      end
    else t in
  with_diagnostics (diagnostics t ++ [d]) t.

Definition push_opt {A} (mk : A -> DetachedMutationDiagnostic) (o : option A)
    (t : MutationTrackerState) : MutationTrackerState :=
  match o with Some d => push_diagnostic (mk d) t | None => t end.

(** [take_outcome]: drains the ring, splitting it by kind in order. *)
Definition failures_of (ds : list DetachedMutationDiagnostic) : list DetachedMutationFailure :=
  omap (fun d => match d with DiagFailure f => Some f | DiagPanic _ => None end) ds.

Definition panics_of (ds : list DetachedMutationDiagnostic) : list DetachedMutationPanic :=
  omap (fun d => match d with DiagPanic p => Some p | DiagFailure _ => None end) ds.

Definition take_outcome (timeout : bool) (t : MutationTrackerState) :
    MutationDrainOutcome * MutationTrackerState :=
  ({| timed_out := timeout;
      active_mutations := active t;
      detached_failures := failures_of (diagnostics t);
      detached_panics := panics_of (diagnostics t);
      out_dropped_failures := dropped_detached_failures t;
      out_dropped_panics := dropped_detached_panics t |},
   {| seal := seal t; active := active t; diagnostics := [];
      dropped_detached_failures := 0; dropped_detached_panics := 0 |}).

(** An admitted mutation, released by [finish] or by its [Drop]. *)
Record ActiveMutation : Type := mkActive { am_operation : MutationOperation; am_finished : bool }.

Definition begin (op : MutationOperation) (t : MutationTrackerState) :
    result (ActiveMutation * MutationTrackerState) StoreError :=
  match seal t with
  | Open =>
      Ok ({| am_operation := op; am_finished := false |},
          with_active (saturating_add usize_max (active t) 1) t)
  | Shutdown => Err (message MUTATION_ADMISSION_SEALED_ERROR)
  | BackendPanic => Err (message MUTATION_PANIC_SEALED_ERROR)
  | SealIndeterminate => Err (message MUTATION_INDETERMINATE_SEALED_ERROR)
  end.

Definition finish (failure : option DetachedMutationFailure) (panic : option DetachedMutationPanic)
    (t : MutationTrackerState) : MutationTrackerState :=
  push_opt DiagPanic panic
    (push_opt DiagFailure failure (with_active (saturating_sub (active t) 1) t)).

Definition tracker_status (t : MutationTrackerState) : MutationStatus :=
  {| sealed := negb (bool_decide (seal t = Open)); status_seal := seal t; status_active := active t |}.

Definition panic_seal (t : MutationTrackerState) : MutationTrackerState := with_seal BackendPanic t.
Definition indeterminate_seal (t : MutationTrackerState) : MutationTrackerState :=
  with_seal SealIndeterminate t.

Definition reject_if_terminally_failed (t : MutationTrackerState) : result unit StoreError :=
  match seal t with
  | BackendPanic => Err (message MUTATION_PANIC_SEALED_ERROR)
  | SealIndeterminate => Err (message MUTATION_INDETERMINATE_SEALED_ERROR)
  | Open | Shutdown => Ok tt
  end.

Definition is_indeterminate (t : MutationTrackerState) : bool :=
  bool_decide (seal t = SealIndeterminate).

(** [seal_and_drain] up to its first await: seals an open tracker, and returns at
    once when nothing is active. *)
Definition drain_start (t : MutationTrackerState) :
    option MutationDrainOutcome * MutationTrackerState :=
  let t := if bool_decide (seal t = Open) then with_seal Shutdown t else t in
  if active t =? 0 then let (o, t') := take_outcome false t in (Some o, t') else (None, t).

(** The check at the head of each turn of its loop. *)
Definition drain_check (t : MutationTrackerState) :
    option MutationDrainOutcome * MutationTrackerState :=
  if active t =? 0 then let (o, t') := take_outcome false t in (Some o, t') else (None, t).

(** The [deadline] arm of its [select!]. *)
Definition drain_deadline (t : MutationTrackerState) : MutationDrainOutcome * MutationTrackerState :=
  take_outcome (negb (active t =? 0)) t.

(** [ActiveMutation::finish] and the [Drop] that runs after it or instead of it. *)
Definition active_finish (am : ActiveMutation) (failure : option DetachedMutationFailure)
    (panic : option DetachedMutationPanic) (t : MutationTrackerState) :
    ActiveMutation * MutationTrackerState :=
  ({| am_operation := am_operation am; am_finished := true |}, finish failure panic t).

Definition active_drop (am : ActiveMutation) (t : MutationTrackerState) : MutationTrackerState :=
  if am_finished am then t
  else finish None
         (Some {| panic_operation := am_operation am;
                  panic_text := "route " +:+ op_name (am_operation am) +:+
                                " mutation task terminated unexpectedly" |}) t.

(** ** Invariant *)

Definition tracker_wf (t : MutationTrackerState) : Prop :=
  in_width usize_max (active t) /\
  (length (diagnostics t) <= DETACHED_MUTATION_DIAGNOSTIC_CAPACITY)%nat /\
  in_width usize_max (dropped_detached_failures t) /\
  in_width usize_max (dropped_detached_panics t).

Definition is_failure (d : DetachedMutationDiagnostic) : bool :=
  match d with DiagFailure _ => true | DiagPanic _ => false end.

Definition count_if {A} (p : A -> bool) (l : list A) : nat := length (List.filter p l).

(** A series of detached diagnostics, oldest first. *)
Definition push_all (ds : list DetachedMutationDiagnostic) (t : MutationTrackerState) :
    MutationTrackerState :=
  fold_left (fun t d => push_diagnostic d t) ds t.

(** ** Lemmas *)

Lemma push_diagnostic_seal d t : seal (push_diagnostic d t) = seal t.
Proof. unfold push_diagnostic. case_match; [|done]. by repeat case_match. Qed.

Lemma push_diagnostic_active d t : active (push_diagnostic d t) = active t.
Proof. unfold push_diagnostic. case_match; [|done]. by repeat case_match. Qed.

Lemma finish_seal f p t : seal (finish f p t) = seal t.
Proof. unfold finish, push_opt. destruct f, p; by rewrite ?push_diagnostic_seal. Qed.

Lemma finish_active f p t : active (finish f p t) = saturating_sub (active t) 1.
Proof. unfold finish, push_opt. destruct f, p; by rewrite ?push_diagnostic_active. Qed.

Lemma push_diagnostic_wf d t : tracker_wf t -> tracker_wf (push_diagnostic d t).
Proof.
  intros (Ha & Hl & Hf & Hp). unfold push_diagnostic, DETACHED_MUTATION_DIAGNOSTIC_CAPACITY in *.
  destruct (Nat.eqb_spec (length (diagnostics t)) 256) as [Hfull|Hfull].
  - destruct (diagnostics t) as [|[f|p] rest] eqn:Hd; simpl in *; [done| |];
      unfold tracker_wf, DETACHED_MUTATION_DIAGNOSTIC_CAPACITY; simpl; rewrite ?length_app; simpl;
      split_and!; try done; try lia; apply saturating_add_width; done || lia.
  - unfold tracker_wf, DETACHED_MUTATION_DIAGNOSTIC_CAPACITY; simpl. rewrite length_app; simpl.
    split_and!; try done; lia.
Qed.

Lemma finish_wf f p t : tracker_wf t -> tracker_wf (finish f p t).
Proof.
  intros Hwf. assert (Hwf' : tracker_wf (with_active (saturating_sub (active t) 1) t)).
  { destruct Hwf as (Ha & ?). split; [|done]. apply saturating_sub_width; done || lia. }
  unfold finish, push_opt. destruct f, p; eauto using push_diagnostic_wf.
Qed.

#[export] Hint Resolve push_diagnostic_wf finish_wf : proxy.

Lemma failures_of_count ds : length (failures_of ds) = count_if is_failure ds.
Proof.
  unfold failures_of, count_if. induction ds as [|[]]; simpl; [done| |done].
  f_equal. done.
Qed.

(** The tracker invariant is preserved by every operation. *)
Lemma tracker_wf_default : tracker_wf tracker_default.
Proof. unfold tracker_wf, in_width; simpl. vm_compute. split_and!; try done; lia. Qed.

Lemma begin_wf op t am t' : tracker_wf t -> begin op t = Ok (am, t') -> tracker_wf t'.
Proof.
  intros (Ha & ?) Hb. unfold begin in Hb. destruct (seal t); try done. simplify_eq.
  split; [|done]. apply saturating_add_width; done || lia.
Qed.

Lemma with_seal_wf s t : tracker_wf t -> tracker_wf (with_seal s t).
Proof. done. Qed.

Lemma take_outcome_wf b t : tracker_wf t -> tracker_wf (take_outcome b t).2.
Proof. intros (Ha & ?). unfold tracker_wf; simpl. unfold in_width, usize_max, u64_max in *. split_and!; lia. Qed.

#[export] Hint Resolve tracker_wf_default with_seal_wf take_outcome_wf : proxy.

Lemma push_diagnostic_ring d t :
  tracker_wf t ->
  let full := (length (diagnostics t) =? DETACHED_MUTATION_DIAGNOSTIC_CAPACITY)%nat in
  let lost := if full then take 1 (diagnostics t) else [] in
  diagnostics (push_diagnostic d t) = drop (length lost) (diagnostics t) ++ [d] /\
  dropped_detached_failures (push_diagnostic d t) =
    saturating_add usize_max (dropped_detached_failures t) (Z.of_nat (count_if is_failure lost)) /\
  dropped_detached_panics (push_diagnostic d t) =
    saturating_add usize_max (dropped_detached_panics t)
      (Z.of_nat (count_if (negb ∘ is_failure) lost)).
Proof.
  intros (_ & Hl & Hf & Hp) full lost. unfold push_diagnostic, lost, full, count_if.
  assert (H0 : forall x, in_width usize_max x -> saturating_add usize_max x 0 = x)
    by (unfold in_width, saturating_add; lia).
  destruct (Nat.eqb_spec (length (diagnostics t)) DETACHED_MUTATION_DIAGNOSTIC_CAPACITY).
  - destruct (diagnostics t) as [|[f|p] rest] eqn:Hd; [done| |]; simpl.
    + by rewrite drop_0, H0.
    + by rewrite drop_0, H0.
  - simpl. by rewrite drop_0, !H0.
Qed.

Lemma push_all_app ds d t : push_all (ds ++ [d]) t = push_diagnostic d (push_all ds t).
Proof. unfold push_all. by rewrite fold_left_app. Qed.

Lemma push_all_wf ds t : tracker_wf t -> tracker_wf (push_all ds t).
Proof.
  induction ds as [|d ds IH] using rev_ind; [done|]. rewrite push_all_app. eauto with proxy.
Qed.

Lemma count_if_app {A} (p : A -> bool) l1 l2 :
  count_if p (l1 ++ l2) = (count_if p l1 + count_if p l2)%nat.
Proof. unfold count_if. by rewrite List.filter_app, length_app. Qed.

Lemma count_if_le {A} (p : A -> bool) (l : list A) : (count_if p l <= length l)%nat.
Proof. apply List.filter_length_le. Qed.

Lemma take_S_drop {A} n (l : list A) : take (S n) l = take n l ++ take 1 (drop n l).
Proof. rewrite <- (take_drop n l) at 1. rewrite take_app. rewrite length_take.
  destruct (decide (n <= length l)%nat).
  - rewrite Nat.min_l by lia. rewrite take_ge by (rewrite length_take; lia).
    replace (S n - n)%nat with 1%nat by lia. done.
  - rewrite take_ge by (rewrite length_take; lia).
    rewrite (drop_ge l) by lia. by rewrite !take_nil.
Qed.

(** The state of the ring after any series of pushes on an empty one. *)
Lemma push_all_ring ds t :
  tracker_wf t -> diagnostics t = [] ->
  dropped_detached_failures t = 0 -> dropped_detached_panics t = 0 ->
  Z.of_nat (length ds) <= usize_max ->
  let lost := take (length ds - DETACHED_MUTATION_DIAGNOSTIC_CAPACITY) ds in
  diagnostics (push_all ds t) = drop (length lost) ds /\
  dropped_detached_failures (push_all ds t) = Z.of_nat (count_if is_failure lost) /\
  dropped_detached_panics (push_all ds t) = Z.of_nat (count_if (negb ∘ is_failure) lost).
Proof.
  intros Hwf Hd Hf Hp. induction ds as [|d ds IH] using rev_ind; intros Hlen.
  { simpl. by rewrite Hd, Hf, Hp. }
  rewrite length_app in Hlen; simpl in Hlen. destruct IH as (IHd & IHf & IHp); [lia|].
  rewrite push_all_app.
  destruct (push_diagnostic_ring d (push_all ds t)) as (-> & -> & ->); [by apply push_all_wf|].
  rewrite IHf, IHp, IHd. unfold DETACHED_MUTATION_DIAGNOSTIC_CAPACITY in *.
  rewrite !length_take, !length_drop, !length_app. simpl length.
  set (n := length ds) in *.
  rewrite (Nat.min_l (n - 256)) by lia.
  assert (Hsat : forall a b, (a + b <= n)%nat ->
            saturating_add usize_max (Z.of_nat a) (Z.of_nat b) = Z.of_nat (a + b)).
  { intros. rewrite saturating_add_exact; lia. }
  assert (Hc : forall p (l : list DetachedMutationDiagnostic), (count_if p (take (n - 256) l) <= n - 256)%nat).
  { intros p l. pose proof (count_if_le p (take (n - 256) l)) as H. rewrite length_take in H. lia. }
  destruct (Nat.eqb_spec (n - (n - 256)) 256) as [Hfull|Hnot].
  - assert (Hn : (n >= 256)%nat) by lia.
    replace (n + 1 - 256)%nat with (S (n - 256)) by lia.
    rewrite (take_app_le ds) by lia. rewrite (take_S_drop (n - 256)), !count_if_app.
    rewrite (drop_app_le ds) by lia.
    pose proof (count_if_le is_failure (take 1 (drop (n - 256) ds))) as H1.
    pose proof (count_if_le (negb ∘ is_failure) (take 1 (drop (n - 256) ds))) as H2.
    rewrite length_take, length_drop in H1, H2. fold n in H1, H2.
    pose proof (Hc is_failure ds) as H3. pose proof (Hc (negb ∘ is_failure) ds) as H4.
    rewrite (Hsat _ (count_if is_failure _)), (Hsat _ (count_if (negb ∘ is_failure) _)) by lia.
    split_and!; [|done|done]. rewrite !length_take, length_drop. fold n.
    rewrite drop_drop. f_equal. f_equal. lia.
  - assert (Hn : (n < 256)%nat) by lia.
    replace (n - 256)%nat with 0%nat by lia. replace (n + 1 - 256)%nat with 0%nat by lia.
    simpl. unfold count_if; simpl. by rewrite !drop_0.
Qed.

(** ** Theorems *)

(** The diagnostic ring retains exactly the last 256 detached diagnostics in
    order, and counts every discarded one by its kind, so a drain reports or
    counts each of them. *)
Theorem diagnostics_retained_or_counted ds t :
  tracker_wf t -> diagnostics t = [] ->
  dropped_detached_failures t = 0 -> dropped_detached_panics t = 0 ->
  Z.of_nat (length ds) <= usize_max ->
  let lost := take (length ds - DETACHED_MUTATION_DIAGNOSTIC_CAPACITY) ds in
  let kept := drop (length lost) ds in
  let outcome := (take_outcome false (push_all ds t)).1 in
  (length kept <= DETACHED_MUTATION_DIAGNOSTIC_CAPACITY)%nat /\
  detached_failures outcome = failures_of kept /\
  detached_panics outcome = panics_of kept /\
  out_dropped_failures outcome = Z.of_nat (count_if is_failure lost) /\
  out_dropped_panics outcome = Z.of_nat (count_if (negb ∘ is_failure) lost).
Proof.
  intros Hwf Hd Hf Hp Hlen lost kept outcome.
  destruct (push_all_ring ds t) as (HD & HF & HP); try done.
  fold lost in HD, HF, HP. unfold outcome, take_outcome; simpl. rewrite HD, HF, HP.
  split_and!; try done. unfold kept, lost, DETACHED_MUTATION_DIAGNOSTIC_CAPACITY.
  rewrite length_drop, length_take. lia.
Qed.

Lemma diagnostics_retained_or_counted_witness :
  let ds := replicate 258 (DiagPanic (mkPanic Put "x")) ++ [DiagFailure (mkFailure Add (Backend "add"))] in
  let outcome := (take_outcome false (push_all ds tracker_default)).1 in
  length (detached_panics outcome) = 255%nat /\
  out_dropped_panics outcome = 3 /\
  detached_failures outcome = failures_of (drop (length (take (length ds - 256) ds)) ds).
Proof.
  intros ds outcome. split; [vm_compute; reflexivity|]. split; [vm_compute; reflexivity|].
  apply (diagnostics_retained_or_counted ds tracker_default);
    [apply tracker_wf_default|reflexivity|reflexivity|reflexivity|vm_compute; discriminate].
Defined.
