(* ===== verification/Registry.v ===== *)
(** * The route registry (src/route_table.rs, [RouteRegistry])

    The registry's reads, its lock-free activity publication, its mutation
    bodies and the supervision around them, over any [Store].  Here each
    operation runs without interference; RegistryConc.v interleaves them. *)

From S2P Require Import Prelude RustStr Route RouteTable Store Tracker.

(** ** State *)

(** What readers and floor closures see: the published snapshot and the tracker. *)
Record View : Type := mkView { v_snapshot : RouteSnapshot; v_tracker : MutationTrackerState }.

Record RouteRegistry (St : Type) : Type := mkRegistry {
  reg_store : St;
  reg_snapshot : RouteSnapshot;
  reg_mutations : MutationTrackerState
}.
Arguments mkRegistry {St} _ _ _.
Arguments reg_store {St} _.
Arguments reg_snapshot {St} _.
Arguments reg_mutations {St} _.

Definition view {St} (r : RouteRegistry St) : View :=
  {| v_snapshot := reg_snapshot r; v_tracker := reg_mutations r |}.

Definition with_store {St} (s : St) (r : RouteRegistry St) : RouteRegistry St :=
  {| reg_store := s; reg_snapshot := reg_snapshot r; reg_mutations := reg_mutations r |}.
Definition with_snapshot {St} (s : RouteSnapshot) (r : RouteRegistry St) : RouteRegistry St :=
  {| reg_store := reg_store r; reg_snapshot := s; reg_mutations := reg_mutations r |}.
Definition with_mutations {St} (m : MutationTrackerState) (r : RouteRegistry St) : RouteRegistry St :=
  {| reg_store := reg_store r; reg_snapshot := reg_snapshot r; reg_mutations := m |}.

(** ** Reads *)

Definition get (key : RouteKey) (v : View) : option RouteData :=
  if is_indeterminate (v_tracker v) then None else by_key (routes (v_snapshot v)) !! key.

Definition all (v : View) : gmap RouteKey RouteData :=
  if is_indeterminate (v_tracker v) then ∅ else by_key (routes (v_snapshot v)).

Definition registry_resolve (request_path : string) (v : View) : option RouteMatch :=
  if is_indeterminate (v_tracker v) then None else resolve (v_snapshot v) request_path.

Definition mutation_status (v : View) : MutationStatus := tracker_status (v_tracker v).

Definition consistency_status (v : View) : ConsistencyStatus :=
  if is_indeterminate (v_tracker v) then StatusIndeterminate else Consistent.

(** [activity_floor]: the closure upgrades a weak reference to the registry and
    reads the current stamp; the registry is alive while a mutation runs. *)
Definition activity_floor (key : RouteKey) : ActivityFloor View :=
  dynamic (fun v => last_activity <$> get key v).

(** ** Publication *)

(** The edits [merge_and_publish] is called with. *)
Inductive Edit : Type :=
| EditReplace (key : RouteKey) (data : RouteData)
| EditActivity (key : RouteKey) (at_ : DateTime)
| EditRemove (key : RouteKey).

Definition apply_edit (e : Edit) (r : OrderedRoutes) : OrderedRoutes :=
  match e with
  | EditReplace key data => replace_preserving_activity key data r
  | EditActivity key at_ => update_activity key at_ r
  | EditRemove key => remove key r
  end.

(** One turn of the compare-and-swap loop, which succeeds when no one else
    published since the load. *)
Definition merge_and_publish {St} (e : Edit) (r : RouteRegistry St) : RouteRegistry St :=
  with_snapshot (from_ordered_routes (apply_edit e (routes (reg_snapshot r)))) r.

(** The test of [observe_activity] on a loaded route map. *)
Definition observes (key : RouteKey) (at_ : DateTime) (r : OrderedRoutes) : bool :=
  match by_key r !! key with
  | None => false
  | Some existing => negb (at_ <=? last_activity existing)
  end.

Definition observe_activity {St} (key : RouteKey) (at_ : DateTime) (r : RouteRegistry St) :
    bool * RouteRegistry St :=
  if is_indeterminate (reg_mutations r) then (false, r)
  else if observes key at_ (routes (reg_snapshot r))
  then (true, with_snapshot
                (from_ordered_routes (update_activity key at_ (routes (reg_snapshot r)))) r)
  else (false, r).

(** ** Mutations *)

(** The answer of a supervised future: a result, or a caught panic. *)
Inductive Supervised (A : Type) : Type :=
| Returned (r : result A StoreError)
| Panicked.
Arguments Returned {A} r.
Arguments Panicked {A}.

(** How the caller and the runtime behave around one mutation: whether a Tokio
    runtime is current, whether spawning succeeds, and whether the caller is
    still there to acknowledge the response. *)
Record CallerEnv : Type := mkCaller {
  runtime_available : bool; spawn_succeeds : bool; caller_waits : bool }.

Definition attached : CallerEnv :=
  {| runtime_available := true; spawn_succeeds := true; caller_waits := true |}.

Section Mutations.
Context {Env St : Type} `{Store Env View St}.

(** [load]: the persisted map, in ascending key order. *)
Definition load (s : St) : result (RouteRegistry St) StoreError :=
  let? m := snapshot s in
  Ok {| reg_store := s; reg_snapshot := from_routes m; reg_mutations := tracker_default |}.

Definition put_owned (key : RouteKey) (data : RouteData) (r : RouteRegistry St) :
    result unit StoreError * RouteRegistry St :=
  let (res, s) := put_preserving_activity key data (activity_floor key) (view r) (reg_store r) in
  let r := with_store s r in
  match res with
  | Err e => (Err e, r)
  | Ok data => (Ok tt, merge_and_publish (EditReplace key data) r)
  end.

Definition add_owned (env : Env) (key : RouteKey) (target : string) (extra : gmap string Value)
    (r : RouteRegistry St) : result unit StoreError * RouteRegistry St :=
  let (res, s) := add env key target extra (activity_floor key) (view r) (reg_store r) in
  let r := with_store s r in
  match res with
  | Err e => (Err e, r)
  | Ok data => (Ok tt, merge_and_publish (EditReplace key data) r)
  end.

Definition update_activity_owned (key : RouteKey) (at_ : DateTime) (r : RouteRegistry St) :
    result unit StoreError * RouteRegistry St :=
  let (res, s) := store_update_activity key at_ (reg_store r) in
  let r := with_store s r in
  match res with
  | Err e => (Err e, r)
  | Ok _ => (Ok tt, merge_and_publish (EditActivity key at_) r)
  end.

Definition delete_owned (key : RouteKey) (r : RouteRegistry St) :
    result (option RouteData) StoreError * RouteRegistry St :=
  let (res, s) := delete_route key (reg_store r) in
  let r := with_store s r in
  match res with
  | Err e => (Err e, r)
  | Ok deleted => (Ok deleted, merge_and_publish (EditRemove key) r)
  end.

Definition persist_observed_owned (key : RouteKey) (at_ : DateTime) (r : RouteRegistry St) :
    result unit StoreError * RouteRegistry St :=
  match get key (view r) with
  | None => (Ok tt, r)
  | Some current =>
      let (res, s) := store_update_activity key (Z.max (last_activity current) at_) (reg_store r) in
      (res, with_store s r)
  end.

(** [CatchUnwindFuture]: a panic of the body seals the tracker. *)
Definition catch_unwind {A} (body : RouteRegistry St -> Supervised A * RouteRegistry St)
    (r : RouteRegistry St) : Supervised A * RouteRegistry St :=
  let (out, r) := body r in
  match out with
  | Returned res => (Returned res, r)
  | Panicked => (Panicked, with_mutations (panic_seal (reg_mutations r)) r)
  end.

(** The spawned task of [run_mutation], under the mutation lock. *)
Definition mutation_task {A} (caller : CallerEnv) (op : MutationOperation)
    (body : RouteRegistry St -> Supervised A * RouteRegistry St) (r : RouteRegistry St) :
    result A StoreError * RouteRegistry St :=
  let (supervised, r) :=
    match reject_if_terminally_failed (reg_mutations r) with
    | Ok _ => catch_unwind body r
    | Err error => (Returned (Err error), r)
    end in
  let detached := negb (caller_waits caller) in
  match supervised with
  | Returned res =>
      let r := match res with
               | Err (Indeterminate _) =>
                   with_mutations (indeterminate_seal (reg_mutations r)) r
               | _ => r
               end in
      let failure := match res with
                     | Err e => if detached then Some (mkFailure op e) else None
                     | Ok _ => None
                     end in
      (res, with_mutations (finish failure None (reg_mutations r)) r)
  | Panicked =>
      let panic := if detached then Some (mkPanic op (panic_message op)) else None in
      (Err (message (panic_message op)), with_mutations (finish None panic (reg_mutations r)) r)
  end.

Definition run_mutation {A} (caller : CallerEnv) (op : MutationOperation)
    (body : RouteRegistry St -> Supervised A * RouteRegistry St) (r : RouteRegistry St) :
    result A StoreError * RouteRegistry St :=
  match begin op (reg_mutations r) with
  | Err e => (Err e, r)
  | Ok (active, t) =>
      let r := with_mutations t r in
      if negb (runtime_available caller) then
        (Err (message ("route " +:+ op_name op +:+
                       " mutation could not start: Tokio runtime unavailable")),
         with_mutations (active_finish active None None t).2 r)
      else if negb (spawn_succeeds caller) then
        (Err (message ("route " +:+ op_name op +:+
                       " mutation task terminated before returning a result")),
         with_mutations (active_drop active t) r)
      else mutation_task caller op body r
  end.

Definition returning {A} (f : RouteRegistry St -> result A StoreError * RouteRegistry St)
    (r : RouteRegistry St) : Supervised A * RouteRegistry St :=
  let (res, r) := f r in (Returned res, r).

Definition registry_put (caller : CallerEnv) (key : RouteKey) (data : RouteData) :
    RouteRegistry St -> result unit StoreError * RouteRegistry St :=
  run_mutation caller Put (returning (put_owned key data)).

Definition registry_add (caller : CallerEnv) (env : Env) (key : RouteKey) (target : string)
    (extra : gmap string Value) : RouteRegistry St -> result unit StoreError * RouteRegistry St :=
  run_mutation caller Add (returning (add_owned env key target extra)).

Definition registry_update_activity (caller : CallerEnv) (key : RouteKey) (at_ : DateTime) :
    RouteRegistry St -> result unit StoreError * RouteRegistry St :=
  run_mutation caller UpdateActivity (returning (update_activity_owned key at_)).

Definition persist_observed_activity (caller : CallerEnv) (key : RouteKey) (at_ : DateTime) :
    RouteRegistry St -> result unit StoreError * RouteRegistry St :=
  run_mutation caller UpdateActivity (returning (persist_observed_owned key at_)).

Definition registry_delete (caller : CallerEnv) (key : RouteKey) :
    RouteRegistry St -> result (option RouteData) StoreError * RouteRegistry St :=
  run_mutation caller Delete (returning (delete_owned key)).

End Mutations.

(** ** Lemmas *)

(** The route map without its activity stamps. *)
Definition static_map (m : gmap RouteKey RouteData) : gmap RouteKey (string * gmap string Value) :=
  static_part <$> m.

Definition static_edit (e : Edit) (m : gmap RouteKey (string * gmap string Value)) :
    gmap RouteKey (string * gmap string Value) :=
  match e with
  | EditReplace key data => <[key := static_part data]> m
  | EditActivity _ _ => m
  | EditRemove key => delete key m
  end.

Lemma apply_edit_wf e r : routes_wf r -> routes_wf (apply_edit e r).
Proof. destruct e; simpl; eauto with proxy. Qed.

#[export] Hint Resolve apply_edit_wf : proxy.

Lemma static_update_activity k at_ r :
  static_map (by_key (update_activity k at_ r)) = static_map (by_key r).
Proof.
  apply map_eq. intros x. unfold static_map. rewrite !lookup_fmap, update_activity_by_key.
  case_decide; subst; [|done]. by destruct (by_key r !! k).
Qed.

Lemma static_apply_edit e r :
  static_map (by_key (apply_edit e r)) = static_edit e (static_map (by_key r)).
Proof.
  destruct e; simpl; [|apply static_update_activity|apply fmap_delete].
  unfold static_map. rewrite fmap_insert. by case_match.
Qed.

Lemma static_alter_activity k at_ m : static_map (alter (set_last_activity at_) k m) = static_map m.
Proof.
  apply map_eq. intros x. unfold static_map. rewrite !lookup_fmap, lookup_alter.
  case_decide; subst; [|done]. by destruct (m !! _).
Qed.

(** Published stamps never decrease while a route stays published. *)
Lemma apply_edit_activity e r k d d' :
  by_key r !! k = Some d -> by_key (apply_edit e r) !! k = Some d' ->
  last_activity d <= last_activity d'.
Proof.
  intros Hd. destruct e as [key data|key at_|key]; simpl.
  - unfold replace_preserving_activity, replace; simpl. destruct (decide (k = key)) as [->|].
    + rewrite Hd, lookup_insert_eq. intros [= <-]. simpl. lia.
    + rewrite lookup_insert_ne by done. rewrite Hd. intros [= <-]. lia.
  - rewrite update_activity_by_key. case_decide; subst.
    + rewrite Hd. intros [= <-]. simpl. lia.
    + rewrite Hd. intros [= <-]. lia.
  - destruct (decide (k = key)) as [->|].
    + by rewrite lookup_delete_eq.
    + rewrite lookup_delete_ne by done. rewrite Hd. intros [= <-]. lia.
Qed.
