(* ===== verification/RegistryConc.v ===== *)
(** * Concurrent mutations of the route registry (src/route_table.rs)

    [run_mutation] tasks, lock-free [observe_activity] callers and
    [seal_and_drain] callers as a step relation: every access to the tracker
    mutex, the snapshot cell, the mutation lock and the backend is one step.
    The backend is the abstract [store_step] of Store.v, so every implementation
    of [StoreContract] is covered.  Invariants are by rule induction on
    [reachable]; [Simulation] shows the operations of Registry.v to be runs of
    this system. *)

From S2P Require Import Prelude RustStr Route RouteTable Store Tracker Registry.

(** ** Tasks *)

(** The five futures handed to [run_mutation]. *)
Inductive Mutation : Type :=
| MAdd (key : RouteKey) (target : string) (extra : gmap string Value)
| MPut (key : RouteKey) (data : RouteData)
| MUpdate (key : RouteKey) (at_ : DateTime)
| MPersist (key : RouteKey) (at_ : DateTime)
| MDelete (key : RouteKey).

Definition operation_of (m : Mutation) : MutationOperation :=
  match m with
  | MAdd _ _ _ => Add
  | MPut _ _ => Put
  | MUpdate _ _ | MPersist _ _ => UpdateActivity
  | MDelete _ => Delete
  end.

(** The body up to its store call; [None] is the early return of
    [persist_observed_activity]. *)
Definition call_of (m : Mutation) (v : View) : option StoreCall :=
  match m with
  | MAdd key t e => Some (CallAdd key t e)
  | MPut key data => Some (CallPutPreserving key data)
  | MUpdate key at_ => Some (CallUpdateActivity key at_)
  | MPersist key at_ =>
      match get key v with
      | None => None
      | Some current => Some (CallUpdateActivity key (Z.max (last_activity current) at_))
      end
  | MDelete key => Some (CallDelete key)
  end.

(** The floor a store call may sample while it commits. *)
Definition call_floor (c : StoreCall) (v : View) : option DateTime :=
  match c with
  | CallAdd key _ _ | CallPutPreserving key _ => current (activity_floor key) v
  | _ => None
  end.

(** What is published after a successful call. *)
Definition edit_of (m : Mutation) (r : StoreReply) : option Edit :=
  match m, r with
  | MAdd key _ _, ReplyRecord d | MPut key _, ReplyRecord d => Some (EditReplace key d)
  | MUpdate key at_, _ => Some (EditActivity key at_)
  | MDelete key, _ => Some (EditRemove key)
  | _, _ => None
  end.

(** Where a spawned task stands.  [PReplied None] and [PAck None] follow a
    caught panic; [PUnlock] is past [active.finish]; [PDropping] is a task the
    runtime cancelled, after its lock guard and before its [ActiveMutation] was
    dropped. *)
Inductive Phase : Type :=
| PWaiting
| PLocked
| PRunning
| PCalling (c : StoreCall)
| PPublish (e : Edit) (reply : StoreReply)
| PLoaded (e : Edit) (reply : StoreReply) (version : nat) (loaded : OrderedRoutes)
| PReplied (res : option (result StoreReply StoreError))
| PAck (res : option (result StoreReply StoreError))
| PUnlock
| PDropping.

Record Task : Type := mkTask { t_mutation : Mutation; t_phase : Phase }.

(** A caller inside [observe_activity]. *)
Inductive ObserverPhase : Type :=
| OLoop
| OLoaded (version : nat) (loaded : OrderedRoutes).

Record Observer : Type := mkObserver {
  o_key : RouteKey; o_at : DateTime; o_phase : ObserverPhase }.

Definition holds_lock (p : Phase) : bool :=
  match p with PWaiting | PDropping => false | _ => true end.

(** The task's [ActiveMutation] is not yet released. *)
Definition counted (p : Phase) : bool := match p with PUnlock => false | _ => true end.

(** The body passed the fence and has not returned. *)
Definition in_body (p : Phase) : bool :=
  match p with PRunning | PCalling _ | PPublish _ _ | PLoaded _ _ _ _ => true | _ => false end.

(** ** Worlds *)

Record World : Type := mkWorld {
  w_contents : gmap RouteKey RouteData;   (** what the backend holds *)
  w_version : nat;                        (** identity of the published [Arc] *)
  w_snapshot : RouteSnapshot;
  w_tracker : MutationTrackerState;
  w_lock : option nat;
  w_tasks : gmap nat Task;
  w_observers : gmap nat Observer;
  w_torn : bool                           (** a store call was cancelled midway *)
}.

Definition w_view (w : World) : View :=
  {| v_snapshot := w_snapshot w; v_tracker := w_tracker w |}.

Definition w_routes (w : World) : OrderedRoutes := routes (w_snapshot w).

Definition set_contents m w := mkWorld m (w_version w) (w_snapshot w) (w_tracker w) (w_lock w)
  (w_tasks w) (w_observers w) (w_torn w).
Definition set_tracker t w := mkWorld (w_contents w) (w_version w) (w_snapshot w) t (w_lock w)
  (w_tasks w) (w_observers w) (w_torn w).
Definition set_lock l w := mkWorld (w_contents w) (w_version w) (w_snapshot w) (w_tracker w) l
  (w_tasks w) (w_observers w) (w_torn w).
Definition set_tasks ts w := mkWorld (w_contents w) (w_version w) (w_snapshot w) (w_tracker w)
  (w_lock w) ts (w_observers w) (w_torn w).
Definition set_observers os w := mkWorld (w_contents w) (w_version w) (w_snapshot w) (w_tracker w)
  (w_lock w) (w_tasks w) os (w_torn w).
Definition set_torn w := mkWorld (w_contents w) (w_version w) (w_snapshot w) (w_tracker w)
  (w_lock w) (w_tasks w) (w_observers w) true.

Definition set_phase (i : nat) (p : Phase) (w : World) : World :=
  set_tasks (alter (fun t => mkTask (t_mutation t) p) i (w_tasks w)) w.
Definition drop_task (i : nat) (w : World) : World := set_tasks (delete i (w_tasks w)) w.

(** A successful [compare_and_swap]: a fresh [Arc] built from the edited routes. *)
Definition publish (r : OrderedRoutes) (w : World) : World :=
  mkWorld (w_contents w) (S (w_version w)) (from_ordered_routes r) (w_tracker w) (w_lock w)
    (w_tasks w) (w_observers w) (w_torn w).

Definition initial (m : gmap RouteKey RouteData) : World :=
  mkWorld m 0 (from_routes m) tracker_default None ∅ ∅ false.

Definition detached_failure (m : Mutation) (detached : bool)
    (res : option (result StoreReply StoreError)) : option DetachedMutationFailure :=
  match res with
  | Some (Err e) => if detached then Some (mkFailure (operation_of m) e) else None
  | _ => None
  end.

Definition detached_panic (m : Mutation) (detached : bool)
    (res : option (result StoreReply StoreError)) : option DetachedMutationPanic :=
  match res with
  | None => if detached then Some (mkPanic (operation_of m) (panic_message (operation_of m))) else None
  | _ => None
  end.

Definition seal_after (res : option (result StoreReply StoreError)) (t : MutationTrackerState) :
    MutationTrackerState :=
  match res with
  | Some (Err (Indeterminate _)) => indeterminate_seal t
  | _ => t
  end.

(** Where the body goes when its store call answers. *)
Definition after_call (m : Mutation) (res : result StoreReply StoreError) : Phase :=
  match res with
  | Err e => PReplied (Some (Err e))
  | Ok reply =>
      match edit_of m reply with
      | Some e => PPublish e reply
      | None => PReplied (Some (Ok reply))
      end
  end.

(** ** Steps *)

Definition task_at (w : World) (i : nat) (m : Mutation) (p : Phase) : Prop :=
  w_tasks w !! i = Some (mkTask m p).

(** The steps of one spawned task [i]. *)
Inductive task_step (i : nat) (w : World) : World -> Prop :=
| step_acquire m :
    task_at w i m PWaiting -> w_lock w = None ->
    task_step i w (set_lock (Some i) (set_phase i PLocked w))
| step_fence_pass m :
    task_at w i m PLocked -> reject_if_terminally_failed (w_tracker w) = Ok tt ->
    task_step i w (set_phase i PRunning w)
| step_fence_reject m e :
    task_at w i m PLocked -> reject_if_terminally_failed (w_tracker w) = Err e ->
    task_step i w (set_phase i (PReplied (Some (Err e))) w)
| step_call m c :
    task_at w i m PRunning -> call_of m (w_view w) = Some c ->
    task_step i w (set_phase i (PCalling c) w)
| step_skip m :
    task_at w i m PRunning -> call_of m (w_view w) = None ->
    task_step i w (set_phase i (PReplied (Some (Ok ReplyUnit))) w)
| step_store m c res contents' :
    task_at w i m (PCalling c) ->
    store_step (call_floor c (w_view w)) (w_contents w) c res contents' ->
    task_step i w (set_contents contents' (set_phase i (after_call m res) w))
| step_panic m p contents' :
    task_at w i m p -> in_body p = true -> w_contents w = contents' \/ (exists c, p = PCalling c) ->
    task_step i w (set_contents contents'
      (set_tracker (panic_seal (w_tracker w)) (set_phase i (PReplied None) w)))
| step_load m e reply :
    task_at w i m (PPublish e reply) ->
    task_step i w (set_phase i (PLoaded e reply (w_version w) (w_routes w)) w)
| step_cas m e reply version loaded :
    task_at w i m (PLoaded e reply version loaded) -> version = w_version w ->
    task_step i w (publish (apply_edit e loaded) (set_phase i (PReplied (Some (Ok reply))) w))
| step_cas_fail m e reply version loaded :
    task_at w i m (PLoaded e reply version loaded) -> version <> w_version w ->
    task_step i w (set_phase i (PPublish e reply) w)
| step_reply m res :
    task_at w i m (PReplied res) ->
    task_step i w (set_tracker (seal_after res (w_tracker w)) (set_phase i (PAck res) w))
| step_finish m res detached :
    task_at w i m (PAck res) ->
    task_step i w (set_tracker
      (finish (detached_failure m detached res) (detached_panic m detached res) (w_tracker w))
      (set_phase i PUnlock w))
| step_unlock m :
    task_at w i m PUnlock -> task_step i w (set_lock None (drop_task i w))
| step_drop m :
    task_at w i m PDropping ->
    task_step i w (set_tracker (active_drop (mkActive (operation_of m) false) (w_tracker w))
      (drop_task i w)).

(** The runtime cancels a task at one of its awaits: the lock, the store call or
    the acknowledgement.  A cancelled call may have committed. *)
Inductive cancel_step (i : nat) (w : World) : World -> Prop :=
| cancel_waiting m :
    task_at w i m PWaiting -> cancel_step i w (set_phase i PDropping w)
| cancel_calling m c res contents' :
    task_at w i m (PCalling c) ->
    store_step (call_floor c (w_view w)) (w_contents w) c res contents' ->
    cancel_step i w (set_torn (set_contents contents' (set_lock None (set_phase i PDropping w))))
| cancel_ack m res :
    task_at w i m (PAck res) -> cancel_step i w (set_lock None (set_phase i PDropping w)).

Inductive step (w : World) : World -> Prop :=
| step_begin i m active t :
    w_tasks w !! i = None -> Z.of_nat (size (w_tasks w)) < usize_max ->
    begin (operation_of m) (w_tracker w) = Ok (active, t) ->
    step w (set_tracker t (set_tasks (<[i := mkTask m PWaiting]> (w_tasks w)) w))
| step_begin_no_runtime m active t :
    Z.of_nat (size (w_tasks w)) < usize_max ->
    begin (operation_of m) (w_tracker w) = Ok (active, t) ->
    step w (set_tracker (active_finish active None None t).2 w)
| step_task i w' : task_step i w w' -> step w w'
| step_cancel i w' : cancel_step i w w' -> step w w'
| step_observe j key at_ :
    w_observers w !! j = None -> is_indeterminate (w_tracker w) = false ->
    step w (set_observers (<[j := mkObserver key at_ OLoop]> (w_observers w)) w)
| step_observe_load j key at_ :
    w_observers w !! j = Some (mkObserver key at_ OLoop) ->
    observes key at_ (w_routes w) = true ->
    step w (set_observers
      (<[j := mkObserver key at_ (OLoaded (w_version w) (w_routes w))]> (w_observers w)) w)
| step_observe_stale j key at_ :
    w_observers w !! j = Some (mkObserver key at_ OLoop) ->
    observes key at_ (w_routes w) = false ->
    step w (set_observers (delete j (w_observers w)) w)
| step_observe_cas j key at_ version loaded :
    w_observers w !! j = Some (mkObserver key at_ (OLoaded version loaded)) ->
    version = w_version w ->
    step w (publish (update_activity key at_ loaded)
      (set_observers (delete j (w_observers w)) w))
| step_observe_cas_fail j key at_ version loaded :
    w_observers w !! j = Some (mkObserver key at_ (OLoaded version loaded)) ->
    version <> w_version w ->
    step w (set_observers (<[j := mkObserver key at_ OLoop]> (w_observers w)) w)
| step_drain_start : step w (set_tracker (drain_start (w_tracker w)).2 w)
| step_drain_check : step w (set_tracker (drain_check (w_tracker w)).2 w)
| step_drain_deadline : step w (set_tracker (drain_deadline (w_tracker w)).2 w).

Definition reachable (w : World) : Prop := exists m, rtc step (initial m) w.

(** ** Invariant: exclusion and accounting *)

Definition live (t : Task) : bool := counted (t_phase t).
Definition count_live (ts : gmap nat Task) : nat :=
  size (filter (fun it : nat * Task => live it.2 = true) ts).

Definition lock_inv (w : World) : Prop :=
  forall i, w_lock w = Some i <->
    exists t, w_tasks w !! i = Some t /\ holds_lock (t_phase t) = true.

Record structure_inv (w : World) : Prop := {
  inv_snapshot : snapshot_wf (w_snapshot w);
  inv_tracker : tracker_wf (w_tracker w);
  inv_bound : Z.of_nat (size (w_tasks w)) <= usize_max;
  inv_active : active (w_tracker w) = Z.of_nat (count_live (w_tasks w));
  inv_lock : lock_inv w;
  inv_loaded i m e r v l : task_at w i m (PLoaded e r v l) ->
    (v <= w_version w)%nat /\ routes_wf l /\ (v = w_version w -> l = w_routes w);
  inv_observed j k a v l : w_observers w !! j = Some (mkObserver k a (OLoaded v l)) ->
    (v <= w_version w)%nat /\ routes_wf l /\ (v = w_version w -> l = w_routes w)
}.

(** *** Counting *)

Lemma set_phase_tasks w i m p p' :
  task_at w i m p -> w_tasks (set_phase i p' w) = <[i := mkTask m p']> (w_tasks w).
Proof.
  intros Ht. simpl. apply map_eq. intros j. rewrite lookup_alter.
  destruct (decide (i = j)) as [<-|].
  - rewrite lookup_insert_eq. by rewrite Ht.
  - by rewrite lookup_insert_ne.
Qed.

Lemma count_live_insert ts i t :
  ts !! i = None -> count_live (<[i := t]> ts) = (count_live ts + (if live t then 1 else 0))%nat.
Proof.
  intros Hi. unfold count_live. destruct (live t) eqn:Hl.
  - rewrite map_filter_insert_True by done.
    rewrite map_size_insert_None; [lia|]. apply map_lookup_filter_None. by left.
  - rewrite map_filter_insert_False by (simpl; congruence). rewrite delete_id by done. lia.
Qed.

Lemma count_live_delete ts i t :
  ts !! i = Some t -> count_live ts = (count_live (delete i ts) + (if live t then 1 else 0))%nat.
Proof.
  intros Hi. rewrite <- (insert_delete_id _ _ _ Hi) at 1.
  apply count_live_insert, lookup_delete_eq.
Qed.

Lemma count_live_update ts i t t' :
  ts !! i = Some t ->
  (count_live (<[i := t']> ts) + (if live t then 1 else 0)
    = count_live ts + (if live t' then 1 else 0))%nat.
Proof.
  intros Hi. rewrite <- insert_delete_eq.
  rewrite count_live_insert by apply lookup_delete_eq.
  rewrite (count_live_delete _ _ _ Hi). lia.
Qed.

Lemma count_live_le ts : (count_live ts <= size ts)%nat.
Proof.
  unfold count_live. apply map_subseteq_size, map_filter_subseteq.
Qed.

(** *** Lock ownership *)

Lemma lock_inv_update w w' i m p p' :
  lock_inv w -> task_at w i m p -> w_tasks w' = <[i := mkTask m p']> (w_tasks w) ->
  match holds_lock p, holds_lock p' with
  | true, true | false, false => w_lock w' = w_lock w
  | false, true => w_lock w = None /\ w_lock w' = Some i
  | true, false => w_lock w' = None
  end ->
  lock_inv w'.
Proof.
  intros Hinv Ht Hts Hl j. rewrite Hts.
  assert (Hi := proj2 (Hinv i)). assert (Hj := Hinv j).
  destruct (decide (i = j)) as [<-|Hne].
  - rewrite lookup_insert_eq. destruct (holds_lock p) eqn:Hp, (holds_lock p') eqn:Hp'.
    + rewrite Hl. split; intros; [by eexists|]. apply Hi. eexists. split; [apply Ht|done].
    + rewrite Hl. split; [done|]. intros (? & [= <-] & ?). simpl in *. congruence.
    + destruct Hl as [_ ->]. split; intros; [by eexists|done].
    + rewrite Hl. split; [|intros (? & [= <-] & ?); simpl in *; congruence].
      intros Hw. destruct (proj1 Hj Hw) as (t & Hti & Hh). rewrite Ht in Hti. simplify_eq. simpl in Hh.
      congruence.
  - rewrite lookup_insert_ne by done. rewrite <- Hj.
    destruct (holds_lock p) eqn:Hp, (holds_lock p') eqn:Hp'; try (by rewrite Hl).
    + rewrite Hl. assert (w_lock w = Some i) as -> by (apply Hi; eauto). naive_solver.
    + destruct Hl as [-> ->]. naive_solver.
Qed.

Lemma lock_inv_remove w w' i m p :
  lock_inv w -> task_at w i m p -> w_tasks w' = delete i (w_tasks w) ->
  w_lock w' = (if holds_lock p then None else w_lock w) -> lock_inv w'.
Proof.
  intros Hinv Ht Hts Hl j. rewrite Hts.
  assert (Hi := Hinv i). assert (Hj := Hinv j).
  destruct (decide (i = j)) as [<-|Hne].
  - rewrite lookup_delete_eq. split; [|naive_solver]. rewrite Hl.
    destruct (holds_lock p) eqn:Hp; [done|]. intros (t & Hti & Hh)%Hi.
    rewrite Ht in Hti. simplify_eq. simpl in Hh. congruence.
  - rewrite lookup_delete_ne by done. rewrite <- Hj, Hl.
    destruct (holds_lock p) eqn:Hp; [|done].
    assert (w_lock w = Some i) as -> by (apply Hi; eauto). naive_solver.
Qed.

Lemma lock_inv_unique w i j m n p q :
  lock_inv w -> task_at w i m p -> task_at w j n q ->
  holds_lock p = true -> holds_lock q = true -> i = j.
Proof.
  intros Hinv Hi Hj Hp Hq.
  assert (w_lock w = Some i) by (apply Hinv; eauto).
  assert (w_lock w = Some j) by (apply Hinv; eauto). congruence.
Qed.

(** *** Preservation *)

(** The cell is untouched, or swapped for a well-formed fresh snapshot. *)
Definition cell_step (w w' : World) : Prop :=
  (w_version w' = w_version w /\ w_snapshot w' = w_snapshot w) \/
  (w_version w' = S (w_version w) /\ snapshot_wf (w_snapshot w')).

Definition cell_seen (w : World) (v : nat) (l : OrderedRoutes) : Prop :=
  (v <= w_version w)%nat /\ routes_wf l /\ (v = w_version w -> l = w_routes w).

Lemma cell_seen_step w w' v l : cell_step w w' -> cell_seen w v l -> cell_seen w' v l.
Proof.
  intros [[Hv Hs]|[Hv _]] (Hle & Hwf & Heq); unfold cell_seen, w_routes; rewrite ?Hs, Hv.
  - done.
  - split_and!; [lia|done|lia].
Qed.

Lemma structure_update w w' i m p p' :
  structure_inv w -> task_at w i m p ->
  w_tasks w' = <[i := mkTask m p']> (w_tasks w) -> w_observers w' = w_observers w ->
  cell_step w w' -> tracker_wf (w_tracker w') ->
  active (w_tracker w') + (if counted p then 1 else 0)
    = active (w_tracker w) + (if counted p' then 1 else 0) ->
  match holds_lock p, holds_lock p' with
  | true, true | false, false => w_lock w' = w_lock w
  | false, true => w_lock w = None /\ w_lock w' = Some i
  | true, false => w_lock w' = None
  end ->
  (forall e r v l, p' = PLoaded e r v l -> cell_seen w v l) ->
  structure_inv w'.
Proof.
  intros [Hs Ht Hb Ha Hl Hld Ho] Hi Hts Hos Hc Htr Hact Hlk Hp'. split.
  - destruct Hc as [[_ ->]|[_ ?]]; done.
  - done.
  - rewrite Hts, map_size_insert_Some; [done|]. by rewrite Hi.
  - rewrite Hts. pose proof (count_live_update _ i (mkTask m p) (mkTask m p') Hi) as Hcl.
    unfold live in Hcl; simpl in Hcl. destruct (counted p), (counted p'); lia.
  - by eapply lock_inv_update.
  - intros j n e r v l. unfold task_at. rewrite Hts. intros Hj. apply (cell_seen_step w); [done|].
    destruct (decide (i = j)) as [<-|].
    + rewrite lookup_insert_eq in Hj. simplify_eq. eauto.
    + rewrite lookup_insert_ne in Hj by done. eapply Hld, Hj.
  - intros j k a v l. rewrite Hos. intros Hj. apply (cell_seen_step w); [done|]. eapply Ho, Hj.
Qed.

Lemma structure_remove w w' i m p :
  structure_inv w -> task_at w i m p ->
  w_tasks w' = delete i (w_tasks w) -> w_observers w' = w_observers w ->
  w_version w' = w_version w -> w_snapshot w' = w_snapshot w -> tracker_wf (w_tracker w') ->
  active (w_tracker w') + (if counted p then 1 else 0) = active (w_tracker w) ->
  w_lock w' = (if holds_lock p then None else w_lock w) ->
  structure_inv w'.
Proof.
  intros [Hs Ht Hb Ha Hl Hld Ho] Hi Hts Hos Hv Hsn Htr Hact Hlk.
  assert (Hc : cell_step w w') by (by left). split.
  - by rewrite Hsn.
  - done.
  - rewrite Hts, map_size_delete, Hi. lia.
  - rewrite Hts. pose proof (count_live_delete _ i _ Hi) as Hcl.
    unfold live in Hcl; simpl in Hcl. destruct (counted p); lia.
  - by eapply lock_inv_remove.
  - intros j n e r v l. unfold task_at. rewrite Hts. intros [_ Hj]%lookup_delete_Some.
    apply (cell_seen_step w); [done|]. eapply Hld, Hj.
  - intros j k a v l. rewrite Hos. intros Hj. apply (cell_seen_step w); [done|]. eapply Ho, Hj.
Qed.

(** Steps that leave the tasks and the lock alone. *)
Lemma structure_frame w w' :
  structure_inv w -> w_tasks w' = w_tasks w -> w_lock w' = w_lock w -> cell_step w w' ->
  tracker_wf (w_tracker w') -> active (w_tracker w') = active (w_tracker w) ->
  (forall j k a v l, w_observers w' !! j = Some (mkObserver k a (OLoaded v l)) ->
     w_observers w !! j = Some (mkObserver k a (OLoaded v l)) \/ cell_seen w v l) ->
  structure_inv w'.
Proof.
  intros [Hs Ht Hb Ha Hl Hld Ho] Hts Hlk Hc Htr Hact Hos. split.
  - destruct Hc as [[_ ->]|[_ ?]]; done.
  - done.
  - by rewrite Hts.
  - by rewrite Hts, Hact.
  - intros i. by rewrite Hlk, Hts.
  - intros j n e r v l. unfold task_at. rewrite Hts. intros Hj.
    apply (cell_seen_step w); [done|]. eapply Hld, Hj.
  - intros j k a v l [Hj|Hj]%Hos; apply (cell_seen_step w); try done. eapply Ho, Hj.
Qed.

Lemma structure_active_pos w i m p :
  structure_inv w -> task_at w i m p -> counted p = true ->
  1 <= active (w_tracker w) <= usize_max.
Proof.
  intros Hinv Hi Hp. rewrite (inv_active w Hinv).
  pose proof (count_live_delete _ i _ Hi) as Hc. unfold live in Hc; simpl in Hc. rewrite Hp in Hc.
  pose proof (count_live_le (w_tasks w)). pose proof (inv_bound w Hinv). lia.
Qed.

Lemma active_after_finish w i m p f pn :
  structure_inv w -> task_at w i m p -> counted p = true ->
  active (finish f pn (w_tracker w)) = active (w_tracker w) - 1.
Proof.
  intros Hinv Hi Hp. rewrite finish_active. unfold saturating_sub.
  pose proof (structure_active_pos w i m p Hinv Hi Hp). lia.
Qed.

Lemma cell_seen_now w : structure_inv w -> cell_seen w (w_version w) (w_routes w).
Proof. intros [[Hs _]]. split_and!; done || lia. Qed.

#[export] Hint Resolve cell_seen_now : proxy.

Lemma seal_after_active res t : active (seal_after res t) = active t.
Proof. by destruct res as [[|[]]|]. Qed.

Lemma seal_after_wf res t : tracker_wf t -> tracker_wf (seal_after res t).
Proof. by destruct res as [[|[]]|]. Qed.

#[export] Hint Resolve seal_after_wf : proxy.

Lemma structure_task_step i w w' : structure_inv w -> task_step i w w' -> structure_inv w'.
Proof.
  intros Hinv Hstep. pose proof (inv_tracker w Hinv) as Htr. pose proof (inv_snapshot w Hinv) as Hs.
  destruct Hstep as
    [m Hi Hl|m Hi Hf|m e Hi Hf|m c Hi Hc|m Hi Hc|m c res cs Hi Hst|m p cs Hi Hp Hcs|m e r Hi
    |m e r v l Hi Hv|m e r v l Hi Hv|m res Hi|m res d Hi|m Hi|m Hi].
  all: try (eapply structure_update;
    [exact Hinv|exact Hi|by erewrite <- set_phase_tasks|done|by left|simpl; eauto with proxy
    |simpl; by rewrite ?seal_after_active|by simpl|]).
  all: try by intros.
  - eapply structure_update; [exact Hinv|exact Hi|by erewrite <- set_phase_tasks|done|by left|done
      |unfold after_call; by repeat case_match|unfold after_call; by repeat case_match|].
    unfold after_call. by repeat case_match.
  - eapply structure_update; [exact Hinv|exact Hi|by erewrite <- set_phase_tasks|done|by left|done
      |by destruct p|by destruct p|done].
  - intros ???? [= -> -> <- <-]. by apply cell_seen_now.
  - destruct (inv_loaded w Hinv _ _ _ _ _ _ Hi) as (_ & Hwf & _).
    eapply structure_update; [exact Hinv|exact Hi|by erewrite <- set_phase_tasks|done| |done|done|done|done].
    right. split; [done|]. simpl. eauto with proxy.
  - eapply structure_update; [exact Hinv|exact Hi|by erewrite <- set_phase_tasks|done|by left| | |done|done].
    + simpl. eauto with proxy.
    + cbn [w_tracker set_tracker]. erewrite active_after_finish by done. simpl. lia.
  - eapply structure_remove; [exact Hinv|exact Hi|done|done|done|done|done|simpl; lia|done].
  - eapply structure_remove; [exact Hinv|exact Hi|done|done|done|done| | |done].
    + by apply finish_wf.
    + cbn [w_tracker set_tracker active_drop am_finished]. erewrite active_after_finish by done.
      simpl. lia.
Qed.

Lemma structure_cancel_step i w w' : structure_inv w -> cancel_step i w w' -> structure_inv w'.
Proof.
  intros Hinv Hstep. pose proof (inv_tracker w Hinv) as Htr.
  destruct Hstep; (eapply structure_update;
    [exact Hinv|eassumption|by erewrite <- set_phase_tasks|done|by left|done|done|done|done]).
Qed.

Lemma begin_spec op t am t' :
  begin op t = Ok (am, t') ->
  seal t = Open /\ am = mkActive op false /\ t' = with_active (saturating_add usize_max (active t) 1) t.
Proof. unfold begin. destruct (seal t) eqn:Hs; intros; simplify_eq; done. Qed.

Lemma drain_start_tracker t :
  tracker_wf t -> tracker_wf (drain_start t).2 /\ active (drain_start t).2 = active t.
Proof.
  intros Hwf. unfold drain_start. case_bool_decide; simpl; destruct (active t =? 0); simpl; split; try done;
    by apply (take_outcome_wf false).
Qed.

Lemma drain_check_tracker t :
  tracker_wf t -> tracker_wf (drain_check t).2 /\ active (drain_check t).2 = active t.
Proof.
  intros Hwf. unfold drain_check. destruct (active t =? 0); simpl; split; try done.
  by apply (take_outcome_wf false).
Qed.

Lemma structure_begin w i m am t :
  structure_inv w -> w_tasks w !! i = None -> Z.of_nat (size (w_tasks w)) < usize_max ->
  begin (operation_of m) (w_tracker w) = Ok (am, t) ->
  structure_inv (set_tracker t (set_tasks (<[i := mkTask m PWaiting]> (w_tasks w)) w)).
Proof.
  intros Hinv Hi Hb Hbeg. pose proof (inv_tracker w Hinv) as Htr. pose proof (inv_active w Hinv) as Ha.
  pose proof (count_live_le (w_tasks w)) as Hcl.
  pose proof (begin_wf _ _ _ _ Htr Hbeg) as Hwf'. apply begin_spec in Hbeg as (_ & -> & ->).
  assert (Hact : saturating_add usize_max (active (w_tracker w)) 1 = active (w_tracker w) + 1)
    by (apply saturating_add_exact; lia).
  destruct Hinv as [Hs _ _ _ Hl Hld Ho]. split; try done; simpl.
  - rewrite map_size_insert_None by done. lia.
  - rewrite count_live_insert by done. simpl. lia.
  - intros j. simpl. rewrite (Hl j). split; intros (t & Hjt & Hh).
    + exists t. split; [|done]. rewrite lookup_insert_ne; [done|naive_solver].
    + destruct (decide (i = j)) as [<-|]; [|rewrite lookup_insert_ne in Hjt by done; eauto].
      rewrite lookup_insert_eq in Hjt. simplify_eq.
  - intros j n e r v l Hj. destruct (decide (i = j)) as [<-|].
    + unfold task_at in Hj; simpl in Hj. rewrite lookup_insert_eq in Hj. simplify_eq.
    + unfold task_at in Hj; simpl in Hj. rewrite lookup_insert_ne in Hj by done. eapply Hld, Hj.
Qed.

Lemma structure_step w w' : structure_inv w -> step w w' -> structure_inv w'.
Proof.
  intros Hinv Hstep. pose proof (inv_tracker w Hinv) as Htr. pose proof (inv_active w Hinv) as Ha.
  pose proof (count_live_le (w_tasks w)) as Hcl.
  destruct Hstep as
    [i m am t Hi Hb Hbeg|m am t Hb Hbeg|i w' Hs|i w' Hs|j k a Hj Hind|j k a Hj Hobs|j k a Hj Hobs
    |j k a v l Hj Hv|j k a v l Hj Hv| | | ].
  - by eapply structure_begin.
  - pose proof (begin_wf _ _ _ _ Htr Hbeg) as Hwf'. apply begin_spec in Hbeg as (_ & -> & ->).
    eapply structure_frame; [done|done|done|by left|by apply finish_wf| |naive_solver].
    cbn [w_tracker set_tracker active_finish snd]. rewrite finish_active. cbn [active with_active].
    destruct Htr as [[? ?] _]. rewrite saturating_add_exact by lia. unfold saturating_sub. lia.
  - by eapply structure_task_step.
  - by eapply structure_cancel_step.
  - eapply structure_frame; [done|done|done|by left|done|done|].
    simpl. intros j' ???? Hj'. destruct (decide (j = j')) as [<-|].
    + rewrite lookup_insert_eq in Hj'. simplify_eq.
    + rewrite lookup_insert_ne in Hj' by done. by left.
  - eapply structure_frame; [done|done|done|by left|done|done|].
    simpl. intros j' ???? Hj'. destruct (decide (j = j')) as [<-|].
    + rewrite lookup_insert_eq in Hj'. simplify_eq. right. by apply cell_seen_now.
    + rewrite lookup_insert_ne in Hj' by done. by left.
  - eapply structure_frame; [done|done|done|by left|done|done|].
    simpl. intros j' ???? [_ Hj']%lookup_delete_Some. by left.
  - eapply structure_frame; [done|done|done| |done|done|].
    + right. split; [done|]. simpl. destruct (inv_observed w Hinv _ _ _ _ _ Hj) as (_ & ? & _).
      eauto with proxy.
    + simpl. intros j' ???? [_ Hj']%lookup_delete_Some. by left.
  - eapply structure_frame; [done|done|done|by left|done|done|].
    simpl. intros j' ???? Hj'. destruct (decide (j = j')) as [<-|].
    + rewrite lookup_insert_eq in Hj'. simplify_eq.
    + rewrite lookup_insert_ne in Hj' by done. by left.
  - destruct (drain_start_tracker _ Htr).
    eapply structure_frame; [done|done|done|by left|done|done|naive_solver].
  - destruct (drain_check_tracker _ Htr).
    eapply structure_frame; [done|done|done|by left|done|done|naive_solver].
  - eapply structure_frame; [done|done|done|by left|by apply take_outcome_wf|done|naive_solver].
Qed.

Lemma structure_initial m : structure_inv (initial m).
Proof.
  split; simpl; try done.
  - unfold from_routes. eauto with proxy.
  - eauto with proxy.
  - intros i. simpl. rewrite lookup_empty. naive_solver.
Qed.

(** Rule induction on reachability. *)
Lemma reachable_invariant (P : World -> Prop) :
  (forall m, P (initial m)) ->
  (forall w w', reachable w -> P w -> step w w' -> P w') ->
  forall w, reachable w -> P w.
Proof.
  intros Hi Hs w [m Hr]. revert w Hr. apply (rtc_ind_r P (initial m)); [done|].
  intros y z Hy Hyz HP. eapply Hs; eauto. by exists m.
Qed.

Lemma reachable_structure w : reachable w -> structure_inv w.
Proof.
  apply reachable_invariant; [apply structure_initial|].
  intros. by eapply structure_step.
Qed.

(** ** Invariant: the terminal fence *)

Definition is_terminal (s : MutationSeal) : bool :=
  match s with BackendPanic | SealIndeterminate => true | Open | Shutdown => false end.

Definition indeterminate_reply (p : Phase) : bool :=
  match p with PReplied (Some (Err (Indeterminate _))) => true | _ => false end.

(** Phases no task can be in once the registry failed terminally. *)
Definition fenced (p : Phase) : bool := in_body p || indeterminate_reply p.

Definition fence_inv (w : World) : Prop :=
  forall i m p, task_at w i m p -> fenced p = true -> is_terminal (seal (w_tracker w)) = false.

Lemma fenced_holds_lock p : fenced p = true -> holds_lock p = true.
Proof. by destruct p. Qed.

Lemma task_at_insert w w' i m p j n q :
  w_tasks w' = <[i := mkTask m p]> (w_tasks w) ->
  task_at w' j n q -> (i = j /\ n = m /\ q = p) \/ (i <> j /\ task_at w j n q).
Proof.
  intros Hts. unfold task_at. rewrite Hts. destruct (decide (i = j)) as [<-|].
  - rewrite lookup_insert_eq. intros [= <- <-]. by left.
  - rewrite lookup_insert_ne by done. by right.
Qed.

(** A phase change preserves the fence when the task keeps the seal, or when it
    is the lock holder and leaves the fenced phases. *)
Lemma fence_update w w' i m p p' :
  fence_inv w -> lock_inv w -> task_at w i m p ->
  w_tasks w' = <[i := mkTask m p']> (w_tasks w) ->
  (seal (w_tracker w') = seal (w_tracker w) /\
     (fenced p' = true -> is_terminal (seal (w_tracker w)) = false)) \/
  (holds_lock p = true /\ fenced p' = false) ->
  fence_inv w'.
Proof.
  intros Hf Hl Hi Hts Hcase j n q Hj Hq.
  destruct (task_at_insert _ _ _ _ _ _ _ _ Hts Hj) as [(<- & -> & ->)|[Hne Hj']].
  - destruct Hcase as [[-> ?]|[_ ?]]; [auto|congruence].
  - destruct Hcase as [[-> _]|[Hp _]]; [by eapply Hf|].
    destruct Hne. eapply lock_inv_unique; eauto using fenced_holds_lock.
Qed.

Lemma fence_same_tasks w w' :
  fence_inv w -> (forall j t, w_tasks w' !! j = Some t -> w_tasks w !! j = Some t) ->
  (is_terminal (seal (w_tracker w)) = false -> is_terminal (seal (w_tracker w')) = false) ->
  fence_inv w'.
Proof. intros Hf Hts Hs j n q Hj Hq. apply Hs. eapply Hf; [apply Hts, Hj|done]. Qed.

Lemma drain_start_seal t :
  seal (drain_start t).2 = (if bool_decide (seal t = Open) then Shutdown else seal t).
Proof. unfold drain_start. case_bool_decide; simpl; by destruct (active t =? 0). Qed.

Lemma drain_check_seal t : seal (drain_check t).2 = seal t.
Proof. unfold drain_check. by destruct (active t =? 0). Qed.

Lemma reject_pass t : reject_if_terminally_failed t = Ok tt -> is_terminal (seal t) = false.
Proof. unfold reject_if_terminally_failed. by destruct (seal t). Qed.

Lemma reject_error t e :
  reject_if_terminally_failed t = Err e ->
  is_terminal (seal t) = true /\ is_indeterminate_error e = false.
Proof. unfold reject_if_terminally_failed. destruct (seal t); intros; simplify_eq; done. Qed.

Lemma fence_task_step i w w' :
  structure_inv w -> fence_inv w -> task_step i w w' -> fence_inv w'.
Proof.
  intros Hinv Hf Hstep. pose proof (inv_lock w Hinv) as Hl.
  destruct Hstep as
    [m Hi Hlk|m Hi Hp|m e Hi Hp|m c Hi Hc|m Hi Hc|m c res cs Hi Hst|m p cs Hi Hp Hcs|m e r Hi
    |m e r v l Hi Hv|m e r v l Hi Hv|m res Hi|m res d Hi|m Hi|m Hi].
  all: try (eapply fence_update; [exact Hf|exact Hl|exact Hi|by erewrite <- set_phase_tasks|]).
  all: try (left; split; [done|]; intros Hfp; by eapply Hf).
  all: try by (right; destruct p).
  - left. split; [done|]. intros _. by apply reject_pass.
  - apply reject_error in Hp as [_ He]. left. split; [done|]. intros Hfp. simpl in Hfp.
    unfold fenced, indeterminate_reply in Hfp; simpl in Hfp. by destruct e.
  - right. done.
  - left. simpl. rewrite finish_seal. done.
  - eapply fence_same_tasks; [done| |done]. simpl. by intros ?? [_ ?]%lookup_delete_Some.
  - eapply fence_same_tasks; [done| |].
    + simpl. by intros ?? [_ ?]%lookup_delete_Some.
    + cbn [w_tracker set_tracker active_drop am_finished]. by rewrite finish_seal.
Qed.

Lemma fence_step w w' : structure_inv w -> fence_inv w -> step w w' -> fence_inv w'.
Proof.
  intros Hinv Hf Hstep. pose proof (inv_lock w Hinv) as Hl.
  destruct Hstep as
    [i m am t Hi Hb Hbeg|m am t Hb Hbeg|i w' Hs|i w' Hs|j k a Hj Hind|j k a Hj Hobs|j k a Hj Hobs
    |j k a v l Hj Hv|j k a v l Hj Hv| | | ].
  all: try (eapply fence_same_tasks; [exact Hf|done|done]).
  - apply begin_spec in Hbeg as (Hopen & _ & ->). intros j n q Hj Hq. simpl. by rewrite Hopen.
  - apply begin_spec in Hbeg as (Hopen & _ & ->). eapply fence_same_tasks; [done|done|].
    cbn [w_tracker set_tracker active_finish snd]. by rewrite finish_seal.
  - by eapply fence_task_step.
  - destruct Hs; (eapply fence_update; [exact Hf|exact Hl|eassumption|by erewrite <- set_phase_tasks|]);
      by left.
  - eapply fence_same_tasks; [done|done|]. simpl. rewrite drain_start_seal. by case_bool_decide.
  - eapply fence_same_tasks; [done|done|]. simpl. by rewrite drain_check_seal.
Qed.

Lemma reachable_fence w : reachable w -> fence_inv w.
Proof.
  apply reachable_invariant.
  - intros m i n p Hi. unfold task_at in Hi; simpl in Hi. by rewrite lookup_empty in Hi.
  - intros w1 w2 Hr Hf Hs. eapply fence_step; eauto using reachable_structure.
Qed.

(** *** What a step of a terminally failed registry can do *)

Lemma terminal_step w w' :
  structure_inv w -> fence_inv w -> is_terminal (seal (w_tracker w)) = true -> step w w' ->
  seal (w_tracker w') = seal (w_tracker w) /\
  w_contents w' = w_contents w /\
  static_map (by_key (w_routes w')) = static_map (by_key (w_routes w)) /\
  (forall i, is_Some (w_tasks w' !! i) -> is_Some (w_tasks w !! i)).
Proof.
  intros Hinv Hf Ht Hstep.
  assert (Hno : forall i m p, task_at w i m p -> fenced p = true -> False).
  { intros i m p Hi Hp. pose proof (Hf i m p Hi Hp). congruence. }
  assert (Halter : forall i f j, is_Some (alter f i (w_tasks w) !! j) -> is_Some (w_tasks w !! j))
    by (intros i f j; by rewrite lookup_alter_is_Some).
  assert (Hdel : forall i j, is_Some (delete i (w_tasks w) !! j) -> is_Some (w_tasks w !! j))
    by (intros i j [_ ?]%lookup_delete_is_Some; done).
  destruct Hstep as
    [i m am t Hi Hb Hbeg|m am t Hb Hbeg|i w' Hs|i w' Hs|j k a Hj Hind|j k a Hj Hobs|j k a Hj Hobs
    |j k a v l Hj Hv|j k a v l Hj Hv| | | ]; try done.
  - apply begin_spec in Hbeg as (Hopen & _). by rewrite Hopen in Ht.
  - apply begin_spec in Hbeg as (Hopen & _). by rewrite Hopen in Ht.
  - destruct Hs as
      [m Hi Hlk|m Hi Hp|m e Hi Hp|m c Hi Hc|m Hi Hc|m c res cs Hi Hst|m p cs Hi Hp Hcs|m e r Hi
      |m e r v l Hi Hv|m e r v l Hi Hv|m res Hi|m res d Hi|m Hi|m Hi];
      try (by destruct (Hno _ _ _ Hi)).
    all: try (split_and!; [done|done|done|apply Halter || apply Hdel]).
    + destruct (Hno _ _ _ Hi). unfold fenced. by rewrite Hp.
    + split_and!; [|done|done|apply Halter]. simpl. destruct res as [[|[]]|]; simpl; try done.
      destruct (Hno _ _ _ Hi). done.
    + split_and!; [|done|done|apply Halter]. simpl. by rewrite finish_seal.
    + split_and!; [|done|done|apply Hdel].
      cbn [w_tracker set_tracker active_drop am_finished]. by rewrite finish_seal.
  - destruct Hs as [m Hi|m c res cs Hi Hst|m res Hi]; [| by destruct (Hno _ _ _ Hi)|];
      (split_and!; [done|done|done|apply Halter]).
  - split_and!; try done. destruct (inv_observed w Hinv _ _ _ _ _ Hj) as (_ & _ & Heq).
    simpl. rewrite (Heq Hv). apply static_update_activity.
  - split_and!; try done. simpl. rewrite drain_start_seal. case_bool_decide as Hop; [|done].
    by rewrite Hop in Ht.
  - split_and!; try done. simpl. by rewrite drain_check_seal.
Qed.

(** ** Invariant: the published routes and the backend agree *)

(** The phase of the lock holder. *)
Definition holder (w : World) : option Phase :=
  match w_lock w with Some i => t_phase <$> w_tasks w !! i | None => None end.

(** How the backend relates to the published routes, stamps aside: equal, or one
    pending edit ahead, or unknown while an indeterminate reply is on its way to
    the seal. *)
Definition agrees (p : option Phase) (stored published : gmap RouteKey RouteData) : Prop :=
  match p with
  | Some (PPublish e _) | Some (PLoaded e _ _ _) =>
      static_map stored = static_edit e (static_map published)
  | Some (PReplied (Some (Err (Indeterminate _)))) => True
  | _ => static_map stored = static_map published
  end.

Definition calls_inv (w : World) : Prop :=
  forall i m c, task_at w i m (PCalling c) -> exists v, call_of m v = Some c.

Definition coherent (w : World) : Prop :=
  w_torn w = false -> is_terminal (seal (w_tracker w)) = false ->
  agrees (holder w) (w_contents w) (by_key (w_routes w)).

Lemma holder_at w i m p :
  lock_inv w -> task_at w i m p -> holds_lock p = true -> holder w = Some p.
Proof.
  intros Hl Hi Hp. assert (Hw : w_lock w = Some i) by (apply Hl; eauto).
  unfold holder. by rewrite Hw, Hi.
Qed.

Lemma commits_static m v c fl cs r cs' :
  call_of m v = Some c -> commits fl cs c r cs' ->
  static_map cs' = match edit_of m r with
                   | Some e => static_edit e (static_map cs)
                   | None => static_map cs
                   end.
Proof.
  intros Hc Hcm. unfold static_map.
  destruct m; simpl in Hc; try case_hyp Hc; simplify_eq; inversion Hcm; simplify_eq; simpl.
  - by rewrite fmap_insert.
  - by rewrite fmap_insert.
  - apply static_alter_activity.
  - apply static_alter_activity.
  - by rewrite fmap_delete.
Qed.

Lemma store_step_agrees m v c fl cs res cs' published :
  call_of m v = Some c -> store_step fl cs c res cs' ->
  static_map cs = static_map published ->
  agrees (Some (after_call m res)) cs' published.
Proof.
  intros Hc Hst Heq. destruct Hst as [r cs' Hcm|e He|op|op r cs' Hcm]; simpl; try done.
  - pose proof (commits_static _ _ _ _ _ _ _ Hc Hcm) as Hs. rewrite Heq in Hs.
    by destruct (edit_of m r).
  - by destruct e.
Qed.

Lemma calls_task_step i w w' : calls_inv w -> task_step i w w' -> calls_inv w'.
Proof.
  intros Hc Hstep. destruct Hstep as
    [m Hi Hlk|m Hi Hp|m e Hi Hp|m c Hi Hcall|m Hi Hcall|m c res cs Hi Hst|m p cs Hi Hp Hcs|m e r Hi
    |m e r v l Hi Hv|m e r v l Hi Hv|m res Hi|m res d Hi|m Hi|m Hi]; intros j n cc Hj.
  all: try (destruct (task_at_insert w _ _ _ _ _ _ _ (set_phase_tasks _ _ _ _ _ Hi) Hj)
    as [(<- & -> & Heq)|[_ Hj']]; [simplify_eq|by eapply Hc]; eauto).
  - unfold after_call in Heq. by repeat case_match.
  - unfold task_at in Hj; simpl in Hj. apply lookup_delete_Some in Hj as [_ Hj]. by eapply Hc.
  - unfold task_at in Hj; simpl in Hj. apply lookup_delete_Some in Hj as [_ Hj]. by eapply Hc.
Qed.

Lemma calls_step w w' : calls_inv w -> step w w' -> calls_inv w'.
Proof.
  intros Hc Hstep. destruct Hstep as
    [i m am t Hi Hb Hbeg|m am t Hb Hbeg|i w' Hs|i w' Hs| | | | | | | | ]; try exact Hc.
  - intros j n c Hj. eapply task_at_insert in Hj; [|done]. destruct Hj
      as [(<- & -> & Heq)|[_ Hj']]; [done|by eapply Hc].
  - by eapply calls_task_step.
  - destruct Hs as [m Hi|m c res cs Hi Hst|m res Hi]; intros j n c' Hj;
      destruct (task_at_insert w _ _ _ _ _ _ _ (set_phase_tasks _ _ _ _ _ Hi) Hj)
      as [(<- & -> & Heq)|[_ Hj']]; try done; by eapply Hc.
Qed.

Lemma agrees_static p cs ro ro' :
  static_map ro = static_map ro' -> agrees p cs ro -> agrees p cs ro'.
Proof. intros Heq. unfold agrees. by rewrite Heq. Qed.

Lemma coherent_task_step i w w' :
  structure_inv w -> structure_inv w' -> calls_inv w ->
  coherent w -> task_step i w w' -> coherent w'.
Proof.
  intros Hinv Hinv' Hcalls Hco Hstep Htorn Hnt.
  pose proof (inv_lock w Hinv) as Hl. pose proof (inv_lock w' Hinv') as Hl'.
  assert (Hat : forall m p p', task_at w i m p -> task_at (set_phase i p' w) i m p').
  { intros m p p' Hi. unfold task_at. erewrite set_phase_tasks by done. apply lookup_insert_eq. }
  destruct Hstep as
    [m Hi Hlk|m Hi Hp|m e Hi Hp|m c Hi Hc|m Hi Hc|m c res cs Hi Hst|m p cs Hi Hp Hcs|m e r Hi
    |m e r v l Hi Hv|m e r v l Hi Hv|m res Hi|m res d Hi|m Hi|m Hi].
  all: try (assert (Hh := holder_at _ _ _ _ Hl Hi eq_refl)).
  all: try (rewrite (holder_at _ _ _ _ Hl' (Hat _ _ _ Hi) eq_refl)).
  all: try (specialize (Hco Htorn Hnt); rewrite Hh in Hco; exact Hco).
  - specialize (Hco Htorn Hnt). unfold holder in Hco. rewrite Hlk in Hco. exact Hco.
  - specialize (Hco Htorn Hnt). rewrite Hh in Hco. apply reject_error in Hp as [_ He].
    destruct e; simpl in *; done.
  - specialize (Hco Htorn Hnt). rewrite Hh in Hco.
    destruct (Hcalls _ _ _ Hi) as [v Hv].
    rewrite (holder_at _ _ _ _ Hl' (Hat _ _ (after_call m res) Hi)).
    + by eapply store_step_agrees.
    + unfold after_call. by repeat case_match.
  - done.
  - specialize (Hco Htorn Hnt). rewrite Hh in Hco. simpl in *.
    destruct (inv_loaded w Hinv _ _ _ _ _ _ Hi) as (_ & _ & Heq). rewrite (Heq Hv).
    unfold w_routes at 1. simpl. by rewrite static_apply_edit.
  - assert (Hsame : w_tracker w = seal_after res (w_tracker w)).
    { simpl in Hnt. by destruct res as [[|[]]|]. }
    simpl in Hnt. rewrite <- Hsame in Hnt. specialize (Hco Htorn Hnt). rewrite Hh in Hco.
    destruct res as [[|[]]|]; simpl in *; try done. by rewrite Hsame in Hnt.
  - specialize (Hco Htorn). simpl in Hnt. rewrite finish_seal in Hnt. specialize (Hco Hnt).
    rewrite Hh in Hco. exact Hco.
  - cbn [w_tracker set_tracker active_drop am_finished] in Hnt. rewrite finish_seal in Hnt.
    specialize (Hco Htorn Hnt). replace (holder _) with (holder w); [exact Hco|].
    unfold holder. simpl. destruct (w_lock w) as [j|] eqn:Hj; [|done].
    destruct (proj1 (Hl j) Hj) as (t & Htj & Hh). rewrite lookup_delete_ne; [done|].
    intros ->. rewrite Hi in Htj. by simplify_eq.
Qed.

Lemma holder_insert_other w i t p :
  lock_inv w -> (w_tasks w !! i = None \/ exists m, task_at w i m p /\ holds_lock p = false) ->
  match w_lock w with Some j => t_phase <$> <[i := t]> (w_tasks w) !! j | None => None end = holder w.
Proof.
  intros Hl Hi. unfold holder. destruct (w_lock w) as [j|] eqn:Hj; [|done].
  rewrite lookup_insert_ne; [done|]. intros ->.
  destruct (proj1 (Hl j) Hj) as (t' & Htj & Hh).
  destruct Hi as [Hi|(m & Hi & Hp)]; rewrite Hi in Htj; simplify_eq. simpl in Hh. congruence.
Qed.

Lemma coherent_step w w' :
  structure_inv w -> fence_inv w -> calls_inv w -> coherent w -> step w w' -> coherent w'.
Proof.
  intros Hinv Hf Hcalls Hco Hstep.
  assert (Hinv' : structure_inv w') by (by eapply structure_step).
  pose proof (inv_lock w Hinv) as Hl.
  destruct Hstep as
    [i m am t Hi Hb Hbeg|m am t Hb Hbeg|i w' Hs|i w' Hs|j k a Hj Hind|j k a Hj Hobs|j k a Hj Hobs
    |j k a v l Hj Hv|j k a v l Hj Hv| | | ]; try exact Hco.
  - apply begin_spec in Hbeg as (Hopen & _ & ->). intros Htorn Hnt. unfold holder; simpl.
    rewrite (holder_insert_other w i _ PWaiting) by eauto. by apply Hco.
  - apply begin_spec in Hbeg as (Hopen & -> & ->). intros Htorn Hnt.
    cbn [w_tracker set_tracker active_finish snd] in Hnt. rewrite finish_seal in Hnt. by apply Hco.
  - exact (coherent_task_step _ _ _ Hinv Hinv' Hcalls Hco Hs).
  - destruct Hs as [m Hi|m c res cs Hi Hst|m res Hi]; intros Htorn Hnt; [| done|].
    + assert (Heq : holder (set_phase i PDropping w) = holder w).
      { unfold holder. erewrite set_phase_tasks by done.
        change (w_lock (set_phase _ _ _)) with (w_lock w).
        eapply holder_insert_other; [done|]. right. eauto. }
      rewrite Heq. by apply Hco.
    + specialize (Hco Htorn Hnt). erewrite holder_at in Hco by done. exact Hco.
  - intros Htorn Hnt. specialize (Hco Htorn Hnt).
    destruct (inv_observed w Hinv _ _ _ _ _ Hj) as (_ & _ & Heq). rewrite (Heq Hv).
    change (holder (publish _ _)) with (holder w).
    eapply agrees_static; [|exact Hco]. symmetry. apply static_update_activity.
  - intros Htorn Hnt. apply Hco; [done|]. simpl in Hnt. rewrite drain_start_seal in Hnt.
    case_bool_decide as Hop; [by rewrite Hop|done].
  - intros Htorn Hnt. apply Hco; [done|]. simpl in Hnt. by rewrite drain_check_seal in Hnt.
Qed.

Lemma reachable_calls w : reachable w -> calls_inv w.
Proof.
  apply reachable_invariant; [|eauto using calls_step].
  intros m i n c Hi. unfold task_at in Hi; simpl in Hi. by rewrite lookup_empty in Hi.
Qed.

Lemma reachable_coherent w : reachable w -> coherent w.
Proof.
  apply reachable_invariant; [by intros m _ _|].
  intros w1 w2 Hr Hco Hs.
  eapply coherent_step; eauto using reachable_structure, reachable_fence, reachable_calls.
Qed.

(** ** Publication *)

(** The edits someone is about to publish. *)
Definition pending_edit (w : World) (e : Edit) : Prop :=
  (exists i m r v l, task_at w i m (PLoaded e r v l)) \/
  (exists j key at_ v l, w_observers w !! j = Some (mkObserver key at_ (OLoaded v l)) /\
     e = EditActivity key at_).

(** The compare-and-swap loops lose no concurrent publication: whatever a step
    publishes is one edit applied to the routes published before it. *)
Lemma step_publication w w' :
  structure_inv w -> step w w' ->
  w_snapshot w' = w_snapshot w \/
  exists e, pending_edit w e /\ w_snapshot w' = from_ordered_routes (apply_edit e (w_routes w)).
Proof.
  intros Hinv Hstep. destruct Hstep as
    [ | |i w' Hs|i w' Hs| | | |j k a v l Hj Hv| | | | ]; try (by left).
  - destruct Hs as [ | | | | | | | |m e r v l Hi Hv| | | | | ]; try (by left).
    right. destruct (inv_loaded w Hinv _ _ _ _ _ _ Hi) as (_ & _ & Heq). rewrite <- (Heq Hv).
    exists e. split; [|done]. left. by repeat eexists.
  - destruct Hs; by left.
  - right. destruct (inv_observed w Hinv _ _ _ _ _ Hj) as (_ & _ & Heq). rewrite <- (Heq Hv).
    exists (EditActivity k a). split; [|done]. right. by repeat eexists.
Qed.

(** ** Progress and termination *)

(** An upper bound on the remaining steps of a task when nobody else publishes:
    a stale [PLoaded] goes back to [PPublish] once. *)
Definition rank (version : nat) (p : Phase) : nat :=
  match p with
  | PWaiting => 11
  | PLocked => 10
  | PRunning => 9
  | PCalling _ => 8
  | PLoaded _ _ v _ => if decide (v = version) then 5 else 7
  | PPublish _ _ => 6
  | PReplied _ => 4
  | PAck _ => 3
  | PUnlock => 2
  | PDropping => 2
  end.

Definition ranks (version : nat) (ts : gmap nat Task) : nat :=
  map_fold (fun _ t acc => (rank version (t_phase t) + acc)%nat) 0%nat ts.

Definition work (w : World) : nat := ranks (w_version w) (w_tasks w).

Lemma ranks_insert v ts i t :
  ts !! i = None -> ranks v (<[i := t]> ts) = (rank v (t_phase t) + ranks v ts)%nat.
Proof.
  intros Hi. unfold ranks.
  apply (map_fold_insert_L (fun _ t acc => (rank v (t_phase t) + acc)%nat) 0%nat i t ts); [lia|done].
Qed.

Lemma ranks_delete v ts i t :
  ts !! i = Some t -> ranks v ts = (rank v (t_phase t) + ranks v (delete i ts))%nat.
Proof.
  intros Hi. rewrite <- (insert_delete_id _ _ _ Hi) at 1. apply ranks_insert, lookup_delete_eq.
Qed.

Lemma ranks_update v ts i t t' :
  ts !! i = Some t ->
  (ranks v (<[i := t']> ts) + rank v (t_phase t) = ranks v ts + rank v (t_phase t'))%nat.
Proof.
  intros Hi. rewrite <- insert_delete_eq, ranks_insert by apply lookup_delete_eq.
  rewrite (ranks_delete _ _ _ _ Hi). lia.
Qed.

Lemma ranks_version v v' ts :
  (forall i t, ts !! i = Some t -> rank v (t_phase t) = rank v' (t_phase t)) ->
  ranks v ts = ranks v' ts.
Proof.
  induction ts as [|i t ts Hi IH] using map_ind; intros Heq; [done|].
  rewrite !ranks_insert by done. rewrite (Heq i t) by apply lookup_insert_eq. f_equal.
  apply IH. intros j t' Hj. apply (Heq j). rewrite lookup_insert_ne; [done|congruence].
Qed.

(** Only the lock holder can stand in [PLoaded]. *)
Lemma ranks_other w i m p v :
  lock_inv w -> task_at w i m p -> holds_lock p = true ->
  ranks v (delete i (w_tasks w)) = ranks (w_version w) (delete i (w_tasks w)).
Proof.
  intros Hl Hi Hp. apply ranks_version. intros j [n q] [Hne Hj]%lookup_delete_Some. simpl.
  destruct q; try done. destruct Hne. eapply lock_inv_unique; eauto.
Qed.

Lemma task_step_work i w w' : structure_inv w -> task_step i w w' -> (work w' < work w)%nat.
Proof.
  intros Hinv Hstep. pose proof (inv_lock w Hinv) as Hl.
  assert (Hup : forall m p p', task_at w i m p -> (rank (w_version w) p' < rank (w_version w) p)%nat ->
    (ranks (w_version w) (w_tasks (set_phase i p' w)) < work w)%nat).
  { intros m p p' Hi Hlt. erewrite set_phase_tasks by done.
    pose proof (ranks_update (w_version w) _ i _ (mkTask m p') Hi) as Hr. simpl in Hr.
    unfold work. lia. }
  assert (Hrm : forall m p, task_at w i m p -> (0 < rank (w_version w) p)%nat ->
    (ranks (w_version w) (delete i (w_tasks w)) < work w)%nat).
  { intros m p Hi Hlt. unfold work. rewrite (ranks_delete _ _ _ _ Hi). simpl. lia. }
  destruct Hstep as
    [m Hi Hlk|m Hi Hp|m e Hi Hp|m c Hi Hc|m Hi Hc|m c res cs Hi Hst|m p cs Hi Hp Hcs|m e r Hi
    |m e r v l Hi Hv|m e r v l Hi Hv|m res Hi|m res d Hi|m Hi|m Hi].
  all: try (eapply Hup; [exact Hi|simpl; lia]).
  all: try (eapply Hrm; [exact Hi|simpl; lia]).
  - eapply Hup; [exact Hi|]. unfold after_call. repeat case_match; simpl; lia.
  - eapply Hup; [exact Hi|]. destruct p; simpl; try done; try lia. case_decide; lia.
  - eapply Hup; [exact Hi|]. simpl. rewrite decide_True by done. lia.
  - unfold work. cbn [w_tasks publish w_version]. erewrite (set_phase_tasks w) by done.
    rewrite <- insert_delete_eq, ranks_insert by apply lookup_delete_eq.
    rewrite (ranks_delete _ (w_tasks w) _ _ Hi). cbn [w_version set_phase set_tasks t_phase].
    rewrite (ranks_other w i m (PLoaded e r v l)) by done. simpl. rewrite decide_True by done. lia.
  - eapply Hup; [exact Hi|]. simpl. rewrite decide_False by done. lia.
Qed.

Lemma holder_progress w i m p :
  task_at w i m p -> p <> PWaiting -> exists w', task_step i w w'.
Proof.
  intros Hi Hp. destruct p; try done.
  - destruct (reject_if_terminally_failed (w_tracker w)) as [[]|] eqn:?; eexists.
    + by eapply step_fence_pass.
    + by eapply step_fence_reject.
  - destruct (call_of m (w_view w)) eqn:?; eexists; [by eapply step_call|by eapply step_skip].
  - eexists. eapply (step_store _ _ _ _ (Err (Backend "backend"))); [done|by constructor].
  - eexists. by eapply step_load.
  - destruct (decide (version = w_version w)); eexists; [by eapply step_cas|by eapply step_cas_fail].
  - eexists. by eapply step_reply.
  - eexists. by eapply (step_finish _ _ _ _ false).
  - eexists. by eapply step_unlock.
  - eexists. by eapply step_drop.
Qed.

Lemma task_progress w : structure_inv w -> w_tasks w <> ∅ -> exists i w', task_step i w w'.
Proof.
  intros Hinv Hne. pose proof (inv_lock w Hinv) as Hl.
  destruct (w_lock w) as [i|] eqn:Hw.
  - destruct (proj1 (Hl i) Hw) as ([m p] & Hi & Hp). exists i. eapply holder_progress; [exact Hi|].
    by destruct p.
  - apply map_choose in Hne as (i & [m p] & Hi). exists i.
    destruct (decide (holds_lock p = true)) as [Hh|Hh].
    { assert (w_lock w = Some i) by (apply Hl; eauto). congruence. }
    destruct p; try done; [|by eapply holder_progress].
    eexists. by eapply step_acquire.
Qed.

Lemma tasks_drain w :
  structure_inv w -> exists w', rtc step w w' /\ structure_inv w' /\ w_tasks w' = ∅.
Proof.
  remember (work w) as n eqn:Hn. revert w Hn.
  induction (lt_wf n) as [n _ IH]. intros w -> Hinv.
  destruct (decide (w_tasks w = ∅)) as [Hempty|Hne]; [by exists w|].
  destruct (task_progress w Hinv Hne) as (i & w1 & H1).
  pose proof (task_step_work i w w1 Hinv H1) as Hlt.
  destruct (IH _ Hlt w1 eq_refl) as (w' & Hr & Hinv' & He).
  { eapply structure_step; [done|by econstructor]. }
  exists w'. split; [|done]. eapply rtc_l; [by econstructor|done].
Qed.

(** *** Sealed admission *)

Lemma sealed_step w w' :
  seal (w_tracker w) <> Open -> step w w' ->
  seal (w_tracker w') <> Open /\ dom (w_tasks w') ⊆ dom (w_tasks w).
Proof.
  intros Hs Hstep.
  assert (Halter : forall i f, dom (alter f i (w_tasks w)) ⊆ dom (w_tasks w))
    by (intros; by rewrite dom_alter_L).
  assert (Hdel : forall i, dom (delete i (w_tasks w)) ⊆ dom (w_tasks w))
    by (intros; rewrite dom_delete_L; set_solver).
  destruct Hstep as
    [i m am t Hi Hb Hbeg|m am t Hb Hbeg|i w' Hst|i w' Hst| | | | | | | | ]; try done.
  - by apply begin_spec in Hbeg as (? & _).
  - by apply begin_spec in Hbeg as (? & _).
  - destruct Hst as
      [m Hi Hlk|m Hi Hp|m e Hi Hp|m c Hi Hc|m Hi Hc|m c res cs Hi Hst|m p cs Hi Hp Hcs|m e r Hi
      |m e r v l Hi Hv|m e r v l Hi Hv|m res Hi|m res d Hi|m Hi|m Hi].
    all: split; [|apply Halter || apply Hdel]; try done.
    + simpl. by destruct res as [[|[]]|].
    + simpl. by rewrite finish_seal.
    + cbn [w_tracker set_tracker active_drop am_finished]. by rewrite finish_seal.
  - destruct Hst; (split; [done|apply Halter]).
  - split; [|done]. simpl. rewrite drain_start_seal. by case_bool_decide.
  - split; [|done]. simpl. by rewrite drain_check_seal.
Qed.

Lemma sealed_forever w w' :
  rtc step w w' -> seal (w_tracker w) <> Open -> seal (w_tracker w') <> Open.
Proof.
  induction 1 as [|w1 w2 w3 H12 _ IH]; [done|]. intros Hs.
  apply IH. by eapply sealed_step.
Qed.

(** ** Simulation of the sequential operations *)

Module Simulation.
Section Simulation.
Context {Env St : Type} `{StoreContract Env View St}.
Implicit Types (r : RouteRegistry St) (w : World).

(** A world shows the state of a registry. *)
Definition shows (w : World) (r : RouteRegistry St) : Prop :=
  w_contents w = contents (reg_store r) /\ w_snapshot w = reg_snapshot r /\
  w_tracker w = reg_mutations r.

(** Task [i], beside the tasks [ts], holds the lock and stands at [p]. *)
Definition stands (ts : gmap nat Task) (i : nat) (m : Mutation) (p : Phase) (w : World)
    (r : RouteRegistry St) : Prop :=
  w_tasks w = <[i := mkTask m p]> ts /\ w_lock w = Some i /\ shows w r.

(** Mutations as the process asks for them. *)
Definition clean_mutation (m : Mutation) : Prop :=
  match m with
  | MAdd key _ e => rooted key /\ reserved_free e
  | MPut key data => rooted key /\ reserved_free (extra data)
  | MUpdate key _ | MPersist key _ | MDelete key => rooted key
  end.

(** The bodies of the five mutations, with their replies forgotten. *)
Definition owned (env : Env) (m : Mutation) (r : RouteRegistry St) :
    result unit StoreError * RouteRegistry St :=
  match m with
  | MAdd key t e => add_owned env key t e r
  | MPut key data => put_owned key data r
  | MUpdate key at_ => update_activity_owned key at_ r
  | MPersist key at_ => persist_observed_owned key at_ r
  | MDelete key => let (res, r) := delete_owned key r in (result_map (fun _ => tt) res, r)
  end.

Definition perform (caller : CallerEnv) (env : Env) (m : Mutation) :
    RouteRegistry St -> result unit StoreError * RouteRegistry St :=
  run_mutation caller (operation_of m) (returning (owned env m)).

(** A mutation whose backend call may panic, leaving the backend in any state:
    the bodies await nothing but that call, and publish after it. *)
Definition supervised (env : Env) (m : Mutation) (panic : option St) (r : RouteRegistry St) :
    Supervised unit * RouteRegistry St :=
  match panic with
  | None => returning (owned env m) r
  | Some s => (Panicked, with_store s r)
  end.

Definition attempt (caller : CallerEnv) (env : Env) (m : Mutation) (panic : option St) :
    RouteRegistry St -> result unit StoreError * RouteRegistry St :=
  run_mutation caller (operation_of m) (supervised env m panic).

Lemma stands_task ts i m p w r : stands ts i m p w r -> task_at w i m p.
Proof. intros (Hts & _). unfold task_at. rewrite Hts. apply lookup_insert_eq. Qed.

Lemma stands_view ts i m p w r : stands ts i m p w r -> w_view w = view r.
Proof. intros (_ & _ & _ & Hs & Ht). unfold w_view, view. by rewrite Hs, Ht. Qed.

Lemma stands_set_phase ts i m p p' w r :
  stands ts i m p w r -> stands ts i m p' (set_phase i p' w) r.
Proof.
  intros Hst. split_and!; [|apply Hst|apply Hst].
  erewrite set_phase_tasks by (by eapply stands_task).
  destruct Hst as (-> & _). apply insert_insert_eq.
Qed.

Lemma path_reply ts i m res detached w r :
  ts !! i = None -> stands ts i m (PReplied res) w r ->
  exists w', rtc step w w' /\ w_tasks w' = ts /\ w_lock w' = None /\
    shows w' (with_mutations (finish (detached_failure m detached res)
      (detached_panic m detached res) (seal_after res (reg_mutations r))) r).
Proof.
  intros Hi Hst.
  pose proof (stands_set_phase _ _ _ _ (PAck res) _ _ Hst) as Hack.
  pose proof (stands_set_phase _ _ _ _ PUnlock _ _ Hack) as Hun.
  eexists. split_and!.
  - eapply rtc_l; [eapply (step_task _ i), step_reply, stands_task, Hst|].
    eapply rtc_l; [eapply (step_task _ i), (step_finish _ _ m res detached)|].
    { eapply (stands_task _ _ _ _ _ _ Hack). }
    eapply rtc_once, (step_task _ i), (step_unlock _ _ m).
    eapply (stands_task _ _ _ _ _ _ Hun).
  - destruct Hun as (Hts & _). etrans; [exact (f_equal (delete i) Hts)|].
    by rewrite delete_insert_id.
  - done.
  - destruct Hst as (_ & _ & Hc & Hs & Ht). unfold shows; simpl. rewrite Ht. done.
Qed.

Lemma path_publish ts i m e reply w r :
  stands ts i m (PPublish e reply) w r ->
  exists w', rtc step w w' /\
    stands ts i m (PReplied (Some (Ok reply))) w' (merge_and_publish e r).
Proof.
  intros Hst. pose proof (stands_set_phase _ _ _ _ (PLoaded e reply (w_version w) (w_routes w)) _ _ Hst) as Hld.
  eexists. split.
  - eapply rtc_l; [eapply (step_task _ i), step_load, stands_task, Hst|].
    eapply rtc_once, (step_task _ i), step_cas; [eapply (stands_task _ _ _ _ _ _ Hld)|done].
  - apply (stands_set_phase _ _ _ _ (PReplied (Some (Ok reply)))) in Hld.
    destruct Hld as (Hts & Hl & Hc & Hs & Ht). split; [done|]. split; [done|]. split; [done|]. split; [|done].
    unfold merge_and_publish. simpl in *. unfold w_routes. by rewrite Hs.
Qed.

Lemma path_store ts i m c res s' w r :
  stands ts i m PRunning w r -> call_of m (view r) = Some c ->
  store_step (call_floor c (view r)) (contents (reg_store r)) c res (contents s') ->
  exists w', rtc step w w' /\ stands ts i m (after_call m res) w' (with_store s' r).
Proof.
  intros Hst Hc Hstore. rewrite <- (stands_view _ _ _ _ _ _ Hst) in Hc, Hstore.
  pose proof (stands_set_phase _ _ _ _ (PCalling c) _ _ Hst) as Hcall.
  pose proof Hst as (_ & _ & Hcon & _). rewrite <- Hcon in Hstore.
  eexists. split.
  - eapply rtc_l; [eapply (step_task _ i), step_call; [eapply stands_task, Hst|exact Hc]|].
    eapply rtc_once, (step_task _ i), step_store; [eapply (stands_task _ _ _ _ _ _ Hcall)|exact Hstore].
  - apply (stands_set_phase _ _ _ _ (after_call m res)) in Hcall.
    destruct Hcall as (Hts & Hl & _ & Hs & Ht). done.
Qed.

(** A successful store call, its publication and the reply. *)
Lemma path_call ts i m c res s' w r :
  stands ts i m PRunning w r -> call_of m (view r) = Some c ->
  store_step (call_floor c (view r)) (contents (reg_store r)) c res (contents s') ->
  exists w', rtc step w w' /\ stands ts i m (PReplied (Some res)) w'
    (match res with
     | Ok reply => match edit_of m reply with
                   | Some e => merge_and_publish e (with_store s' r)
                   | None => with_store s' r
                   end
     | Err _ => with_store s' r
     end).
Proof.
  intros Hst Hc Hstore. destruct (path_store _ _ _ _ _ _ _ _ Hst Hc Hstore) as (w1 & Hr1 & H1).
  destruct res as [reply|e]; simpl in H1; [|eauto].
  destruct (edit_of m reply) as [e|]; [|eauto].
  destruct (path_publish _ _ _ _ _ _ _ H1) as (w2 & Hr2 & H2).
  exists w2. split; [by etrans|done].
Qed.

Lemma path_body ts i m env w r :
  clean_mutation m -> stands ts i m PRunning w r ->
  exists w' res, rtc step w w' /\ stands ts i m (PReplied (Some res)) w' (owned env m r).2 /\
    result_map (fun _ => tt) res = (owned env m r).1.
Proof.
  intros Hclean Hst.
  destruct m as [key t e|key data|key at_|key at_|key]; simpl.
  - pose proof (add_contract env key t e (activity_floor key) (view r) (reg_store r) Hclean) as Hc.
    destruct (path_call _ _ _ _ _ _ _ _ Hst eq_refl Hc) as (w' & Hr & Hw').
    unfold add_owned. destruct (add env key t e _ _ _) as [[d|er] s']; simpl in *; eauto 6.
  - pose proof (put_preserving_contract key data (activity_floor key) (view r) (reg_store r) Hclean) as Hc.
    destruct (path_call _ _ _ _ _ _ _ _ Hst eq_refl Hc) as (w' & Hr & Hw').
    unfold put_owned. destruct (put_preserving_activity key data _ _ _) as [[d|er] s']; simpl in *; eauto 6.
  - pose proof (update_activity_contract key at_ (reg_store r) Hclean) as Hc.
    destruct (path_call _ _ _ _ _ _ _ _ Hst eq_refl Hc) as (w' & Hr & Hw').
    unfold update_activity_owned. destruct (store_update_activity key at_ _) as [[d|er] s']; simpl in *; eauto 6.
  - unfold persist_observed_owned. destruct (get key (view r)) as [cur|] eqn:Hget.
    + pose proof (update_activity_contract key (Z.max (last_activity cur) at_) (reg_store r) Hclean) as Hc.
      assert (Hcall : call_of (MPersist key at_) (view r)
        = Some (CallUpdateActivity key (Z.max (last_activity cur) at_))) by (simpl; by rewrite Hget).
      destruct (path_call _ _ _ _ _ _ _ _ Hst Hcall Hc) as (w' & Hr & Hw').
      destruct (store_update_activity key _ _) as [[[]|er] s']; simpl in *; eauto 6.
    + eexists _, (Ok ReplyUnit). split_and!; [|eapply stands_set_phase, Hst|done].
      eapply rtc_once, (step_task _ i), step_skip; [eapply stands_task, Hst|].
      rewrite (stands_view _ _ _ _ _ _ Hst). simpl. by rewrite Hget.
  - pose proof (delete_contract key (reg_store r) Hclean) as Hc.
    destruct (path_call _ _ _ _ _ _ _ _ Hst eq_refl Hc) as (w' & Hr & Hw').
    unfold delete_owned. destruct (delete_route key _) as [[d|er] s']; simpl in *; eauto 6.
Qed.

(** Admission, the lock and the fence, on an idle registry. *)
Lemma path_admit ts i m w r active t :
  w_tasks w = ts -> ts !! i = None -> Z.of_nat (size ts) < usize_max -> w_lock w = None ->
  shows w r -> begin (operation_of m) (reg_mutations r) = Ok (active, t) ->
  exists w', rtc step w w' /\ stands ts i m PRunning w' (with_mutations t r).
Proof.
  intros Hts Hi Hb Hl (Hc & Hs & Ht) Hbeg.
  pose proof (begin_spec _ _ _ _ Hbeg) as (Hopen & _ & Heq).
  set (w1 := set_tracker t (set_tasks (<[i := mkTask m PWaiting]> (w_tasks w)) w)).
  assert (H1 : task_at w1 i m PWaiting) by (unfold task_at; simpl; apply lookup_insert_eq).
  set (w2 := set_lock (Some i) (set_phase i PLocked w1)).
  assert (H2 : stands ts i m PLocked w2 (with_mutations t r)).
  { split; [|done]. etrans; [exact (set_phase_tasks _ _ _ _ _ H1)|].
    simpl. rewrite insert_insert_eq. by rewrite Hts. }
  eexists. split; [|eapply stands_set_phase, H2].
  eapply rtc_l; [apply (step_begin w i m active t); [by rewrite Hts|by rewrite Hts|by rewrite Ht]|].
  eapply rtc_l; [apply (step_task _ i), (step_acquire _ _ m); done|].
  eapply rtc_once, (step_task _ i), (step_fence_pass _ _ m); [by eapply stands_task|].
  simpl. rewrite Heq. unfold reject_if_terminally_failed; simpl. by rewrite Hopen.
Qed.

Lemma owned_error env m r e r' :
  clean_mutation m -> owned env m r = (Err e, r') ->
  reg_snapshot r' = reg_snapshot r /\ reg_mutations r' = reg_mutations r /\
  (is_indeterminate_error e = false -> contents (reg_store r') = contents (reg_store r)).
Proof.
  intros Hclean. assert (Hst : forall fl c (res : result StoreReply StoreError) s',
    store_step fl (contents (reg_store r)) c res (contents s') ->
    forall e', res = Err e' -> is_indeterminate_error e' = false ->
    contents s' = contents (reg_store r)).
  { intros fl c res s' Hs e' -> Hi. by inversion Hs; simplify_eq. }
  destruct m as [key t x|key data|key at_|key at_|key]; simpl.
  - unfold add_owned. pose proof (add_contract env key t x (activity_floor key) (view r) (reg_store r) Hclean) as Hc.
    destruct (add env key t x _ _ _) as [[d|er] s']; intros; simplify_eq. by split_and!; try eapply (Hst _ _ _ _ Hc).
  - unfold put_owned. pose proof (put_preserving_contract key data (activity_floor key) (view r) (reg_store r) Hclean) as Hc.
    destruct (put_preserving_activity key data _ _ _) as [[d|er] s']; intros; simplify_eq. by split_and!; try eapply (Hst _ _ _ _ Hc).
  - unfold update_activity_owned. pose proof (update_activity_contract key at_ (reg_store r) Hclean) as Hc.
    destruct (store_update_activity key at_ _) as [[d|er] s']; intros; simplify_eq. by split_and!; try eapply (Hst _ _ _ _ Hc).
  - unfold persist_observed_owned. destruct (get key (view r)) as [cur|]; [|done].
    pose proof (update_activity_contract key (Z.max (last_activity cur) at_) (reg_store r) Hclean) as Hc.
    destruct (store_update_activity key _ _) as [[d|er] s']; intros; simplify_eq. by split_and!; try eapply (Hst _ _ _ _ Hc).
  - unfold delete_owned. pose proof (delete_contract key (reg_store r) Hclean) as Hc.
    destruct (delete_route key _) as [[d|er] s']; intros; simplify_eq/=. by split_and!; try eapply (Hst _ _ _ _ Hc).
Qed.

(** How a failed mutation leaves the registry, whoever called it and whether or
    not the backend panicked. *)
Lemma attempt_error caller env m panic r r' e :
  clean_mutation m -> attempt caller env m panic r = (Err e, r') ->
  reg_snapshot r' = reg_snapshot r /\
  ((exists s, panic = Some s /\ e = message (panic_message (operation_of m)) /\
      seal (reg_mutations r') = BackendPanic /\ reg_store r' = s) \/
   (seal (reg_mutations r') =
      (if is_indeterminate_error e then SealIndeterminate else seal (reg_mutations r)) /\
    (is_indeterminate_error e = false -> contents (reg_store r') = contents (reg_store r)))).
Proof.
  intros Hclean. unfold attempt, run_mutation.
  destruct (begin (operation_of m) (reg_mutations r)) as [[active t]|e'] eqn:Hbeg.
  2: { intros [= <- <-]. split; [done|]. right.
       unfold begin in Hbeg. destruct (seal (reg_mutations r)); simplify_eq; done. }
  apply begin_spec in Hbeg as (Hopen & -> & ->).
  destruct (runtime_available caller); cbn [negb].
  2: { intros [= <- <-]. split; [done|]. right. simpl. by split. }
  destruct (spawn_succeeds caller); cbn [negb].
  2: { intros [[= <-] <-]%pair_equal_spec. split; [done|]. right. split; [|done].
       cbn [with_mutations reg_mutations active_drop am_finished]. by rewrite finish_seal. }
  unfold mutation_task.
  replace (reject_if_terminally_failed _) with (Ok (A:=unit) (E:=StoreError) tt)
    by (unfold reject_if_terminally_failed; simpl; by rewrite Hopen).
  unfold catch_unwind, supervised, returning. set (r0 := with_mutations _ r).
  destruct panic as [s|].
  - intros [[= <-] <-]%pair_equal_spec. split; [done|]. left. exists s. split_and!; try done.
    cbn [with_mutations reg_mutations]. by rewrite finish_seal.
  - destruct (owned env m r0) as [res r1] eqn:Ho.
    intros [-> <-]%pair_equal_spec. destruct (owned_error _ _ _ _ _ Hclean Ho) as (Hs & Ht & Hc).
    split; [by destruct e|]. right. cbn [with_mutations reg_mutations]. rewrite finish_seal.
    destruct e; simpl in *; rewrite ?Ht; by split.
Qed.

Lemma perform_error env m r r' e :
  clean_mutation m -> perform attached env m r = (Err e, r') ->
  reg_snapshot r' = reg_snapshot r /\
  (seal (reg_mutations r') =
     if is_indeterminate_error e then SealIndeterminate else seal (reg_mutations r)) /\
  (is_indeterminate_error e = false -> contents (reg_store r') = contents (reg_store r)).
Proof.
  intros Hclean Hp. change (attempt attached env m None r = (Err e, r')) in Hp.
  by apply attempt_error in Hp as (Hs & [(? & ? & _)|[? ?]]).
Qed.

(** A deletion with its reply forgotten. *)
Lemma perform_delete caller env key r :
  perform caller env (MDelete key) r =
  (result_map (fun _ => tt) (registry_delete (Env := Env) caller key r).1, (registry_delete (Env := Env) caller key r).2).
Proof.
  unfold perform, registry_delete, run_mutation. simpl.
  destruct (begin Delete (reg_mutations r)) as [[active t]|e]; [|done].
  destruct (runtime_available caller); [|done]. destruct (spawn_succeeds caller); [|done]. simpl.
  unfold mutation_task. destruct (reject_if_terminally_failed _); [|done].
  unfold catch_unwind, returning. cbn [owned]. by destruct (delete_owned key _) as [[d|[]] r'].
Qed.

End Simulation.

(** *** Invariants of the backend *)

Section Invariants.
Context {Env St : Type} `{Store Env View St}.

(** A property of the backend's state that every clean call preserves. *)
Record backend_invariant (P : St -> Prop) : Prop := {
  add_keeps env key t e f w s : clean_call (CallAdd key t e) -> P s -> P (add env key t e f w s).2;
  put_preserving_keeps key d f w s :
    clean_call (CallPutPreserving key d) -> P s -> P (put_preserving_activity key d f w s).2;
  update_activity_keeps key at_ s :
    clean_call (CallUpdateActivity key at_) -> P s -> P (store_update_activity key at_ s).2;
  delete_keeps key s : clean_call (CallDelete key) -> P s -> P (delete_route key s).2
}.

Lemma owned_keeps P env m (r : RouteRegistry St) :
  backend_invariant P -> clean_mutation m -> P (reg_store r) -> P (reg_store (owned env m r).2).
Proof.
  intros [Ha Hp Hu Hd] Hclean HP. destruct m as [key t e|key data|key at_|key at_|key]; cbn [owned clean_mutation] in *.
  - unfold add_owned. specialize (Ha env key t e (activity_floor key) (view r) _ Hclean HP).
    by destruct (add env key t e _ _ _) as [[] ?].
  - unfold put_owned. specialize (Hp key data (activity_floor key) (view r) _ Hclean HP).
    by destruct (put_preserving_activity key data _ _ _) as [[] ?].
  - unfold update_activity_owned. specialize (Hu key at_ _ Hclean HP).
    by destruct (store_update_activity key at_ _) as [[] ?].
  - unfold persist_observed_owned. destruct (get key (view r)) as [cur|]; [|done].
    specialize (Hu key (Z.max (last_activity cur) at_) _ Hclean HP).
    by destruct (store_update_activity key _ _) as [[] ?].
  - unfold delete_owned. specialize (Hd key _ Hclean HP). by destruct (delete_route key _) as [[] ?].
Qed.

(** It holds through every mutation of the registry, however the mutation ends. *)
Lemma perform_keeps P caller env m (r : RouteRegistry St) :
  backend_invariant P -> clean_mutation m -> P (reg_store r) -> P (reg_store (perform caller env m r).2).
Proof.
  intros Hinv Hclean HP. unfold perform, run_mutation.
  destruct (begin _ (reg_mutations r)) as [[active t]|e]; [|done].
  destruct (runtime_available caller); [|done]. destruct (spawn_succeeds caller); [|done]. simpl.
  unfold mutation_task. destruct (reject_if_terminally_failed _) as [[]|e]; [|by destruct e].
  unfold catch_unwind, returning. pose proof (owned_keeps P env m (with_mutations t r) Hinv Hclean HP) as Ho.
  destruct (owned env m (with_mutations t r)) as [[[]|[]] r']; exact Ho.
Qed.

End Invariants.
End Simulation.

(** ** Theorems *)

Section SequentialTheorems.
Context {Env St : Type} `{StoreContract Env View St}.
Import Simulation.

(** C15: every registry operation, run alone, is a run of the concurrent system
    that ends with the same snapshot, tracker and backend contents: the
    executable operations and the step relation describe the same code. *)
Theorem operations_are_runs caller env m w (r : RouteRegistry St) i :
  clean_mutation m -> shows w r -> w_lock w = None -> w_tasks w !! i = None ->
  Z.of_nat (size (w_tasks w)) < usize_max ->
  exists w', rtc step w w' /\ shows w' (perform caller env m r).2 /\
    w_lock w' = None /\ w_tasks w' = w_tasks w.
Proof.
  intros Hclean Hsh Hl Hi Hb. unfold perform, run_mutation.
  destruct (begin (operation_of m) (reg_mutations r)) as [[active t]|e] eqn:Hbeg; [|by exists w].
  pose proof (begin_spec _ _ _ _ Hbeg) as (Hopen & -> & Ht).
  destruct (runtime_available caller); simpl.
  - destruct (spawn_succeeds caller); simpl.
    + destruct (path_admit _ i m w r _ t eq_refl Hi Hb Hl Hsh Hbeg) as (w1 & Hr1 & H1).
      destruct (path_body _ _ _ env _ _ Hclean H1) as (w2 & res & Hr2 & H2 & Hres).
      destruct (path_reply _ _ _ _ (negb (caller_waits caller)) _ _ Hi H2) as (w3 & Hr3 & Hts & Hl3 & H3).
      exists w3. split; [etrans; [exact Hr1|]; by transitivity w2|]. split; [|done].
      unfold mutation_task. replace (reject_if_terminally_failed _) with (Ok (A:=unit) (E:=StoreError) tt)
        by (rewrite Ht; unfold reject_if_terminally_failed; simpl; by rewrite Hopen).
      unfold catch_unwind, returning. destruct (owned env m (with_mutations t r)) as [res' r'].
      simpl in *. subst res'. destruct res as [|[]]; exact H3.
    + destruct Hsh as (Hc & Hs & Htr).
      set (w1 := set_tracker t (set_tasks (<[i := mkTask m PWaiting]> (w_tasks w)) w)).
      assert (H1 : task_at w1 i m PWaiting) by (unfold task_at; simpl; apply lookup_insert_eq).
      assert (H2 : task_at (set_phase i PDropping w1) i m PDropping)
        by (unfold task_at; erewrite set_phase_tasks by done; apply lookup_insert_eq).
      eexists. split_and!.
      * eapply rtc_l; [apply (step_begin w i m (mkActive (operation_of m) false) t); [done|done|by rewrite Htr]|].
        eapply rtc_l; [apply (step_cancel _ i), (cancel_waiting _ _ m), H1|].
        eapply rtc_once, (step_task _ i), (step_drop _ _ m), H2.
      * done.
      * done.
      * etrans; [exact (f_equal (delete i) (set_phase_tasks _ _ _ _ PDropping H1))|].
        simpl. rewrite insert_insert_eq. by rewrite delete_insert_id.
  - destruct Hsh as (Hc & Hs & Htr). eexists. split_and!.
    + eapply rtc_once, (step_begin_no_runtime w m (mkActive (operation_of m) false) t); [done|by rewrite Htr].
    + done.
    + done.
    + done.
Qed.

(** C23: an error is final and invisible.  Whoever waits for it and whether or not
    the backend panics, a failed mutation publishes nothing.  A panic of the
    backend is answered with its fixed message and seals the registry, an
    indeterminate error seals it as indeterminate; every other error leaves the
    seal and the backend contents as they were. *)
Theorem failed_mutation_publishes_nothing caller env m panic (r r' : RouteRegistry St) e :
  clean_mutation m -> attempt caller env m panic r = (Err e, r') ->
  reg_snapshot r' = reg_snapshot r /\
  ((exists s, panic = Some s /\ e = message (panic_message (operation_of m)) /\
      seal (reg_mutations r') = BackendPanic /\ reg_store r' = s) \/
   (seal (reg_mutations r') =
      (if is_indeterminate_error e then SealIndeterminate else seal (reg_mutations r)) /\
    (is_indeterminate_error e = false -> contents (reg_store r') = contents (reg_store r)))).
Proof. apply attempt_error. Qed.

(** What a successful addition publishes and commits. *)
Lemma add_publishes env key t e (r r' : RouteRegistry St) :
  rooted key -> reserved_free e -> perform attached env (MAdd key t e) r = (Ok tt, r') ->
  exists d, target d = t /\ extra d = e /\
    (forall d0, by_key (routes (reg_snapshot r)) !! key = Some d0 -> last_activity d0 <= last_activity d) /\
    reg_snapshot r' = from_ordered_routes (replace key d (routes (reg_snapshot r))) /\
    contents (reg_store r') = <[key := d]> (contents (reg_store r)) /\
    seal (reg_mutations r) = Open /\ seal (reg_mutations r') = Open.
Proof.
  intros Hkey Hfree. unfold perform, run_mutation.
  destruct (begin _ (reg_mutations r)) as [[active tr]|e'] eqn:Hbeg; [|done].
  apply begin_spec in Hbeg as (Hopen & -> & ->). simpl. unfold mutation_task.
  replace (reject_if_terminally_failed _) with (Ok (A:=unit) (E:=StoreError) tt)
    by (unfold reject_if_terminally_failed; simpl; by rewrite Hopen).
  unfold catch_unwind, returning. cbn [owned]. unfold add_owned.
  set (r0 := with_mutations _ r).
  assert (Hget : forall k, get k (view r0) = by_key (routes (reg_snapshot r)) !! k).
  { intros k. unfold get, is_indeterminate; simpl. by rewrite Hopen. }
  pose proof (add_contract env key t e (activity_floor key) (view r0) (reg_store r0) (conj Hkey Hfree)) as Hc.
  destruct (add env key t e _ _ _) as [[d|er] s']; simpl in Hc |- *; [|by intros [=]].
  inversion Hc as [? ? Hcm| | | ]; subst. inversion Hcm as [? ? ? ? Ht He Hfl| | | | ]; subst.
  intros [= <-]. simpl.
  assert (Hflo : forall d0, by_key (routes (reg_snapshot r)) !! key = Some d0 ->
    last_activity d0 <= last_activity d).
  { intros d0 Hd0. unfold current, activity_floor, dynamic in Hfl. cbn [floor_fn] in Hfl.
    rewrite Hget, Hd0 in Hfl. exact Hfl. }
  exists d. split_and!; try done.
  unfold replace_preserving_activity.
  destruct (by_key (routes (reg_snapshot r)) !! key) as [d0|] eqn:Hd0; [|done].
  specialize (Hflo d0 eq_refl). rewrite Z.max_l by lia. by rewrite set_last_activity_id.
Qed.

(** What that shows to the next reader. *)
Lemma add_visible env key t e (r r' : RouteRegistry St) :
  rooted key -> reserved_free e -> snapshot_wf (reg_snapshot r) ->
  perform attached env (MAdd key t e) r = (Ok tt, r') ->
  exists d, target d = t /\ extra d = e /\
    get key (view r') = Some d /\
    contents (reg_store r') !! key = Some d /\
    registry_resolve (as_str key) (view r') = Some (mkRouteMatch key d) /\
    (forall d0, get key (view r) = Some d0 -> last_activity d0 <= last_activity d) /\
    (forall k, k <> key -> get k (view r') = get k (view r) /\
       contents (reg_store r') !! k = contents (reg_store r) !! k).
Proof.
  intros Hkey Hfree Hwf (d & Ht & He & Hflo & Hsn & Hcon & Hopen & Hopen')%add_publishes; [|done|done].
  exists d. unfold get, registry_resolve, is_indeterminate, view. cbn [v_snapshot v_tracker].
  rewrite Hsn, Hopen, Hopen', Hcon. rewrite bool_decide_eq_false_2 by done. simpl. split_and!; try done.
  - apply lookup_insert_eq.
  - apply lookup_insert_eq.
  - apply resolve_replaced, Hwf.
  - intros k Hk. by rewrite !lookup_insert_ne.
Qed.

(** What a successful deletion publishes and commits. *)
Lemma delete_publishes key (r r' : RouteRegistry St) deleted :
  rooted key -> registry_delete (Env := Env) attached key r = (Ok deleted, r') ->
  reg_snapshot r' = from_ordered_routes (remove key (routes (reg_snapshot r))) /\
  deleted = contents (reg_store r) !! key /\ contents (reg_store r') = delete key (contents (reg_store r)) /\
  seal (reg_mutations r) = Open /\ seal (reg_mutations r') = Open.
Proof.
  intros Hkey. unfold registry_delete, run_mutation.
  destruct (begin _ (reg_mutations r)) as [[active tr]|e'] eqn:Hbeg; [|done].
  apply begin_spec in Hbeg as (Hopen & -> & ->). simpl. unfold mutation_task.
  replace (reject_if_terminally_failed _) with (Ok (A:=unit) (E:=StoreError) tt)
    by (unfold reject_if_terminally_failed; simpl; by rewrite Hopen).
  unfold catch_unwind, returning, delete_owned. set (r0 := with_mutations _ r).
  pose proof (delete_contract (Env := Env) key (reg_store r0) Hkey) as Hc.
  destruct (delete_route key _) as [[d|er] s']; simpl in Hc |- *; [|by intros [=]].
  inversion Hc as [? ? Hcm| | | ]; subst. inversion Hcm; subst. intros [= <- <-]. by split_and!.
Qed.

(** A successful addition is durable and visible at once: the record
    carries the requested target and metadata, its stamp is not below the one
    published before, it is what the backend holds, a request for the key
    resolves to it, and no other route changed. *)
Theorem successful_add_is_visible env key t e (r r' : RouteRegistry St) :
  rooted key -> reserved_free e -> snapshot_wf (reg_snapshot r) ->
  perform attached env (MAdd key t e) r = (Ok tt, r') ->
  exists d, target d = t /\ extra d = e /\
    get key (view r') = Some d /\
    contents (reg_store r') !! key = Some d /\
    registry_resolve (as_str key) (view r') = Some (mkRouteMatch key d) /\
    (forall d0, get key (view r) = Some d0 -> last_activity d0 <= last_activity d) /\
    (forall k, k <> key -> get k (view r') = get k (view r) /\
       contents (reg_store r') !! k = contents (reg_store r) !! k).
Proof. apply add_visible. Qed.

End SequentialTheorems.

(** *** A run that loses a backend reply *)

Definition lost_call : Mutation := MDelete (normalize "/a").

Definition lost_world : World :=
  let t := with_active 1 tracker_default in
  mkWorld ∅ 0 (from_routes ∅) (indeterminate_seal t) (Some 0%nat)
    {[ 0%nat := mkTask lost_call (PAck (Some (Err (Indeterminate "delete")))) ]} ∅ false.

Lemma reachable_step w w' : reachable w -> step w w' -> reachable w'.
Proof. intros [m Hm] Hs. exists m. by eapply rtc_r. Qed.

Lemma reachable_rtc w w' : reachable w -> rtc step w w' -> reachable w'.
Proof. intros [m Hm] Hs. exists m. by etrans. Qed.

Lemma initial_reachable m : reachable (initial m).
Proof. by exists m. Qed.

Lemma lost_world_reachable : reachable lost_world.
Proof.
  set (t := with_active 1 tracker_default).
  set (wt := fun l p => mkWorld ∅ 0 (from_routes ∅) t l {[0%nat := mkTask lost_call p]} ∅ false).
  assert (Hat : forall l p, task_at (wt l p) 0 lost_call p) by (intros; apply lookup_singleton_eq).
  assert (Hset : forall l p p', set_phase 0 p' (wt l p) = wt l p').
  { intros l p p'. unfold set_phase, set_tasks, wt; simpl. by rewrite alter_singleton_eq. }
  apply (reachable_step (wt (Some 0%nat) (PReplied (Some (Err (Indeterminate "delete")))))).
  2: { apply (step_task _ 0). pose proof (step_reply 0 _ lost_call _ (Hat (Some 0%nat) (PReplied (Some (Err (Indeterminate "delete")))))) as Hr.
       rewrite Hset in Hr. exact Hr. }
  apply (reachable_step (wt (Some 0%nat) (PCalling (CallDelete (normalize "/a"))))).
  2: { apply (step_task _ 0). pose proof (step_store 0 _ lost_call _ _ ∅
         (Hat (Some 0%nat) (PCalling (CallDelete (normalize "/a")))) (store_lost_before _ _ _ "delete")) as Hr.
       rewrite Hset in Hr. exact Hr. }
  apply (reachable_step (wt (Some 0%nat) PRunning)).
  2: { apply (step_task _ 0). pose proof (step_call 0 _ lost_call _ (Hat (Some 0%nat) PRunning) eq_refl) as Hr.
       rewrite Hset in Hr. exact Hr. }
  apply (reachable_step (wt (Some 0%nat) PLocked)).
  2: { apply (step_task _ 0). pose proof (step_fence_pass 0 _ lost_call (Hat (Some 0%nat) PLocked) eq_refl) as Hr.
       rewrite Hset in Hr. exact Hr. }
  apply (reachable_step (wt None PWaiting)).
  2: { apply (step_task _ 0). pose proof (step_acquire 0 _ lost_call (Hat None PWaiting) eq_refl) as Hr.
       rewrite Hset in Hr. exact Hr. }
  apply (reachable_step (initial ∅)); [apply initial_reachable|].
  apply (step_begin (initial ∅) 0 lost_call (mkActive Delete false) t); done.
Qed.

(** *** Concurrent executions *)

(** C21: in every interleaving, the published trie is the one built from the
    published routes, the tracker counts exactly the admitted mutations that
    have not finished, and at most one mutation body runs: it holds the lock. *)
Theorem registry_invariant w :
  reachable w ->
  snapshot_wf (w_snapshot w) /\
  active (w_tracker w) = Z.of_nat (count_live (w_tasks w)) /\
  (forall i j m n p q, task_at w i m p -> task_at w j n q ->
     holds_lock p = true -> holds_lock q = true -> i = j) /\
  (forall i m p, task_at w i m p -> in_body p = true -> w_lock w = Some i).
Proof.
  intros Hr%reachable_structure. pose proof (inv_lock w Hr) as Hl. split_and!.
  - apply Hr.
  - apply Hr.
  - intros. by eapply lock_inv_unique.
  - intros i m p Hi Hp. apply Hl. exists (mkTask m p). split; [done|]. by destruct p.
Qed.

Lemma registry_invariant_witness :
  active (w_tracker lost_world) = 1 /\ snapshot_wf (w_snapshot lost_world).
Proof. split; [reflexivity|]. apply (registry_invariant lost_world), lost_world_reachable. Defined.

(** *** Writes that land late *)

(** A dispatched write whose outcome is unknown (its reply was lost, its backend
    panicked, or its task was cancelled) may still be applied by a remote server
    later; which write that is does not matter here. *)
Definition in_doubt (w : World) : Prop :=
  is_terminal (seal (w_tracker w)) = true \/ w_torn w = true \/
  exists i m p, task_at w i m p /\ indeterminate_reply p = true.

Inductive late_step (w : World) : World -> Prop :=
| late_program w' : step w w' -> late_step w w'
| late_landing floor c reply contents' :
    in_doubt w -> commits floor (w_contents w) c reply contents' -> late_step w (set_contents contents' w).

Lemma rtc_late w w' : rtc step w w' -> rtc late_step w w'.
Proof. induction 1; [done|]. eapply rtc_l; [by apply late_program|done]. Qed.

(** Neither invariant speaks about what the backend holds. *)
Lemma late_invariants m w : rtc late_step (initial m) w -> structure_inv w /\ fence_inv w.
Proof.
  revert w. apply (rtc_ind_r (fun w => structure_inv w /\ fence_inv w)).
  - split; [apply reachable_structure|apply reachable_fence]; by exists m.
  - intros w1 w2 _ [w2' Hs|floor c reply cs _ _] [Hst Hf].
    + split; [by eapply structure_step|by eapply fence_step].
    + split; [|exact Hf]. destruct Hst. by constructor.
Qed.

Lemma step_stamps w w' k d d' :
  structure_inv w -> step w w' -> by_key (w_routes w) !! k = Some d -> by_key (w_routes w') !! k = Some d' ->
  last_activity d <= last_activity d'.
Proof.
  intros Hinv Hs Hd Hd'. unfold w_routes in *.
  destruct (step_publication w w' Hinv Hs) as [Heq|(e & _ & Heq)]; rewrite Heq in Hd'.
  - rewrite Hd in Hd'. simplify_eq. done.
  - exact (apply_edit_activity e _ k d d' Hd Hd').
Qed.

Lemma static_map_Some (m m' : gmap RouteKey RouteData) k d :
  static_map m' = static_map m -> m !! k = Some d -> exists d', m' !! k = Some d'.
Proof.
  intros Heq Hk. apply (f_equal (lookup k)) in Heq. unfold static_map in Heq. rewrite !lookup_fmap, Hk in Heq.
  destruct (m' !! k); [eauto|done].
Qed.

(** One step of a terminally failed registry, landings included. *)
Lemma terminal_late_step w w' :
  structure_inv w -> fence_inv w -> is_terminal (seal (w_tracker w)) = true -> late_step w w' ->
  seal (w_tracker w') = seal (w_tracker w) /\
  static_map (by_key (w_routes w')) = static_map (by_key (w_routes w)) /\
  (forall k d, by_key (w_routes w) !! k = Some d ->
     exists d', by_key (w_routes w') !! k = Some d' /\ last_activity d <= last_activity d') /\
  dom (w_tasks w') ⊆ dom (w_tasks w).
Proof.
  intros Hinv Hf Ht [w2 Hs|floor c reply cs _ _].
  2: { split_and!; try done. intros k d Hk. by exists d. }
  destruct (terminal_step w w2 Hinv Hf Ht Hs) as (Hseal & _ & Hro & Htk). split_and!; [done|done| |].
  - intros k d Hk. destruct (static_map_Some _ _ _ _ Hro Hk) as [d' Hk']. exists d'. split; [done|].
    by eapply step_stamps.
  - intros i. rewrite !elem_of_dom. apply Htk.
Qed.

(** C7: a terminal failure is fail-stop.  Once a backend panic or an
    indeterminate mutation sealed the registry, whatever tasks and observers do
    and even if the write whose outcome was lost lands later, the seal stays, no
    mutation is admitted, no task of the process writes to the backend again, no
    route is added, removed or retargeted, and a published stamp is only ever
    raised; after an indeterminate one every read answers empty. *)
Theorem terminal_failure_is_fail_stop m w w' :
  rtc late_step (initial m) w -> is_terminal (seal (w_tracker w)) = true -> rtc late_step w w' ->
  seal (w_tracker w') = seal (w_tracker w) /\
  dom (w_tasks w') ⊆ dom (w_tasks w) /\
  (forall w'', step w' w'' -> w_contents w'' = w_contents w') /\
  (rtc step w w' -> w_contents w' = w_contents w) /\
  static_map (by_key (w_routes w')) = static_map (by_key (w_routes w)) /\
  (forall k d, by_key (w_routes w) !! k = Some d ->
     exists d', by_key (w_routes w') !! k = Some d' /\ last_activity d <= last_activity d') /\
  (seal (w_tracker w) = SealIndeterminate ->
     all (w_view w') = ∅ /\ (forall k, get k (w_view w') = None) /\
     (forall p, registry_resolve p (w_view w') = None)).
Proof.
  intros Hr Ht Hs.
  assert (Hr' : rtc late_step (initial m) w') by (by etrans).
  assert (Hlate : seal (w_tracker w') = seal (w_tracker w) /\ dom (w_tasks w') ⊆ dom (w_tasks w) /\
    static_map (by_key (w_routes w')) = static_map (by_key (w_routes w)) /\
    (forall k d, by_key (w_routes w) !! k = Some d ->
       exists d', by_key (w_routes w') !! k = Some d' /\ last_activity d <= last_activity d')).
  { clear Hr'. induction Hs as [w|w1 w2 w3 H12 _ IH]; [split_and!; try done; intros k d Hk; by exists d|].
    destruct (late_invariants _ _ Hr) as [Hinv Hf].
    destruct (terminal_late_step _ _ Hinv Hf Ht H12) as (Hseal & Hro & Hst & Hd).
    rewrite <- Hseal in Ht |- *. rewrite <- Hro.
    destruct (IH (rtc_r _ _ _ Hr H12) Ht) as (-> & Hd' & -> & Hst'). split_and!; [done|by etrans|done|].
    intros k d (d1 & Hk1 & Hle1)%Hst. destruct (Hst' _ _ Hk1) as (d2 & Hk2 & Hle2). exists d2. split; [done|lia]. }
  destruct Hlate as (Hseal & Hd & Hro & Hst). split_and!; try done.
  - intros w'' Hs''. destruct (late_invariants _ _ Hr') as [Hinv Hf]. rewrite <- Hseal in Ht.
    by destruct (terminal_step _ _ Hinv Hf Ht Hs'') as (_ & Hc & _).
  - intros Hp. clear -Hr Ht Hp. induction Hp as [|w1 w2 w3 H12 _ IH]; [done|].
    destruct (late_invariants _ _ Hr) as [Hinv Hf].
    destruct (terminal_step _ _ Hinv Hf Ht H12) as (Hseal & <- & _). rewrite <- Hseal in Ht.
    apply IH; [|done]. eapply rtc_r; [exact Hr|by apply late_program].
  - rewrite <- Hseal. intros Hi. unfold all, get, registry_resolve, is_indeterminate; simpl.
    by rewrite Hi, bool_decide_eq_true_2.
Qed.

Lemma terminal_failure_is_fail_stop_witness :
  is_terminal (seal (w_tracker lost_world)) = true /\ get (normalize "/a") (w_view lost_world) = None.
Proof.
  split; [reflexivity|].
  destruct lost_world_reachable as [m Hr].
  destruct (terminal_failure_is_fail_stop m lost_world lost_world (rtc_late _ _ Hr) eq_refl
    (rtc_refl _ _)) as (_ & _ & _ & _ & _ & _ & Hi).
  exact (proj1 (proj2 (Hi eq_refl)) (normalize "/a")).
Defined.

(** C6: while the registry is healthy, the published routes equal the persisted
    ones (stamps aside) whenever no mutation holds the lock, and otherwise trail
    them by at most the one edit its holder is about to publish. *)
Theorem published_routes_track_backend w :
  reachable w -> w_torn w = false -> is_terminal (seal (w_tracker w)) = false ->
  agrees (holder w) (w_contents w) (by_key (w_routes w)) /\
  (w_lock w = None -> static_map (w_contents w) = static_map (by_key (w_routes w))).
Proof.
  intros Hr Htorn Hnt. pose proof (reachable_coherent w Hr Htorn Hnt) as Hco.
  split; [exact Hco|]. intros Hl. unfold holder in Hco. rewrite Hl in Hco. exact Hco.
Qed.

Lemma published_routes_track_backend_witness :
  let m := {[ normalize "/a" := mkRouteData "http://b" 5 ∅ ]} in
  static_map (w_contents (initial m)) = static_map (by_key (w_routes (initial m))).
Proof.
  intros m. apply (published_routes_track_backend (initial m)); try reflexivity.
  apply initial_reachable.
Defined.

(** C8: no concurrent publication is lost and no published stamp moves back:
    every step leaves the snapshot or applies one pending edit to the routes
    published before it, and a route that stays published keeps or raises its
    activity. *)
Theorem publications_are_serial_and_monotone w w' :
  reachable w -> step w w' ->
  (w_snapshot w' = w_snapshot w \/
   exists e, pending_edit w e /\ w_snapshot w' = from_ordered_routes (apply_edit e (w_routes w))) /\
  (forall k d d', by_key (w_routes w) !! k = Some d -> by_key (w_routes w') !! k = Some d' ->
     last_activity d <= last_activity d').
Proof.
  intros Hr%reachable_structure Hs. pose proof (step_publication w w' Hr Hs) as Hp.
  split; [exact Hp|]. intros k d d' Hd Hd'. by eapply step_stamps.
Qed.

Lemma publications_are_serial_and_monotone_witness :
  exists w', step lost_world w' /\ w_snapshot w' = w_snapshot lost_world.
Proof.
  exists (set_tracker (drain_start (w_tracker lost_world)).2 lost_world).
  split; [apply step_drain_start|].
  destruct (publications_are_serial_and_monotone lost_world _ lost_world_reachable
    (step_drain_start lost_world)) as [[Heq|_] _]; [exact Heq|reflexivity].
Defined.

(** C22: spawned mutations neither deadlock nor spin: while any is admitted some
    task can step, and each task step strictly decreases a bound on the steps
    left, so without new observers every mutation finishes. *)
Theorem mutation_tasks_progress_and_terminate w :
  reachable w ->
  (w_tasks w <> ∅ -> exists i w', task_step i w w') /\
  (forall i w', task_step i w w' -> (work w' < work w)%nat).
Proof.
  intros Hr%reachable_structure. split; [by apply task_progress|].
  intros i w'. by apply task_step_work.
Qed.

Lemma mutation_tasks_progress_and_terminate_witness :
  w_tasks lost_world <> ∅ /\ exists i w', task_step i lost_world w'.
Proof.
  assert (Hne : w_tasks lost_world <> ∅) by apply insert_non_empty.
  split; [exact Hne|].
  exact (proj1 (mutation_tasks_progress_and_terminate lost_world lost_world_reachable) Hne).
Defined.

(** A drain seals admission and can always complete: from the state it
    leaves, a run exists after which its check reports no active mutation and no
    timeout, with admission still sealed. *)
Theorem drain_can_complete w :
  reachable w ->
  exists w' o t', rtc step (set_tracker (drain_start (w_tracker w)).2 w) w' /\
    drain_check (w_tracker w') = (Some o, t') /\
    timed_out o = false /\ active_mutations o = 0 /\ seal t' <> Open.
Proof.
  intros Hr. set (w1 := set_tracker _ w).
  assert (Hs1 : step w w1) by apply step_drain_start.
  pose proof (reachable_step _ _ Hr Hs1) as Hr1.
  destruct (tasks_drain w1 (reachable_structure _ Hr1)) as (w' & Hpath & Hinv' & Hempty).
  assert (Ha : active (w_tracker w') = 0) by (rewrite (inv_active w' Hinv'), Hempty; done).
  assert (Hseal : seal (w_tracker w') <> Open).
  { apply (sealed_forever w1 w' Hpath). simpl. rewrite drain_start_seal.
    by case_bool_decide. }
  unfold drain_check. eexists w', _, _. split; [exact Hpath|].
  split; [rewrite Ha; reflexivity|]. done.
Qed.

Lemma drain_can_complete_witness : exists w' o t',
  rtc step (set_tracker (drain_start (w_tracker lost_world)).2 lost_world) w' /\
  drain_check (w_tracker w') = (Some o, t') /\ timed_out o = false.
Proof.
  destruct (drain_can_complete lost_world lost_world_reachable) as (w' & o & t' & H1 & H2 & H3 & _).
  exists w', o, t'. split; [exact H1|]. split; [exact H2|exact H3].
Defined.

(** Sealing is irrevocable: whatever runs after the seal left [Open], it
    never returns to it, no task appears, and every admission is refused with an
    error that is not indeterminate. *)
Theorem sealed_admission_is_permanent w w' op :
  seal (w_tracker w) <> Open -> rtc step w w' ->
  seal (w_tracker w') <> Open /\ dom (w_tasks w') ⊆ dom (w_tasks w) /\
  exists e, begin op (w_tracker w') = Err e /\ is_indeterminate_error e = false.
Proof.
  intros Hs Hpath. pose proof (sealed_forever w w' Hpath Hs) as Hs'. split_and!.
  - done.
  - induction Hpath as [|w1 w2 w3 H12 Hr IH]; [done|].
    destruct (sealed_step w1 w2 Hs H12) as [Hs2 Hd]. etrans; [apply IH; done|done].
  - unfold begin. destruct (seal (w_tracker w')); [done|..]; eauto.
Qed.

Lemma sealed_admission_is_permanent_witness :
  exists e, begin Add (w_tracker lost_world) = Err e /\ is_indeterminate_error e = false.
Proof.
  assert (Hs : seal (w_tracker lost_world) <> Open) by discriminate.
  exact (proj2 (proj2 (sealed_admission_is_permanent lost_world lost_world Add Hs (rtc_refl _ _)))).
Defined.

(** *** The sequential theorems over the in-memory backend *)

Definition memory_registry (t : MutationTrackerState) : RouteRegistry MemoryStore.t :=
  mkRegistry MemoryStore.new (from_routes ∅) t.

Definition sample_clock : MemoryStore.Clock := MemoryStore.mkClock None 7.

Lemma operations_are_runs_witness :
  exists w', rtc step (initial ∅) w' /\ w_lock w' = None /\
    w_contents w' !! normalize "/a" = Some (mkRouteData "http://b" 7 ∅).
Proof.
  destruct (operations_are_runs (Env := MemoryStore.Clock) (St := MemoryStore.t) attached sample_clock
    (MAdd (normalize "/a") "http://b" ∅) (initial ∅) (memory_registry tracker_default) 0)
    as (w' & Hr & (Hc & _) & Hl & _).
  - split; [reflexivity|]. split; reflexivity.
  - split; [reflexivity|]. split; reflexivity.
  - reflexivity.
  - reflexivity.
  - reflexivity.
  - exists w'. split; [exact Hr|]. split; [exact Hl|]. rewrite Hc. reflexivity.
Defined.

Lemma failed_mutation_publishes_nothing_witness :
  let r := memory_registry tracker_default in
  let out := Simulation.attempt attached sample_clock (MDelete (normalize "/a")) (Some MemoryStore.new) r in
  out.1 = Err (message (panic_message Delete)) /\ reg_snapshot out.2 = reg_snapshot r /\
  seal (reg_mutations out.2) = BackendPanic.
Proof.
  intros r out. split; [reflexivity|].
  destruct (failed_mutation_publishes_nothing (Env := MemoryStore.Clock) attached sample_clock
    (MDelete (normalize "/a")) (Some MemoryStore.new) r out.2 (message (panic_message Delete)) eq_refl eq_refl)
    as [Hs [(s & _ & _ & Hseal & _)|[Hseal _]]]; [split; [exact Hs|exact Hseal]|discriminate Hseal].
Defined.

Lemma successful_add_is_visible_witness :
  let out := Simulation.perform attached sample_clock (MAdd (normalize "/a/") "http://b" ∅)
    (memory_registry tracker_default) in
  out.1 = Ok tt /\
  exists d, registry_resolve "/a" (view out.2) = Some (mkRouteMatch (normalize "/a") d).
Proof.
  intros out. split; [reflexivity|].
  assert (Hout : out = (Ok tt, out.2)) by (etrans; [apply surjective_pairing|reflexivity]).
  destruct (successful_add_is_visible (Env := MemoryStore.Clock) sample_clock
    (normalize "/a/") "http://b" ∅ (memory_registry tracker_default) out.2 eq_refl reserved_free_empty
    (from_ordered_routes_wf _ (from_sorted_wf ∅)) Hout)
    as (d & _ & _ & _ & _ & Hres & _).
  exists d. exact Hres.
Defined.
