(* ===== verification/Metrics.v ===== *)
(** * Process metrics (src/metrics.rs)

    Counters are [AtomicU64]s, which wrap; summaries keep a bounded window of the
    newest observations.  Floating point is the class [F64] with the facts the
    code relies on; [RationalF64] shows that they can hold. *)

From Stdlib Require Import QArith Qround Qabs.
From S2P Require Import Prelude RustStr.
Open Scope Z_scope.

(** ** Floating point *)

Class F64 : Type := {
  f64 : Type;
  f_zero : f64;
  f_add : f64 -> f64 -> f64;
  f_mul : f64 -> f64 -> f64;
  f_of_usize : nat -> f64;             (** [as f64] *)
  f_round_usize : f64 -> nat;          (** [.round() as usize] *)
  f_of_duration : Duration -> f64;     (** [Duration::as_secs_f64] *)
  f_thousandths : nat -> f64;          (** the literals 0.01 ... 0.999 *)
  f_total_le : f64 -> f64 -> Prop;     (** [f64::total_cmp] is not [Greater] *)
  f_total_le_dec a b :: Decision (f_total_le a b);
  f_show : f64 -> string               (** [Display] *)
}.

(** [total_cmp] is total; scaling an index by at most one does not exceed it. *)
Class F64Laws `{F64} : Prop := {
  f_total_le_total :: Total f_total_le;
  f_scaled_index n t :
    (t <= 1000)%nat -> (f_round_usize (f_mul (f_of_usize n) (f_thousandths t)) <= n)%nat
}.

Section Summaries.
Context `{F64}.

(** ** Summaries *)

(** In thousandths. *)
Definition SUMMARY_QUANTILES : list nat := [10; 50; 500; 900; 950; 990; 999]%nat.
Definition SUMMARY_WINDOW_CAPACITY : nat := 4096.

Record Summary : Type := mkSummary { count : Z; sum : f64; recent : list f64 }.

Definition Summary_default : Summary := {| count := 0; sum := f_zero; recent := [] |}.

Definition observe (duration : Duration) (s : Summary) : Summary :=
  let value := f_of_duration duration in
  {| count := saturating_add u64_max (count s) 1;
     sum := f_add (sum s) value;
     recent := (if (length (recent s) =? SUMMARY_WINDOW_CAPACITY)%nat
                then drop 1 (recent s) else recent s) ++ [value] |}.

Record SummarySnapshot : Type := mkSummarySnapshot {
  snap_count : Z; snap_sum : f64; sorted_recent : list f64 }.

Definition summary_snapshot (s : Summary) : SummarySnapshot :=
  {| snap_count := count s; snap_sum := sum s; sorted_recent := recent s |}.

Definition sort (s : SummarySnapshot) : SummarySnapshot :=
  {| snap_count := snap_count s; snap_sum := snap_sum s;
     sorted_recent := merge_sort f_total_le (sorted_recent s) |}.

(** [None] is the index panic. *)
Definition quantile (q : nat) (s : SummarySnapshot) : option f64 :=
  if bool_decide (sorted_recent s = []) then Some f_zero
  else
    let index := f_round_usize (f_mul (f_of_usize (length (sorted_recent s) - 1)) (f_thousandths q)) in
    sorted_recent s !! index.

(** ** Counters *)

Record Metrics : Type := mkMetrics {
  requests_api : gmap Z Z;
  requests_proxy : gmap Z Z;
  api_route_get : Z;
  api_route_add : Z;
  api_route_delete : Z;
  find_target_for_req : Summary;
  last_activity_updating : Summary;
  requests_ws : Z;
  requests_web : Z;
  activity_persistence_failures : Z;
  activity_dropped : Z
}.

Definition Metrics_new : Metrics :=
  mkMetrics ∅ ∅ 0 0 0 Summary_default Summary_default 0 0 0 0.

Definition fetch_add (n : Z) : Z := wrapping_add u64_max n 1.

Definition count_status (status : Z) (m : gmap Z Z) : gmap Z Z :=
  <[status := fetch_add (default 0 (m !! status))]> m.

Definition record_api_request (status : Z) (m : Metrics) : Metrics :=
  mkMetrics (count_status status (requests_api m)) (requests_proxy m) (api_route_get m)
    (api_route_add m) (api_route_delete m) (find_target_for_req m) (last_activity_updating m)
    (requests_ws m) (requests_web m) (activity_persistence_failures m) (activity_dropped m).

Definition record_api_route_get (m : Metrics) : Metrics :=
  mkMetrics (requests_api m) (requests_proxy m) (fetch_add (api_route_get m))
    (api_route_add m) (api_route_delete m) (find_target_for_req m) (last_activity_updating m)
    (requests_ws m) (requests_web m) (activity_persistence_failures m) (activity_dropped m).

Definition record_api_route_add (m : Metrics) : Metrics :=
  mkMetrics (requests_api m) (requests_proxy m) (api_route_get m)
    (fetch_add (api_route_add m)) (api_route_delete m) (find_target_for_req m)
    (last_activity_updating m) (requests_ws m) (requests_web m)
    (activity_persistence_failures m) (activity_dropped m).

Definition record_api_route_delete (m : Metrics) : Metrics :=
  mkMetrics (requests_api m) (requests_proxy m) (api_route_get m)
    (api_route_add m) (fetch_add (api_route_delete m)) (find_target_for_req m)
    (last_activity_updating m) (requests_ws m) (requests_web m)
    (activity_persistence_failures m) (activity_dropped m).

Definition record_find_target (d : Duration) (m : Metrics) : Metrics :=
  mkMetrics (requests_api m) (requests_proxy m) (api_route_get m)
    (api_route_add m) (api_route_delete m) (observe d (find_target_for_req m))
    (last_activity_updating m) (requests_ws m) (requests_web m)
    (activity_persistence_failures m) (activity_dropped m).

Definition record_last_activity_update (d : Duration) (m : Metrics) : Metrics :=
  mkMetrics (requests_api m) (requests_proxy m) (api_route_get m)
    (api_route_add m) (api_route_delete m) (find_target_for_req m)
    (observe d (last_activity_updating m)) (requests_ws m) (requests_web m)
    (activity_persistence_failures m) (activity_dropped m).

Definition record_ws_request (m : Metrics) : Metrics :=
  mkMetrics (requests_api m) (requests_proxy m) (api_route_get m)
    (api_route_add m) (api_route_delete m) (find_target_for_req m)
    (last_activity_updating m) (fetch_add (requests_ws m)) (requests_web m)
    (activity_persistence_failures m) (activity_dropped m).

Definition record_web_request (m : Metrics) : Metrics :=
  mkMetrics (requests_api m) (requests_proxy m) (api_route_get m)
    (api_route_add m) (api_route_delete m) (find_target_for_req m)
    (last_activity_updating m) (requests_ws m) (fetch_add (requests_web m))
    (activity_persistence_failures m) (activity_dropped m).

Definition record_proxy_request (status : Z) (m : Metrics) : Metrics :=
  mkMetrics (requests_api m) (count_status status (requests_proxy m)) (api_route_get m)
    (api_route_add m) (api_route_delete m) (find_target_for_req m) (last_activity_updating m)
    (requests_ws m) (requests_web m) (activity_persistence_failures m) (activity_dropped m).

Definition record_activity_persistence_failure (m : Metrics) : Metrics :=
  mkMetrics (requests_api m) (requests_proxy m) (api_route_get m)
    (api_route_add m) (api_route_delete m) (find_target_for_req m)
    (last_activity_updating m) (requests_ws m) (requests_web m)
    (fetch_add (activity_persistence_failures m)) (activity_dropped m).

Definition record_activity_drop (m : Metrics) : Metrics :=
  mkMetrics (requests_api m) (requests_proxy m) (api_route_get m)
    (api_route_add m) (api_route_delete m) (find_target_for_req m)
    (last_activity_updating m) (requests_ws m) (requests_web m)
    (activity_persistence_failures m) (fetch_add (activity_dropped m)).

(** [snapshot]: the counters, each read on its own; no lock spans them. *)
Record MetricsSnapshot : Type := mkMetricsSnapshot {
  ms_requests_api : gmap Z Z;
  ms_requests_proxy : gmap Z Z;
  ms_api_route_get : Z;
  ms_api_route_add : Z;
  ms_api_route_delete : Z;
  ms_requests_ws : Z;
  ms_requests_web : Z;
  ms_activity_persistence_failures : Z;
  ms_activity_dropped : Z
}.

Definition metrics_snapshot (m : Metrics) : MetricsSnapshot :=
  mkMetricsSnapshot (requests_api m) (requests_proxy m) (api_route_get m) (api_route_add m) (api_route_delete m)
    (requests_ws m) (requests_web m) (activity_persistence_failures m) (activity_dropped m).

(** ** Rendering *)

Definition nl : string := str1 newline.

Definition render_head (name help kind : string) : string :=
  "# HELP " +:+ name +:+ " " +:+ help +:+ nl +:+ "# TYPE " +:+ name +:+ " " +:+ kind +:+ nl.

Definition render_counter (name help : string) (value : Z) : string :=
  render_head name help "counter" +:+ name +:+ " " +:+ show_Z value +:+ nl +:+ nl.

Definition status_le (a b : Z * Z) : Prop := a.1 <= b.1.

#[local] Instance status_le_dec a b : Decision (status_le a b).
Proof. unfold status_le; apply _. Defined.

(** Labels in ascending [u16] order, as [BTreeMap] iterates. *)
Definition btree_statuses (m : gmap Z Z) : list (Z * Z) :=
  merge_sort status_le (map_to_list m).

Definition concat_strings (l : list string) : string := foldr String.append EmptyString l.

Definition label (name key value : string) : string :=
  name +:+ "{" +:+ key +:+ "=" +:+ str1 quote +:+ value +:+ str1 quote +:+ "}".

Definition render_status_counter (name help : string) (values : gmap Z Z) : string :=
  render_head name help "counter" +:+
  concat_strings (map (fun sv => label name "status" (show_Z sv.1) +:+ " " +:+ show_Z sv.2 +:+ nl)
    (btree_statuses values)) +:+ nl.

Definition render_summary (name help : string) (s : SummarySnapshot) : option string :=
  lines ← mapM (fun q =>
      v ← quantile q s;
      Some (label name "quantile" (f_show (f_thousandths q)) +:+ " " +:+ f_show v +:+ nl))
    SUMMARY_QUANTILES;
  Some (render_head name help "summary" +:+ concat_strings lines +:+
        name +:+ "_sum " +:+ f_show (snap_sum s) +:+ nl +:+
        name +:+ "_count " +:+ show_Z (snap_count s) +:+ nl +:+ nl).

(** [render_prometheus]; [None] is a panic. *)
Definition render_prometheus (m : Metrics) : option string :=
  let snapshot := metrics_snapshot m in
  find_target ← render_summary "find_target_for_req" "Summary of find target requests"
    (sort (summary_snapshot (find_target_for_req m)));
  last_activity ← render_summary "last_activity_updating" "Summary of last activity updating requests"
    (sort (summary_snapshot (last_activity_updating m)));
  Some (render_counter "api_route_get" "Count of API route get requests" (ms_api_route_get snapshot) +:+
        render_counter "api_route_add" "Count of API route add requests" (ms_api_route_add snapshot) +:+
        render_counter "api_route_delete" "Count of API route delete requests" (ms_api_route_delete snapshot) +:+
        find_target +:+
        last_activity +:+
        render_counter "requests_ws" "Count of websocket requests" (ms_requests_ws snapshot) +:+
        render_counter "requests_web" "Count of web requests" (ms_requests_web snapshot) +:+
        render_status_counter "requests_proxy" "Count of proxy requests" (ms_requests_proxy snapshot) +:+
        render_status_counter "requests_api" "Count of API requests" (ms_requests_api snapshot)).

(** ** Lemmas *)

Definition observe_all (ds : list Duration) (s : Summary) : Summary :=
  fold_left (fun s d => observe d s) ds s.

Lemma observe_all_app ds d s : observe_all (ds ++ [d]) s = observe d (observe_all ds s).
Proof. unfold observe_all. by rewrite fold_left_app. Qed.

Lemma observe_all_window ds :
  recent (observe_all ds Summary_default)
    = drop (length ds - SUMMARY_WINDOW_CAPACITY) (map f_of_duration ds) /\
  count (observe_all ds Summary_default) = Z.min u64_max (Z.of_nat (length ds)).
Proof.
  induction ds as [|d ds [IHr IHc]] using rev_ind; [done|].
  rewrite observe_all_app. unfold observe; simpl. rewrite IHr, IHc. clear IHr IHc.
  rewrite length_drop, length_app, length_map, map_app; simpl.
  unfold SUMMARY_WINDOW_CAPACITY, saturating_add. split; [|lia].
  destruct (Nat.eqb_spec (length ds - (length ds - 4096)) 4096).
  - rewrite drop_drop. rewrite drop_app_le by (rewrite length_map; lia).
    f_equal. f_equal. lia.
  - replace (length ds + 1 - 4096)%nat with 0%nat by lia.
    replace (length ds - 4096)%nat with 0%nat by lia. done.
Qed.

Context `{!F64Laws}.
Set Default Proof Using "Type*".

Lemma quantile_in_bounds q s :
  (q <= 1000)%nat -> sorted_recent s <> [] ->
  exists v, quantile q s = Some v /\ v ∈ sorted_recent s.
Proof.
  intros Hq Hne. unfold quantile. rewrite bool_decide_eq_false_2 by done.
  pose proof (f_scaled_index (length (sorted_recent s) - 1) q Hq) as Hi.
  destruct (lookup_lt_is_Some_2 (sorted_recent s)
    (f_round_usize (f_mul (f_of_usize (length (sorted_recent s) - 1)) (f_thousandths q)))) as [v Hv].
  { destruct (sorted_recent s); [done|]. simpl in *. lia. }
  exists v. split; [done|]. by eapply list_elem_of_lookup_2.
Qed.

Lemma quantile_total q s : (q <= 1000)%nat -> is_Some (quantile q s).
Proof.
  intros Hq. destruct (decide (sorted_recent s = [])) as [He|Hne].
  - unfold quantile. rewrite bool_decide_eq_true_2 by done. done.
  - destruct (quantile_in_bounds q s Hq Hne) as (v & -> & _). done.
Qed.

Lemma render_summary_total name help s : is_Some (render_summary name help s).
Proof.
  unfold render_summary. simpl.
  assert (Ht : forall q, (q <= 1000)%nat -> exists v, quantile q s = Some v)
    by (intros q Hq; apply (quantile_total q s Hq)).
  repeat match goal with
  | |- context [quantile ?q s] => destruct (Ht q) as [? ->]; [lia|]; simpl
  end.
  by eexists.
Qed.

(** ** Theorems *)

(** A summary's window is exactly the newest 4096 observations in order,
    its count the number of all of them (saturating), and each quantile the
    proxy renders is one of the retained observations. *)
Theorem summary_keeps_newest_window ds q :
  (q <= 1000)%nat -> ds <> [] ->
  let s := observe_all ds Summary_default in
  let window := drop (length ds - SUMMARY_WINDOW_CAPACITY) (map f_of_duration ds) in
  recent s = window /\ (length window <= SUMMARY_WINDOW_CAPACITY)%nat /\
  count s = Z.min u64_max (Z.of_nat (length ds)) /\
  exists v, quantile q (sort (summary_snapshot s)) = Some v /\ v ∈ window.
Proof.
  intros Hq Hne s window. destruct (observe_all_window ds) as [Hr Hc]. split_and!.
  - done.
  - unfold window, SUMMARY_WINDOW_CAPACITY. rewrite length_drop, length_map. lia.
  - done.
  - destruct (quantile_in_bounds q (sort (summary_snapshot s)) Hq) as (v & Hv & Hin).
    + simpl. intros Hnil. apply (f_equal length) in Hnil.
      rewrite merge_sort_Permutation in Hnil. unfold s in Hnil. rewrite Hr in Hnil.
      rewrite length_drop, length_map in Hnil. unfold SUMMARY_WINDOW_CAPACITY in Hnil.
      destruct ds; [done|]. simpl in Hnil. lia.
    + exists v. split; [done|]. simpl in Hin. rewrite merge_sort_Permutation in Hin.
      unfold s in Hin. by rewrite Hr in Hin.
Qed.

(** Rendering never panics: every metrics state has a Prometheus text, and
    its summaries are sorted before any quantile is read from them. *)
Theorem render_prometheus_total m :
  is_Some (render_prometheus m) /\
  Sorted f_total_le (sorted_recent (sort (summary_snapshot (find_target_for_req m)))).
Proof.
  split; [|apply Sorted_merge_sort, _].
  unfold render_prometheus. cbv zeta.
  destruct (render_summary_total "find_target_for_req" "Summary of find target requests"
    (sort (summary_snapshot (find_target_for_req m)))) as [x ->].
  destruct (render_summary_total "last_activity_updating" "Summary of last activity updating requests"
    (sort (summary_snapshot (last_activity_updating m)))) as [y ->]. by eexists.
Qed.

End Summaries.

(** ** A model of the floating-point interface over the rationals *)

#[local] Instance Qle_decision a b : Decision (a <= b)%Q.
Proof. destruct (Qlt_le_dec b a) as [Hlt|Hle]; [right|by left]. by apply Qlt_not_le. Defined.

#[global] Instance RationalF64 : F64 := {|
  f64 := Q;
  f_zero := 0%Q;
  f_add := Qplus;
  f_mul := Qmult;
  f_of_usize n := inject_Z (Z.of_nat n);
  f_round_usize x := Z.to_nat (Qfloor (x + (1 # 2)));
  f_of_duration d := d # 1000000000;
  f_thousandths t := Z.of_nat t # 1000;
  f_total_le := Qle;
  f_total_le_dec := Qle_decision;
  f_show x := show_Z (Qfloor x)
|}.

#[global] Instance RationalF64Laws : F64Laws.
Proof.
  split.
  - intros a b. simpl. destruct (Qlt_le_dec a b) as [Hlt|Hle]; [left|by right]. by apply Qlt_le_weak.
  - intros n t Ht. simpl. unfold Qfloor, Qplus, Qmult, inject_Z; simpl.
    assert (Hnt : 0 <= Z.of_nat n * Z.of_nat t <= Z.of_nat n * 1000) by nia.
    apply Nat2Z.inj_le. rewrite Z2Nat.id.
    + apply Z.lt_succ_r, Z.div_lt_upper_bound; lia.
    + apply Z.div_pos; lia.
Qed.

Lemma summary_keeps_newest_window_witness :
  let ds := repeat (from_millis 5) 3 in
  count (observe_all ds Summary_default) = 3 /\
  exists v, quantile 950 (sort (summary_snapshot (observe_all ds Summary_default))) = Some v.
Proof.
  intros ds. split; [reflexivity|].
  destruct (summary_keeps_newest_window ds 950) as (_ & _ & _ & v & Hv & _);
    [lia|discriminate|]. exists v. exact Hv.
Defined.

Lemma render_prometheus_total_witness : is_Some (render_prometheus (record_ws_request Metrics_new)).
Proof. exact (proj1 (render_prometheus_total (record_ws_request Metrics_new))). Defined.
