(* ===== verification/Activity.v ===== *)
(** * Coalesced persistence of activity observations (src/activity.rs)

    [ActivityWriter] as a state machine: recorders, the worker's loop over the
    bounded wake-up channel, and [flush].  Two ghost fields remember every
    accepted observation and every finished persistence attempt, so that the
    promise of [flush] can be stated. *)

From S2P Require Import Prelude RustStr Route RouteTable Store Tracker Registry Metrics.

(** ** Pending work, guarded by one mutex *)

Record PendingActivity : Type := mkPendingActivity {
  latest : DateTime;
  pending_oldest_sequence : option Z;
  in_flight_oldest_sequence : option Z
}.

Record PendingActivities : Type := mkPending {
  p_by_key : gmap RouteKey PendingActivity;
  ready : list RouteKey;
  accepted_through : Z
}.

Definition Pending_default : PendingActivities := mkPending ∅ [] 0.

Definition accepts (capacity : nat) (key : RouteKey) (p : PendingActivities) : bool :=
  is_some (p_by_key p !! key) || (size (p_by_key p) <? capacity)%nat.

(** The accepted branch of [record_at] under the lock; [None] is the panic
    ["activity acceptance sequence exhausted"]. *)
Definition accept_observation (key : RouteKey) (at_ : DateTime) (p : PendingActivities) :
    option PendingActivities :=
  sequence ← checked_add u64_max (accepted_through p) 1;
  Some match p_by_key p !! key with
  | Some existing =>
      mkPending
        (<[key := {| latest := Z.max (latest existing) at_;
                     pending_oldest_sequence :=
                       Some (default sequence (pending_oldest_sequence existing));
                     in_flight_oldest_sequence := in_flight_oldest_sequence existing |}]> (p_by_key p))
        (ready p) sequence
  | None =>
      mkPending
        (<[key := {| latest := at_; pending_oldest_sequence := Some sequence;
                     in_flight_oldest_sequence := None |}]> (p_by_key p))
        (ready p ++ [key]) sequence
  end.

Inductive PopResult : Type :=
| PopEmpty
| PopPanic   (** one of the two [expect]s *)
| Popped (key : RouteKey) (at_ : DateTime) (sequence : Z) (p : PendingActivities).

Definition pop_ready (p : PendingActivities) : PopResult :=
  match ready p with
  | [] => PopEmpty
  | key :: rest =>
      match p_by_key p !! key with
      | None => PopPanic
      | Some pending =>
          match pending_oldest_sequence pending with
          | None => PopPanic
          | Some oldest_sequence =>
              Popped key (latest pending) oldest_sequence
                (mkPending
                   (<[key := {| latest := latest pending; pending_oldest_sequence := None;
                                in_flight_oldest_sequence := Some oldest_sequence |}]> (p_by_key p))
                   rest (accepted_through p))
          end
      end
  end.

(** The worker's second critical section, after the attempt. *)
Definition finish_persist (key : RouteKey) (p : PendingActivities) : PendingActivities :=
  match p_by_key p !! key with
  | Some pending =>
      let pending := {| latest := latest pending;
                        pending_oldest_sequence := pending_oldest_sequence pending;
                        in_flight_oldest_sequence := None |} in
      if is_some (pending_oldest_sequence pending)
      then mkPending (<[key := pending]> (p_by_key p)) (ready p ++ [key]) (accepted_through p)
      else mkPending (delete key (p_by_key p)) (ready p) (accepted_through p)
  | None => mkPending (delete key (p_by_key p)) (ready p) (accepted_through p)
  end.

Definition past (watermark : Z) (sequence : option Z) : bool :=
  is_none_or (fun s => watermark <? s) sequence.

Definition watermark_is_complete (watermark : Z) (p : PendingActivities) : bool :=
  forallb (fun kv : RouteKey * PendingActivity =>
             past watermark (in_flight_oldest_sequence kv.2) &&
             past watermark (pending_oldest_sequence kv.2))
    (map_to_list (p_by_key p)).

(** ** The writer *)

(** Where the worker stands: at [receiver.recv()], at the head of its inner
    loop, or awaiting [persist_observed_activity]. *)
Inductive WorkerPhase : Type :=
| WRecv
| WLoop
| WPersist (key : RouteKey) (at_ : DateTime) (sequence : Z).

Section Writer.
Context `{F64}.

Record ActivityWriter : Type := mkWriter {
  pending : PendingActivities;
  persistence_errors : Z;
  dropped_observations : Z;
  pending_capacity : nat;
  metrics : Metrics;
  wake : bool;                 (** the one slot of [mpsc::channel(1)] *)
  worker : WorkerPhase;
  worker_alive : bool;         (** the runtime has not dropped the worker *)
  sending : nat;               (** recorders between unlock and [try_send] *)
  accepted : gmap Z (RouteKey * DateTime);      (** ghost: every acceptance *)
  attempted : list (RouteKey * DateTime)        (** ghost: finished attempts *)
}.

Definition start_with_metrics (capacity : nat) (m : Metrics) : ActivityWriter :=
  mkWriter Pending_default 0 0 (Nat.max capacity 1) m false WRecv true 0 ∅ [].

Definition start (capacity : nat) : ActivityWriter := start_with_metrics capacity Metrics_new.

Definition pending_routes (a : ActivityWriter) : nat := size (p_by_key (pending a)).

Definition with_metrics (m : Metrics) (a : ActivityWriter) : ActivityWriter :=
  mkWriter (pending a) (persistence_errors a) (dropped_observations a) (pending_capacity a) m
    (wake a) (worker a) (worker_alive a) (sending a) (accepted a) (attempted a).

Definition with_pending (p : PendingActivities) (a : ActivityWriter) : ActivityWriter :=
  mkWriter p (persistence_errors a) (dropped_observations a) (pending_capacity a) (metrics a)
    (wake a) (worker a) (worker_alive a) (sending a) (accepted a) (attempted a).

Definition with_worker (w : WorkerPhase) (a : ActivityWriter) : ActivityWriter :=
  mkWriter (pending a) (persistence_errors a) (dropped_observations a) (pending_capacity a) (metrics a)
    (wake a) w (worker_alive a) (sending a) (accepted a) (attempted a).

Definition with_wake (b : bool) (a : ActivityWriter) : ActivityWriter :=
  mkWriter (pending a) (persistence_errors a) (dropped_observations a) (pending_capacity a) (metrics a)
    b (worker a) (worker_alive a) (sending a) (accepted a) (attempted a).

Definition with_sending (n : nat) (a : ActivityWriter) : ActivityWriter :=
  mkWriter (pending a) (persistence_errors a) (dropped_observations a) (pending_capacity a) (metrics a)
    (wake a) (worker a) (worker_alive a) n (accepted a) (attempted a).

(** [persistence_errors.fetch_add] and its metric. *)
Definition count_failure (a : ActivityWriter) : ActivityWriter :=
  mkWriter (pending a) (fetch_add (persistence_errors a)) (dropped_observations a)
    (pending_capacity a) (record_activity_persistence_failure (metrics a))
    (wake a) (worker a) (worker_alive a) (sending a) (accepted a) (attempted a).

(** [dropped_observations.fetch_add] and its metric. *)
Definition count_drop (a : ActivityWriter) : ActivityWriter :=
  mkWriter (pending a) (persistence_errors a) (fetch_add (dropped_observations a))
    (pending_capacity a) (record_activity_drop (metrics a))
    (wake a) (worker a) (worker_alive a) (sending a) (accepted a) (attempted a).

Definition note_accepted (key : RouteKey) (at_ : DateTime) (a : ActivityWriter) : ActivityWriter :=
  mkWriter (pending a) (persistence_errors a) (dropped_observations a) (pending_capacity a) (metrics a)
    (wake a) (worker a) (worker_alive a) (sending a)
    (<[accepted_through (pending a) := (key, at_)]> (accepted a)) (attempted a).

Definition note_attempted (key : RouteKey) (at_ : DateTime) (a : ActivityWriter) : ActivityWriter :=
  mkWriter (pending a) (persistence_errors a) (dropped_observations a) (pending_capacity a) (metrics a)
    (wake a) (worker a) (worker_alive a) (sending a) (accepted a) ((key, at_) :: attempted a).

(** [record_at] after a successful observation, up to the drop of the lock. *)
Definition record_admit (key : RouteKey) (at_ : DateTime) (elapsed : Duration) (a : ActivityWriter) :
    option ActivityWriter :=
  let a := with_metrics (record_last_activity_update elapsed (metrics a)) a in
  if negb (accepts (pending_capacity a) key (pending a)) then Some (count_drop a)
  else
    p ← accept_observation key at_ (pending a);
    Some (with_sending (S (sending a)) (note_accepted key at_ (with_pending p a))).

(** [wake.try_send(())]: a full channel is fine, a closed one is counted. *)
Definition try_send (a : ActivityWriter) : ActivityWriter :=
  let a := with_sending (pred (sending a)) a in
  if worker_alive a then with_wake true a else count_failure a.

(** [record_at] run without interference, over the registry's observation. *)
Definition record_at {St} (key : RouteKey) (at_ : DateTime) (elapsed : Duration)
    (r : RouteRegistry St) (a : ActivityWriter) : option (RouteRegistry St * ActivityWriter) :=
  let (observed, r) := observe_activity key at_ r in
  if negb observed then Some (r, a)
  else
    let sent := sending a in
    a ← record_admit key at_ elapsed a;
    Some (r, if (sent <? sending a)%nat then try_send a else a).

(** [record]: under the frozen harness clock only the timing metric moves. *)
Definition record {St} (fixed_now : option DateTime) (utc_now : DateTime) (elapsed : Duration)
    (key : RouteKey) (r : RouteRegistry St) (a : ActivityWriter) :
    option (RouteRegistry St * ActivityWriter) :=
  match fixed_now with
  | Some _ =>
      match get key (view r) with
      | Some _ => Some (r, with_metrics (record_last_activity_update elapsed (metrics a)) a)
      | None => Some (r, a)
      end
  | None => record_at key utc_now elapsed r a
  end.

(** The end of one turn of the worker's inner loop. *)
Definition worker_finish (key : RouteKey) (at_ : DateTime) (failed : bool) (a : ActivityWriter) :
    ActivityWriter :=
  let a := if failed then count_failure a else a in
  with_worker WLoop (with_pending (finish_persist key (pending a)) (note_attempted key at_ a)).

(** ** Steps *)

Inductive activity_step (a : ActivityWriter) : ActivityWriter -> Prop :=
| act_record key at_ elapsed a' :
    record_admit key at_ elapsed a = Some a' -> activity_step a a'
| act_send : (0 < sending a)%nat -> activity_step a (try_send a)
| act_recv :
    worker_alive a = true -> worker a = WRecv -> wake a = true ->
    activity_step a (with_worker WLoop (with_wake false a))
| act_pop_empty :
    worker_alive a = true -> worker a = WLoop -> pop_ready (pending a) = PopEmpty ->
    activity_step a (with_worker WRecv a)
| act_pop key at_ sequence p :
    worker_alive a = true -> worker a = WLoop ->
    pop_ready (pending a) = Popped key at_ sequence p ->
    activity_step a (with_worker (WPersist key at_ sequence) (with_pending p a))
| act_persisted key at_ sequence failed :
    worker_alive a = true -> worker a = WPersist key at_ sequence ->
    activity_step a (worker_finish key at_ failed a)
| act_worker_dropped :
    activity_step a
      (mkWriter (pending a) (persistence_errors a) (dropped_observations a) (pending_capacity a)
         (metrics a) (wake a) (worker a) false (sending a) (accepted a) (attempted a)).

Definition activity_reachable (a : ActivityWriter) : Prop :=
  exists capacity m, rtc activity_step (start_with_metrics capacity m) a.

(** ** Invariant *)

(** The key the worker is persisting, with its sequence. *)
Definition in_flight (w : WorkerPhase) : option (RouteKey * Z) :=
  match w with WPersist k _ s => Some (k, s) | _ => None end.

(** The queue holds exactly the keys that wait and are not being persisted, an
    entry is in flight exactly when the worker persists it, and every entry has
    work. *)
Record queue_inv (fl : option (RouteKey * Z)) (p : PendingActivities) : Prop := {
  q_nodup : NoDup (ready p);
  q_ready k : k ∈ ready p <-> exists e, p_by_key p !! k = Some e /\
    is_Some (pending_oldest_sequence e) /\ in_flight_oldest_sequence e = None;
  q_flight k s : fl = Some (k, s) <-> exists e, p_by_key p !! k = Some e /\
    in_flight_oldest_sequence e = Some s;
  q_work k e : p_by_key p !! k = Some e ->
    is_Some (pending_oldest_sequence e) \/ is_Some (in_flight_oldest_sequence e)
}.

(** An accepted observation has been attempted with a stamp at least as new, or
    is covered by waiting or running work that a flush of its sequence awaits. *)
Definition covered (a : ActivityWriter) (s : Z) (k : RouteKey) (at_ : DateTime) : Prop :=
  (exists at', (k, at') ∈ attempted a /\ at_ <= at') \/
  (exists e q, p_by_key (pending a) !! k = Some e /\ pending_oldest_sequence e = Some q /\
     q <= s /\ at_ <= latest e) \/
  (exists at' q, worker a = WPersist k at' q /\ q <= s /\ at_ <= at').

Record activity_inv (a : ActivityWriter) : Prop := {
  a_queue : queue_inv (in_flight (worker a)) (pending a);
  a_capacity : (1 <= pending_capacity a)%nat /\ (pending_routes a <= pending_capacity a)%nat;
  a_sequence : in_width u64_max (accepted_through (pending a));
  a_accepted s : is_Some (accepted a !! s) -> s <= accepted_through (pending a);
  a_oldest k e q : p_by_key (pending a) !! k = Some e -> pending_oldest_sequence e = Some q ->
    q <= accepted_through (pending a);
  a_covered s k at_ : accepted a !! s = Some (k, at_) -> covered a s k at_;
  a_wakeup : worker_alive a = true -> ready (pending a) <> [] -> worker a = WRecv ->
    wake a = true \/ (0 < sending a)%nat
}.

(** *** Queue operations *)

Lemma accept_spec key at_ p p' :
  accept_observation key at_ p = Some p' ->
  accepted_through p' = accepted_through p + 1 /\ accepted_through p + 1 <= u64_max.
Proof.
  unfold accept_observation. intros (s & [-> Hs]%checked_add_Some & Heq)%bind_Some.
  case_match; by simplify_eq/=.
Qed.

Lemma accept_queue fl key at_ p p' :
  queue_inv fl p -> accept_observation key at_ p = Some p' -> queue_inv fl p'.
Proof.
  intros [Hnd Hr Hf Hw]. unfold accept_observation. intros (s & _ & Heq)%bind_Some.
  destruct (p_by_key p !! key) as [e|] eqn:Hk; simplify_eq/=.
  - split; simpl; [done|..].
    + intros k. rewrite Hr. destruct (decide (key = k)) as [<-|Hne].
      * rewrite lookup_insert_eq, Hk. split; intros (e' & [= <-] & Hp & Hi); [by eexists|].
        eexists. split_and!; [done| |done]. destruct (Hw _ _ Hk) as [?|[? Hs]]; [done|].
        simpl in Hi. congruence.
      * by rewrite lookup_insert_ne.
    + intros k s'. rewrite Hf. destruct (decide (key = k)) as [<-|Hne].
      * rewrite lookup_insert_eq, Hk. split; intros (e' & [= <-] & Hi); by eexists.
      * by rewrite lookup_insert_ne.
    + intros k e'. destruct (decide (key = k)) as [<-|Hne].
      * rewrite lookup_insert_eq. intros [= <-]. by left.
      * rewrite lookup_insert_ne by done. apply Hw.
  - assert (Hni : key ∉ ready p).
    { intros (e & He & _)%Hr. congruence. }
    split; simpl.
    + apply NoDup_app. split_and!; [done|set_solver|by apply NoDup_singleton].
    + intros k. rewrite elem_of_app, list_elem_of_singleton, Hr.
      destruct (decide (key = k)) as [<-|Hne].
      * rewrite lookup_insert_eq. split; intros; [by eexists|by right].
      * rewrite lookup_insert_ne by done. naive_solver.
    + intros k s'. rewrite Hf. destruct (decide (key = k)) as [<-|Hne].
      * rewrite lookup_insert_eq, Hk. split; [naive_solver|]. by intros (e & [= <-] & ?).
      * by rewrite lookup_insert_ne.
    + intros k e'. destruct (decide (key = k)) as [<-|Hne].
      * rewrite lookup_insert_eq. intros [= <-]. by left.
      * rewrite lookup_insert_ne by done. apply Hw.
Qed.

Lemma pop_queue p :
  queue_inv None p ->
  match pop_ready p with
  | PopEmpty => ready p = []
  | PopPanic => False
  | Popped k at_ s p' =>
      queue_inv (Some (k, s)) p' /\ accepted_through p' = accepted_through p /\
      (exists e, p_by_key p !! k = Some e /\ latest e = at_ /\ pending_oldest_sequence e = Some s /\
         p_by_key p' = <[k := mkPendingActivity at_ None (Some s)]> (p_by_key p))
  end.
Proof.
  intros [Hnd Hr Hf Hw]. unfold pop_ready. destruct (ready p) as [|key rest] eqn:Hrd; [done|].
  destruct (proj1 (Hr key)) as (e & He & [s Hs] & Hi); [set_solver|].
  rewrite He, Hs. split; [|split; [done|by eexists]].
  apply NoDup_cons in Hnd as [Hni Hnd]. split; simpl; [done|..].
  - intros k. destruct (decide (key = k)) as [<-|Hne].
    + rewrite lookup_insert_eq. split; [done|]. by intros (e' & [= <-] & [? ?] & _).
    + rewrite lookup_insert_ne by done. rewrite <- Hr. set_solver.
  - intros k s'. destruct (decide (key = k)) as [<-|Hne].
    + rewrite lookup_insert_eq. split; [intros [= <-]; by eexists|]. intros (e' & [= <-] & [= <-]). done.
    + rewrite lookup_insert_ne by done. rewrite <- Hf. naive_solver.
  - intros k e'. destruct (decide (key = k)) as [<-|Hne].
    + rewrite lookup_insert_eq. intros [= <-]. by right.
    + rewrite lookup_insert_ne by done. apply Hw.
Qed.

Lemma finish_queue k s p :
  queue_inv (Some (k, s)) p -> queue_inv None (finish_persist k p).
Proof.
  intros [Hnd Hr Hf Hw]. destruct (proj1 (Hf k s) eq_refl) as (e & He & Hi).
  assert (Hni : k ∉ ready p).
  { intros (e' & He' & _ & Hn)%Hr. congruence. }
  assert (Hoth : forall k' s', k' <> k -> forall e', p_by_key p !! k' = Some e' ->
    in_flight_oldest_sequence e' <> Some s').
  { intros k' s' Hne e' He' Hi'. assert (Some (k, s) = Some (k', s')) by (apply Hf; eauto). congruence. }
  unfold finish_persist. rewrite He. simpl.
  destruct (pending_oldest_sequence e) as [q|] eqn:Hq; simpl; split; simpl; try done.
  - apply NoDup_app. split_and!; [done|set_solver|by apply NoDup_singleton].
  - intros k'. rewrite elem_of_app, list_elem_of_singleton, Hr. destruct (decide (k = k')) as [<-|Hne].
    + rewrite lookup_insert_eq. split; [|by right]. intros _. eexists. split_and!; [done|by rewrite ?Hq|done].
    + rewrite lookup_insert_ne by done. naive_solver.
  - intros k' s'. split; [done|]. intros (e' & He' & Hi').
    destruct (decide (k = k')) as [<-|Hne].
    + rewrite lookup_insert_eq in He'. by simplify_eq/=.
    + rewrite lookup_insert_ne in He' by done. destruct (Hoth k' s' (not_eq_sym Hne) e' He' Hi').
  - intros k' e'. destruct (decide (k = k')) as [<-|Hne].
    + rewrite lookup_insert_eq. intros [= <-]. left. simpl. by rewrite ?Hq.
    + rewrite lookup_insert_ne by done. apply Hw.
  - intros k'. rewrite Hr. destruct (decide (k = k')) as [<-|Hne].
    + rewrite lookup_delete_eq, He. split; [|naive_solver]. intros (e' & [= <-] & [? ?] & _). congruence.
    + by rewrite lookup_delete_ne.
  - intros k' s'. split; [done|]. intros (e' & [Hne He']%lookup_delete_Some & Hi').
    destruct (Hoth k' s' (not_eq_sym Hne) e' He' Hi').
  - intros k' e' [Hne He']%lookup_delete_Some. by eapply Hw.
Qed.

Lemma accept_size cap key at_ p p' :
  accepts cap key p = true -> accept_observation key at_ p = Some p' ->
  (size (p_by_key p) <= cap)%nat -> (size (p_by_key p') <= cap)%nat.
Proof.
  unfold accepts, accept_observation. intros Hacc (s & _ & Heq)%bind_Some Hle.
  destruct (p_by_key p !! key) as [e|] eqn:Hk; simplify_eq/=.
  - rewrite map_size_insert_Some by done. done.
  - rewrite map_size_insert_None by done. apply Nat.ltb_lt in Hacc. lia.
Qed.

Lemma finish_size k p : (size (p_by_key (finish_persist k p)) <= size (p_by_key p))%nat.
Proof.
  unfold finish_persist. destruct (p_by_key p !! k) eqn:Hk; [case_match|]; simpl.
  - rewrite map_size_insert_Some by done. done.
  - rewrite map_size_delete, Hk. apply Nat.le_pred_l.
  - rewrite map_size_delete, Hk. done.
Qed.

Lemma finish_lookup k p k' e :
  p_by_key (finish_persist k p) !! k' = Some e ->
  exists e0, p_by_key p !! k' = Some e0 /\ latest e = latest e0 /\
    pending_oldest_sequence e = pending_oldest_sequence e0.
Proof.
  unfold finish_persist. destruct (p_by_key p !! k) as [e0|] eqn:Hk; [case_match|]; simpl.
  - destruct (decide (k = k')) as [<-|]; [rewrite lookup_insert_eq; intros [= <-]; by exists e0|].
    rewrite lookup_insert_ne by done. naive_solver.
  - intros [_ He]%lookup_delete_Some. eauto.
  - intros [_ He]%lookup_delete_Some. eauto.
Qed.

(** *** Preservation *)

Lemma activity_inv_start capacity m : activity_inv (start_with_metrics capacity m).
Proof.
  split; simpl.
  - split; simpl; [constructor|..]; intros; rewrite ?lookup_empty; set_solver.
  - unfold pending_routes; simpl. rewrite map_size_empty. lia.
  - unfold in_width, u64_max; lia.
  - intros s. rewrite lookup_empty. by intros [].
  - intros k e q. by rewrite lookup_empty.
  - intros s k at_. by rewrite lookup_empty.
  - done.
Qed.

Lemma activity_inv_record key at_ elapsed a a' :
  activity_inv a -> record_admit key at_ elapsed a = Some a' -> activity_inv a'.
Proof.
  intros Hinv. unfold record_admit. simpl.
  destruct (accepts (pending_capacity a) key (pending a)) eqn:Hacc; simpl.
  2:{ intros [= <-]. destruct Hinv as [Hq Hc Hs Ha Ho Hcov Hw]. by split. }
  intros (p & Hp & [= <-])%bind_Some. destruct Hinv as [Hq [Hc1 Hc2] Hs Ha Ho Hcov Hw].
  pose proof (accept_spec _ _ _ _ Hp) as [Hthrough Hmax].
  pose proof (accept_queue _ _ _ _ _ Hq Hp) as Hq'.
  assert (Hentry : exists e, p_by_key p = <[key := e]> (p_by_key (pending a)) /\ at_ <= latest e /\
    (exists q, pending_oldest_sequence e = Some q /\ q <= accepted_through p) /\
    (forall e0 q0, p_by_key (pending a) !! key = Some e0 -> pending_oldest_sequence e0 = Some q0 ->
       pending_oldest_sequence e = Some q0 /\ latest e0 <= latest e)).
  { unfold accept_observation in Hp. apply bind_Some in Hp as (s & [-> Hs']%checked_add_Some & Heq).
    destruct (p_by_key (pending a) !! key) as [e0|] eqn:Hk; simplify_eq/=; eexists; (split; [done|]); simpl.
    - split; [lia|]. split.
      + eexists. split; [done|]. destruct (pending_oldest_sequence e0) as [q0|] eqn:Hq0; simpl; [|lia].
        specialize (Ho _ _ _ Hk Hq0). lia.
      + intros e1 q1 [= <-] ->. simpl. split; [done|lia].
    - split; [lia|]. split; [|done]. eexists. split; [done|lia]. }
  destruct Hentry as (e & Hby & Hlat & (q & Hpq & Hqle) & Hkeep).
  split; simpl.
  - done.
  - split; [done|]. unfold pending_routes in *; simpl. by eapply accept_size.
  - unfold in_width in *. lia.
  - intros s. destruct (decide (s = accepted_through p)) as [->|Hne]; [lia|].
    rewrite lookup_insert_ne by done. intros Hs0%Ha. lia.
  - intros k e' q'. rewrite Hby. destruct (decide (key = k)) as [<-|Hne].
    + rewrite lookup_insert_eq. intros [= <-] Hq''. simplify_eq. done.
    + rewrite lookup_insert_ne by done. intros Hk Hq''. specialize (Ho _ _ _ Hk Hq''). lia.
  - intros s k at' Hs0. unfold covered; simpl. rewrite Hby.
    destruct (decide (accepted_through p = s)) as [<-|Hne].
    + rewrite lookup_insert_eq in Hs0. simplify_eq. right. left. exists e, q.
      by rewrite lookup_insert_eq.
    + rewrite lookup_insert_ne in Hs0 by done.
      destruct (Hcov _ _ _ Hs0) as [?|[(e0 & q0 & He0 & Hq0 & Hle & Hl)|?]]; [by left| |by right; right].
      right. left. destruct (decide (key = k)) as [<-|Hnk].
      * destruct (Hkeep _ _ He0 Hq0) as [Hpe Hle']. exists e, q0. rewrite lookup_insert_eq.
        split_and!; [done|done|done|lia].
      * exists e0, q0. by rewrite lookup_insert_ne.
  - intros _ _ _. right. lia.
Qed.

Lemma activity_inv_pop a key at_ s p :
  activity_inv a -> worker a = WLoop -> pop_ready (pending a) = Popped key at_ s p ->
  activity_inv (with_worker (WPersist key at_ s) (with_pending p a)).
Proof.
  intros Hinv Hwk Hpop.
  destruct Hinv as [Hq Hc Hs Ha Ho Hcov Hw]. rewrite Hwk in Hq.
  pose proof (pop_queue _ Hq) as Hp. rewrite Hpop in Hp.
  destruct Hp as (Hq' & Hth & e & He & Hlat & Hpe & Hby). split; simpl; try done.
  - unfold pending_routes in *; simpl. rewrite Hby, map_size_insert_Some by done. done.
  - by rewrite Hth.
  - intros s'. rewrite Hth. apply Ha.
  - intros k e' q'. rewrite Hby, Hth. destruct (decide (key = k)) as [<-|Hne].
    + rewrite lookup_insert_eq. by intros [= <-].
    + rewrite lookup_insert_ne by done. apply Ho.
  - intros s' k at' [?|[(e0 & q0 & He0 & Hq0 & Hle & Hl)|(at'' & q & Hp & _)]]%Hcov;
      [by left| |congruence].
    unfold covered; simpl. rewrite Hby. right. destruct (decide (key = k)) as [<-|Hne].
    + right. rewrite He in He0. injection He0 as <-. rewrite Hpe in Hq0. injection Hq0 as <-.
      exists at_, s. split; [done|]. split; [done|]. by rewrite <- Hlat.
    + left. exists e0, q0. by rewrite lookup_insert_ne.
Qed.

Lemma activity_inv_finish a key at_ s failed :
  activity_inv a -> worker a = WPersist key at_ s -> activity_inv (worker_finish key at_ failed a).
Proof.
  intros Hinv Hwk.
  destruct Hinv as [Hq [Hc1 Hc2] Hs Ha Ho Hcov Hw]. rewrite Hwk in Hq.
  assert (Hpend : pending (if failed then count_failure a else a) = pending a) by by destruct failed.
  assert (Hacc : accepted (if failed then count_failure a else a) = accepted a) by by destruct failed.
  assert (Hatt : attempted (if failed then count_failure a else a) = attempted a) by by destruct failed.
  assert (Hcap : pending_capacity (if failed then count_failure a else a) = pending_capacity a)
    by by destruct failed.
  assert (Hthr : accepted_through (finish_persist key (pending a)) = accepted_through (pending a)).
  { unfold finish_persist. destruct (p_by_key (pending a) !! key) as [e|]; [|done].
    by destruct (is_some _). }
  split; simpl; rewrite ?Hpend, ?Hacc, ?Hcap, ?Hthr; try done.
  - by eapply finish_queue.
  - split; [done|]. unfold pending_routes in *; simpl. rewrite Hpend.
    pose proof (finish_size key (pending a)). lia.
  - intros k e q (e0 & He0 & _ & Heq)%finish_lookup Hq'. rewrite Heq in Hq'. by eapply Ho.
  - intros s' k at' Hs'. unfold covered; simpl. rewrite Hpend, Hatt.
    destruct (Hcov _ _ _ Hs') as [(at'' & Hin & Hle)|[(e0 & q0 & He0 & Hq0 & Hle & Hl)|(at'' & q & Hp & Hle & Hl)]].
    + left. exists at''. split; [by right|done].
    + right. left. unfold finish_persist. destruct (decide (key = k)) as [<-|Hne].
      * rewrite He0. simpl. rewrite Hq0. simpl. eexists _, q0. rewrite lookup_insert_eq.
         split; [done|]. simpl. done.
      * exists e0, q0. split; [|done]. destruct (p_by_key (pending a) !! key) as [e1|]; simpl;
           [destruct (is_some _); simpl|]; by rewrite ?lookup_insert_ne, ?lookup_delete_ne by done.
    + rewrite Hwk in Hp. simplify_eq. left. exists at''. split; [by left|done].
Qed.

Lemma activity_inv_step a a' : activity_inv a -> activity_step a a' -> activity_inv a'.
Proof.
  intros Hinv Hstep. destruct Hstep as
    [key at_ el a' Hrec|Hsend|Hal Hwk Hwake|Hal Hwk Hpop|key at_ s p Hal Hwk Hpop
    |key at_ s failed Hal Hwk|].
  - by eapply activity_inv_record.
  - destruct Hinv as [Hq Hc Hs Ha Ho Hcov Hw]. unfold try_send; simpl.
    destruct (worker_alive a) eqn:Hal; split; simpl; try done; [by left|by rewrite Hal].
  - destruct Hinv as [Hq Hc Hs Ha Ho Hcov Hw]. split; simpl; try done.
    + by rewrite Hwk in Hq.
    + intros s k at_ [?|[?|(at' & q & Hp & _)]]%Hcov; [by left|by right; left|congruence].
  - destruct Hinv as [Hq Hc Hs Ha Ho Hcov Hw]. rewrite Hwk in Hq. split; simpl; try done.
    + intros s k at_ [?|[?|(at' & q & Hp & _)]]%Hcov; [by left|by right; left|congruence].
    + intros _ Hne _. pose proof (pop_queue _ Hq) as Hp. rewrite Hpop in Hp. done.
  - by apply activity_inv_pop.
  - by eapply activity_inv_finish.
  - destruct Hinv as [Hq Hc Hs Ha Ho Hcov Hw]. by split.
Qed.

Lemma reachable_activity_inv a : activity_reachable a -> activity_inv a.
Proof.
  intros (c & m & Hr). revert a Hr. apply (rtc_ind_r activity_inv); [apply activity_inv_start|].
  intros. by eapply activity_inv_step.
Qed.

(** *** Flush *)

Lemma watermark_complete_spec w p :
  watermark_is_complete w p = true <->
  forall k e, p_by_key p !! k = Some e ->
    past w (in_flight_oldest_sequence e) = true /\ past w (pending_oldest_sequence e) = true.
Proof.
  unfold watermark_is_complete. rewrite forallb_forall. split.
  - intros Hall k e Hk. apply (andb_true_iff _ _), (Hall (k, e)).
    by apply list_elem_of_In, elem_of_map_to_list.
  - intros Hall [k e] Hin%list_elem_of_In%elem_of_map_to_list. apply andb_true_iff. by eapply Hall.
Qed.

Lemma past_le w q s : past w (Some q) = true -> q <= s -> w < s.
Proof. unfold past, is_none_or. bool_simp. intros ?%Z.ltb_lt ?. lia. Qed.

Lemma complete_attempted a w s k at_ :
  activity_inv a -> watermark_is_complete w (pending a) = true -> s <= w ->
  accepted a !! s = Some (k, at_) -> exists at', (k, at') ∈ attempted a /\ at_ <= at'.
Proof.
  intros Hinv Hw Hle Hs. pose proof (proj1 (watermark_complete_spec _ _) Hw) as Hall.
  destruct (a_covered a Hinv _ _ _ Hs) as [?|[(e & q & He & Hq & Hqs & _)|(at' & q & Hwk & Hqs & _)]].
  - done.
  - destruct (Hall _ _ He) as [_ Hp]. rewrite Hq in Hp. pose proof (past_le _ _ _ Hp Hqs). lia.
  - pose proof (a_queue a Hinv) as Hque. rewrite Hwk in Hque.
    destruct (proj1 (q_flight _ _ Hque k q) eq_refl) as (e & He & Hi).
    destruct (Hall _ _ He) as [Hp _]. rewrite Hi in Hp. pose proof (past_le _ _ _ Hp Hqs). lia.
Qed.

Lemma accepted_step a a' s x :
  activity_inv a -> activity_step a a' -> accepted a !! s = Some x -> accepted a' !! s = Some x.
Proof.
  intros Hinv Hstep Hs.
  destruct Hstep as [key at_ el a' Hrec| | | | |key at_ q failed _ _| ]; try done.
  - unfold record_admit in Hrec. simpl in Hrec. destruct (accepts _ _ _); simpl in Hrec.
    + apply bind_Some in Hrec as (p & Hp & [= <-]). apply accept_spec in Hp as [Hth _]. simpl.
      assert (s <= accepted_through (pending a)) by (apply (a_accepted a Hinv); eauto).
      rewrite lookup_insert_ne; [done|lia].
    + by simplify_eq/=.
  - unfold try_send; simpl. by destruct (worker_alive a).
  - simpl. by destruct failed.
Qed.

Lemma accepted_rtc a a' s x :
  activity_inv a -> rtc activity_step a a' -> accepted a !! s = Some x -> accepted a' !! s = Some x.
Proof.
  intros Hinv Hr. induction Hr as [|a b c Hab _ IH]; [done|]. intros Hs.
  apply IH; [by eapply activity_inv_step|by eapply accepted_step].
Qed.

(** *** Draining *)

Lemma empty_ready_empty a :
  activity_inv a -> in_flight (worker a) = None -> ready (pending a) = [] ->
  p_by_key (pending a) = ∅.
Proof.
  intros Hinv Hw Hr. destruct (a_queue a Hinv) as [_ Hrd Hf Hwork]. apply map_empty. intros k.
  destruct (p_by_key (pending a) !! k) as [e|] eqn:He; [|done]. exfalso.
  destruct (in_flight_oldest_sequence e) as [s|] eqn:Hi.
  - assert (in_flight (worker a) = Some (k, s)) by (apply Hf; eauto). congruence.
  - assert (k ∈ ready (pending a)).
    { apply Hrd. exists e. destruct (Hwork _ _ He) as [?|[? ?]]; [done|congruence]. }
    rewrite Hr in *. set_solver.
Qed.

(** A step towards an empty queue, in which every attempt ends as [failed] says. *)
Definition drain_step (failed : bool) (a a' : ActivityWriter) : Prop :=
  activity_step a a' /\ worker_alive a = true /\
  match worker a with WPersist k at_ _ => a' = worker_finish k at_ failed a | _ => True end.

Lemma drain_step_inv failed a a' : activity_inv a -> drain_step failed a a' -> activity_inv a'.
Proof. intros Hinv [Hs _]. by eapply activity_inv_step. Qed.

Lemma drain_attempt failed a k at_ s :
  worker_alive a = true -> worker a = WPersist k at_ s -> drain_step failed a (worker_finish k at_ failed a).
Proof. intros Hal Hwk. split; [by eapply act_persisted|]. by rewrite Hwk. Qed.

Lemma drain_loop failed n a :
  length (ready (pending a)) = n -> activity_inv a -> worker_alive a = true -> worker a = WLoop ->
  exists a', rtc (drain_step failed) a a' /\ p_by_key (pending a') = ∅.
Proof.
  revert a. induction n as [|n IH]; intros a Hn Hinv Hal Hwk.
  - apply nil_length_inv in Hn. exists a. split; [done|]. apply empty_ready_empty; [done|by rewrite Hwk|done].
  - pose proof (a_queue a Hinv) as Hq. rewrite Hwk in Hq. pose proof (pop_queue _ Hq) as Hp.
    destruct (pop_ready (pending a)) as [| |k at_ s p] eqn:Hpop; [by rewrite Hp in Hn|done|].
    destruct Hp as (Hq' & _ & e & He & _ & _ & Hby).
    assert (Hrest : length (ready p) = n).
    { unfold pop_ready in Hpop. destruct (ready (pending a)); [done|]. repeat case_match; simplify_eq/=. done. }
    set (a1 := with_worker (WPersist k at_ s) (with_pending p a)).
    assert (H1 : drain_step failed a a1) by (split; [by eapply act_pop|by rewrite Hwk]).
    set (a2 := worker_finish k at_ failed a1).
    assert (H2 : drain_step failed a1 a2) by by eapply drain_attempt.
    destruct (IH a2) as (a' & Hr & Hd).
    + unfold a2, worker_finish. destruct failed; simpl; unfold finish_persist; by rewrite Hby, lookup_insert_eq.
    + eapply drain_step_inv; [|done]. by eapply drain_step_inv.
    + unfold a2, worker_finish. by destruct failed.
    + unfold a2, worker_finish. by destruct failed.
    + exists a'. split; [|done]. eapply rtc_l; [done|]. by eapply rtc_l.
Qed.

Lemma drain_from_recv failed a :
  activity_inv a -> worker_alive a = true -> worker a = WRecv ->
  exists a', rtc (drain_step failed) a a' /\ p_by_key (pending a') = ∅.
Proof.
  intros Hinv Hal Hwk. destruct (decide (ready (pending a) = [])) as [Hr|Hr].
  { exists a. split; [done|]. apply empty_ready_empty; [done|by rewrite Hwk|done]. }
  assert (Hwoken : exists a1, rtc (drain_step failed) a a1 /\ activity_inv a1 /\ worker_alive a1 = true /\
    worker a1 = WRecv /\ wake a1 = true).
  { destruct (a_wakeup a Hinv Hal Hr Hwk) as [Hw|Hs]; [by exists a|].
    exists (try_send a). assert (Hst : drain_step failed a (try_send a)) by (split; [by constructor|by rewrite Hwk]).
    split; [by apply rtc_once|]. split; [by eapply drain_step_inv|].
    unfold try_send; simpl. by rewrite Hal. }
  destruct Hwoken as (a1 & Hr1 & Hinv1 & Hal1 & Hwk1 & Hw1).
  set (a2 := with_worker WLoop (with_wake false a1)).
  assert (H2 : drain_step failed a1 a2) by (split; [by apply act_recv|by rewrite Hwk1]).
  destruct (drain_loop failed _ a2 eq_refl) as (a' & Hr' & Hd); [by eapply drain_step_inv|done|done|].
  exists a'. split; [|done]. etrans; [done|]. by eapply rtc_l.
Qed.

Lemma writer_drains_with failed a :
  activity_inv a -> worker_alive a = true ->
  exists a', rtc (drain_step failed) a a' /\ p_by_key (pending a') = ∅.
Proof.
  intros Hinv Hal. destruct (worker a) as [| |k at_ s] eqn:Hwk.
  - by apply drain_from_recv.
  - by eapply drain_loop.
  - pose proof (drain_attempt failed a k at_ s Hal Hwk) as H1.
    destruct (drain_loop failed _ _ (eq_refl (length (ready (pending (worker_finish k at_ failed a)))))) as (a' & Hr & Hd);
      [by eapply drain_step_inv|unfold worker_finish; by destruct failed..|].
    exists a'. split; [|done]. by eapply rtc_l.
Qed.

Lemma writer_drains a :
  activity_inv a -> worker_alive a = true ->
  exists a', rtc activity_step a a' /\ p_by_key (pending a') = ∅.
Proof.
  intros Hinv Hal. destruct (writer_drains_with false a Hinv Hal) as (a' & Hr & He). exists a'. split; [|done].
  eapply rtc_subrel; [|done]. by intros x y [? _].
Qed.

(** ** Theorems *)

(** [flush] keeps its promise: when its check of the watermark taken at an
    earlier state succeeds, every observation accepted by then has had a
    persistence attempt for its route with a stamp at least as new. *)
Theorem flush_awaits_every_acceptance a0 a1 s k at_ :
  activity_reachable a0 -> rtc activity_step a0 a1 ->
  watermark_is_complete (accepted_through (pending a0)) (pending a1) = true ->
  accepted a0 !! s = Some (k, at_) ->
  exists at', (k, at') ∈ attempted a1 /\ at_ <= at'.
Proof.
  intros Hr Hpath Hw Hs. pose proof (reachable_activity_inv _ Hr) as Hinv.
  assert (Hr1 : activity_reachable a1) by (destruct Hr as (c & m & Hr); exists c, m; by etrans).
  eapply complete_attempted; [by apply reachable_activity_inv|done| |by eapply accepted_rtc].
  apply (a_accepted a0 Hinv). by eexists.
Qed.

(** C20: the writer is bounded and its worker never hits an [expect]: at most
    [pending_capacity] routes wait, each queued at most once, every queued key
    has pending work, and whenever keys wait while the worker sleeps a wake-up
    is stored or about to be sent. *)
Theorem writer_is_bounded_and_never_stalls a :
  activity_reachable a ->
  (pending_routes a <= pending_capacity a)%nat /\
  NoDup (ready (pending a)) /\
  (in_flight (worker a) = None -> pop_ready (pending a) <> PopPanic) /\
  (worker_alive a = true -> worker a = WRecv -> ready (pending a) <> [] ->
     wake a = true \/ (0 < sending a)%nat).
Proof.
  intros Hr%reachable_activity_inv. split_and!.
  - apply Hr.
  - apply (a_queue a Hr).
  - intros Hw Hp. pose proof (a_queue a Hr) as Hq. rewrite Hw in Hq.
    pose proof (pop_queue _ Hq) as Hpop. by rewrite Hp in Hpop.
  - intros. by apply (a_wakeup a Hr).
Qed.

(** Accepted work drains: while the worker lives, a run without further
    observations empties the pending map, after which a flush of any watermark
    completes. *)
Theorem writer_can_drain a :
  activity_reachable a -> worker_alive a = true ->
  exists a', rtc activity_step a a' /\ p_by_key (pending a') = ∅ /\
    forall w, watermark_is_complete w (pending a') = true.
Proof.
  intros Hr%reachable_activity_inv Hal. destruct (writer_drains a Hr Hal) as (a' & Hp & He).
  exists a'. split_and!; try done. intros w. apply watermark_complete_spec.
  intros k e. by rewrite He, lookup_empty.
Qed.

End Writer.

(** ** Witnesses *)

Definition writer_a : ActivityWriter :=
  default (start 1) (record_admit (normalize "/a") 5 0 (start 1)).

Lemma writer_a_reachable : activity_reachable writer_a.
Proof.
  exists 1%nat, Metrics_new. apply rtc_once. eapply (act_record _ (normalize "/a") 5 0). reflexivity.
Qed.

Definition writer_b : ActivityWriter :=
  let a := with_worker WLoop (with_wake false (try_send writer_a)) in
  worker_finish (normalize "/a") 5 false
    (with_worker (WPersist (normalize "/a") 5 1)
       (with_pending (match pop_ready (pending a) with Popped _ _ _ p => p | _ => pending a end) a)).

Lemma writer_a_b : rtc activity_step writer_a writer_b.
Proof.
  eapply rtc_l; [apply act_send; apply Nat.lt_0_1|].
  eapply rtc_l; [apply act_recv; reflexivity|].
  eapply rtc_l; [eapply act_pop; reflexivity|].
  apply rtc_once. eapply (act_persisted _ (normalize "/a") 5 1 false); reflexivity.
Qed.

Lemma flush_awaits_every_acceptance_witness :
  exists at', (normalize "/a", at') ∈ attempted writer_b /\ 5 <= at'.
Proof.
  apply (flush_awaits_every_acceptance writer_a writer_b 1);
    [apply writer_a_reachable|apply writer_a_b|reflexivity|reflexivity].
Defined.

Lemma writer_is_bounded_and_never_stalls_witness :
  (pending_routes writer_a <= 1)%nat /\ NoDup (ready (pending writer_a)).
Proof.
  destruct (writer_is_bounded_and_never_stalls writer_a writer_a_reachable) as (H1 & H2 & _).
  split; [exact H1|exact H2].
Defined.

Lemma writer_can_drain_witness :
  exists a', rtc activity_step writer_a a' /\ p_by_key (pending a') = ∅.
Proof.
  destruct (writer_can_drain writer_a writer_a_reachable eq_refl) as (a' & H1 & H2 & _).
  exists a'. split; [exact H1|exact H2].
Defined.
