(* ===== verification/Percent.v ===== *)
(** * Percent encoding (src/upstream.rs, src/proxy.rs, src/api.rs, src/config.rs,
      src/errors.rs, src/store/sidecar.rs)

    The decoders and encoders the proxy uses on paths, socket hosts, route
    segments and error URLs.  The three [percent_decode] functions of the source
    are the same code. *)

From S2P Require Import Prelude RustStr.

(** ** Decoding *)

Definition percent : ascii := "%"%char.

(** [hex], and [hex_value] of api.rs. *)
Definition hex (byte : ascii) : option Z :=
  if byte_in 48 57 byte then Some (code byte - 48)
  else if byte_in 97 102 byte then Some (code byte - 97 + 10)
  else if byte_in 65 70 byte then Some (code byte - 65 + 10)
  else None.

Definition nibbles (high low : Z) : ascii := chr (Z.lor (Z.shiftl high 4) low).

(** The [while] loop over [bytes] from [index] on, [decoded] being what was pushed:
    [bytes.get(index + 1)?] and [hex(..)?] leave with [None]. *)
Fixpoint decode_loop (turns : nat) (bytes : string) (index : nat) (decoded : string) : option string :=
  match turns with
  | O => None
  | S turns =>
      match String.get index bytes with
      | None => Some decoded
      | Some byte =>
          if Ascii.eqb byte percent then
            high ← String.get (index + 1) bytes ≫= hex;
            low ← String.get (index + 2) bytes ≫= hex;
            decode_loop turns bytes (index + 3) (decoded +:+ String (nibbles high low) EmptyString)
          else decode_loop turns bytes (index + 1) (decoded +:+ String byte EmptyString)
      end
  end.

(** Each turn passes at least one byte, and the last one finds none. *)
Definition percent_decode (encoded : string) : option string :=
  decoded ← decode_loop (S (String.length encoded)) encoded 0 EmptyString; from_utf8 decoded.

(** What the loop computes, as a function of the bytes. *)
Fixpoint decode_bytes (bytes : string) : option string :=
  match bytes with
  | EmptyString => Some EmptyString
  | String c rest =>
      if Ascii.eqb c percent then
        match rest with
        | String h (String l rest) =>
            high ← hex h; low ← hex l; decoded ← decode_bytes rest;
            Some (String (nibbles high low) decoded)
        | _ => None
        end
      else decoded ← decode_bytes rest; Some (String c decoded)
  end.

(** ** The configuration's socket-host check (src/config.rs) *)

(** [hex_value] of config.rs: total, zero on a byte that is not a digit. *)
Definition hex_value (byte : ascii) : Z :=
  if byte_in 48 57 byte then code byte - 48
  else if byte_in 97 102 byte then code byte - 97 + 10
  else if byte_in 65 70 byte then code byte - 65 + 10
  else 0.

(** Its loop: [None] is the early [return false]; the flag is [has_percent_encoding]. *)
Fixpoint socket_host_loop (bytes : string) (has_percent_encoding : bool) : option (string * bool) :=
  match bytes with
  | EmptyString => Some (EmptyString, has_percent_encoding)
  | String c rest =>
      if Ascii.eqb c percent then
        match rest with
        | String h (String l rest) =>
            if negb (is_ascii_hexdigit h) || negb (is_ascii_hexdigit l) then None
            else
              '(decoded, flag) ← socket_host_loop rest true;
              Some (String (nibbles (hex_value h) (hex_value l)) decoded, flag)
        | _ => None
        end
      else
        '(decoded, flag) ← socket_host_loop rest has_percent_encoding;
        Some (String c decoded, flag)
  end.

Definition is_percent_encoded_socket_host (host : string) : bool :=
  match socket_host_loop host false with
  | None => false
  | Some (decoded, has_percent_encoding) =>
      match from_utf8 decoded with
      | None => false
      | Some decoded =>
          has_percent_encoding && negb (is_empty decoded) && negb (contains_char nul decoded)
          && starts_with_char slash decoded
      end
  end.

(** ** Encoding *)

Definition hex_digit (nibble : Z) : ascii :=
  chr (if nibble <? 10 then 48 + nibble else 65 + nibble - 10).

Definition encode_byte (byte : ascii) : string :=
  String percent (String (hex_digit (Z.shiftr (code byte) 4))
    (str1 (hex_digit (Z.land (code byte) 15)))).

Fixpoint encode_with (keep : ascii -> bool) (raw : string) : string :=
  match raw with
  | EmptyString => EmptyString
  | String c rest => (if keep c then str1 c else encode_byte c) +:+ encode_with keep rest
  end.

Definition one_of (l : list ascii) (c : ascii) : bool := existsb (Ascii.eqb c) l.

(** [encode_segment] of store/sidecar.rs. *)
Definition unreserved (c : ascii) : bool :=
  is_ascii_alphanumeric c || one_of ["-"; "."; "_"; "~"]%char c.
Definition encode_segment (raw : string) : string := encode_with unreserved raw.

(** [encode_uri_component] of errors.rs. *)
Definition uri_component_mark (c : ascii) : bool :=
  is_ascii_alphanumeric c || one_of ["-"; "_"; "."; "!"; "~"; "*"; "'"; "("; ")"]%char c.
Definition encode_uri_component (value : string) : string := encode_with uri_component_mark value.

(** ** Lemmas *)

(** A fact about every byte, checked on all 256 of them. *)
Definition all_bytes : list ascii := map (fun n => ascii_of_nat n) (seq 0 256).

Lemma all_bytes_complete c : c ∈ all_bytes.
Proof.
  unfold all_bytes. apply list_elem_of_fmap. exists (nat_of_ascii c).
  split; [by rewrite ascii_nat_embedding|]. apply elem_of_seq. pose proof (nat_ascii_bounded c). lia.
Qed.

Lemma byte_check (P : ascii -> bool) : forallb P all_bytes = true -> forall c, P c = true.
Proof.
  intros HP c. apply (proj1 (forallb_forall P all_bytes) HP), list_elem_of_In, all_bytes_complete.
Qed.

Lemma encode_byte_decodes c :
  exists h l, hex (hex_digit (Z.shiftr (code c) 4)) = Some h /\
    hex (hex_digit (Z.land (code c) 15)) = Some l /\ nibbles h l = c.
Proof.
  pose (P := fun c => match hex (hex_digit (Z.shiftr (code c) 4)), hex (hex_digit (Z.land (code c) 15)) with
    | Some h, Some l => Ascii.eqb (nibbles h l) c | _, _ => false end).
  assert (HP : P c = true) by (apply byte_check; vm_compute; reflexivity).
  unfold P in HP. destruct (hex (hex_digit (Z.shiftr _ _))) as [h|]; [|done].
  destruct (hex _) as [l|]; [|done]. apply ascii_eqb_true in HP. eauto.
Qed.

Lemma hex_hexdigit c : hex c = if is_ascii_hexdigit c then Some (hex_value c) else None.
Proof.
  pose (P := fun c => match hex c, (if is_ascii_hexdigit c then Some (hex_value c) else None) with
    | Some a, Some b => a =? b | None, None => true | _, _ => false end).
  assert (HP : P c = true) by (apply byte_check; vm_compute; reflexivity).
  unfold P in HP. destruct (hex c), (is_ascii_hexdigit c); try done.
  bool_simp. by subst.
Qed.

Lemma get_past before rest n : String.get (String.length before + n) (before +:+ rest) = String.get n rest.
Proof. by induction before. Qed.

(** The loop at the end of [before] has the rest to decode. *)
Lemma decode_loop_spec turns before rest decoded :
  (String.length rest < turns)%nat ->
  decode_loop turns (before +:+ rest) (String.length before) decoded = more ← decode_bytes rest; Some (decoded +:+ more).
Proof.
  revert before rest decoded. induction turns as [|turns IH]; intros before rest decoded Hlt; [lia|].
  assert (Hget : forall n, String.get (String.length before + n) (before +:+ rest) = String.get n rest) by apply get_past.
  pose proof (Hget 0%nat) as H0. rewrite Nat.add_0_r in H0. cbn [decode_loop]. rewrite H0, !Hget.
  destruct rest as [|c rest]; simpl in *; [by rewrite str_app_nil_r|].
  destruct (Ascii.eqb c percent).
  - destruct rest as [|h [|l rest]]; [done|simpl; by destruct (hex h)|]. simpl in *.
    destruct (hex h) as [high|]; [|done]. simpl. destruct (hex l) as [low|]; [|done]. simpl.
    pose proof (IH (before +:+ String c (String h (String l EmptyString))) rest
      (decoded +:+ String (nibbles high low) EmptyString)) as IH'.
    rewrite str_length_app, <- !str_app_assoc in IH'. simpl in IH'. rewrite IH' by lia.
    destruct (decode_bytes rest); [|done]. simpl. by rewrite <- str_app_assoc.
  - pose proof (IH (before +:+ String c EmptyString) rest (decoded +:+ String c EmptyString)) as IH'.
    rewrite str_length_app, <- !str_app_assoc in IH'. simpl in IH'. rewrite IH' by lia.
    destruct (decode_bytes rest); [|done]. simpl. by rewrite <- str_app_assoc.
Qed.

Lemma percent_decode_bytes encoded : percent_decode encoded = decoded ← decode_bytes encoded; from_utf8 decoded.
Proof.
  unfold percent_decode. pose proof (decode_loop_spec (S (String.length encoded)) EmptyString encoded EmptyString) as Hl.
  simpl in Hl |- *. rewrite Hl by lia. by destruct (decode_bytes encoded).
Qed.

Lemma decode_byte_app c rest :
  decode_bytes (encode_byte c +:+ rest) = decoded ← decode_bytes rest; Some (String c decoded).
Proof.
  destruct (encode_byte_decodes c) as (h & l & Hh & Hl & Hn).
  change (encode_byte c +:+ rest) with
    (String percent (String (hex_digit (Z.shiftr (code c) 4))
       (String (hex_digit (Z.land (code c) 15)) rest))).
  cbn [decode_bytes]. rewrite ascii_eqb_refl, Hh, Hl. cbn [mbind option_bind]. by rewrite Hn.
Qed.

Lemma decode_encode_with keep raw :
  keep percent = false -> decode_bytes (encode_with keep raw) = Some raw.
Proof.
  intros Hk. induction raw as [|c raw IH]; [done|]. simpl. destruct (keep c) eqn:Hc.
  - simpl. destruct (Ascii.eqb c percent) eqn:He; [|by rewrite IH].
    apply ascii_eqb_true in He as ->. congruence.
  - rewrite decode_byte_app, IH. done.
Qed.

Lemma socket_host_loop_decode bytes flag :
  fst <$> socket_host_loop bytes flag = decode_bytes bytes.
Proof.
  revert flag. remember (String.length bytes) as n eqn:Hn. revert bytes Hn.
  induction (lt_wf n) as [n _ IH]. intros bytes -> flag.
  destruct bytes as [|c rest]; [done|]. simpl. destruct (Ascii.eqb c percent).
  - destruct rest as [|h [|l rest]]; [done|done|]. rewrite !hex_hexdigit.
    destruct (is_ascii_hexdigit h), (is_ascii_hexdigit l); simpl; try done.
    assert (Hlt : (String.length rest < String.length (String c (String h (String l rest))))%nat)
      by (simpl; lia).
    rewrite <- (IH _ Hlt rest eq_refl true).
    by destruct (socket_host_loop rest true) as [[]|].
  - assert (Hlt : (String.length rest < String.length (String c rest))%nat) by (simpl; lia).
    rewrite <- (IH _ Hlt rest eq_refl flag).
    by destruct (socket_host_loop rest flag) as [[]|].
Qed.

Lemma socket_host_sound host :
  is_percent_encoded_socket_host host = true ->
  exists path, percent_decode host = Some path /\
    is_empty path = false /\ contains_char nul path = false /\ starts_with_char slash path = true.
Proof.
  rewrite percent_decode_bytes. unfold is_percent_encoded_socket_host.
  pose proof (socket_host_loop_decode host false) as Hl.
  destruct (socket_host_loop host false) as [[decoded flag]|]; [|done]. simpl in Hl. rewrite <- Hl. simpl.
  destruct (from_utf8 decoded) as [path|]; [|done]. intros. bool_simp. by exists path.
Qed.

Lemma all_chars_app p a b : all_chars p (a +:+ b) = all_chars p a && all_chars p b.
Proof. induction a as [|c a IH]; simpl; [done|]. by rewrite IH, andb_assoc. Qed.

Lemma encode_byte_chars c :
  all_chars (fun c => is_ascii_alphanumeric c || Ascii.eqb c percent) (encode_byte c) = true.
Proof.
  apply (byte_check (fun c => all_chars (fun c => is_ascii_alphanumeric c || Ascii.eqb c percent) (encode_byte c))).
  vm_compute. reflexivity.
Qed.

Lemma all_chars_weaken (p q : ascii -> bool) s :
  (forall c, p c = true -> q c = true) -> all_chars p s = true -> all_chars q s = true.
Proof.
  intros Hpq. induction s as [|c s IH]; simpl; [done|]. intros [Hc Hs]%andb_true_iff.
  by rewrite (Hpq c Hc), IH.
Qed.

(** Only kept characters, alphanumerics and [%] are written. *)
Lemma encode_with_chars keep raw :
  all_chars (fun c => keep c || is_ascii_alphanumeric c || Ascii.eqb c percent) (encode_with keep raw) = true.
Proof.
  induction raw as [|c raw IH]; [done|]. cbn [encode_with]. rewrite all_chars_app, IH, andb_true_r.
  destruct (keep c) eqn:Hc; [simpl; by rewrite Hc|].
  apply (all_chars_weaken (fun c => is_ascii_alphanumeric c || Ascii.eqb c percent)); [|apply encode_byte_chars].
  intros d Hd. by rewrite <- orb_assoc, Hd, orb_true_r.
Qed.

(** ** Theorems *)

(** C36: percent encoding is lossless and safe: both encoders are inverted by the
    proxy's decoder on every string, and what they write never contains a
    character that would end or split a path segment or a query value. *)
Theorem percent_codecs_round_trip raw :
  utf8_valid raw = true ->
  percent_decode (encode_segment raw) = Some raw /\
  percent_decode (encode_uri_component raw) = Some raw /\
  forall c, c ∈ ["/"; "?"; "#"; "&"; "="; " "; "+"; ":"; chr 13; chr 10]%char ->
    contains_char c (encode_segment raw) = false /\ contains_char c (encode_uri_component raw) = false.
Proof.
  intros Hv. rewrite !percent_decode_bytes. unfold encode_segment, encode_uri_component, from_utf8.
  rewrite !decode_encode_with by reflexivity. cbn [mbind option_bind]. rewrite Hv. split_and!; [done|done|].
  intros c Hc.
  assert (Hno : forall keep, keep c || is_ascii_alphanumeric c || Ascii.eqb c percent = false ->
    contains_char c (encode_with keep raw) = false).
  { intros keep Hk. pose proof (encode_with_chars keep raw) as Hall. revert Hall.
    generalize (encode_with keep raw). intros s. induction s as [|d s IH]; simpl; [done|].
    intros [Hd Hs]%andb_true_iff. rewrite (IH Hs), orb_false_r. destruct (Ascii.eqb d c) eqn:He; [|done].
    apply ascii_eqb_true in He as ->. congruence. }
  split; apply Hno; clear -Hc; repeat (apply elem_of_cons in Hc as [->|Hc]; [vm_compute; reflexivity|]);
    by apply elem_of_nil in Hc.
Qed.

Lemma percent_codecs_round_trip_witness :
  percent_decode (encode_segment "a/b?c") = Some "a/b?c" /\ encode_segment "a/b?c" = "a%2Fb%3Fc".
Proof.
  split; [|vm_compute; reflexivity].
  exact (proj1 (percent_codecs_round_trip "a/b?c" eq_refl)).
Defined.
