(* ===== verification/Http.v ===== *)
(** * Interfaces of the HTTP and URL libraries

    The proxy builds on the crates [http] and [url], whose code is not part of
    the repository.  Each is a class of operations with a second class of the
    documented facts the proxy relies on; [SimpleHttp] instantiates them with
    small executable definitions.  The file also models the number and IP
    address parsers of the Rust standard library that the source calls. *)

From S2P Require Import Prelude RustStr.

(** ** [str::parse] for unsigned integers *)

Fixpoint digits_value (acc : Z) (s : string) : option Z :=
  match s with
  | EmptyString => Some acc
  | String c rest => if is_ascii_digit c then digits_value (acc * 10 + (code c - 48)) rest else None
  end.

(** An optional sign [+], then at least one decimal digit, in range. *)
Definition parse_uint (width_max : Z) (s : string) : option Z :=
  let digits := match s with String "+" rest => rest | _ => s end in
  if is_empty digits then None
  else opt_filter (fun n => n <=? width_max) (digits_value 0 digits).

Definition parse_u16 : string -> option Z := parse_uint u16_max.
Definition parse_u64 : string -> option Z := parse_uint u64_max.

Lemma digits_value_nonneg s acc n : 0 <= acc -> digits_value acc s = Some n -> 0 <= n.
Proof.
  revert acc. induction s as [|c s IH]; intros acc Ha; simpl; [by intros [= <-]|].
  destruct (is_ascii_digit c) eqn:Hc; [|done]. apply IH. unfold is_ascii_digit, byte_in in Hc. bool_simp. lia.
Qed.

Lemma parse_uint_range m s n : parse_uint m s = Some n -> 0 <= n <= m.
Proof.
  unfold parse_uint. destruct (is_empty _); [done|]. intros [Hn Hm]%opt_filter_Some.
  apply digits_value_nonneg in Hn; [|done]. bool_simp. lia.
Qed.

(** ** [IpAddr::from_str] as far as [is_ipv6] needs it *)

Module IpAddr.

(** A parser consumes a prefix of its input. *)
Definition parser (A : Type) : Type := string -> option (A * string).

Definition given_char (c : ascii) (s : string) : option string :=
  match s with String a rest => if Ascii.eqb a c then Some rest else None | EmptyString => None end.

Fixpoint take_while (p : ascii -> bool) (max : nat) (s : string) : string * string :=
  match max, s with
  | S max', String a rest =>
      if p a then let (x, y) := take_while p max' rest in (String a x, y) else (EmptyString, s)
  | _, _ => (EmptyString, s)
  end.

(** One to four hexadecimal digits (a fifth makes [read_number] fail). *)
Definition read_group (s : string) : option string :=
  let (digits, rest) := take_while is_ascii_hexdigit 5 s in
  if is_empty digits || (4 <? String.length digits)%nat then None else Some rest.

(** A decimal byte without leading zeros. *)
Definition read_octet (s : string) : option string :=
  let (digits, rest) := take_while is_ascii_digit 4 s in
  let len := String.length digits in
  if is_empty digits || (3 <? len)%nat || ((1 <? len)%nat && starts_with_char "0" digits) then None
  else match digits_value 0 digits with
       | Some n => if n <=? 255 then Some rest else None
       | None => None
       end.

Definition read_ipv4 (s : string) : option string :=
  s ← read_octet s; s ← given_char "." s; s ← read_octet s; s ← given_char "." s;
  s ← read_octet s; s ← given_char "." s; read_octet s.

Definition separator (index : nat) (s : string) : option string :=
  if (0 <? index)%nat then given_char ":" s else Some s.

(** [read_groups]: how many groups were read, and whether an IPv4 tail ended them. *)
Fixpoint read_groups (remaining index : nat) (s : string) : nat * bool * string :=
  match remaining with
  | O => (index, false, s)
  | S remaining' =>
      let v4 := if (0 <? remaining')%nat then s ← separator index s; read_ipv4 s else None in
      match v4 with
      | Some rest => ((index + 2)%nat, true, rest)
      | None =>
          match (s ← separator index s; read_group s) with
          | Some rest => read_groups remaining' (S index) rest
          | None => (index, false, s)
          end
      end
  end.

Definition is_ipv6 (s : string) : bool :=
  let '(head_size, head_ipv4, rest) := read_groups 8 0 s in
  if (head_size =? 8)%nat then is_empty rest
  else if head_ipv4 then false
  else match (s ← given_char ":" rest; given_char ":" s) with
       | None => false
       | Some rest =>
           let '(_, _, rest) := read_groups (8 - (head_size + 1)) 0 rest in is_empty rest
       end.

End IpAddr.

(** ** Header maps *)

Class HeaderLib : Type := {
  HeaderName : Type;
  name_eq_dec :: EqDecision HeaderName;
  name_from_bytes : string -> option HeaderName;   (** [HeaderName::from_bytes] *)
  name_from_static : string -> HeaderName;
  name_as_str : HeaderName -> string;              (** lowercase text of the name *)
  HeaderValue : Type;
  value_from_str : string -> option HeaderValue;
  value_from_static : string -> HeaderValue;
  value_to_str : HeaderValue -> option string;     (** [None] off visible ASCII *)
  value_as_bytes : HeaderValue -> string;
  HeaderMap : Type;
  header_empty : HeaderMap;
  get_all : HeaderName -> HeaderMap -> list HeaderValue;
  header_insert : HeaderName -> HeaderValue -> HeaderMap -> HeaderMap;
  header_append : HeaderName -> HeaderValue -> HeaderMap -> HeaderMap;
  header_remove : HeaderName -> HeaderMap -> HeaderMap;
  header_keys : HeaderMap -> list HeaderName      (** [keys()], each name once *)
}.

(** [insert] replaces every value of a name, [remove] drops them all, and both
    leave other names alone; names are compared without regard to case. *)
Class HeaderLaws `{HeaderLib} : Prop := {
  get_all_empty n : get_all n header_empty = [];
  get_all_insert n n' v h :
    get_all n (header_insert n' v h) = if decide (n = n') then [v] else get_all n h;
  get_all_append n n' v h :
    get_all n (header_append n' v h) = if decide (n = n') then get_all n h ++ [v] else get_all n h;
  get_all_remove n n' h :
    get_all n (header_remove n' h) = if decide (n = n') then [] else get_all n h;
  header_keys_NoDup h : NoDup (header_keys h);
  header_keys_spec n h : n ∈ header_keys h <-> get_all n h <> [];
  name_from_static_inj a b : name_from_static a = name_from_static b -> a = b;
  name_from_bytes_static s n :
    name_from_bytes s = Some n -> n = name_from_static (to_ascii_lowercase s);
  static_value_to_str s : all_chars (byte_in 32 126) s = true -> value_to_str (value_from_static s) = Some s;
  value_bytes s v : value_from_str s = Some v -> value_as_bytes v = s
}.

Section Headers.
Context `{HeaderLib}.

Definition header_get (n : HeaderName) (h : HeaderMap) : option HeaderValue := head (get_all n h).
Definition contains_key (n : HeaderName) (h : HeaderMap) : bool := is_some (header_get n h).

Definition HOST : HeaderName := name_from_static "host".
Definition CONNECTION : HeaderName := name_from_static "connection".
Definition UPGRADE : HeaderName := name_from_static "upgrade".
Definition TE : HeaderName := name_from_static "te".
Definition TRAILER : HeaderName := name_from_static "trailer".
Definition TRANSFER_ENCODING : HeaderName := name_from_static "transfer-encoding".
Definition LOCATION : HeaderName := name_from_static "location".
Definition AUTHORIZATION : HeaderName := name_from_static "authorization".
Definition CONTENT_LENGTH : HeaderName := name_from_static "content-length".
Definition CONTENT_TYPE : HeaderName := name_from_static "content-type".

(** [HeaderMap::into_iter]: the entries name by name; by its documentation only
    the first value of a name carries the name, the others come with [None]. *)
Definition into_iter (h : HeaderMap) : list (option HeaderName * HeaderValue) :=
  concat (map (fun n => match get_all n h with
                        | [] => []
                        | v :: vs => (Some n, v) :: map (fun v => (None, v)) vs
                        end) (header_keys h)).

Lemma header_get_insert `{!HeaderLaws} n n' v h :
  header_get n (header_insert n' v h) = if decide (n = n') then Some v else header_get n h.
Proof. unfold header_get. rewrite get_all_insert. by case_decide. Qed.

Lemma header_get_remove `{!HeaderLaws} n n' h :
  header_get n (header_remove n' h) = if decide (n = n') then None else header_get n h.
Proof. unfold header_get. rewrite get_all_remove. by case_decide. Qed.

End Headers.

(** ** URLs and URIs *)

Class UrlLib : Type := {
  Url : Type;
  url_parse : string -> result Url string;
  scheme : Url -> string;
  username : Url -> string;
  password : Url -> option string;
  host_str : Url -> option string;
  url_port : Url -> option Z;
  port_or_known_default : Url -> option Z;
  url_path : Url -> string;
  url_query : Url -> option string;
  fragment : Url -> option string;
  url_as_str : Url -> string;
  host_and_port : Url -> string;   (** [&url[Position::BeforeHost..Position::AfterPort]] *)
  set_host : string -> Url -> option Url;
  set_port : Z -> Url -> option Url;
  set_scheme : string -> Url -> option Url;
  set_path : string -> Url -> Url;
  url_join_ref : Url -> string -> option Url       (** [Url::join] *)
}.

(** The default ports of the schemes the proxy accepts, and the form of a parsed
    host: bracketed exactly when it is an IPv6 literal, whose text is not empty. *)
Class UrlLaws `{UrlLib} : Prop := {
  http_known_port u : scheme u = "http" \/ scheme u = "https" -> is_Some (port_or_known_default u);
  host_not_bare_brackets u : host_str u <> Some "[]"
}.

(** A relative reference of non-empty segments without dots, dot codes, colons or
    delimiters, resolved against an origin, is that path below the root. *)
Definition plain_segment (s : string) : bool :=
  negb (is_empty s) && all_chars (fun c => is_ascii_alphanumeric c || existsb (Ascii.eqb c) ["-"; "."; "_"; "~"; "%"]%char) s
  && negb (existsb (fun d => eq_ignore_ascii_case s d) ["."; ".."; "%2e"; ".%2e"; "%2e."; "%2e%2e"]).

Class UrlJoinLaws `{UrlLib} : Prop := {
  url_join_plain base segs u :
    url_path base = "/" -> forallb plain_segment segs = true -> segs <> [] ->
    url_join_ref base (join "/" segs) = Some u ->
    url_path u = "/" +:+ join "/" segs /\ scheme u = scheme base /\ host_and_port u = host_and_port base;
  set_path_root u : url_path u = "/" -> url_path (set_path "/" u) = "/"
}.

Class UriLib : Type := {
  Uri : Type;
  uri_root : Uri;                             (** [Uri::from_static("/")] *)
  path_and_query : Uri -> option string;
  uri_path : Uri -> string;
  uri_parse : string -> result Uri string;
  authority_port : string -> option Z         (** [Authority] then [port_u16] *)
}.

(** [uri.path_and_query().map_or(uri.path(), |value| value.as_str())]. *)
Definition raw_path_and_query `{UriLib} (u : Uri) : string :=
  match path_and_query u with Some s => s | None => uri_path u end.

(** ** An executable instance *)

Module SimpleHttp.

Definition token_char (c : ascii) : bool :=
  is_ascii_alphanumeric c || existsb (Ascii.eqb c) ["-"; "_"; "."; "!"; "~"; "*"; "+"]%char.

Definition from_bytes (s : string) : option string :=
  let s := to_ascii_lowercase s in
  if negb (is_empty s) && all_chars token_char s then Some s else None.

Definition from_str (s : string) : option string :=
  if all_chars (fun c => byte_in 32 126 c || byte_in 128 255 c || (code c =? 9)) s then Some s else None.

Definition to_str (v : string) : option string := if all_chars (byte_in 32 126) v then Some v else None.

Definition of_name (n : string) (h : list (string * string)) : list string :=
  omap (fun nv => if decide (nv.1 = n) then Some nv.2 else None) h.

Definition drop_name (n : string) (h : list (string * string)) : list (string * string) :=
  List.filter (fun nv => negb (bool_decide (nv.1 = n))) h.

#[global] Instance headers : HeaderLib := {|
  HeaderName := string;
  name_eq_dec := String.eq_dec;
  name_from_bytes := from_bytes;
  name_from_static s := s;
  name_as_str n := n;
  HeaderValue := string;
  value_from_str := from_str;
  value_from_static s := s;
  value_to_str := to_str;
  value_as_bytes v := v;
  HeaderMap := list (string * string);
  header_empty := [];
  get_all := of_name;
  header_insert n v h := drop_name n h ++ [(n, v)];
  header_append n v h := h ++ [(n, v)];
  header_remove := drop_name;
  header_keys h := remove_dups h.*1
|}.

Lemma of_name_app n h h' : of_name n (h ++ h') = of_name n h ++ of_name n h'.
Proof. apply omap_app. Qed.

Lemma of_name_drop n n' h : of_name n (drop_name n' h) = if decide (n = n') then [] else of_name n h.
Proof.
  induction h as [|[a v] h IH]; simpl; [by case_decide|].
  destruct (bool_decide_reflect (a = n')) as [->|Hne]; simpl.
  - rewrite IH. case_decide; subst; [done|]. by rewrite decide_False by done.
  - rewrite IH. case_decide; subst; [by rewrite decide_False by done|]. done.
Qed.

Lemma of_name_keys n h : n ∈ h.*1 <-> of_name n h <> [].
Proof.
  induction h as [|[a v] h IH]; simpl; [set_solver|]. rewrite elem_of_cons, IH.
  destruct (decide (a = n)) as [->|Hne]; [split; [done|by left]|]. naive_solver.
Qed.

#[global] Instance headers_laws : HeaderLaws.
Proof.
  split.
  - done.
  - intros n n' v h. simpl. rewrite of_name_app, of_name_drop. destruct (decide (n = n')) as [->|Hne]; simpl.
    + by rewrite !decide_True by done.
    + rewrite !decide_False by congruence. by rewrite app_nil_r.
  - intros n n' v h. simpl. rewrite of_name_app. destruct (decide (n = n')) as [->|Hne]; simpl.
    + by rewrite !decide_True by done.
    + rewrite !decide_False by congruence. by rewrite app_nil_r.
  - intros. apply of_name_drop.
  - intros h. apply NoDup_remove_dups.
  - intros n h. simpl. rewrite elem_of_remove_dups. apply of_name_keys.
  - done.
  - intros s n. simpl. unfold from_bytes. case_match; by intros [= <-].
  - intros s Hs. simpl. unfold to_str. by rewrite Hs.
  - intros s v. simpl. unfold from_str. case_match; by intros [= <-].
Qed.

(** URLs of the form [scheme://host[:port][/path][?query]]. *)
Record SimpleUrl : Type := mkUrl {
  u_scheme : string; u_host : string; u_port : option Z; u_path : string; u_query : option string }.

Definition show_url (u : SimpleUrl) : string :=
  u_scheme u +:+ "://" +:+ u_host u +:+
  match u_port u with Some p => ":" +:+ show_Z p | None => "" end +:+ u_path u +:+
  match u_query u with Some q => "?" +:+ q | None => "" end.

Definition default_port (s : string) : Z := if decide (s = "https") then 443 else 80.

Definition parse_url (s : string) : result SimpleUrl string :=
  match split_once ":" s with
  | None => Err "relative URL without a base"
  | Some (sch, rest) =>
      match strip_prefix "//" rest with
      | None => Err "relative URL without a base"
      | Some rest =>
          let (before_query, query) := match split_once question rest with
                                       | Some (a, q) => (a, Some q) | None => (rest, None) end in
          let (auth, path) := match split_once slash before_query with
                              | Some (a, p) => (a, String slash p) | None => (before_query, "/") end in
          match split_once ":" auth with
          | None => Ok (mkUrl sch auth None path query)
          | Some (host, port) =>
              match parse_u16 port with
              | None => Err "invalid port number"
              | Some p =>
                  Ok (mkUrl sch host (if p =? default_port sch then None else Some p) path query)
              end
          end
      end
  end.

Definition host_option (h : string) : option string :=
  if is_empty h || String.eqb h "[]" then None else Some h.

#[global] Instance urls : UrlLib := {|
  Url := SimpleUrl;
  url_parse := parse_url;
  scheme := u_scheme;
  username _ := "";
  password _ := None;
  host_str u := host_option (u_host u);
  url_port := u_port;
  port_or_known_default u := Some (default (default_port (u_scheme u)) (u_port u));
  url_path := u_path;
  url_query := u_query;
  fragment _ := None;
  url_as_str := show_url;
  host_and_port u := u_host u +:+ match u_port u with Some p => ":" +:+ show_Z p | None => "" end;
  set_host h u := Some (mkUrl (u_scheme u) h (u_port u) (u_path u) (u_query u));
  set_port p u := Some (mkUrl (u_scheme u) (u_host u) (Some p) (u_path u) (u_query u));
  set_scheme s u := Some (mkUrl s (u_host u) (u_port u) (u_path u) (u_query u));
  set_path p u := mkUrl (u_scheme u) (u_host u) (u_port u) p (u_query u);
  url_join_ref u r := if String.eqb (u_path u) "/"
                      then Some (mkUrl (u_scheme u) (u_host u) (u_port u) (String slash r) None) else None
|}.

#[global] Instance urls_laws : UrlLaws.
Proof.
  split; simpl.
  - by eexists.
  - intros u. unfold host_option. destruct (is_empty (u_host u) || String.eqb (u_host u) "[]") eqn:Hb; [done|].
    intros [= Hh]. rewrite Hh in Hb. done.
Qed.

#[global] Instance urls_join_laws : UrlJoinLaws.
Proof.
  split; simpl.
  - intros base segs u Hp _ _. rewrite Hp. simpl. by intros [= <-].
  - done.
Qed.

#[global] Instance uris : UriLib := {|
  Uri := string;
  uri_root := "/";
  path_and_query u := Some u;
  uri_path u := match split_once question u with Some (p, _) => p | None => u end;
  uri_parse s := if starts_with_char slash s then Ok s else Err "invalid uri";
  authority_port h := match rsplit_once ":" h with Some (_, p) => parse_u16 p | None => None end
|}.

End SimpleHttp.
