(* ===== verification/Sidecar.v ===== *)
(** * The sidecar backend (src/store/sidecar.rs)

    A bounded HTTP client of one route store in another process.  The client of
    the crate [reqwest] and the server behind it are an interface, [SidecarPeer]:
    a request is sent into a world and a response or an error comes back.  What
    docs/sidecar-store.md obliges a v1 server to is the class [SidecarProtocol],
    stated on the bytes that travel ([meaning] reads a request as the server
    does).  The refinement theorem shows that each operation keeps the contract
    of Store.v against every such peer.  JSON and dates are parameters. *)

From S2P Require Import Prelude RustStr Route Store Http Percent.

(** ** JSON texts *)

(** A parsed text, with repeated members kept in textual order. *)
Inductive Json : Type :=
| JNull
| JBool (b : bool)
| JNumber (literal : string)
| JString (s : string)
| JArray (l : list Json)
| JObject (l : list (string * Json)).

(** [Value::deserialize]: of a repeated member the last one stays. *)
Fixpoint value_of (j : Json) : Value :=
  match j with
  | JNull => VNull
  | JBool b => VBool b
  | JNumber n => VNumber n
  | JString s => VString s
  | JArray l => VArray (List.map value_of l)
  | JObject l => VObject (list_to_map (reverse (List.map (fun kv => match kv with (k, v) => (k, value_of v) end) l)))
  end.

(** No object of the text repeats a member. *)
Fixpoint unique_members (j : Json) : Prop :=
  match j with
  | JArray l => (fix all l := match l with [] => True | x :: l => unique_members x /\ all l end) l
  | JObject l =>
      NoDup l.*1 /\
      (fix all l := match l with [] => True | (_, x) :: l => unique_members x /\ all l end) l
  | _ => True
  end.

Class SidecarLib : Type := {
  to_vec : Value -> option string;                 (** [serde_json::to_vec] *)
  from_slice : string -> option Json;              (** the syntax of [serde_json::from_slice] *)
  to_rfc3339_nanos_z : DateTime -> string;         (** [to_rfc3339_opts(Nanos, true)] *)
  parse_from_rfc3339 : string -> option DateTime   (** and [with_timezone(&Utc)] *)
}.

(** A printed value that parses again (nesting is limited) is the value, and a
    printed date that parses again (years have four digits) is the date. *)
Class SidecarLaws `{SidecarLib} : Prop := {
  json_print_parse v s j : to_vec v = Some s -> from_slice s = Some j -> value_of j = v /\ unique_members j;
  date_print_parse t t' : parse_from_rfc3339 (to_rfc3339_nanos_z t) = Some t' -> t' = t
}.

(** ** Constants and configuration *)

Definition PROTOCOL_HEADER : string := "x-store-protocol".
Definition PROTOCOL_VERSION : string := "v1".
Definition LAST_ACTIVITY_HEADER : string := "x-store-last-activity".
Definition DEFAULT_CONNECT_TIMEOUT : Duration := from_secs 1.
Definition DEFAULT_REQUEST_TIMEOUT : Duration := from_secs 2.
Definition DEFAULT_ATTEMPTS : nat := 3.
Definition DEFAULT_INITIAL_BACKOFF : Duration := from_millis 25.
Definition DEFAULT_MAX_BACKOFF : Duration := from_millis 200.
Definition MAX_ATTEMPTS : nat := 10.
Definition MAX_MUTATION_REQUEST_BYTES : Z := 1024 * 1024.
Definition MAX_RESPONSE_BYTES : Z := 4 * 1024 * 1024.
Definition MAX_RESPONSE_HEADER_COUNT : Z := 64.
Definition MAX_RESPONSE_HEADER_BYTES : Z := 32 * 1024.
(** [Duration::MAX]. *)
Definition duration_max : Duration := (u64_max + 1) * 1000000000 - 1.

Record SidecarConfig : Type := mkSidecarConfig {
  config_base_url : string;
  bearer_token : option string;
  config_connect_timeout : Duration;
  config_request_timeout : Duration;
  config_max_attempts : nat;
  config_initial_backoff : Duration;
  config_max_backoff : Duration
}.

Definition new_config (base_url : string) : SidecarConfig :=
  mkSidecarConfig base_url None DEFAULT_CONNECT_TIMEOUT DEFAULT_REQUEST_TIMEOUT
    DEFAULT_ATTEMPTS DEFAULT_INITIAL_BACKOFF DEFAULT_MAX_BACKOFF.

Definition with_bearer_token (token : string) (c : SidecarConfig) : SidecarConfig :=
  mkSidecarConfig (config_base_url c) (Some token) (config_connect_timeout c) (config_request_timeout c)
    (config_max_attempts c) (config_initial_backoff c) (config_max_backoff c).

Definition with_connect_timeout (timeout : Duration) (c : SidecarConfig) : SidecarConfig :=
  mkSidecarConfig (config_base_url c) (bearer_token c) timeout (config_request_timeout c)
    (config_max_attempts c) (config_initial_backoff c) (config_max_backoff c).

Definition with_request_timeout (timeout : Duration) (c : SidecarConfig) : SidecarConfig :=
  mkSidecarConfig (config_base_url c) (bearer_token c) (config_connect_timeout c) timeout
    (config_max_attempts c) (config_initial_backoff c) (config_max_backoff c).

Definition with_retry_policy (max_attempts : nat) (initial_backoff max_backoff : Duration)
    (c : SidecarConfig) : SidecarConfig :=
  mkSidecarConfig (config_base_url c) (bearer_token c) (config_connect_timeout c) (config_request_timeout c)
    (Nat.min MAX_ATTEMPTS (Nat.max 1 max_attempts)) (Z.min initial_backoff max_backoff) max_backoff.

(** ** Errors *)

Definition backend (operation : string) : StoreError := Backend operation.
Definition indeterminate (operation : string) : StoreError := Indeterminate operation.
Definition corrupt (operation key : string) : StoreError := CorruptData operation key.

(** ** Requests and responses *)

Inductive Method : Type := GET | PUT | PATCH | DELETE.

Inductive MutationAcknowledgment : Type := AckPut | AckEmpty | AckDelete.

Inductive BodyReadError : Type := Transport | TooLarge.

Section Messages.
Context `{HeaderLib} `{UrlLib}.

Record Request : Type := mkRequest {
  req_method : Method;
  req_url : Url;
  req_headers : HeaderMap;
  req_body : option string
}.

(** The body comes in chunks; [None] is a read that fails. *)
Record Response : Type := mkResponse {
  resp_status : Z;
  resp_headers : HeaderMap;
  content_length : option Z;
  chunks : list (option string)
}.

Record HttpReply : Type := mkReply {
  reply_status : Z;
  reply_body : string;
  reply_last_activity : option DateTime
}.

Definition is_server_error (status : Z) : bool := (500 <=? status) && (status <=? 599).
Definition is_client_error (status : Z) : bool := (400 <=? status) && (status <=? 499).

(** *** Header checks *)

Definition single_header (headers : HeaderMap) (name : string) : option string :=
  match get_all (name_from_static name) headers with
  | value :: rest =>
      value ← value_to_str value;
      match rest with [] => Some value | _ :: _ => None end
  | [] => None
  end.

Definition has_exact_protocol_header (headers : HeaderMap) : bool :=
  bool_decide (single_header headers PROTOCOL_HEADER = Some PROTOCOL_VERSION).

Definition has_exact_content_type (headers : HeaderMap) (expected : string) : bool :=
  bool_decide (single_header headers "content-type" = Some expected).

Definition has_nonempty_or_ambiguous_body_framing (headers : HeaderMap) : bool :=
  if contains_key TRANSFER_ENCODING headers then true
  else match get_all CONTENT_LENGTH headers with
       | [] => false
       | [length] => negb (String.eqb (value_as_bytes length) "0")
       | _ :: _ :: _ => true
       end.

(** [headers.iter()]: every value with its name. *)
Definition header_entries (headers : HeaderMap) : list (string * string) :=
  concat (map (fun n => map (fun v => (name_as_str n, value_as_bytes v)) (get_all n headers))
    (header_keys headers)).

Fixpoint header_bytes (entries : list (string * string)) (total : Z) : option Z :=
  match entries with
  | [] => Some total
  | (name, value) :: entries =>
      total ← checked_add usize_max total (Z.of_nat (String.length name));
      total ← checked_add usize_max total (Z.of_nat (String.length value));
      header_bytes entries total
  end.

Definition headers_within_limits (headers : HeaderMap) : bool :=
  if MAX_RESPONSE_HEADER_COUNT <? Z.of_nat (length (header_entries headers)) then false
  else is_some_and (fun total => total <=? MAX_RESPONSE_HEADER_BYTES) (header_bytes (header_entries headers) 0).

(** *** Bodies *)

Fixpoint read_chunks (cs : list (option string)) (bytes : string) : result string BodyReadError :=
  match cs with
  | [] => Ok bytes
  | None :: _ => Err Transport
  | Some chunk :: cs =>
      if MAX_RESPONSE_BYTES <? saturating_add usize_max (Z.of_nat (String.length bytes)) (Z.of_nat (String.length chunk))
      then Err TooLarge
      else read_chunks cs (bytes +:+ chunk)
  end.

Definition bounded_body (response : Response) : result string BodyReadError :=
  if is_some_and (fun length => MAX_RESPONSE_BYTES <? length) (content_length response) then Err TooLarge
  else read_chunks (chunks response) "".

Definition read_mutation_body (response : Response) (operation : string) : result string StoreError :=
  map_err (fun _ => indeterminate operation) (bounded_body response).

End Messages.

(** ** Encoding and strict decoding *)

Section Codec.
Context `{SidecarLib}.

Definition chp_timestamp (value : DateTime) : string := to_rfc3339_nanos_z value.

Definition parse_timestamp (raw : string) : option DateTime :=
  parsed ← parse_from_rfc3339 raw;
  if String.eqb (chp_timestamp parsed) raw then Some parsed else None.

(** The record as JSON, without the check for reserved names. *)
Definition route_object (data : RouteData) : gmap string Value :=
  <["last_activity" := VString (chp_timestamp (last_activity data))]>
    (<["target" := VString (target data)]> (extra data)).

Definition encode_route (operation : string) (data : RouteData) : result Value StoreError :=
  if is_some (extra data !! "target") || is_some (extra data !! "last_activity")
  then Err (corrupt operation "<outgoing>")
  else Ok (VObject (route_object data)).

(** [RouteDataVisitor::visit_map]: the members one by one; [None] is an error. *)
Fixpoint visit_route (members : list (string * Json)) (target : option string)
    (last_activity : option DateTime) (extra : gmap string Value) : option RouteData :=
  match members with
  | [] => t ← target; at_ ← last_activity; Some (mkRouteData t at_ extra)
  | (field, value) :: members =>
      if String.eqb field "target" then
        match target, value with
        | None, JString s => visit_route members (Some s) last_activity extra
        | _, _ => None
        end
      else if String.eqb field "last_activity" then
        match last_activity, value with
        | None, JString raw => at_ ← parse_timestamp raw; visit_route members target (Some at_) extra
        | _, _ => None
        end
      else if is_some (extra !! field) then None
      else visit_route members target last_activity (<[field := value_of value]> extra)
  end.

(** [StrictRouteData::deserialize]. *)
Definition strict_route (j : Json) : option RouteData :=
  match j with JObject members => visit_route members None None ∅ | _ => None end.

Definition decode_route (body : string) : option RouteData :=
  j ← from_slice body; strict_route j.

Definition decode_key (raw : string) : result RouteKey StoreError :=
  if negb (starts_with_char slash raw) then Err (corrupt "snapshot" "<route-key>")
  else
    let parse_input :=
      if (1 <? String.length raw)%nat && ends_with_char slash raw then raw +:+ "/" else raw in
    match parse parse_input with
    | Ok key => Ok key
    | Err _ => Err (corrupt "snapshot" "<route-key>")
    end.

(** [SnapshotVisitor::visit_map]. *)
Fixpoint visit_snapshot (members : list (string * Json)) (routes : gmap RouteKey RouteData) :
    option (gmap RouteKey RouteData) :=
  match members with
  | [] => Some routes
  | (raw_key, value) :: members =>
      key ← ok (decode_key raw_key);
      data ← strict_route value;
      if is_some (routes !! key) then None else visit_snapshot members (<[key := data]> routes)
  end.

Definition strict_snapshot (j : Json) : option (gmap RouteKey RouteData) :=
  match j with JObject members => visit_snapshot members ∅ | _ => None end.

Definition decode_snapshot (body : string) : result (gmap RouteKey RouteData) StoreError :=
  ok_or (j ← from_slice body; strict_snapshot j) (corrupt "snapshot" "<response>").

(** [derive(Deserialize)] of [Health] with [deny_unknown_fields]: both members
    exactly once, or, as for every derived struct, the two in order. *)
Record Health : Type := mkHealth { health_version : string; health_status : string }.

Fixpoint visit_health (members : list (string * Json)) (version status : option string) : option Health :=
  match members with
  | [] => v ← version; s ← status; Some (mkHealth v s)
  | ("version", JString v) :: members =>
      match version with None => visit_health members (Some v) status | Some _ => None end
  | ("status", JString s) :: members =>
      match status with None => visit_health members version (Some s) | Some _ => None end
  | _ :: _ => None
  end.

Definition decode_health (body : string) : option Health :=
  j ← from_slice body;
  match j with
  | JObject members => visit_health members None None
  | JArray [JString v; JString s] => Some (mkHealth v s)
  | _ => None
  end.

(** [PutEnvelope] and [ActivityEnvelope] as [derive(Serialize)] writes them. *)
Definition put_envelope_value (operation : string) (route : Value) (activity_floor : string) : Value :=
  VObject {["version" := VString PROTOCOL_VERSION; "operation" := VString operation;
            "route" := route; "activityFloor" := VString activity_floor]}.

Definition activity_envelope_value (last_activity : string) : Value :=
  VObject {["version" := VString PROTOCOL_VERSION; "lastActivity" := VString last_activity]}.

End Codec.

(** ** The client *)

(** [send] is one attempt of the [reqwest] client, [None] any error of it; the
    last three fields are ghosts: the routes the server holds, the writes it made
    for this client as before and after, and whether nobody else writes. *)
Class SidecarPeer (World : Type) `{HeaderLib} `{UrlLib} : Type := {
  send : Request -> World -> option Response * World;
  sleep : Duration -> World -> World;
  client_builds : HeaderMap -> bool;               (** [ClientBuilder::build] *)
  persisted : World -> gmap RouteKey RouteData;
  effects : World -> list (gmap RouteKey RouteData * gmap RouteKey RouteData);
  alone : Prop
}.

Section Client.
Context `{HeaderLib} `{UrlLib} `{SidecarLib} {World : Type} `{!SidecarPeer World}.

(** [client] keeps the default headers of its requests. *)
Record SidecarStore : Type := mkSidecarStore {
  client : HeaderMap;
  base_url : Url;
  max_attempts : nat;
  initial_backoff : Duration;
  max_backoff : Duration;
  connect_timeout : Duration;
  request_timeout : Duration
}.

Definition validate_base_url (raw : string) : result Url StoreError :=
  match url_parse raw with
  | Err _ => Err (backend "connect")
  | Ok url =>
      if negb (String.eqb (scheme url) "http" || String.eqb (scheme url) "https")
         || is_none (host_str url)
         || negb (is_empty (username url))
         || is_some (password url)
         || is_some (url_query url)
         || is_some (fragment url)
         || negb (String.eqb (url_path url) "/")
      then Err (backend "connect")
      else Ok (set_path "/" url)
  end.

Definition endpoint (st : SidecarStore) (relative : string) : result Url StoreError :=
  ok_or (url_join_ref (base_url st) relative) (backend "connect").

Definition route_endpoint (st : SidecarStore) (key : RouteKey) (suffix : string) : result Url StoreError :=
  endpoint st ("v1/routes/" +:+ encode_segment (as_str key) +:+ suffix).

(** [2_u32.saturating_pow(attempt)], then the capped multiple. *)
Definition backoff (st : SidecarStore) (attempt : nat) : Duration :=
  let multiplier := Z.min u32_max (2 ^ Z.of_nat attempt) in
  Z.min (Z.min duration_max (initial_backoff st * multiplier)) (max_backoff st).

Definition sleep_before_retry (st : SidecarStore) (attempt : nat) (w : World) : World :=
  sleep (backoff st attempt) w.

(** The [for] loop of [get_request]; [remaining] attempts are left. *)
Fixpoint get_loop (st : SidecarStore) (operation : string) (url : Url) (remaining attempt : nat) (w : World) :
    result HttpReply StoreError * World :=
  match remaining with
  | O => (Err (backend operation), w)
  | S remaining =>
      let again := (attempt + 1 <? max_attempts st)%nat in
      let retry w := get_loop st operation url remaining (S attempt) (sleep_before_retry st attempt w) in
      let (response, w) := send (mkRequest GET url (client st) None) w in
      match response with
      | None => if again then retry w else (Err (backend operation), w)
      | Some response =>
          if negb (headers_within_limits (resp_headers response))
             || negb (has_exact_protocol_header (resp_headers response))
          then (Err (backend operation), w)
          else
            let status := resp_status response in
            if is_server_error status then
              if again then retry w else (Err (backend operation), w)
            else if negb (status =? 200) then (Ok (mkReply status "" None), w)
            else if negb (has_exact_content_type (resp_headers response) "application/json")
            then (Err (backend operation), w)
            else
              match bounded_body response with
              | Ok body => (Ok (mkReply status body None), w)
              | Err TooLarge =>
                  if String.eqb operation "snapshot" then (Err (corrupt "snapshot" "<response>"), w)
                  else (Err (backend operation), w)
              | Err Transport => if again then retry w else (Err (backend operation), w)
              end
      end
  end.

Definition get_request (st : SidecarStore) (operation : string) (url : Url) (w : World) :
    result HttpReply StoreError * World :=
  get_loop st operation url (max_attempts st) 0 w.

(** The [match acknowledgment] of [mutation_request]: the body and the committed
    stamp of an exact acknowledgment. *)
Definition read_acknowledgment (operation : string) (acknowledgment : MutationAcknowledgment)
    (response : Response) : result (string * option DateTime) StoreError :=
  let headers := resp_headers response in
  let status := resp_status response in
  let framed := contains_key CONTENT_TYPE headers || has_nonempty_or_ambiguous_body_framing headers in
  match acknowledgment with
  | AckPut =>
      if status =? 204 then
        if framed then Err (indeterminate operation)
        else
          let? at_ := ok_or (raw ← single_header headers LAST_ACTIVITY_HEADER; parse_timestamp raw)
                        (indeterminate operation) in
          let? body := read_mutation_body response operation in
          Ok (body, Some at_)
      else Err (indeterminate operation)
  | AckEmpty =>
      if status =? 204 then
        if framed then Err (indeterminate operation)
        else let? body := read_mutation_body response operation in Ok (body, None)
      else Err (indeterminate operation)
  | AckDelete =>
      if status =? 200 then
        if negb (has_exact_content_type headers "application/json") then Err (indeterminate operation)
        else let? body := read_mutation_body response operation in Ok (body, None)
      else if status =? 404 then
        if framed then Err (indeterminate operation)
        else
          let? body := read_mutation_body response operation in
          guard? is_empty body else indeterminate operation in Ok (body, None)
      else Err (indeterminate operation)
  end.

Definition expects_no_body (acknowledgment : MutationAcknowledgment) : bool :=
  match acknowledgment with AckPut | AckEmpty => true | AckDelete => false end.

Definition is_delete (acknowledgment : MutationAcknowledgment) : bool :=
  match acknowledgment with AckDelete => true | AckPut | AckEmpty => false end.

(** [request.header(CONTENT_TYPE, "application/json").body(body)]. *)
Definition mutation_message (st : SidecarStore) (method : Method) (url : Url) (body : option string) : Request :=
  match body with
  | Some body =>
      mkRequest method url (header_insert CONTENT_TYPE (value_from_static "application/json") (client st)) (Some body)
  | None => mkRequest method url (client st) None
  end.

(** The [for] loop of [mutation_request]; [make_attempt] is the closure with the
    state [C] it captured. *)
Fixpoint mutation_loop {C : Type} (st : SidecarStore) (operation : string) (method : Method) (url : Url)
    (acknowledgment : MutationAcknowledgment)
    (make_attempt : C -> World -> result (option string) StoreError * C)
    (remaining attempt : nat) (captured : C) (w : World) : result HttpReply StoreError * World :=
  match remaining with
  | O => (Err (backend operation), w)
  | S remaining =>
      let (made, captured) := make_attempt captured w in
      match made with
      | Err e => (Err e, w)
      | Ok body =>
          if is_some_and (fun body => MAX_MUTATION_REQUEST_BYTES <? Z.of_nat (String.length body)) body
          then (Err (backend operation), w)
          else
            let (response, w) := send (mutation_message st method url body) w in
            match response with
            | None => (Err (indeterminate operation), w)
            | Some response =>
                if negb (headers_within_limits (resp_headers response))
                   || negb (has_exact_protocol_header (resp_headers response))
                then (Err (indeterminate operation), w)
                else
                  let status := resp_status response in
                  if is_server_error status then
                    if (attempt + 1 <? max_attempts st)%nat
                    then mutation_loop st operation method url acknowledgment make_attempt
                           remaining (S attempt) captured (sleep_before_retry st attempt w)
                    else (Err (backend operation), w)
                  else if is_client_error status && negb (is_delete acknowledgment && (status =? 404))
                  then (Err (backend operation), w)
                  else
                    match read_acknowledgment operation acknowledgment response with
                    | Err e => (Err e, w)
                    | Ok (body, last_activity) =>
                        if expects_no_body acknowledgment && negb (is_empty body)
                        then (Err (indeterminate operation), w)
                        else (Ok (mkReply status body last_activity), w)
                    end
            end
      end
  end.

Definition mutation_request {C : Type} (st : SidecarStore) (operation : string) (method : Method) (url : Url)
    (acknowledgment : MutationAcknowledgment)
    (make_attempt : C -> World -> result (option string) StoreError * C) (captured : C) (w : World) :
    result HttpReply StoreError * World :=
  mutation_loop st operation method url acknowledgment make_attempt (max_attempts st) 0 captured w.

(** The closure of [put_envelope]: it raises its captured [sent_floor]. *)
Definition make_put (error_operation protocol_operation : string) (route : Value)
    (activity_floor : option (ActivityFloor World)) (sent_floor : DateTime) (w : World) :
    result (option string) StoreError * DateTime :=
  let sent_floor :=
    match activity_floor with
    | Some f => raise_to_floor (current f w) sent_floor
    | None => sent_floor
    end in
  (match to_vec (put_envelope_value protocol_operation route (chp_timestamp sent_floor)) with
   | Some body => Ok (Some body)
   | None => Err (corrupt error_operation "<outgoing>")
   end, sent_floor).

Definition put_envelope (st : SidecarStore) (error_operation protocol_operation : string) (key : RouteKey)
    (data : RouteData) (activity_floor : option (ActivityFloor World)) (w : World) :
    result RouteData StoreError * World :=
  match encode_route error_operation data with
  | Err e => (Err e, w)
  | Ok route =>
      match route_endpoint st key "" with
      | Err e => (Err e, w)
      | Ok url =>
          let (reply, w) := mutation_request st error_operation PUT url AckPut
            (make_put error_operation protocol_operation route activity_floor) (last_activity data) w in
          (let? reply := reply in
           let? at_ := ok_or (reply_last_activity reply) (indeterminate error_operation) in
           Ok (set_last_activity at_ data), w)
      end
  end.

(** [connect]: the client, then the health handshake. *)
Definition connect (config : SidecarConfig) (w : World) : result SidecarStore StoreError * World :=
  match validate_base_url (config_base_url config) with
  | Err e => (Err e, w)
  | Ok url =>
      let headers := header_insert (name_from_static PROTOCOL_HEADER) (value_from_static PROTOCOL_VERSION) header_empty in
      match (match bearer_token config with
             | Some token =>
                 let? authorization := ok_or (value_from_str ("Bearer " +:+ token)) (backend "connect") in
                 Ok (header_insert AUTHORIZATION authorization headers)
             | None => Ok headers
             end) with
      | Err e => (Err e, w)
      | Ok headers =>
          if negb (client_builds headers) then (Err (backend "connect"), w)
          else
            let st := mkSidecarStore headers url (config_max_attempts config) (config_initial_backoff config)
                        (config_max_backoff config) (config_connect_timeout config)
                        (config_request_timeout config) in
            match endpoint st "v1/health" with
            | Err e => (Err e, w)
            | Ok health_url =>
                let (reply, w) := get_request st "connect" health_url w in
                (let? reply := reply in
                 guard? reply_status reply =? 200 else backend "connect" in
                 let? health := ok_or (decode_health (reply_body reply)) (backend "connect") in
                 guard? String.eqb (health_version health) PROTOCOL_VERSION && String.eqb (health_status health) "ok"
                   else backend "connect" in Ok st, w)
            end
      end
  end.

Definition sidecar_snapshot (st : SidecarStore) (w : World) :
    result (gmap RouteKey RouteData) StoreError * World :=
  match endpoint st "v1/routes" with
  | Err e => (Err e, w)
  | Ok url =>
      let (reply, w) := get_request st "snapshot" url w in
      (let? reply := reply in
       guard? reply_status reply =? 200 else backend "snapshot" in
       decode_snapshot (reply_body reply), w)
  end.

Definition sidecar_add (st : SidecarStore) (utc_now : DateTime) (key : RouteKey) (target : string)
    (extra : gmap string Value) (activity_floor : ActivityFloor World) (w : World) :
    result RouteData StoreError * World :=
  put_envelope st "add" "add" key (mkRouteData target utc_now extra) (Some activity_floor) w.

Definition sidecar_put (st : SidecarStore) (key : RouteKey) (data : RouteData) (w : World) :
    result unit StoreError * World :=
  let (r, w) := put_envelope st "put" "put" key data None w in (result_map (fun _ => tt) r, w).

Definition sidecar_put_preserving_activity (st : SidecarStore) (key : RouteKey) (data : RouteData)
    (activity_floor : ActivityFloor World) (w : World) : result RouteData StoreError * World :=
  put_envelope st "put" "put_preserving_activity" key data (Some activity_floor) w.

Definition sidecar_update_activity (st : SidecarStore) (key : RouteKey) (at_ : DateTime) (w : World) :
    result unit StoreError * World :=
  match to_vec (activity_envelope_value (chp_timestamp at_)) with
  | None => (Err (corrupt "update_activity" "<outgoing>"), w)
  | Some body =>
      match route_endpoint st key "/activity" with
      | Err e => (Err e, w)
      | Ok url =>
          let (r, w) := mutation_request st "update_activity" PATCH url AckEmpty
            (fun (_ : unit) _ => (Ok (Some body), tt)) tt w in
          (result_map (fun _ => tt) r, w)
      end
  end.

Definition sidecar_delete (st : SidecarStore) (key : RouteKey) (w : World) :
    result (option RouteData) StoreError * World :=
  match route_endpoint st key "" with
  | Err e => (Err e, w)
  | Ok url =>
      let (r, w) := mutation_request st "delete" DELETE url AckDelete
        (fun (_ : unit) _ => (Ok None, tt)) tt w in
      (let? reply := r in
       if reply_status reply =? 404 then Ok None
       else if reply_status reply =? 200
       then match decode_route (reply_body reply) with
            | Some d => Ok (Some d)
            | None => Err (indeterminate "delete")
            end
       else Err (indeterminate "delete"), w)
  end.

End Client.

(** ** The protocol a server keeps (docs/sidecar-store.md) *)

Section Protocol.
Context `{HeaderLib} `{UrlLib} `{SidecarLib}.

Inductive SidecarCall : Type :=
| SidecarPut (operation : string) (key : RouteKey) (data : RouteData) (floor : DateTime)
| SidecarActivity (key : RouteKey) (at_ : DateTime)
| SidecarDelete (key : RouteKey).

Definition only_member (name : string) (l : list (string * Json)) : option Json :=
  match List.filter (fun kv => String.eqb kv.1 name) l with [(_, j)] => Some j | _ => None end.

Definition text_member (name : string) (l : list (string * Json)) : option string :=
  match only_member name l with Some (JString s) => Some s | _ => None end.

Definition put_operations : list string := ["add"; "put"; "put_preserving_activity"].

(** The four members of a PUT envelope, each exactly once. *)
Definition read_put (key : RouteKey) (body : string) : option SidecarCall :=
  match from_slice body with
  | Some (JObject l) =>
      version ← text_member "version" l;
      operation ← text_member "operation" l;
      route ← only_member "route" l;
      data ← strict_route route;
      raw ← text_member "activityFloor" l;
      floor ← parse_timestamp raw;
      if (length l =? 4)%nat && String.eqb version PROTOCOL_VERSION && bool_decide (operation ∈ put_operations)
      then Some (SidecarPut operation key data floor) else None
  | _ => None
  end.

Definition read_activity (key : RouteKey) (body : string) : option SidecarCall :=
  match from_slice body with
  | Some (JObject l) =>
      version ← text_member "version" l;
      raw ← text_member "lastActivity" l;
      at_ ← parse_timestamp raw;
      if (length l =? 2)%nat && String.eqb version PROTOCOL_VERSION then Some (SidecarActivity key at_) else None
  | _ => None
  end.

(** The route key is one percent-encoded segment of the path. *)
Definition read_path (path : string) : option (RouteKey * bool) :=
  rest ← strip_prefix "/v1/routes/" path;
  match split slash rest with
  | [segment] => raw ← decode_bytes segment; key ← ok (decode_key raw); Some (key, false)
  | [segment; "activity"] => raw ← decode_bytes segment; key ← ok (decode_key raw); Some (key, true)
  | _ => None
  end.

(** What a mutation request asks for; requests without the protocol header, the
    content type or a readable path and body ask for nothing. *)
Definition meaning (r : Request) : option SidecarCall :=
  if negb (has_exact_protocol_header (req_headers r)) then None
  else
    '(key, activity) ← read_path (url_path (req_url r));
    match req_method r, activity, req_body r with
    | PUT, false, Some body =>
        if has_exact_content_type (req_headers r) "application/json" then read_put key body else None
    | PATCH, true, Some body =>
        if has_exact_content_type (req_headers r) "application/json" then read_activity key body else None
    | DELETE, false, None => Some (SidecarDelete key)
    | _, _, _ => None
    end.

(** The stamp an atomic PUT stores. *)
Definition final_stamp (operation : string) (data : RouteData) (floor : DateTime) (prior : option RouteData) : DateTime :=
  if String.eqb operation "put" then last_activity data
  else raise_to_floor (last_activity <$> prior) (Z.max (last_activity data) floor).

Definition apply_call (c : SidecarCall) (m : gmap RouteKey RouteData) : gmap RouteKey RouteData :=
  match c with
  | SidecarPut operation key data floor =>
      <[key := set_last_activity (final_stamp operation data floor (m !! key)) data]> m
  | SidecarActivity key at_ => alter (set_last_activity at_) key m
  | SidecarDelete key => delete key m
  end.

(** Metadata that does not use the names of the record's own fields. *)
Definition no_reserved (e : gmap string Value) : Prop := e !! "target" = None /\ e !! "last_activity" = None.

(** A text that shows a record. *)
Definition shows_record (d : RouteData) (j : Json) : Prop :=
  value_of j = VObject (route_object d) /\ unique_members j /\ no_reserved (extra d).

(** A text that shows a whole store. *)
Definition shows_routes (m : gmap RouteKey RouteData) (l : list (string * Json)) : Prop :=
  NoDup l.*1 /\
  (forall key d, m !! key = Some d -> exists j, (as_str key, j) ∈ l /\ shows_record d j) /\
  (forall raw j, (raw, j) ∈ l -> exists key d, raw = as_str key /\ m !! key = Some d /\ shows_record d j).

Definition readable (r : Response) : bool :=
  headers_within_limits (resp_headers r) && has_exact_protocol_header (resp_headers r).

Definition rejects (method : Method) (status : Z) : bool :=
  is_server_error status
  || is_client_error status && negb (match method with DELETE => status =? 404 | _ => false end).

Definition accepts (method : Method) (status : Z) : bool :=
  match method with
  | PUT | PATCH => status =? 204
  | DELETE => (status =? 200) || (status =? 404)
  | GET => false
  end.

(** The exact acknowledgment of a call that found the routes [m]. *)
Definition acknowledges (c : SidecarCall) (m : gmap RouteKey RouteData) (r : Response) : Prop :=
  match c with
  | SidecarPut operation key data floor =>
      single_header (resp_headers r) LAST_ACTIVITY_HEADER
        = Some (chp_timestamp (final_stamp operation data floor (m !! key)))
  | SidecarActivity _ _ => True
  | SidecarDelete key =>
      match m !! key with
      | Some d => resp_status r = 200 /\
          forall body, bounded_body r = Ok body -> exists j, from_slice body = Some j /\ shows_record d j
      | None => resp_status r = 404
      end
  end.

(** A v1 server: at most one atomic write per request, of what the request
    means; none when it answers 4xx or 5xx; an exact acknowledgment only after
    it; and a snapshot that shows one consistent store. *)
Class SidecarProtocol (World : Type) `{!SidecarPeer World} : Prop := {
  send_protocol req w :
    exists m m',
      (alone -> m = persisted w /\ m' = persisted (send req w).2) /\
      (effects (send req w).2 = effects w /\ m' = m \/
       effects (send req w).2 = (m, m') :: effects w /\ exists c, meaning req = Some c /\ m' = apply_call c m) /\
      forall r, (send req w).1 = Some r -> readable r = true ->
        (rejects (req_method req) (resp_status r) = true -> m' = m /\ effects (send req w).2 = effects w) /\
        (accepts (req_method req) (resp_status r) = true ->
         exists c, meaning req = Some c /\ m' = apply_call c m /\ acknowledges c m r) /\
        (req_method req = GET -> url_path (req_url req) = "/v1/routes" -> resp_status r = 200 ->
         forall body, bounded_body r = Ok body ->
           exists l, from_slice body = Some (JObject l) /\ shows_routes m l);
  sleep_protocol d w :
    effects (sleep d w) = effects w /\ (alone -> persisted (sleep d w) = persisted w)
}.

End Protocol.

(** ** The codec *)

Section CodecLemmas.
Context `{SidecarLib}.

(** The members of an object as a map, when none is repeated. *)
Definition members_map (l : list (string * Json)) : gmap string Value :=
  list_to_map (List.map (fun kv => match kv with (k, v) => (k, value_of v) end) l).

Lemma members_map_fst l :
  (List.map (fun kv : string * Json => match kv with (k, v) => (k, value_of v) end) l).*1 = l.*1.
Proof. induction l as [|[k v] l IH]; [done|]. cbn. by f_equal. Qed.

Lemma value_of_object l m :
  NoDup l.*1 -> value_of (JObject l) = VObject m -> members_map l = m.
Proof.
  intros Hnd [= <-]. unfold members_map. apply list_to_map_proper; [by rewrite members_map_fst|].
  symmetry. apply reverse_Permutation.
Qed.

Lemma members_map_cons k v l : members_map ((k, v) :: l) = <[k := value_of v]> (members_map l).
Proof. done. Qed.

Lemma members_map_notin k l : k ∉ l.*1 -> members_map l !! k = None.
Proof. intros Hk. apply not_elem_of_list_to_map_1. by rewrite members_map_fst. Qed.

(** What the strict visitor read of each field, from where it stands. *)
Lemma visit_route_spec members t a e d :
  NoDup members.*1 -> visit_route members t a e = Some d ->
  (match t with
   | Some s => target d = s /\ "target" ∉ members.*1
   | None => members_map members !! "target" = Some (VString (target d)) end) /\
  (match a with
   | Some at_ => last_activity d = at_ /\ "last_activity" ∉ members.*1
   | None => exists raw, members_map members !! "last_activity" = Some (VString raw) /\
               parse_timestamp raw = Some (last_activity d) end) /\
  (forall n, n <> "target" -> n <> "last_activity" -> extra d !! n =
     match e !! n with Some v => Some v | None => members_map members !! n end) /\
  (forall n, n = "target" \/ n = "last_activity" -> extra d !! n = e !! n).
Proof.
  revert t a e. induction members as [|[field value] members IH]; intros t a e Hnd Hv; cbn [visit_route] in Hv.
  - apply bind_Some in Hv as (s & -> & Hv). apply bind_Some in Hv as (at_ & -> & [= <-]).
    cbn. split_and!; try done; try set_solver. intros n _ _. by destruct (e !! n).
  - cbn [fmap list_fmap] in Hnd. apply NoDup_cons in Hnd as [Hf Hnd]. cbn [fst] in Hf.
    rewrite members_map_cons.
    destruct (String.eqb_spec field "target") as [->|Ht]; [|destruct (String.eqb_spec field "last_activity") as [->|Hl]].
    + destruct t as [s|]; [by destruct value|]. destruct value as [| | |s| |]; try done.
      apply IH in Hv as ((<- & _) & Ha & Hn & Hr); [|done]. split_and!.
      * by rewrite lookup_insert_eq.
      * destruct a; [|by rewrite lookup_insert_ne]. destruct Ha as [-> Ha]. split; [done|set_solver].
      * intros n Hn1 Hn2. rewrite lookup_insert_ne by done. by apply Hn.
      * done.
    + destruct a as [at_|]; [by destruct value|]. destruct value as [| | |raw| |]; try done.
      apply bind_Some in Hv as (at_ & Hp & Hv). apply IH in Hv as (Ht' & (<- & _) & Hn & Hr); [|done]. split_and!.
      * destruct t; [|by rewrite lookup_insert_ne]. destruct Ht' as [-> Ha]. split; [done|set_solver].
      * exists raw. by rewrite lookup_insert_eq.
      * intros n Hn1 Hn2. rewrite lookup_insert_ne by done. by apply Hn.
      * done.
    + destruct (e !! field) as [v|] eqn:He; [done|]. cbn [is_some] in Hv.
      apply IH in Hv as (Ht' & Ha & Hn & Hr); [|done]. split_and!.
      * destruct t; [|by rewrite lookup_insert_ne]. destruct Ht' as [-> Hx]. split; [done|set_solver].
      * destruct a; [|by rewrite lookup_insert_ne]. destruct Ha as [-> Hx]. split; [done|set_solver].
      * intros n Hn1 Hn2. rewrite (Hn n Hn1 Hn2). destruct (decide (field = n)) as [<-|Hne].
        -- by rewrite !lookup_insert_eq, He.
        -- by rewrite !lookup_insert_ne.
      * intros n Hn'. rewrite (Hr n Hn'). rewrite lookup_insert_ne; [done|]. by destruct Hn' as [->| ->].
Qed.

Lemma parse_timestamp_exact `{!SidecarLaws} t t' : parse_timestamp (chp_timestamp t) = Some t' -> t' = t.
Proof.
  unfold parse_timestamp. intros (p & Hp & Hq)%bind_Some. apply date_print_parse in Hp as ->.
  case_match; congruence.
Qed.

(** A text that shows a record is read as that record. *)
Lemma strict_route_exact `{!SidecarLaws} d j d' : shows_record d j -> strict_route j = Some d' -> d' = d.
Proof.
  intros (Hv & Hu & Hft & Hfl). destruct j as [| | | | |l]; try done. destruct Hu as [Hnd _].
  apply value_of_object in Hv; [|done]. cbn [strict_route]. intros Hs.
  apply visit_route_spec in Hs as (Ht & (raw & Hl & Hp) & Hn & Hr); [|done]. rewrite Hv in *.
  unfold route_object in *. rewrite lookup_insert_ne, lookup_insert_eq in Ht by done. injection Ht as Ht.
  rewrite lookup_insert_eq in Hl. injection Hl as <-. apply parse_timestamp_exact in Hp.
  destruct d as [t a e], d' as [t' a' e']. cbn in *. subst. f_equal. apply map_eq. intros n.
  destruct (decide (n = "target")) as [->|Hn1]; [rewrite Hr by auto; by rewrite Hft|].
  destruct (decide (n = "last_activity")) as [->|Hn2]; [rewrite Hr by auto; by rewrite Hfl|].
  rewrite (Hn n Hn1 Hn2), lookup_empty, !lookup_insert_ne by done. done.
Qed.

Lemma decode_key_inverse raw key : decode_key raw = Ok key -> as_str key = raw.
Proof.
  unfold decode_key. destruct raw as [|c rest]; [done|]. cbn [starts_with_char negb].
  destruct (Ascii.eqb c slash) eqn:Hc; [|done]. apply ascii_eqb_true in Hc as ->. cbn [negb].
  destruct ((1 <? String.length (String slash rest))%nat && ends_with_char slash (String slash rest)) eqn:He;
    intros [= <-]; unfold normalize.
  - change (String slash rest +:+ "/") with (String slash (rest +:+ "/")).
    cbn [is_empty orb starts_with_char]. rewrite ascii_eqb_refl. cbn [negb].
    change (String slash (rest +:+ "/")) with (String slash rest +:+ str1 slash).
    rewrite ends_with_char_app, pop_byte_app, str_length_app. simpl.
    by destruct (String.length rest + 1)%nat eqn:Hl; [lia|].
  - cbn [is_empty orb starts_with_char]. rewrite ascii_eqb_refl. cbn [negb]. by rewrite He.
Qed.

Lemma RouteKey_eq (a b : RouteKey) : as_str a = as_str b -> a = b.
Proof. destruct a, b. simpl. by intros ->. Qed.

(** A snapshot that shows a store and is accepted is that store. *)
Lemma visit_snapshot_spec l m0 m' :
  visit_snapshot l m0 = Some m' ->
  (forall key, is_Some (m0 !! key) -> m' !! key = m0 !! key) /\
  (forall raw j, (raw, j) ∈ l -> exists key d, as_str key = raw /\ strict_route j = Some d /\ m' !! key = Some d) /\
  (forall key, is_Some (m' !! key) -> is_Some (m0 !! key) \/ as_str key ∈ l.*1).
Proof.
  revert m0. induction l as [|[raw j] l IH]; intros m0 Hv; cbn [visit_snapshot] in Hv.
  - injection Hv as ->. split_and!; [done|set_solver|by left].
  - apply bind_Some in Hv as (key & Hk & Hv). apply bind_Some in Hv as (d & Hd & Hv).
    destruct (m0 !! key) as [v|] eqn:Hm0; [done|]. cbn [is_some] in Hv.
    destruct (decode_key raw) as [key'|] eqn:Hkey; [|done]. injection Hk as ->.
    apply decode_key_inverse in Hkey. apply IH in Hv as (Hkeep & Hin & Hdom). split_and!.
    + intros k Hk. rewrite (Hkeep k); destruct (decide (key = k)) as [<-|Hne];
        rewrite ?lookup_insert_eq, ?lookup_insert_ne by done; try done. by rewrite Hm0 in Hk; destruct Hk.
    + intros raw' j' [[= -> ->]|Hel]%elem_of_cons; [|by apply Hin]. exists key, d. split_and!; [done|done|].
      rewrite Hkeep; by rewrite lookup_insert_eq.
    + intros k Hk. destruct (Hdom k Hk) as [Hi|Hi]; [|right; cbn; set_solver].
      destruct (decide (key = k)) as [<-|Hne]; [right; cbn; set_solver|]. left. by rewrite lookup_insert_ne in Hi.
Qed.

Lemma strict_snapshot_exact `{!SidecarLaws} m l m' :
  shows_routes m l -> strict_snapshot (JObject l) = Some m' -> m' = m.
Proof.
  intros (Hnd & Hm & Hl) Hs. apply visit_snapshot_spec in Hs as (_ & Hin & Hdom).
  assert (Hfwd : forall key d, m !! key = Some d -> m' !! key = Some d).
  { intros key d Hk. destruct (Hm key d Hk) as (j & Hj & Hsh).
    destruct (Hin _ _ Hj) as (key' & d' & Hraw & Hd & Hm'). apply RouteKey_eq in Hraw as ->.
    by rewrite Hm', (strict_route_exact d j d'). }
  apply map_eq. intros key. destruct (m !! key) as [d|] eqn:Hk; [by apply Hfwd|].
  destruct (m' !! key) as [d'|] eqn:Hk'; [|done]. exfalso.
  destruct (Hdom key) as [Hi|Hi]; [by rewrite Hk'|by rewrite lookup_empty in Hi; destruct Hi|].
  apply list_elem_of_fmap in Hi as ([raw j] & Hraw & Hj). destruct (Hl _ _ Hj) as (k2 & d2 & -> & Hk2 & _).
  apply RouteKey_eq in Hraw as ->. congruence.
Qed.

End CodecLemmas.

(** ** What the client's requests mean *)

Section Requests.
Context `{HeaderLib} `{UrlLib} `{SidecarLib}.

Lemma only_member_map name l j :
  NoDup l.*1 -> only_member name l = Some j -> members_map l !! name = Some (value_of j) /\ (name, j) ∈ l.
Proof.
  unfold only_member. induction l as [|[k v] l IH]; [done|]. intros [Hk Hnd]%NoDup_cons. cbn [List.filter fst].
  rewrite members_map_cons. destruct (String.eqb_spec k name) as [->|Hne].
  - intros Hf. replace j with v; [split; [by rewrite lookup_insert_eq|left]|]. clear -Hf.
    by destruct (List.filter _ l); simplify_eq.
  - intros Hf. rewrite lookup_insert_ne by done. destruct (IH Hnd Hf). split; [done|by right].
Qed.

Lemma text_member_map name l s :
  NoDup l.*1 -> text_member name l = Some s -> members_map l !! name = Some (VString s).
Proof.
  unfold text_member. intros Hnd Ht. destruct (only_member name l) as [j|] eqn:Hj; [|done].
  destruct j; try done. injection Ht as ->. by apply only_member_map in Hj as [Hj _].
Qed.

Lemma unique_member name j l : unique_members (JObject l) -> (name, j) ∈ l -> unique_members j.
Proof.
  intros [_ Hall]. induction l as [|[k v] l IH]; [set_solver|]. destruct Hall as [Hv Hall].
  intros [[= _ ->]|Hel]%elem_of_cons; [done|by apply IH].
Qed.

(** The envelope of a PUT is read as the record and floor that went into it. *)
Lemma read_put_exact `{!SidecarLaws} key op data floor body c :
  no_reserved (extra data) ->
  to_vec (put_envelope_value op (VObject (route_object data)) (chp_timestamp floor)) = Some body ->
  read_put key body = Some c -> c = SidecarPut op key data floor /\ op ∈ put_operations.
Proof.
  intros Hres Hbody. unfold read_put. destruct (from_slice body) as [j|] eqn:Hj; [|done].
  destruct (json_print_parse _ _ _ Hbody Hj) as [Hv Hu]. destruct j as [| | | | |l]; try done.
  pose proof Hu as [Hnd _]. apply value_of_object in Hv; [|done].
  intros (v & Hver & Hc)%bind_Some. apply bind_Some in Hc as (op' & Hop & Hc).
  apply bind_Some in Hc as (jr & Hroute & Hc). apply bind_Some in Hc as (d & Hd & Hc).
  apply bind_Some in Hc as (raw & Hraw & Hc). apply bind_Some in Hc as (f & Hf & Hc).
  destruct ((length l =? 4)%nat && String.eqb v PROTOCOL_VERSION && bool_decide (op' ∈ put_operations)) eqn:Hg; [|done].
  injection Hc as <-. apply andb_true_iff in Hg as [_ Hops%bool_decide_eq_true].
  apply text_member_map in Hop; [|done]. rewrite Hv in Hop. unfold put_envelope_value in Hop.
  rewrite lookup_insert_ne, lookup_insert_eq in Hop by done. injection Hop as <-.
  apply text_member_map in Hraw; [|done]. rewrite Hv in Hraw. unfold put_envelope_value in Hraw.
  assert (raw = chp_timestamp floor) as ->.
  { revert Hraw. rewrite !lookup_insert_ne, lookup_singleton_eq by done. by intros [= ->]. }
  apply parse_timestamp_exact in Hf as ->. apply only_member_map in Hroute as [Hroute Hel]; [|done].
  rewrite Hv in Hroute. unfold put_envelope_value in Hroute.
  assert (value_of jr = VObject (route_object data)) as Hjr.
  { revert Hroute. rewrite !lookup_insert_ne, lookup_insert_eq by done. by intros [= ->]. }
  split; [|done]. f_equal. apply (strict_route_exact data jr); [|done]. split_and!; [done|by eapply unique_member|done].
Qed.

Lemma read_activity_exact `{!SidecarLaws} key at_ body c :
  to_vec (activity_envelope_value (chp_timestamp at_)) = Some body ->
  read_activity key body = Some c -> c = SidecarActivity key at_.
Proof.
  intros Hbody. unfold read_activity. destruct (from_slice body) as [j|] eqn:Hj; [|done].
  destruct (json_print_parse _ _ _ Hbody Hj) as [Hv Hu]. destruct j as [| | | | |l]; try done.
  pose proof Hu as [Hnd _]. apply value_of_object in Hv; [|done].
  intros (v & Hver & Hc)%bind_Some. apply bind_Some in Hc as (raw & Hraw & Hc).
  apply bind_Some in Hc as (f & Hf & Hc). case_match; [|done]. injection Hc as <-.
  apply text_member_map in Hraw; [|done]. rewrite Hv in Hraw. unfold activity_envelope_value in Hraw.
  rewrite lookup_insert_ne, lookup_singleton_eq in Hraw by done. injection Hraw as <-.
  by apply parse_timestamp_exact in Hf as ->.
Qed.

(** A key is one plain segment of a request path, and is read back from it. *)
Lemma encode_segment_slash rest :
  encode_segment (String slash rest) = String percent (String "2" (String "F" (encode_segment rest))).
Proof. done. Qed.

Lemma encode_segment_plain key :
  starts_with_char slash (as_str key) = true -> plain_segment (encode_segment (as_str key)) = true.
Proof.
  destruct key as [[|c rest]]; [done|]. cbn [as_str starts_with_char]. intros ->%ascii_eqb_true.
  unfold plain_segment. assert (Hc := encode_with_chars unreserved (String slash rest)).
  fold (encode_segment (String slash rest)) in Hc. apply andb_true_iff. split; [apply andb_true_iff; split|].
  - done.
  - eapply all_chars_weaken; [|exact Hc]. intros c Hp.
    pose proof (byte_check (fun c => implb (unreserved c || is_ascii_alphanumeric c || Ascii.eqb c percent)
      (is_ascii_alphanumeric c || existsb (Ascii.eqb c) ["-"; "."; "_"; "~"; "%"]%char)) eq_refl c) as Hb.
    cbv beta in Hb, Hp. by rewrite Hp in Hb.
  - rewrite encode_segment_slash. reflexivity.
Qed.

Lemma encode_segment_no_slash s : contains_char slash (encode_segment s) = false.
Proof.
  induction s as [|c s IH]; [done|]. unfold encode_segment. cbn [encode_with].
  assert (Happ : forall a b, contains_char slash (a +:+ b) = contains_char slash a || contains_char slash b)
    by (intros a b; induction a as [|x a IHa]; simpl; [done|]; by rewrite IHa, orb_assoc).
  rewrite Happ. fold (encode_segment s). rewrite IH, orb_false_r.
  apply negb_true_iff, (byte_check (fun c => negb (contains_char slash (if unreserved c then str1 c else encode_byte c)))).
  vm_compute. reflexivity.
Qed.

Lemma read_path_segment key b rest :
  (b = false /\ rest = "" \/ b = true /\ rest = "/activity") ->
  forall k b', read_path ("/v1/routes/" +:+ encode_segment (as_str key) +:+ rest) = Some (k, b') -> k = key.
Proof.
  intros Hb k b'. unfold read_path.
  replace (strip_prefix "/v1/routes/" _) with (Some (encode_segment (as_str key) +:+ rest))
    by (symmetry; by apply strip_prefix_Some). cbn [mbind option_bind].
  assert (Hdec : forall b1, (raw ← decode_bytes (encode_segment (as_str key)); k0 ← ok (decode_key raw); Some (k0, b1))
    = Some (k, b') -> k = key).
  { intros b1. unfold encode_segment. rewrite decode_encode_with by done. cbn [mbind option_bind].
    destruct (decode_key (as_str key)) as [k1|] eqn:Hk; [|done]. cbn. intros [= <- _].
    by apply RouteKey_eq, decode_key_inverse. }
  destruct Hb as [[-> ->]|[-> ->]].
  - rewrite str_app_nil_r, split_plain by apply encode_segment_no_slash. apply Hdec.
  - change "/activity" with (String slash "activity").
    rewrite split_app by apply encode_segment_no_slash. rewrite split_plain by done. apply Hdec.
Qed.

End Requests.

(** ** The refinement *)

Section Refinement.
Context `{HeaderLib} `{UrlLib} `{SidecarLib} {World : Type} `{!SidecarPeer World}.

Abbreviation Routes := (gmap RouteKey RouteData) (only parsing).

(** An operation took effect at one point, where the routes went from [m] to
    [m'], or not at all; with no other writer these are the first and the last. *)
Definition refines {R} (A : R -> Routes -> Routes -> Prop) (w0 : World)
    (out : result R StoreError * World) : Prop :=
  exists m m',
    (alone -> m = persisted w0 /\ m' = persisted out.2) /\
    (effects out.2 = effects w0 /\ m' = m \/ effects out.2 = (m, m') :: effects w0) /\
    match out.1 with
    | Ok reply => A reply m m'
    | Err e => m' = m \/ (is_indeterminate_error e = true /\ exists reply, A reply m m')
    end.

Definition untouched (w0 w1 : World) : Prop :=
  effects w1 = effects w0 /\ (alone -> persisted w1 = persisted w0).

Lemma call_refines_after {R} (A : R -> Routes -> Routes -> Prop) w0 w1 out :
  untouched w0 w1 -> refines A w1 out -> refines A w0 out.
Proof.
  intros [He Hp] (m & m' & Hal & Hout & Hres). exists m, m'. rewrite He in Hout. split; [|done].
  intros Ha. rewrite <- Hp by done. by apply Hal.
Qed.

Lemma refines_error {R} (A : R -> Routes -> Routes -> Prop) w0 w e :
  untouched w0 w -> refines A w0 (Err e, w).
Proof.
  intros Hun. apply (call_refines_after _ _ w); [done|]. exists (persisted w), (persisted w). split; [done|].
  split; [by left|]. by left.
Qed.

Lemma refines_map {R S} (A : R -> Routes -> Routes -> Prop) (B : S -> Routes -> Routes -> Prop) w0
    (f : R -> result S StoreError) (r : result R StoreError) w :
  refines A w0 (r, w) ->
  (forall x m m', A x m m' ->
     match f x with Ok y => B y m m' | Err e => m' = m \/ is_indeterminate_error e = true /\ exists y, B y m m' end) ->
  (forall x m m', A x m m' -> exists y, B y m m') ->
  refines B w0 (let? x := r in f x, w).
Proof.
  intros (m & m' & Hal & Hout & Hres) Hf Hex. exists m, m'. split; [done|]. split; [done|]. simpl in *.
  destruct r as [x|e]; simpl.
  - apply Hf in Hres. destruct (f x); done.
  - destruct Hres as [?|[? [y ?]]]; [by left|]. right. split; [done|]. eauto.
Qed.

Lemma sleep_untouched `{!SidecarProtocol World} st n w : untouched w (sleep_before_retry st n w).
Proof. apply sleep_protocol. Qed.

(** The outcome of a mutation: the last request went out in the world [w1],
    meant [c], and its exact acknowledgment is the reply. *)
Definition answered (G : World -> SidecarCall -> Prop) (operation : string) (ack : MutationAcknowledgment)
    (w' : World) (reply : HttpReply) (m m' : Routes) : Prop :=
  exists w1 req r c,
    send req w1 = (Some r, w') /\ G w1 c /\ m' = apply_call c m /\ acknowledges c m r /\
    read_acknowledgment operation ack r = Ok (reply_body reply, reply_last_activity reply) /\
    reply_status reply = resp_status r.

(** The call that took effect, acknowledged or not. *)
Definition took (G : World -> SidecarCall -> Prop) (w' : World) (m m' : Routes) : Prop :=
  exists w1 req c, (send req w1).2 = w' /\ G w1 c /\ m' = apply_call c m.

Definition method_of (ack : MutationAcknowledgment) : Method :=
  match ack with AckPut => PUT | AckEmpty => PATCH | AckDelete => DELETE end.

Definition request_refines (G : World -> SidecarCall -> Prop) (operation : string) (ack : MutationAcknowledgment)
    (w0 : World) (out : result HttpReply StoreError * World) : Prop :=
  exists m m',
    (alone -> m = persisted w0 /\ m' = persisted out.2) /\
    (effects out.2 = effects w0 /\ m' = m \/ effects out.2 = (m, m') :: effects w0) /\
    match out.1 with
    | Ok reply => answered G operation ack out.2 reply m m'
    | Err e => m' = m \/ (is_indeterminate_error e = true /\ took G out.2 m m')
    end.

Lemma read_acknowledgment_accepts op ack r x :
  read_acknowledgment op ack r = Ok x -> accepts (method_of ack) (resp_status r) = true.
Proof.
  unfold read_acknowledgment. destruct ack; simpl.
  - by destruct (resp_status r =? 204).
  - by destruct (resp_status r =? 204).
  - by destruct (resp_status r =? 200), (resp_status r =? 404).
Qed.

Lemma read_acknowledgment_indeterminate op ack r e :
  read_acknowledgment op ack r = Err e -> e = Indeterminate op.
Proof.
  unfold read_acknowledgment, read_mutation_body, indeterminate.
  destruct (contains_key CONTENT_TYPE (resp_headers r) || _), (resp_status r =? 204), (resp_status r =? 200),
    (resp_status r =? 404), (has_exact_content_type (resp_headers r) "application/json"),
    (bounded_body r) as [body|], ack; simpl; try (by intros [= <-]);
    try (by destruct (single_header (resp_headers r) LAST_ACTIVITY_HEADER) as [raw|]; simpl;
         [destruct (parse_timestamp raw)|]; simpl; intros [= <-]);
    by destruct (is_empty body); intros [= <-].
Qed.

(** One sent request that is not retried. *)
Lemma sent_refines `{!SidecarProtocol World} (G : World -> SidecarCall -> Prop) op ack w req out :
  req_method req = method_of ack ->
  (forall c, meaning req = Some c -> G w c) ->
  out.2 = (send req w).2 ->
  match out.1 with
  | Ok reply => exists r, (send req w).1 = Some r /\ readable r = true /\
      read_acknowledgment op ack r = Ok (reply_body reply, reply_last_activity reply) /\
      reply_status reply = resp_status r
  | Err e => is_indeterminate_error e = true \/
      exists r, (send req w).1 = Some r /\ readable r = true /\ rejects (method_of ack) (resp_status r) = true
  end ->
  request_refines G op ack w out.
Proof.
  intros Hm HG Hw Hout. destruct (send_protocol req w) as (m & m' & Hal & Heff & Hreply).
  exists m, m'. rewrite Hw. split; [done|]. split; [destruct Heff as [?|[? _]]; auto|].
  destruct out.1 as [reply|e].
  - destruct Hout as (r & Hr & Hread & Hack & Hst). destruct (Hreply r Hr Hread) as (_ & Hacc & _).
    rewrite Hm in Hacc. destruct (Hacc (read_acknowledgment_accepts _ _ _ _ Hack)) as (c & Hc & Happ & Hk).
    exists w, req, r, c. split_and!; try done; [|by apply HG]. by rewrite <- Hr; destruct (send req w).
  - destruct Heff as [[_ ->]|[_ (c & Hc & ->)]]; [by left|]. destruct Hout as [Hi|(r & Hr & Hread & Hrej)].
    + right. split; [done|]. exists w, req, c. split_and!; [done|by apply HG|done].
    + destruct (Hreply r Hr Hread) as (Hno & _). rewrite Hm in Hno. destruct (Hno Hrej) as [-> _]. by left.
Qed.

Lemma mutation_loop_refines `{!SidecarProtocol World} {C} (G : World -> SidecarCall -> Prop) (I : C -> Prop)
    st op url ack (make : C -> World -> result (option string) StoreError * C) remaining attempt captured w :
  (forall c w body c', I c -> make c w = (Ok body, c') ->
     I c' /\ forall call, meaning (mutation_message st (method_of ack) url body) = Some call -> G w call) ->
  I captured ->
  request_refines G op ack w (mutation_loop st op (method_of ack) url ack make remaining attempt captured w).
Proof.
  intros Hmake. assert (Herr : forall e w, request_refines G op ack w (Err e, w))
    by (intros e w'; exists (persisted w'), (persisted w'); split; [done|]; split; by left).
  revert attempt captured w. induction remaining as [|remaining IH]; intros attempt captured w HI; [apply Herr|].
  cbn [mutation_loop]. destruct (make captured w) as [[body|e] captured'] eqn:Hm; [|apply Herr].
  destruct (Hmake _ _ _ _ HI Hm) as [HI' HG].
  destruct (is_some_and _ body); [apply Herr|].
  set (req := mutation_message st (method_of ack) url body) in *.
  assert (Hreq : req_method req = method_of ack) by (subst req; by destruct body).
  destruct (send req w) as [[r|] w1] eqn:Hs.
  2: { apply (sent_refines G op ack w req); [done|done|by rewrite Hs|by left]. }
  destruct (negb (headers_within_limits (resp_headers r)) || negb (has_exact_protocol_header (resp_headers r))) eqn:Hh.
  { apply (sent_refines G op ack w req); [done|done|by rewrite Hs|by left]. }
  apply orb_false_iff in Hh as [Hh1%negb_false_iff Hh2%negb_false_iff].
  assert (Hread : readable r = true) by (unfold readable; by rewrite Hh1, Hh2).
  assert (Hrej : forall e, rejects (method_of ack) (resp_status r) = true -> request_refines G op ack w (Err e, w1)).
  { intros e Hr. apply (sent_refines G op ack w req); [done|done|by rewrite Hs|]. right. exists r. by rewrite Hs. }
  destruct (is_server_error (resp_status r)) eqn:H5.
  { assert (Hr : rejects (method_of ack) (resp_status r) = true) by (unfold rejects; by rewrite H5).
    destruct (attempt + 1 <? max_attempts st)%nat; [|by apply Hrej].
    destruct (send_protocol req w) as (m & m' & Hal & _ & Hreply). rewrite Hs in Hal, Hreply.
    destruct (Hreply r eq_refl Hread) as [Hno _]. rewrite Hreq in Hno. destruct (Hno Hr) as [-> Heff].
    destruct (sleep_protocol (World := World) (backoff st attempt) w1) as [Hse Hsp].
    destruct (IH (S attempt) captured' (sleep_before_retry st attempt w1) HI') as (m1 & m2 & Hal' & Hout & Hres).
    exists m1, m2. split; [|split; [|done]].
    - intros Ha. destruct (Hal' Ha) as [-> ->]. split; [|done]. unfold sleep_before_retry. rewrite (Hsp Ha).
      destruct (Hal Ha) as [<- ->]. done.
    - unfold sleep_before_retry in Hout |- *. simpl in Heff. by rewrite Hse, Heff in Hout. }
  destruct (is_client_error (resp_status r) && negb (is_delete ack && (resp_status r =? 404))) eqn:H4.
  { apply Hrej. unfold rejects. rewrite H5. simpl. by destruct ack. }
  destruct (read_acknowledgment op ack r) as [[b la]|e] eqn:Hack.
  - destruct (expects_no_body ack && negb (is_empty b)).
    + apply (sent_refines G op ack w req); [done|done|by rewrite Hs|by left].
    + apply (sent_refines G op ack w req); [done|done|by rewrite Hs|]. exists r. by rewrite Hs.
  - apply read_acknowledgment_indeterminate in Hack as ->.
    apply (sent_refines G op ack w req); [done|done|by rewrite Hs|by left].
Qed.

(** *** Operations *)

Lemma call_refines_weaken {R} (A B : R -> Routes -> Routes -> Prop) w0 out :
  (forall r m m', A r m m' -> B r m m') -> refines A w0 out -> refines B w0 out.
Proof.
  intros HAB (m & m' & Hal & Hout & Hres). exists m, m'. split_and!; [done|done|].
  destruct out.1; [auto|]. destruct Hres as [?|[? [r ?]]]; [by left|]. right. eauto.
Qed.

Lemma request_refines_map {R} (G : World -> SidecarCall -> Prop) op ack w0 r w
    (f : HttpReply -> result R StoreError) (A : R -> Routes -> Routes -> Prop) :
  request_refines G op ack w0 (r, w) ->
  (forall reply m m', answered G op ack w reply m m' ->
     match f reply with Ok x => A x m m' | Err e => is_indeterminate_error e = true end) ->
  (forall m m', took G w m m' -> exists x, A x m m') ->
  refines A w0 (let? reply := r in f reply, w).
Proof.
  intros (m & m' & Hal & Hout & Hres) Hf Ht. exists m, m'. split; [done|]. split; [done|]. simpl in *.
  destruct r as [reply|e]; simpl.
  - pose proof (Hf _ _ _ Hres) as Hf'. destruct (f reply) as [x|e]; [done|]. right. split; [done|].
    destruct Hres as (w1 & req & r & c & Hs & HG & Hm & _). apply Ht. exists w1, req, c. by rewrite Hs.
  - destruct Hres as [?|[? ?]]; [by left|]. right. auto.
Qed.

(** A store of [connect]: its base is the root of an origin. *)
Definition rooted (st : SidecarStore) : Prop := url_path (base_url st) = "/".

Lemma route_endpoint_path `{!UrlJoinLaws} st key suffix url :
  rooted st -> starts_with_char slash (as_str key) = true -> suffix = "" \/ suffix = "/activity" ->
  route_endpoint st key suffix = Ok url ->
  url_path url = "/v1/routes/" +:+ encode_segment (as_str key) +:+ suffix.
Proof.
  intros Hst Hk Hs. unfold route_endpoint, endpoint. rewrite ok_or_Ok. intros Hu.
  assert (Hp := encode_segment_plain key Hk). destruct Hs as [->| ->].
  - rewrite str_app_nil_r in *.
    change ("v1/routes/" +:+ encode_segment (as_str key)) with (join "/" ["v1"; "routes"; encode_segment (as_str key)]) in Hu.
    apply url_join_plain in Hu as [Hu _]; [exact Hu|done| |done]. cbn [forallb]. by rewrite Hp.
  - change ("v1/routes/" +:+ encode_segment (as_str key) +:+ "/activity")
      with (join "/" ["v1"; "routes"; encode_segment (as_str key); "activity"]) in Hu.
    apply url_join_plain in Hu as [Hu _]; [exact Hu|done| |done]. cbn [forallb]. by rewrite Hp.
Qed.

(** What a request of the client asks for, once its path is known. *)
Lemma meaning_of_path st method url key suffix b body c :
  url_path url = "/v1/routes/" +:+ encode_segment (as_str key) +:+ suffix ->
  (b = false /\ suffix = "" \/ b = true /\ suffix = "/activity") ->
  meaning (mutation_message st method url body) = Some c ->
  match method, body with
  | PUT, Some body => read_put key body = Some c
  | PATCH, Some body => read_activity key body = Some c
  | DELETE, None => c = SidecarDelete key
  | _, _ => False
  end.
Proof.
  intros Hu Hb. unfold meaning. destruct (negb _); [done|].
  replace (url_path (req_url (mutation_message st method url body))) with (url_path url) by by destruct body.
  rewrite Hu. intros ([k a] & Hp & Hc)%bind_Some. apply (read_path_segment key b suffix Hb) in Hp as ->.
  destruct method, body, a; simpl in Hc; try done; try (by injection Hc as <-); by case_match.
Qed.

(** The commit of a PUT: the record with the stamp the server chose, against a
    floor sampled in the world its request went out from. *)
Definition put_done (operation : string) (key : RouteKey) (data : RouteData) (floor : option (ActivityFloor World))
    (w' : World) (d : RouteData) (m m' : Routes) : Prop :=
  exists w1 req sent, (send req w1).2 = w' /\
    match floor with Some f => above_floor (current f w1) sent | None => True end /\
    d = set_last_activity (final_stamp operation data sent (m !! key)) data /\ m' = <[key := d]> m.

Definition put_call (operation : string) (key : RouteKey) (data : RouteData) (floor : option (ActivityFloor World))
    (w1 : World) (c : SidecarCall) : Prop :=
  exists sent, c = SidecarPut operation key data sent /\
    match floor with Some f => above_floor (current f w1) sent | None => True end.

Lemma raise_to_floor_above f t : above_floor f (raise_to_floor f t).
Proof. destruct f; simpl; [lia|done]. Qed.

Lemma make_put_meaning `{!SidecarLaws} eop pop st url key data floor sent w body sent' c :
  no_reserved (extra data) -> url_path url = "/v1/routes/" +:+ encode_segment (as_str key) +:+ "" ->
  make_put eop pop (VObject (route_object data)) floor sent w = (Ok body, sent') ->
  meaning (mutation_message st PUT url body) = Some c -> put_call pop key data floor w c.
Proof.
  intros Hres Hu. unfold make_put. destruct (to_vec _) as [text|] eqn:Ht; [|done]. intros [= <- <-] Hc.
  apply (meaning_of_path _ _ _ key "" false) in Hc; [|done|by left].
  eapply read_put_exact in Hc as [-> _]; [|done|exact Ht]. eexists. split; [done|].
  destruct floor as [f|]; [|done]. apply raise_to_floor_above.
Qed.

Lemma put_envelope_refines `{!SidecarLaws} `{!UrlJoinLaws} `{!SidecarProtocol World} st eop pop key data floor w :
  rooted st -> starts_with_char slash (as_str key) = true ->
  refines (put_done pop key data floor (put_envelope st eop pop key data floor w).2) w
    (put_envelope st eop pop key data floor w).
Proof.
  intros Hst Hk. unfold put_envelope, encode_route.
  destruct (is_some (extra data !! "target") || is_some (extra data !! "last_activity")) eqn:Hx; [by apply refines_error|].
  assert (Hres : no_reserved (extra data)).
  { apply orb_false_iff in Hx as [? ?]. unfold no_reserved. by destruct (extra data !! "target"), (extra data !! "last_activity"). }
  destruct (route_endpoint st key "") as [url|e] eqn:Hu; [|by apply refines_error].
  apply route_endpoint_path in Hu; [|done|done|by left].
  pose proof (mutation_loop_refines (put_call pop key data floor) (fun _ => True) st eop url AckPut
    (make_put eop pop (VObject (route_object data)) floor) (max_attempts st) 0 (last_activity data) w) as Hloop.
  unfold mutation_request. cbn [method_of] in Hloop.
  destruct (mutation_loop st eop PUT url AckPut _ (max_attempts st) 0 (last_activity data) w) as [r w'].
  apply (request_refines_map (put_call pop key data floor) eop AckPut).
  - apply Hloop; [|done]. intros c w1 body c' _ Hm. split; [done|]. intros call Hc. by eapply make_put_meaning.
  - intros reply m m' (w1 & req & r' & c & Hs & (sent & -> & Hfl) & -> & Hack & Hread & _).
    unfold read_acknowledgment in Hread. destruct (resp_status r' =? 204); [|done].
    destruct (contains_key _ _ || _); [done|]. simpl in Hack. rewrite Hack in Hread. simpl in Hread.
    destruct (parse_timestamp (chp_timestamp _)) as [at_|] eqn:Hp; [|done]. simpl in Hread.
    apply parse_timestamp_exact in Hp as ->. destruct (read_mutation_body r' eop) as [b|]; [|done].
    injection Hread as _ <-. simpl. exists w1, req, sent. rewrite Hs. done.
  - intros m m' (w1 & req & c & Hs & (sent & -> & Hfl) & ->). eexists. exists w1, req, sent. by split_and!.
Qed.

Lemma final_stamp_floor pop data sent prior fo :
  pop <> "put" -> above_floor fo sent -> above_floor fo (final_stamp pop data sent prior).
Proof.
  intros Hp. unfold final_stamp. destruct (String.eqb_spec pop "put"); [done|].
  destruct fo as [f|]; [|done]. simpl. destruct prior; simpl; lia.
Qed.

Lemma final_stamp_put data sent prior : set_last_activity (final_stamp "put" data sent prior) data = data.
Proof. apply set_last_activity_id. Qed.

Lemma update_refines `{!SidecarLaws} `{!UrlJoinLaws} `{!SidecarProtocol World} st key at_ w :
  rooted st -> starts_with_char slash (as_str key) = true ->
  refines (fun _ m m' => commits None m (CallUpdateActivity key at_) ReplyUnit m') w
    (sidecar_update_activity st key at_ w).
Proof.
  intros Hst Hk. unfold sidecar_update_activity. destruct (to_vec _) as [body|] eqn:Hb; [|by apply refines_error].
  destruct (route_endpoint st key "/activity") as [url|e] eqn:Hu; [|by apply refines_error].
  apply route_endpoint_path in Hu; [|done|done|by right].
  pose proof (mutation_loop_refines (fun _ c => c = SidecarActivity key at_) (fun _ => True) st "update_activity" url
    AckEmpty (fun (_ : unit) _ => (Ok (Some body), tt)) (max_attempts st) 0 tt w) as Hloop.
  unfold mutation_request. cbn [method_of] in Hloop. destruct (mutation_loop _ _ _ _ _ _ _ _ _ w) as [r w'].
  replace (result_map (fun _ => tt) r) with (let? reply := r in Ok (E := StoreError) ((fun _ => tt) reply)) by by destruct r.
  apply (request_refines_map (fun _ c => c = SidecarActivity key at_) "update_activity" AckEmpty).
  - apply Hloop; [|done]. intros c w1 b c' _ [= <- <-]. split; [done|]. intros call Hc.
    apply (meaning_of_path _ _ _ key "/activity" true) in Hc; [|done|by right]. by eapply read_activity_exact.
  - intros reply m m' (w1 & req & r' & c & _ & -> & -> & _). constructor.
  - intros m m' (w1 & req & c & _ & -> & ->). exists tt. constructor.
Qed.

Lemma delete_refines `{!SidecarLaws} `{!UrlJoinLaws} `{!SidecarProtocol World} st key w :
  rooted st -> starts_with_char slash (as_str key) = true ->
  refines (fun prior m m' => commits None m (CallDelete key) (ReplyDeleted prior) m') w (sidecar_delete st key w).
Proof.
  intros Hst Hk. unfold sidecar_delete.
  destruct (route_endpoint st key "") as [url|e] eqn:Hu; [|by apply refines_error].
  apply route_endpoint_path in Hu; [|done|done|by left].
  pose proof (mutation_loop_refines (fun _ c => c = SidecarDelete key) (fun _ => True) st "delete" url AckDelete
    (fun (_ : unit) _ => (Ok None, tt)) (max_attempts st) 0 tt w) as Hloop.
  unfold mutation_request. cbn [method_of] in Hloop. destruct (mutation_loop _ _ _ _ _ _ _ _ _ w) as [r w'].
  apply (request_refines_map (fun _ c => c = SidecarDelete key) "delete" AckDelete).
  - apply Hloop; [|done]. intros c w1 b c' _ [= <- <-]. split; [done|]. intros call Hc.
    by apply (meaning_of_path _ _ _ key "" false) in Hc; [|done|by left].
  - intros reply m m' (w1 & req & r' & c & _ & -> & -> & Hack & Hread & Hst').
    simpl in Hack. rewrite Hst'. destruct (m !! key) as [d|] eqn:Hm.
    + destruct Hack as [Hstatus Hshow]. rewrite Hstatus. simpl.
      unfold read_acknowledgment in Hread. rewrite Hstatus in Hread. simpl in Hread.
      destruct (has_exact_content_type _ _); [|done]. simpl in Hread. unfold read_mutation_body in Hread.
      destruct (bounded_body r') as [body|] eqn:Hbody; [|done]. simpl in Hread. injection Hread as <- _.
      destruct (Hshow _ eq_refl) as (j & Hj & Hrec). unfold decode_route. rewrite Hj. simpl.
      destruct (strict_route j) as [d'|] eqn:Hd; [|done]. apply (strict_route_exact d) in Hd as ->; [|done].
      rewrite <- Hm. constructor.
    + rewrite Hack. simpl. rewrite <- Hm. constructor.
  - intros m m' (w1 & req & c & _ & -> & ->). exists (m !! key). constructor.
Qed.

(** A GET changes nothing, and its body came from one readable reply. *)
Lemma get_loop_spec `{!SidecarProtocol World} st op url remaining attempt w :
  let out := get_loop st op url remaining attempt w in
  untouched w out.2 /\
  match out.1 with
  | Ok reply => exists w1 r, send (mkRequest GET url (client st) None) w1 = (Some r, out.2) /\ readable r = true /\
      reply_status reply = resp_status r /\ untouched w1 out.2 /\
      (resp_status r = 200 -> bounded_body r = Ok (reply_body reply))
  | Err e => is_indeterminate_error e = false
  end.
Proof.
  assert (Hsend : forall w, untouched w (send (mkRequest GET url (client st) None) w).2).
  { intros w'. destruct (send_protocol (mkRequest GET url (client st) None) w') as (m & m' & Hal & Heff & _).
    destruct Heff as [[He ->]|[_ (c & Hc & _)]].
    - split; [done|]. intros Ha. destruct (Hal Ha) as [<- <-]. done.
    - exfalso. unfold meaning in Hc. destruct (negb _); [done|]. by apply bind_Some in Hc as ([k []] & _ & Hc). }
  revert attempt w. induction remaining as [|remaining IH]; intros attempt w; [done|].
  cbn [get_loop]. specialize (Hsend w) as Hw.
  destruct (send (mkRequest GET url (client st) None) w) as [response w1] eqn:Hs. simpl in Hw.
  set (retry := get_loop st op url remaining (S attempt) (sleep_before_retry st attempt w1)).
  assert (Hretry : untouched w retry.2 /\ match retry.1 with
    | Ok reply => exists w2 r, send (mkRequest GET url (client st) None) w2 = (Some r, retry.2) /\ readable r = true /\
        reply_status reply = resp_status r /\ untouched w2 retry.2 /\
        (resp_status r = 200 -> bounded_body r = Ok (reply_body reply))
    | Err e => is_indeterminate_error e = false end).
  { destruct (IH (S attempt) (sleep_before_retry st attempt w1)) as [[Hu1 Hu2] Hres]. split; [|exact Hres].
    destruct (sleep_untouched st attempt w1) as [Hs1 Hs2], Hw as [Hw1 Hw2].
    split; [subst retry; rewrite Hu1, Hs1, Hw1; done|]. intros Ha. subst retry. by rewrite Hu2, Hs2, Hw2. }
  destruct response as [r|]; [|by destruct (attempt + 1 <? max_attempts st)%nat].
  destruct (negb (headers_within_limits (resp_headers r)) || negb (has_exact_protocol_header (resp_headers r))) eqn:Hh; [done|].
  apply orb_false_iff in Hh as [Hh1%negb_false_iff Hh2%negb_false_iff].
  assert (Hread : readable r = true) by (unfold readable; by rewrite Hh1, Hh2).
  destruct (is_server_error (resp_status r)); [by destruct (attempt + 1 <? max_attempts st)%nat|].
  destruct (resp_status r =? 200) eqn:H200; simpl.
  2: { split; [done|]. exists w, r. split_and!; try done. intros Hx. by rewrite Hx in H200. }
  destruct (has_exact_content_type _ _); simpl; [|done].
  destruct (bounded_body r) as [body|[]] eqn:Hb; [|by destruct (attempt + 1 <? max_attempts st)%nat|by destruct (String.eqb op "snapshot")].
  split; [done|]. exists w, r. by split_and!.
Qed.

Lemma snapshot_spec `{!SidecarLaws} `{!UrlJoinLaws} `{!SidecarProtocol World} st w m w' :
  rooted st -> sidecar_snapshot st w = (Ok m, w') -> untouched w w' /\ (alone -> m = persisted w').
Proof.
  intros Hst. unfold sidecar_snapshot. destruct (endpoint st "v1/routes") as [url|] eqn:Hu; [|done].
  assert (Hpath : url_path url = "/v1/routes").
  { unfold endpoint in Hu. apply ok_or_Ok in Hu. change "v1/routes" with (join "/" ["v1"; "routes"]) in Hu.
    by apply url_join_plain in Hu as [Hu _]; [exact Hu|done..]. }
  unfold get_request. pose proof (get_loop_spec st "snapshot" url (max_attempts st) 0 w) as Hg.
  destruct (get_loop _ _ _ _ _ w) as [[reply|] w1]; [|done]. destruct Hg as [Hun (w2 & r & Hs & Hread & Hst' & Hun2 & Hbody)].
  simpl. destruct (reply_status reply =? 200) eqn:H200; [|done]. apply Z.eqb_eq in H200. rewrite H200 in Hst'.
  intros [= Hd <-]. split; [done|]. intros Ha. simpl in *.
  destruct (send_protocol (mkRequest GET url (client st) None) w2) as (m0 & m1 & Hal & Heff & Hreply).
  rewrite Hs in Hal, Hreply, Heff. destruct (Hreply r eq_refl Hread) as (_ & _ & Hsnap).
  destruct (Hsnap eq_refl Hpath (eq_sym Hst') _ (Hbody (eq_sym Hst'))) as (l & Hl & Hshow).
  unfold decode_snapshot in Hd. apply ok_or_Ok in Hd. rewrite Hl in Hd. cbn [mbind option_bind] in Hd.
  apply (strict_snapshot_exact m0) in Hd as ->; [|done]. destruct (Hal Ha) as [-> _]. simpl. destruct Hun2 as [_ ->]; done.
Qed.

Lemma connect_rooted `{!UrlJoinLaws} config w st w' :
  connect config w = (Ok st, w') ->
  rooted st /\ max_attempts st = config_max_attempts config /\
  initial_backoff st = config_initial_backoff config /\ max_backoff st = config_max_backoff config.
Proof.
  unfold connect, validate_base_url, rooted. destruct (url_parse _) as [url|]; [|done].
  destruct (_ || negb (String.eqb (url_path url) "/")) eqn:Hx; [done|].
  apply orb_false_iff in Hx as [_ Hp%negb_false_iff]. apply String.eqb_eq in Hp.
  destruct (match bearer_token config with Some _ => _ | None => _ end) as [headers|]; [|done].
  destruct (client_builds headers); [|done]. simpl. destruct (endpoint _ "v1/health") as [hu|]; [|done].
  destruct (get_request _ _ _ w) as [r w1]. intros [= Hok _]. inv_ok Hok. injection Hok as <-. simpl.
  split_and!; try done. by apply set_path_root.
Qed.

(** With no other writer, a refining operation is one step of the contract. *)
Lemma call_refines_store_step {R} (reply : R -> StoreReply) floor c w out :
  refines (fun r m m' => commits floor m c (reply r) m') w out -> alone ->
  store_step floor (persisted w) c (result_map reply out.1) (persisted out.2).
Proof.
  intros (m & m' & Hal & _ & Hres) Ha. destruct (Hal Ha) as [<- <-]. destruct out.1 as [r|e]; simpl.
  - by constructor.
  - destruct Hres as [->|[Hi [r Hr]]].
    + destruct e; try (by apply store_rejected); apply store_lost_before.
    + destruct e; try done. by eapply store_lost_after.
Qed.

(** The three writes of a whole record, as commits. *)
Lemma sidecar_add_refines `{!SidecarLaws} `{!UrlJoinLaws} `{!SidecarProtocol World} st now key t e f w :
  rooted st -> starts_with_char slash (as_str key) = true ->
  let out := sidecar_add st now key t e f w in
  refines (fun d m m' => exists w1 req, (send req w1).2 = out.2 /\
    commits (current f w1) m (CallAdd key t e) (ReplyRecord d) m') w out.
Proof.
  intros Hst Hk out. eapply call_refines_weaken; [|by apply put_envelope_refines].
  intros d m m' (w1 & req & sent & Hs & Hfl & -> & ->). exists w1, req. split; [exact Hs|].
  constructor; [done|done|]. by apply final_stamp_floor.
Qed.

Lemma sidecar_put_preserving_refines `{!SidecarLaws} `{!UrlJoinLaws} `{!SidecarProtocol World} st key data f w :
  rooted st -> starts_with_char slash (as_str key) = true ->
  let out := sidecar_put_preserving_activity st key data f w in
  refines (fun d m m' => exists w1 req, (send req w1).2 = out.2 /\
    commits (current f w1) m (CallPutPreserving key data) (ReplyRecord d) m') w out.
Proof.
  intros Hst Hk out. eapply call_refines_weaken; [|by apply put_envelope_refines].
  intros d m m' (w1 & req & sent & Hs & Hfl & -> & ->). exists w1, req. split; [exact Hs|].
  constructor; [done|]. by apply final_stamp_floor.
Qed.

Lemma sidecar_put_refines `{!SidecarLaws} `{!UrlJoinLaws} `{!SidecarProtocol World} st key data w :
  rooted st -> starts_with_char slash (as_str key) = true ->
  refines (fun _ m m' => commits None m (CallPut key data) ReplyUnit m') w (sidecar_put st key data w).
Proof.
  intros Hst Hk. unfold sidecar_put. pose proof (put_envelope_refines st "put" "put" key data None w Hst Hk) as Hp.
  destruct (put_envelope st "put" "put" key data None w) as [r w'].
  replace (result_map (fun _ => tt) r) with (let? x := r in Ok (E := StoreError) ((fun _ => tt) x)) by by destruct r.
  apply (refines_map _ _ _ _ _ _ Hp).
  - intros d m m' (w1 & req & sent & _ & _ & -> & ->). rewrite final_stamp_put. constructor.
  - intros d m m' (w1 & req & sent & _ & _ & -> & ->). exists tt. rewrite final_stamp_put. constructor.
Qed.

(** C3: against every server that keeps the documented v1 protocol, whatever the
    network loses and other clients write, each operation of a connected sidecar
    store takes effect at one point as the contract's atomic commit or not at
    all: an ordinary error means it did not, the record an addition returns is
    the one committed, with a stamp at or above the floor sampled as its last
    request went out, and a snapshot without other writers is what the server
    holds. *)
Theorem sidecar_store_refines_contract `{!SidecarLaws} `{!UrlJoinLaws} `{!SidecarProtocol World} config w0 w0' st :
  connect config w0 = (Ok st, w0') ->
  forall w raw, let key := normalize raw in
  (forall now t e f, let out := sidecar_add st now key t e f w in
     refines (fun d m m' => exists w1 req, (send req w1).2 = out.2 /\
       commits (current f w1) m (CallAdd key t e) (ReplyRecord d) m') w out) /\
  (forall data f, let out := sidecar_put_preserving_activity st key data f w in
     refines (fun d m m' => exists w1 req, (send req w1).2 = out.2 /\
       commits (current f w1) m (CallPutPreserving key data) (ReplyRecord d) m') w out) /\
  (forall data,
     refines (fun _ m m' => commits None m (CallPut key data) ReplyUnit m') w (sidecar_put st key data w)) /\
  (forall at_,
     refines (fun _ m m' => commits None m (CallUpdateActivity key at_) ReplyUnit m') w
       (sidecar_update_activity st key at_ w)) /\
  refines (fun prior m m' => commits None m (CallDelete key) (ReplyDeleted prior) m') w (sidecar_delete st key w) /\
  (forall m w', sidecar_snapshot st w = (Ok m, w') -> effects w' = effects w /\ (alone -> m = persisted w')).
Proof.
  intros (Hst & _)%connect_rooted w raw key. assert (Hk := normalize_slash raw). fold key in Hk. split_and!.
  - intros now t e f out. by apply sidecar_add_refines.
  - intros data f out. by apply sidecar_put_preserving_refines.
  - intros data. by apply sidecar_put_refines.
  - intros at_. by apply update_refines.
  - by apply delete_refines.
  - intros m w' Hm. by apply snapshot_spec in Hm as [[? _] ?].
Qed.

End Refinement.

(** ** Finite retries *)

(** A configuration as the builders make it; durations are not negative. *)
Inductive built : SidecarConfig -> Prop :=
| built_new url : built (new_config url)
| built_token token c : built c -> built (with_bearer_token token c)
| built_connect_timeout d c : built c -> built (with_connect_timeout d c)
| built_request_timeout d c : built c -> built (with_request_timeout d c)
| built_retry n i d c : 0 <= i -> 0 <= d -> built c -> built (with_retry_policy n i d c).

Lemma built_policy c : built c ->
  (1 <= config_max_attempts c <= MAX_ATTEMPTS)%nat /\ 0 <= config_initial_backoff c <= config_max_backoff c.
Proof.
  induction 1 as [url|t c _ IH|d c _ IH|d c _ IH|n i d c Hi Hd _ IH]; try done.
  - unfold new_config, DEFAULT_ATTEMPTS, MAX_ATTEMPTS, DEFAULT_INITIAL_BACKOFF, DEFAULT_MAX_BACKOFF, from_millis.
    cbn [config_max_attempts config_initial_backoff config_max_backoff]. lia.
  - unfold MAX_ATTEMPTS in *. cbn [config_max_attempts config_initial_backoff config_max_backoff with_retry_policy].
    unfold MAX_ATTEMPTS. lia.
Qed.

Section Retries.
Context `{HeaderLib} `{UrlLib} `{SidecarLib} {World : Type} `{!SidecarPeer World}.

Inductive Event : Type :=
| Sent (request : Request) (answer : option Response)
| Slept (delay : Duration).

(** A peer that also records what the client does to it. *)
Record Traced : Type := mkTraced { inner : World; trace : list Event }.

#[global] Instance traced_peer : SidecarPeer Traced := {|
  send req w := let (answer, i) := send req (inner w) in (answer, mkTraced i (trace w ++ [Sent req answer]));
  sleep d w := mkTraced (sleep d (inner w)) (trace w ++ [Slept d]);
  client_builds := client_builds (World := World);
  persisted w := persisted (inner w);
  effects w := effects (inner w);
  alone := alone (World := World)
|}.

(** The events of one mutation from attempt [n] on: a request is repeated only
    after a readable 5xx answer, after its delay, and while attempts are left. *)
Inductive retries (st : SidecarStore) : nat -> list Event -> Prop :=
| retries_unsent n : retries st n []
| retries_last n req answer : retries st n [Sent req answer]
| retries_again n req r rest :
    readable r = true -> is_server_error (resp_status r) = true -> (n + 1 < max_attempts st)%nat ->
    retries st (S n) rest ->
    retries st n (Sent req (Some r) :: Slept (backoff st n) :: rest).

Definition is_sent (e : Event) : bool := match e with Sent _ _ => true | Slept _ => false end.
Definition requests (t : list Event) : nat := length (List.filter is_sent t).
Definition time_slept (t : list Event) : Duration :=
  foldr (fun e d => match e with Slept x => x + d | Sent _ _ => d end) 0 t.

Lemma backoff_bounds st n : 0 <= initial_backoff st <= max_backoff st -> 0 <= backoff st n <= max_backoff st.
Proof.
  intros Hb. unfold backoff. assert (0 <= Z.min u32_max (2 ^ Z.of_nat n)).
  { apply Z.min_glb; [done|]. apply Z.pow_nonneg. lia. }
  assert (0 <= duration_max) by done. nia.
Qed.

Lemma retries_bounded st n t :
  0 <= initial_backoff st <= max_backoff st -> (n < max_attempts st)%nat -> retries st n t ->
  (requests t <= max_attempts st - n)%nat /\
  0 <= time_slept t <= Z.of_nat (max_attempts st - n - 1) * max_backoff st.
Proof.
  intros Hb Hn Ht. revert Hn. induction Ht as [n|n req a|n req r rest _ _ Hlt _ IH]; intros Hn.
  - split; [unfold requests; simpl; lia|]. cbn [time_slept foldr]. nia.
  - split; [unfold requests; simpl; lia|]. cbn [time_slept foldr]. nia.
  - destruct (IH ltac:(lia)) as [IH1 IH2]. unfold requests in *. cbn [List.filter is_sent length time_slept foldr].
    fold (time_slept rest). pose proof (backoff_bounds st n Hb). split; [lia|].
    replace (max_attempts st - n - 1)%nat with (S (max_attempts st - S n - 1)) by lia. lia.
Qed.

Lemma mutation_loop_retries {C} st op method url ack (make : C -> Traced -> result (option string) StoreError * C)
    remaining attempt captured w :
  exists t, trace (mutation_loop st op method url ack make remaining attempt captured w).2 = trace w ++ t /\
            retries st attempt t.
Proof.
  revert attempt captured w. induction remaining as [|remaining IH]; intros attempt captured w;
    [exists []; rewrite app_nil_r; split; [done|constructor]|].
  cbn [mutation_loop]. destruct (make captured w) as [[body|e] captured'];
    [|exists []; rewrite app_nil_r; split; [done|constructor]].
  destruct (is_some_and _ body); [exists []; rewrite app_nil_r; split; [done|constructor]|].
  set (req := mutation_message st method url body).
  assert (Hlast : forall answer i (r : result HttpReply StoreError), exists t,
    trace (r, mkTraced i (trace w ++ [Sent req answer])).2 = trace w ++ t /\ retries st attempt t)
    by (intros answer i r; exists [Sent req answer]; split; [done|constructor]).
  cbn [send traced_peer]. destruct (send req (inner w)) as [[r|] i]; [|apply Hlast].
  destruct (negb (headers_within_limits (resp_headers r)) || negb (has_exact_protocol_header (resp_headers r))) eqn:Hh; [apply Hlast|].
  apply orb_false_iff in Hh as [Hh1%negb_false_iff Hh2%negb_false_iff].
  destruct (is_server_error (resp_status r)) eqn:H5.
  - destruct (attempt + 1 <? max_attempts st)%nat eqn:Hn; [|apply Hlast]. apply Nat.ltb_lt in Hn.
    edestruct (IH (S attempt) captured') as (t & Ht & Hr). eexists. rewrite Ht. unfold sleep_before_retry. simpl.
    rewrite <- !app_assoc. split; [done|]. simpl. apply retries_again; try done. unfold readable. by rewrite Hh1, Hh2.
  - destruct (is_client_error _ && _); [apply Hlast|]. destruct (read_acknowledgment op ack r) as [[b la]|e]; [|apply Hlast].
    destruct (expects_no_body ack && negb (is_empty b)); apply Hlast.
Qed.

(** Likewise of whatever is computed from the reply. *)
Lemma mutation_request_retries {C R} st op method url ack (make : C -> Traced -> result (option string) StoreError * C)
    captured w (out : R * Traced) :
  out.2 = (mutation_request st op method url ack make captured w).2 ->
  exists t, trace out.2 = trace w ++ t /\ retries st 0 t.
Proof. intros ->. apply mutation_loop_retries. Qed.

Ltac apply_retries :=
  match goal with
  | |- context [mutation_request ?st ?op ?m ?u ?a ?mk ?c ?w] =>
      apply (mutation_request_retries st op m u a mk c w); by destruct (mutation_request st op m u a mk c w)
  end.

(** A mutation of the [Store] trait. *)
Definition run_call {W : Type} `{!SidecarPeer W} (st : SidecarStore) (now : DateTime) (f : ActivityFloor W)
    (c : StoreCall) (w : W) : result StoreReply StoreError * W :=
  match c with
  | CallAdd key t e => let (r, w) := sidecar_add st now key t e f w in (result_map ReplyRecord r, w)
  | CallPut key data => let (r, w) := sidecar_put st key data w in (result_map (fun _ => ReplyUnit) r, w)
  | CallPutPreserving key data =>
      let (r, w) := sidecar_put_preserving_activity st key data f w in (result_map ReplyRecord r, w)
  | CallUpdateActivity key at_ => let (r, w) := sidecar_update_activity st key at_ w in (result_map (fun _ => ReplyUnit) r, w)
  | CallDelete key => let (r, w) := sidecar_delete st key w in (result_map ReplyDeleted r, w)
  end.

Lemma put_envelope_retries st eop pop key data floor w :
  exists t, trace (put_envelope st eop pop key data floor w).2 = trace w ++ t /\ retries st 0 t.
Proof.
  unfold put_envelope. destruct (encode_route eop data); [|exists []; rewrite app_nil_r; split; [done|constructor]].
  destruct (route_endpoint st key ""); [|exists []; rewrite app_nil_r; split; [done|constructor]].
  apply_retries.
Qed.

Lemma run_call_retries st now f c w :
  exists t, trace (run_call st now f c w).2 = trace w ++ t /\ retries st 0 t.
Proof.
  assert (Hnil : exists t, trace w = trace w ++ t /\ retries st 0 t) by (exists []; rewrite app_nil_r; split; [done|constructor]).
  assert (Hput : forall eop pop key data floor (g : result RouteData StoreError -> result StoreReply StoreError), exists t,
    trace (let (r, w) := put_envelope st eop pop key data floor w in (g r, w)).2 = trace w ++ t /\ retries st 0 t).
  { intros eop pop key data floor g. destruct (put_envelope_retries st eop pop key data floor w) as (t & Ht & Hr).
    exists t. split; [|done]. rewrite <- Ht. by destruct (put_envelope st eop pop key data floor w). }
  destruct c as [key t e|key d|key d|key at_|key]; cbn [run_call].
  - unfold sidecar_add. apply Hput.
  - unfold sidecar_put. destruct (Hput "put" "put" key d None (fun r => result_map (fun _ => ReplyUnit) (result_map (fun _ => tt) r))) as (t & Ht & Hr).
    exists t. split; [|done]. rewrite <- Ht. by destruct (put_envelope _ _ _ _ _ _ w).
  - unfold sidecar_put_preserving_activity. apply Hput.
  - unfold sidecar_update_activity. destruct (to_vec _) as [body|]; [|exact Hnil].
    destruct (route_endpoint st key "/activity") as [url|]; [|exact Hnil].
    apply_retries.
  - unfold sidecar_delete. destruct (route_endpoint st key "") as [url|]; [|exact Hnil].
    apply_retries.
Qed.

(** A mutation through the sidecar sends at most the configured attempts,
    never more than ten, repeats a request only after a readable 5xx answer,
    and sleeps at most the backoff cap between two attempts, whatever the peer
    answers. *)
Theorem sidecar_retries_are_bounded `{!UrlJoinLaws} config (w0 w0' : World) st now f c w :
  built config -> connect config w0 = (Ok st, w0') ->
  exists t, trace (run_call st now f c w).2 = trace w ++ t /\ retries st 0 t /\
    (requests t <= max_attempts st <= MAX_ATTEMPTS)%nat /\
    0 <= time_slept t <= Z.of_nat (max_attempts st - 1) * max_backoff st.
Proof.
  intros [Hn Hb]%built_policy (_ & Hm & Hi & Hx)%connect_rooted.
  destruct (run_call_retries st now f c w) as (t & Ht & Hr). exists t.
  destruct (retries_bounded st 0 t) as [Hreq Hslept]; [lia|lia|done|]. rewrite Nat.sub_0_r in Hreq, Hslept.
  split_and!; try done; lia.
Qed.

End Retries.

(** ** A reference server *)

Module ReferenceServer.

(** Texts of objects of objects of strings. *)
Definition Object (D : Type) : Type := (string + list (string * D))%type.
Abbreviation Text := (Object (Object string)) (only parsing).

Definition object_json {D} (g : D -> Json) (o : Object D) : Json :=
  match o with inl s => JString s | inr l => JObject (List.map (fun kd => (kd.1, g kd.2)) l) end.

Definition object_of {D} (f : Value -> option D) (v : Value) : option (Object D) :=
  match v with
  | VString s => Some (inl s)
  | VObject m => inr <$> mapM (fun kv => pair kv.1 <$> f kv.2) (map_to_list m)
  | _ => None
  end.

Definition string_of (v : Value) : option string := match v with VString s => Some s | _ => None end.

Definition record_json : Object string -> Json := object_json JString.
Definition text_json : Text -> Json := object_json record_json.

(** Lists of strings as one string: each byte after a mark, a dot at the end. *)
Fixpoint mark (s : string) : string :=
  match s with "" => "." | String c rest => String "x" (String c (mark rest)) end.

Fixpoint show_list (l : list string) : string :=
  match l with [] => "" | s :: l => mark s +:+ show_list l end.

Fixpoint read_list (s : string) : option (list string) :=
  match s with
  | "" => Some []
  | String "." rest => l ← read_list rest; Some ("" :: l)
  | String "x" (String c rest) =>
      l ← read_list rest; match l with h :: t => Some (String c h :: t) | [] => None end
  | _ => None
  end.

Lemma read_show_list l : read_list (show_list l) = Some l.
Proof.
  induction l as [|s l IH]; [done|]. cbn [show_list]. induction s as [|c s IHs]; [cbn; by rewrite IH|].
  change (mark (String c s) +:+ show_list l) with (String "x" (String c (mark s +:+ show_list l))).
  cbn [read_list]. by rewrite IHs.
Qed.

Fixpoint read_pairs {D} (read : string -> option D) (l : list string) : option (list (string * D)) :=
  match l with
  | [] => Some []
  | k :: s :: l => d ← read s; r ← read_pairs read l; Some ((k, d) :: r)
  | [_] => None
  end.

Definition show_object {D} (show : D -> string) (o : Object D) : string :=
  match o with
  | inl s => String "s" s
  | inr l => String "o" (show_list (concat (List.map (fun kd => [kd.1; show kd.2]) l)))
  end.

Definition read_object {D} (read : string -> option D) (s : string) : option (Object D) :=
  match s with
  | String "s" s => Some (inl s)
  | String "o" s => l ← read_list s; inr <$> read_pairs read l
  | _ => None
  end.

Lemma read_show_object {D} (show : D -> string) (read : string -> option D) o :
  (forall d, read (show d) = Some d) -> read_object read (show_object show o) = Some o.
Proof.
  intros Hd. destruct o as [s|l]; [done|]. cbn [read_object show_object]. rewrite read_show_list. cbn [mbind option_bind].
  assert (Hl : read_pairs read (concat (List.map (fun kd => [kd.1; show kd.2]) l)) = Some l); [|by rewrite Hl].
  induction l as [|[k d] l IH]; [done|]. cbn. by rewrite Hd, IH.
Qed.

Definition show_text : Text -> string := show_object (show_object id).
Definition read_text : string -> option Text := read_object (read_object Some).

#[global] Instance lib : SidecarLib := {|
  to_vec v := show_text <$> object_of (object_of string_of) v;
  from_slice s := text_json <$> read_text s;
  to_rfc3339_nanos_z t := show_pos (countable.encode t);
  parse_from_rfc3339 s := countable.decode (read_pos s)
|}.

Definition shows {D} (f : Value -> option D) (g : D -> Json) : Prop :=
  forall v d, f v = Some d -> value_of (g d) = v /\ unique_members (g d).

Lemma entries_show {D} (f : Value -> option D) (g : D -> Json) (l : list (string * Value)) r :
  shows f g -> mapM (fun kv => pair kv.1 <$> f kv.2) l = Some r ->
  List.map (fun kd : string * Json => match kd with (k, v) => (k, value_of v) end)
    (List.map (fun kd => (kd.1, g kd.2)) r) = l /\
  (List.map (fun kd => (kd.1, g kd.2)) r).*1 = l.*1 /\ Forall (fun kd => unique_members (g kd.2)) r.
Proof.
  intros Hfg Hr%mapM_Some. induction Hr as [|[k v] [k' d] l r Hkd _ (IH1 & IH2 & IH3)]; [done|].
  simpl in *. destruct (f v) as [d'|] eqn:Hf; [|done]. injection Hkd as <- <-. apply Hfg in Hf as [Hv Hu].
  split_and!; [by rewrite Hv, IH1|by f_equal|by constructor].
Qed.

Lemma unique_object {D} (g : D -> Json) (r : list (string * D)) :
  NoDup (List.map (fun kd => (kd.1, g kd.2)) r).*1 -> Forall (fun kd => unique_members (g kd.2)) r ->
  unique_members (JObject (List.map (fun kd => (kd.1, g kd.2)) r)).
Proof. intros Hnd Hall. split; [done|]. clear Hnd. induction Hall as [|[k d] r Hd _ IH]; [done|]. by split. Qed.

Lemma shows_object {D} (f : Value -> option D) (g : D -> Json) : shows f g -> shows (object_of f) (object_json g).
Proof.
  intros Hfg v o. destruct v as [| | |s| |m]; try done; [by intros [= <-]|]. simpl.
  destruct (mapM _ _) as [r|] eqn:Hr; [|done]. intros [= <-].
  destruct (entries_show f g _ _ Hfg Hr) as (Hmap & Hfst & Hall). cbn [object_json]. split.
  - cbn [value_of]. rewrite Hmap. f_equal. transitivity (list_to_map (map_to_list m) : gmap string Value).
    + symmetry. apply list_to_map_proper; [apply NoDup_fst_map_to_list|]. symmetry. apply reverse_Permutation.
    + apply list_to_map_to_list.
  - apply unique_object; [|done]. rewrite Hfst. apply NoDup_fst_map_to_list.
Qed.

Lemma shows_string : shows string_of JString.
Proof. intros v s. destruct v; try done. by intros [= ->]. Qed.

Lemma from_slice_show (t : Text) : from_slice (show_text t) = Some (text_json t).
Proof.
  cbn [from_slice lib]. unfold show_text, read_text. rewrite read_show_object; [done|].
  intros d. by apply read_show_object.
Qed.

#[global] Instance lib_laws : SidecarLaws.
Proof.
  split.
  - intros v s j. cbn [to_vec lib]. destruct (object_of _ v) as [t|] eqn:Ht; [|done]. intros [= <-].
    rewrite from_slice_show. intros [= <-]. revert Ht. apply shows_object, shows_object, shows_string.
  - intros t t'. cbn. rewrite read_show, decode_encode. by intros [= ->].
Qed.

(** *** The server *)

(** What goes wrong with one request. *)
Inductive Fault : Type := Healthy | Unavailable | Dropped | ReplyLost.

Record Ref : Type := mkRef {
  ref_routes : gmap RouteKey RouteData;
  ref_log : list (gmap RouteKey RouteData * gmap RouteKey RouteData);
  plan : list Fault
}.

Definition answer_with (status : Z) (headers : list (string * string)) (body : list (option string)) : Response :=
  mkResponse status ((PROTOCOL_HEADER, PROTOCOL_VERSION) :: headers) None body.

Definition json_reply (body : string) : Response := answer_with 200 [("content-type", "application/json")] [Some body].

Definition record_text (d : RouteData) : option (Object string) :=
  if is_some (extra d !! "target") || is_some (extra d !! "last_activity") then None
  else object_of string_of (VObject (route_object d)).

(** The members of a record text, as the whole body. *)
Definition lift_text (t : Object string) : Text :=
  match t with inl s => inl s | inr l => inr (List.map (fun kd => (kd.1, inl kd.2)) l) end.

Definition routes_text (m : gmap RouteKey RouteData) : option Text :=
  inr <$> mapM (fun kd => pair (as_str kd.1) <$> record_text kd.2) (map_to_list m).

Definition health_text : Text := inr [("version", inl "v1"); ("status", inl "ok")].

Definition acknowledgment (c : SidecarCall) (m : gmap RouteKey RouteData) : option Response :=
  match c with
  | SidecarPut op key data floor =>
      Some (answer_with 204 [(LAST_ACTIVITY_HEADER, chp_timestamp (final_stamp op data floor (m !! key)))] [])
  | SidecarActivity _ _ => Some (answer_with 204 [] [])
  | SidecarDelete key =>
      match m !! key with
      | Some d => json_reply ∘ show_text ∘ lift_text <$> record_text d
      | None => Some (answer_with 404 [] [])
      end
  end.

(** The answer, and the routes it writes if it does. *)
Definition handle (req : Request) (m : gmap RouteKey RouteData) : Response * option (gmap RouteKey RouteData) :=
  match req_method req with
  | GET =>
      (if String.eqb (url_path (req_url req)) "/v1/health" then json_reply (show_text health_text)
       else match routes_text m with
            | Some t => json_reply (show_text t)
            | None => answer_with 500 [] []
            end, None)
  | _ =>
      match meaning req with
      | None => (answer_with 400 [] [], None)
      | Some c =>
          match acknowledgment c m with
          | Some r => (r, Some (apply_call c m))
          | None => (answer_with 500 [] [], None)
          end
      end
  end.

Definition next (w : Ref) : Fault := default Healthy (head (plan w)).

Definition written (w : Ref) (m' : option (gmap RouteKey RouteData)) : Ref :=
  match m' with
  | Some m' => mkRef m' ((ref_routes w, m') :: ref_log w) (tail (plan w))
  | None => mkRef (ref_routes w) (ref_log w) (tail (plan w))
  end.

#[global] Instance peer : SidecarPeer Ref := {|
  send req w :=
    let (r, m') := handle req (ref_routes w) in
    match next w with
    | Healthy => (Some r, written w m')
    | Unavailable => (Some (answer_with 503 [] []), written w None)
    | Dropped => (None, written w None)
    | ReplyLost => (None, written w m')
    end;
  sleep _ w := w;
  client_builds _ := true;
  persisted := ref_routes;
  effects := ref_log;
  alone := True
|}.

Lemma record_text_shows d t : record_text d = Some t -> shows_record d (record_json t).
Proof.
  unfold record_text. destruct (is_some _ || is_some _) eqn:Hx; [done|]. intros Ht.
  apply orb_false_iff in Hx as [H1 H2].
  destruct (shows_object string_of JString shows_string _ _ Ht) as [Hv Hu]. split_and!; [exact Hv|exact Hu|].
  unfold no_reserved. by destruct (extra d !! "target"), (extra d !! "last_activity").
Qed.

Lemma lift_text_json t : text_json (lift_text t) = record_json t.
Proof.
  destruct t as [s|l]; [done|]. unfold text_json, record_json. cbn [lift_text object_json]. f_equal.
  induction l as [|[k v] l IH]; [done|]. cbn. by rewrite IH.
Qed.

Lemma routes_text_shows m t :
  routes_text m = Some t -> exists l, text_json t = JObject l /\ shows_routes m l.
Proof.
  unfold routes_text. destruct (mapM _ _) as [r|] eqn:Hr; [|done]. intros [= <-]. eexists. split; [done|].
  apply mapM_Some in Hr.
  assert (Hk : (List.map (fun kd : string * Object string => (kd.1, record_json kd.2)) r).*1 = as_str <$> (map_to_list m).*1).
  { induction Hr as [|[k d] [k' o] l r Hkd _ IH]; [done|]. simpl in *.
    destruct (record_text d); [|done]. injection Hkd as <- <-. by f_equal. }
  split_and!.
  - rewrite Hk. apply NoDup_fmap_2_strong; [|apply NoDup_fst_map_to_list]. intros a b _ _. apply RouteKey_eq.
  - intros key d Hm. apply elem_of_map_to_list in Hm. apply list_elem_of_lookup in Hm as (i & Hi).
    destruct (Forall2_lookup_l _ _ _ _ _ Hr Hi) as ([k' o] & Ho & Hkd). simpl in Hkd.
    destruct (record_text d) as [t|] eqn:Ht; [|done]. injection Hkd as <- <-. exists (record_json t). split.
    + apply list_elem_of_In, in_map_iff. exists (as_str key, t). split; [done|]. apply list_elem_of_In. by eapply list_elem_of_lookup_2.
    + by apply record_text_shows.
  - intros raw j Hin. apply list_elem_of_In, in_map_iff in Hin as ([k' o] & [= <- <-] & Hin).
    apply list_elem_of_In, list_elem_of_lookup in Hin as (i & Hi).
    destruct (Forall2_lookup_r _ _ _ _ _ Hr Hi) as ([key d] & Hm & Hkd). simpl in Hkd.
    destruct (record_text d) as [t|] eqn:Ht; [|done]. injection Hkd as <- <-. exists key, d. split_and!; [done| |by apply record_text_shows].
    apply elem_of_map_to_list. by eapply list_elem_of_lookup_2.
Qed.

Lemma show_pos_visible p : all_chars (byte_in 32 126) (show_pos p) = true.
Proof. induction p as [p IH|p IH|]; [| |done]; cbn [show_pos all_chars]; by rewrite IH. Qed.

Lemma meaning_method req c : meaning req = Some c ->
  req_method req = match c with SidecarPut _ _ _ _ => PUT | SidecarActivity _ _ => PATCH | SidecarDelete _ => DELETE end.
Proof.
  unfold meaning. destruct (negb _); [done|]. intros ([k a] & _ & Hc)%bind_Some.
  destruct (req_method req), a, (req_body req) as [body|]; try done.
  - destruct (has_exact_content_type _ _); [|done]. unfold read_put in Hc.
    destruct (from_slice body) as [[| | | | |l]|]; try done. by repeat (apply bind_Some in Hc as (? & _ & Hc)); case_match; simplify_eq.
  - destruct (has_exact_content_type _ _); [|done]. unfold read_activity in Hc.
    destruct (from_slice body) as [[| | | | |l]|]; try done. by repeat (apply bind_Some in Hc as (? & _ & Hc)); case_match; simplify_eq.
  - by injection Hc as <-.
Qed.

Lemma stamp_header v : all_chars (byte_in 32 126) v = true ->
  single_header (resp_headers (answer_with 204 [(LAST_ACTIVITY_HEADER, v)] [])) LAST_ACTIVITY_HEADER = Some v.
Proof.
  intros Hv. transitivity (value ← (if all_chars (byte_in 32 126) v then Some v else None); Some value); [done|].
  by rewrite Hv.
Qed.

Lemma json_reply_body text body : bounded_body (json_reply text) = Ok body -> body = text.
Proof.
  unfold bounded_body, json_reply, answer_with. cbn [content_length is_some_and chunks read_chunks].
  destruct (MAX_RESPONSE_BYTES <? _); [done|]. by intros [= <-].
Qed.

Lemma acknowledgment_spec req c m r : meaning req = Some c -> acknowledgment c m = Some r ->
  acknowledges c m r /\ accepts (req_method req) (resp_status r) = true /\ rejects (req_method req) (resp_status r) = false.
Proof.
  intros ->%meaning_method. destruct c as [op key data floor|key at_|key]; cbn [acknowledgment acknowledges].
  - intros [= <-]. split; [|done]. apply stamp_header. apply show_pos_visible.
  - by intros [= <-].
  - destruct (m !! key) as [d|]; [|by intros [= <-]]. destruct (record_text d) as [t|] eqn:Ht; [|done].
    intros [= <-]. split; [|done]. split; [done|]. intros body ->%json_reply_body. exists (record_json t).
    rewrite from_slice_show, lift_text_json. split; [done|]. by apply record_text_shows.
Qed.

#[global] Instance protocol : SidecarProtocol Ref.
Proof.
  split; [|done]. intros req w. cbn [send peer effects persisted alone].
  assert (Hread : forall req m, let out := handle req m in
    (out.2 = None \/ exists c, meaning req = Some c /\ out.2 = Some (apply_call c m)) /\
    (rejects (req_method req) (resp_status out.1) = true -> out.2 = None) /\
    (accepts (req_method req) (resp_status out.1) = true -> exists c, meaning req = Some c /\
       out.2 = Some (apply_call c m) /\ acknowledges c m out.1)).
  { clear. intros req m. unfold handle. destruct (req_method req) eqn:Hm.
    { destruct (String.eqb _ _); [|destruct (routes_text m)]; simpl; split_and!; auto; done. }
    all: destruct (meaning req) as [c|] eqn:Hc; [|by simpl; split_and!; auto].
    all: destruct (acknowledgment c m) as [r|] eqn:Ha; [|by simpl; split_and!; auto].
    all: destruct (acknowledgment_spec req c m r Hc Ha) as (H1 & H2 & H3); rewrite Hm in H2, H3; simpl.
    all: split_and!; [right; eauto|by rewrite H3|intros _; eauto]. }
  specialize (Hread req (ref_routes w)) as (Heff & Hrej & Hacc).
  assert (Hget : req_method req = GET -> url_path (req_url req) = "/v1/routes" ->
    resp_status (handle req (ref_routes w)).1 = 200 ->
    forall body, bounded_body (handle req (ref_routes w)).1 = Ok body ->
      exists l, from_slice body = Some (JObject l) /\ shows_routes (ref_routes w) l).
  { intros Hm Hp. unfold handle. rewrite Hm, Hp. cbn [fst]. destruct (routes_text (ref_routes w)) as [t|] eqn:Ht; [|done].
    intros _ body ->%json_reply_body.
    destruct (routes_text_shows _ _ Ht) as (l & Hl & Hs). exists l. by rewrite from_slice_show, Hl. }
  destruct (handle req (ref_routes w)) as [r m']. cbn [fst snd] in *. unfold written.
  destruct (next w).
  - exists (ref_routes w), (default (ref_routes w) m'). destruct m' as [m'|]; cbn.
    + split; [done|]. split; [right; split; [done|]; by destruct Heff as [?|(c & ? & [= ->])]; [|eauto]|].
      intros r' [= <-] _. split_and!; [by intros ?%Hrej| |done].
      intros (c & Hc & [= ->] & Hk)%Hacc. eauto.
    + split; [done|]. split; [by left|]. intros r' [= <-] _. split_and!; [done|by intros (c & _ & ? & _)%Hacc|done].
  - exists (ref_routes w), (ref_routes w). split; [done|]. split; [by left|]. intros r' [= <-] _.
    split_and!; [done|by destruct (req_method req)|done].
  - exists (ref_routes w), (ref_routes w). split; [done|]. split; [by left|]. done.
  - exists (ref_routes w), (default (ref_routes w) m'). destruct m' as [m'|]; cbn; split; try done; split; try done.
    + right. split; [done|]. by destruct Heff as [?|(c & ? & [= ->])]; [|eauto].
    + by left.
Qed.

End ReferenceServer.

(** ** Witnesses *)

Module SidecarWitness.
Import ReferenceServer.

Definition start : Ref := mkRef ∅ [] [Healthy; Unavailable; Healthy; ReplyLost].

Definition connected : result SidecarStore StoreError * Ref := connect (new_config "http://store:8080/") start.

Definition connected_store : SidecarStore :=
  match connected.1 with Ok st => st | Err _ => mkSidecarStore [] (SimpleHttp.mkUrl "" "" None "" None) 0 0 0 0 0 end.

Definition added : result RouteData StoreError * Ref :=
  sidecar_add connected_store 5 (normalize "/a") "http://b" {["user" := VString "x"]} (fixed (Some 9)) connected.2.

Lemma connected_ok : connected = (Ok connected_store, connected.2).
Proof.
  assert (Hok : is_ok connected.1 = true) by (vm_compute; reflexivity).
  unfold connected_store. by destruct connected as [[st|e] w].
Qed.

End SidecarWitness.
Import SidecarWitness.

Lemma sidecar_store_refines_contract_witness :
  connected = (Ok connected_store, connected.2) /\
  added.1 = Ok (mkRouteData "http://b" 9 {["user" := VString "x"]}) /\
  ReferenceServer.ref_routes added.2 = {[normalize "/a" := mkRouteData "http://b" 9 {["user" := VString "x"]}]} /\
  refines (fun d m m' => exists w1 req, (send req w1).2 = added.2 /\
    commits (Some 9) m (CallAdd (normalize "/a") "http://b" {["user" := VString "x"]}) (ReplyRecord d) m')
    connected.2 added.
Proof.
  split; [exact connected_ok|]. split; [vm_compute; reflexivity|]. split; [vm_compute; reflexivity|].
  destruct (sidecar_store_refines_contract (new_config "http://store:8080/") SidecarWitness.start
    connected.2 connected_store connected_ok connected.2 "/a") as [Hadd _].
  exact (Hadd 5 "http://b" {["user" := VString "x"]} (fixed (Some 9))).
Defined.

Lemma sidecar_retries_are_bounded_witness :
  let w := mkTraced connected.2 [] in
  let out := run_call connected_store 5 (fixed None) (CallDelete (normalize "/a")) w in
  requests (trace out.2) = 2%nat /\ time_slept (trace out.2) = from_millis 25 /\
  exists t, trace out.2 = [] ++ t /\ retries connected_store 0 t /\
    (requests t <= max_attempts connected_store <= MAX_ATTEMPTS)%nat /\
    0 <= time_slept t <= Z.of_nat (max_attempts connected_store - 1) * max_backoff connected_store.
Proof.
  intros w out. split; [vm_compute; reflexivity|]. split; [vm_compute; reflexivity|].
  apply (sidecar_retries_are_bounded (new_config "http://store:8080/") SidecarWitness.start connected.2
    connected_store 5 (fixed None) (CallDelete (normalize "/a")) w); [constructor|exact connected_ok].
Defined.
