(* ===== verification/Config.v ===== *)
(** * Command-line and environment configuration (src/config.rs)

    [try_from] is [impl TryFrom<Cli> for AppConfig]: every check in source order.
    The process environment is a function from names to raw OS bytes; the Redis
    URL check of the [redis] crate is a parameter. *)

From S2P Require Import Prelude RustStr Percent Http.

(** ** Constants *)

Definition CHP_DEFAULT_KEEP_ALIVE_TIMEOUT_MS : Z := 5000.
Definition DEFAULT_REDIS_OPERATION_TIMEOUT_MS : Z := 2000.
Definition DEFAULT_REDIS_ROUTE_KEY : string := "pingora-reverse-proxy:routes:v1".
Definition DEFAULT_SIDECAR_CONNECT_TIMEOUT_MS : Z := 1000.
Definition DEFAULT_SIDECAR_REQUEST_TIMEOUT_MS : Z := 2000.
Definition CHP_5_3_0_DEFAULT_TLS_CIPHERS : string :=
  "ECDHE-RSA-AES128-GCM-SHA256:" +:+ "ECDHE-ECDSA-AES128-GCM-SHA256:" +:+
  "ECDHE-RSA-AES256-GCM-SHA384:" +:+ "ECDHE-ECDSA-AES256-GCM-SHA384:" +:+
  "DHE-RSA-AES128-GCM-SHA256:" +:+ "ECDHE-RSA-AES128-SHA256:" +:+ "DHE-RSA-AES128-SHA256:" +:+
  "ECDHE-RSA-AES256-SHA384:" +:+ "DHE-RSA-AES256-SHA384:" +:+ "ECDHE-RSA-AES256-SHA256:" +:+
  "DHE-RSA-AES256-SHA256:" +:+ "HIGH:!RC4:!aNULL:!eNULL:!EXPORT:!DES:!RC4:!MD5:!PSK:!SRP:!CAMELLIA".

(** ** Data *)

(** Raw options, as clap delivers them: numbers are already in range. *)
Record Cli : Type := mkCli {
  ip : option string; cli_port : option Z; socket : option string;
  ssl_key : option string; ssl_cert : option string; ssl_ca : option string;
  ssl_request_cert : bool; ssl_reject_unauthorized : bool;
  ssl_protocol : option string; ssl_ciphers : option string;
  ssl_allow_rc4 : bool; ssl_dhparam : option string;
  api_ip : option string; api_port : option Z; api_socket : option string;
  api_ssl_key : option string; api_ssl_cert : option string; api_ssl_ca : option string;
  api_ssl_request_cert : bool; api_ssl_reject_unauthorized : bool;
  client_ssl_key : option string; client_ssl_cert : option string; client_ssl_ca : option string;
  client_ssl_request_cert : bool; client_ssl_reject_unauthorized : bool;
  cli_default_target : option string; cli_error_target : option string;
  cli_error_path : option string;
  cli_redirect_port : option Z; cli_redirect_to : option Z; cli_pid_file : option string;
  cli_x_forward : bool; cli_prepend_path : bool; cli_include_prefix : bool;
  cli_auto_rewrite : bool; cli_change_origin : bool; cli_protocol_rewrite : option string;
  cli_custom_header : list string; insecure : bool; cli_host_routing : bool;
  metrics_ip : option string; metrics_port : option Z; metrics_socket : option string;
  cli_log_level : string; cli_timeout : option Z; cli_proxy_timeout : option Z;
  storage_backend : option string; keep_alive_timeout : option Z
}.

Inductive ListenerConfig : Type := ListenTcp (address : string) | ListenUnix (path : string).

Record TlsConfig : Type := mkTlsConfig {
  tls_key : option string; tls_cert : option string; tls_ca : option string;
  key_passphrase : option string; request_cert : bool; reject_unauthorized : bool;
  tls_protocol : option string; tls_ciphers : option string; tls_dhparam : option string
}.

Inductive StoreConfig : Type := StoreMemory | StoreRedis | StoreSidecar.

#[export] Instance StoreConfig_eq_dec : EqDecision StoreConfig.
Proof. solve_decision. Defined.

Record RedisRuntimeConfig : Type := mkRedisRuntime {
  redis_url : string; redis_route_key : string; operation_timeout : Duration }.

Record SidecarRuntimeConfig : Type := mkSidecarRuntime {
  sidecar_url : string; bearer_token : string;
  connect_timeout : Duration; request_timeout : Duration }.

Inductive LogLevel : Type := LogDebug | LogInfo | LogWarn | LogError.

Record ProxyOptions : Type := mkProxyOptions {
  x_forward : bool; prepend_path : bool; include_prefix : bool; auto_rewrite : bool;
  change_origin : bool; protocol_rewrite : option string;
  custom_headers : gmap string string;
  verify_upstream_tls : bool; host_routing : bool;
  timeout_ms : option Z; proxy_timeout_ms : option Z; keep_alive_timeout_ms : option Z
}.

Inductive ConfigError : Type :=
| ConflictingErrorHandlers
| RedirectWithoutTls
| IncompleteKeyPair (names : string)
| InvalidLogLevel (value : string)
| InvalidTarget (kind value : string)
| UnknownStorageBackend (value : string)
| Rc4Unsupported
| InvalidCustomHeader (value : string)
| ApiPortOverflow
| UnsupportedClientTlsFlag (flag : string)
| MissingRedisUrl
| InvalidRedisUrl
| InvalidRedisRouteKey
| InvalidRedisOperationTimeout
| MissingSidecarUrl
| InvalidSidecarUrl
| MissingSidecarBearerToken
| InvalidSidecarConnectTimeout
| InvalidSidecarRequestTimeout
| InvalidListenerTlsPolicy (reject_flag request_flag ca_flag : string)
| InvalidRequiredAuthPolicy
| MissingRequiredAuthToken.

(** ** The environment *)

Definition Env : Type := string -> option string.

(** [env::var]. *)
Inductive VarResult : Type := VarOk (value : string) | NotPresent | NotUnicode.

Definition env_var (env : Env) (name : string) : VarResult :=
  match env name with
  | None => NotPresent
  | Some raw => if utf8_valid raw then VarOk raw else NotUnicode
  end.

Definition env_nonempty (env : Env) (name : string) : option string :=
  match env_var env name with
  | VarOk value => if is_empty value then None else Some value
  | _ => None
  end.

(** ** Checks and small parsers *)

Definition validate_listener_tls_policy (reject request : bool) (ca : option string)
    (reject_flag request_flag ca_flag : string) : result unit ConfigError :=
  if reject && (negb request || is_none_or is_empty ca)
  then Err (InvalidListenerTlsPolicy reject_flag request_flag ca_flag)
  else Ok tt.

Definition parse_required_auth_policy (env : Env) : result bool ConfigError :=
  match env "PINGORA_REQUIRE_AUTH_TOKEN" with
  | None => Ok false
  | Some value =>
      if String.eqb value "true" then Ok true
      else if String.eqb value "false" then Ok false
      else Err InvalidRequiredAuthPolicy
  end.

Definition validate_pair {T} (key cert : option T) (names : string) : result unit ConfigError :=
  if negb (Bool.eqb (is_some key) (is_some cert)) then Err (IncompleteKeyPair names) else Ok tt.

Definition nonzero_port (value : option Z) : option Z := opt_filter (fun port => negb (port =? 0)) value.

Definition tcp_address (host : string) (port : Z) : string :=
  let host := if String.eqb host "*" then "" else host in
  if contains_char colon host && negb (starts_with_char "[" host)
  then "[" +:+ host +:+ "]:" +:+ show_Z port
  else host +:+ ":" +:+ show_Z port.

Record InheritedTls : Type := mkInheritedTls {
  inh_protocol : option string; inh_ciphers : option string; inh_dhparam : option string }.

Definition tls_config (key cert ca key_passphrase : option string) (request reject : bool)
    (inherited : InheritedTls) (ca_activates : bool) : option TlsConfig :=
  if is_none key && is_none cert && (negb ca_activates || is_none ca) then None
  else Some {| tls_key := key; tls_cert := cert; tls_ca := ca; key_passphrase := key_passphrase;
               request_cert := request; reject_unauthorized := reject;
               tls_protocol := inh_protocol inherited; tls_ciphers := inh_ciphers inherited;
               tls_dhparam := inh_dhparam inherited |}.

Definition parse_log_level (value : string) : result LogLevel ConfigError :=
  let lower := to_ascii_lowercase value in
  if String.eqb lower "debug" then Ok LogDebug
  else if String.eqb lower "info" then Ok LogInfo
  else if String.eqb lower "warn" then Ok LogWarn
  else if String.eqb lower "error" then Ok LogError
  else Err (InvalidLogLevel value).

Definition parse_store (value : option string) : result StoreConfig ConfigError :=
  let name := default "memory" value in
  if String.eqb name "memory" then Ok StoreMemory
  else if String.eqb name "redis" then Ok StoreRedis
  else if String.eqb name "sidecar" then Ok StoreSidecar
  else Err (UnknownStorageBackend (default "" value)).

Definition positive_ms (value : string) : option Z := opt_filter (fun n => 0 <? n) (parse_u64 value).

Definition positive_duration_from_env (env : Env) (name : string) (default_ms : Z)
    (invalid : ConfigError) : result Duration ConfigError :=
  match env_var env name with
  | VarOk value => ok_or (from_millis <$> positive_ms value) invalid
  | NotPresent => Ok (from_millis default_ms)
  | NotUnicode => Err invalid
  end.

(** Later values of one name replace earlier ones, as [BTreeMap::insert] does. *)
Fixpoint parse_custom_headers_loop (values : list string) (headers : gmap string string) :
    result (gmap string string) ConfigError :=
  match values with
  | [] => Ok headers
  | value :: rest =>
      match split_once colon (trim value) with
      | None => Err (InvalidCustomHeader value)
      | Some (name, header_value) =>
          let name := trim name in
          if is_empty name then Err (InvalidCustomHeader value)
          else parse_custom_headers_loop rest (<[name := trim header_value]> headers)
      end
  end.

Definition parse_custom_headers (values : list string) : result (gmap string string) ConfigError :=
  parse_custom_headers_loop values ∅.

Section Config.
Context `{UrlLib}.
(** [redis::parse_redis_url(url).is_some()]. *)
Variable valid_redis_url : string -> bool.

Record AppConfig : Type := mkAppConfig {
  public_listener : ListenerConfig;
  api_listener : ListenerConfig;
  metrics_listener : option ListenerConfig;
  public_tls : option TlsConfig;
  api_tls : option TlsConfig;
  client_tls : option TlsConfig;
  default_target : option Url;
  error_target : option Url;
  error_path : option string;
  redirect_port : option Z;
  redirect_to : option Z;
  pid_file : option string;
  auth_token : option string;
  log_level : LogLevel;
  store : StoreConfig;
  redis : option RedisRuntimeConfig;
  sidecar : option SidecarRuntimeConfig;
  proxy : ProxyOptions
}.

Definition parse_target (value : option string) (kind : string) : result (option Url) ConfigError :=
  match value with
  | None => Ok None
  | Some value =>
      match url_parse value with
      | Err _ => Err (InvalidTarget kind value)
      | Ok url =>
          let valid :=
            if String.eqb (scheme url) "http" || String.eqb (scheme url) "https"
            then is_some_and (fun host => negb (is_empty host)) (host_str url)
            else if String.eqb (scheme url) "http+unix" || String.eqb (scheme url) "unix+http"
            then is_percent_encoded_socket_host (host_and_port url)
            else false in
          if valid then Ok (Some url) else Err (InvalidTarget kind value)
      end
  end.

Definition parse_error_target (value : option string) : result (option Url) ConfigError :=
  let value := (fun target => if ends_with_char slash target then target
                              else target +:+ "/") <$> value in
  parse_target value "error target".

Definition parse_redis_runtime (env : Env) (store : StoreConfig) :
    result (option RedisRuntimeConfig) ConfigError :=
  if negb (bool_decide (store = StoreRedis)) then Ok None
  else
    let? url := ok_or (env_nonempty env "PINGORA_REDIS_URL") MissingRedisUrl in
    guard? valid_redis_url url else InvalidRedisUrl in
    let? route_key := match env_var env "PINGORA_REDIS_ROUTE_KEY" with
                      | VarOk value => if is_empty value then Err InvalidRedisRouteKey else Ok value
                      | NotPresent => Ok DEFAULT_REDIS_ROUTE_KEY
                      | NotUnicode => Err InvalidRedisRouteKey
                      end in
    let? timeout := positive_duration_from_env env "PINGORA_REDIS_OPERATION_TIMEOUT_MS"
                      DEFAULT_REDIS_OPERATION_TIMEOUT_MS InvalidRedisOperationTimeout in
    Ok (Some {| redis_url := url; redis_route_key := route_key; operation_timeout := timeout |}).

(** An HTTP(S) origin with a root path and nothing else. *)
Definition is_bare_origin (url : Url) : bool :=
  (String.eqb (scheme url) "http" || String.eqb (scheme url) "https")
  && is_some (host_str url) && is_empty (username url) && is_none (password url)
  && String.eqb (url_path url) "/" && is_none (url_query url) && is_none (fragment url).

Definition parse_sidecar_runtime (env : Env) (store : StoreConfig) :
    result (option SidecarRuntimeConfig) ConfigError :=
  if negb (bool_decide (store = StoreSidecar)) then Ok None
  else
    let? url := ok_or (env_nonempty env "PINGORA_SIDECAR_URL") MissingSidecarUrl in
    let? parsed := map_err (fun _ => InvalidSidecarUrl) (url_parse url) in
    guard? is_bare_origin parsed else InvalidSidecarUrl in
    let? token := ok_or (env_nonempty env "PINGORA_SIDECAR_BEARER_TOKEN") MissingSidecarBearerToken in
    let? connect := positive_duration_from_env env "PINGORA_SIDECAR_CONNECT_TIMEOUT_MS"
                      DEFAULT_SIDECAR_CONNECT_TIMEOUT_MS InvalidSidecarConnectTimeout in
    let? request := positive_duration_from_env env "PINGORA_SIDECAR_REQUEST_TIMEOUT_MS"
                      DEFAULT_SIDECAR_REQUEST_TIMEOUT_MS InvalidSidecarRequestTimeout in
    Ok (Some {| sidecar_url := url; bearer_token := token;
                connect_timeout := connect; request_timeout := request |}).

(** ** [AppConfig::try_from] *)

(** The checks before anything is built. *)
Definition check_flags (cli : Cli) : result unit ConfigError :=
  guard? negb (client_ssl_request_cert cli)
    else UnsupportedClientTlsFlag "--client-ssl-request-cert" in
  guard? negb (client_ssl_reject_unauthorized cli)
    else UnsupportedClientTlsFlag "--client-ssl-reject-unauthorized" in
  guard? negb (ssl_allow_rc4 cli) else Rc4Unsupported in
  guard? negb (is_some (cli_error_target cli) && is_some (cli_error_path cli))
    else ConflictingErrorHandlers in
  let? _ := validate_pair (ssl_key cli) (ssl_cert cli) "--ssl-key and --ssl-cert" in
  let? _ := validate_pair (api_ssl_key cli) (api_ssl_cert cli) "--api-ssl-key and --api-ssl-cert" in
  let? _ := validate_pair (client_ssl_key cli) (client_ssl_cert cli)
              "--client-ssl-key and --client-ssl-cert" in
  let? _ := validate_listener_tls_policy (ssl_reject_unauthorized cli) (ssl_request_cert cli)
              (ssl_ca cli) "--ssl-reject-unauthorized" "--ssl-request-cert" "--ssl-ca" in
  let? _ := validate_listener_tls_policy (api_ssl_reject_unauthorized cli) (api_ssl_request_cert cli)
              (api_ssl_ca cli) "--api-ssl-reject-unauthorized" "--api-ssl-request-cert" "--api-ssl-ca" in
  guard? negb (is_some (nonzero_port (cli_redirect_port cli))
               && (is_none (ssl_key cli) || is_none (ssl_cert cli))) else RedirectWithoutTls in
  Ok tt.

Definition public_port_of (cli : Cli) : Z := default 8000 (nonzero_port (cli_port cli)).

Definition public_listener_of (cli : Cli) : ListenerConfig :=
  match socket cli with
  | Some path => ListenUnix path
  | None => ListenTcp (tcp_address (default "" (ip cli)) (public_port_of cli))
  end.

Definition api_listener_of (cli : Cli) : result ListenerConfig ConfigError :=
  match api_socket cli with
  | Some path => Ok (ListenUnix path)
  | None =>
      let? port := match nonzero_port (api_port cli) with
                   | Some port => Ok port
                   | None => if is_some (socket cli) then Ok 8001
                             else ok_or (checked_add u16_max (public_port_of cli) 1) ApiPortOverflow
                   end in
      Ok (ListenTcp (tcp_address (default "localhost" (api_ip cli)) port))
  end.

Definition metrics_listener_of (cli : Cli) : option ListenerConfig :=
  match metrics_socket cli, nonzero_port (metrics_port cli) with
  | Some path, _ => Some (ListenUnix path)
  | None, Some port => Some (ListenTcp (tcp_address (default "" (metrics_ip cli)) port))
  | None, None => None
  end.

Definition inherited_tls_of (cli : Cli) : InheritedTls :=
  {| inh_protocol := ssl_protocol cli;
     inh_ciphers := Some (default CHP_5_3_0_DEFAULT_TLS_CIPHERS (ssl_ciphers cli));
     inh_dhparam := ssl_dhparam cli |}.

Definition proxy_options_of (cli : Cli) (headers : gmap string string) : ProxyOptions :=
  {| x_forward := cli_x_forward cli; prepend_path := cli_prepend_path cli;
     include_prefix := cli_include_prefix cli; auto_rewrite := cli_auto_rewrite cli;
     change_origin := cli_change_origin cli; protocol_rewrite := cli_protocol_rewrite cli;
     custom_headers := headers; verify_upstream_tls := negb (insecure cli);
     host_routing := cli_host_routing cli; timeout_ms := cli_timeout cli;
     proxy_timeout_ms := cli_proxy_timeout cli;
     keep_alive_timeout_ms :=
       Some (default CHP_DEFAULT_KEEP_ALIVE_TIMEOUT_MS
               (opt_filter (fun t => negb (t =? 0)) (keep_alive_timeout cli))) |}.

Definition try_from (env : Env) (cli : Cli) : result AppConfig ConfigError :=
  let? _ := check_flags cli in
  let? api_listener := api_listener_of cli in
  let inherited := inherited_tls_of cli in
  let public_tls := tls_config (ssl_key cli) (ssl_cert cli) (ssl_ca cli)
    (env_nonempty env "CONFIGPROXY_SSL_KEY_PASSPHRASE")
    (ssl_request_cert cli) (ssl_reject_unauthorized cli) inherited false in
  let api_tls := tls_config (api_ssl_key cli) (api_ssl_cert cli) (api_ssl_ca cli)
    (env_nonempty env "CONFIGPROXY_API_SSL_KEY_PASSPHRASE")
    (api_ssl_request_cert cli) (api_ssl_reject_unauthorized cli) inherited false in
  let client_tls := tls_config (client_ssl_key cli) (client_ssl_cert cli) (client_ssl_ca cli)
    None (client_ssl_request_cert cli) (client_ssl_reject_unauthorized cli) inherited true in
  let? default_target := parse_target (cli_default_target cli) "default target" in
  let? error_target := parse_error_target (cli_error_target cli) in
  let? level := parse_log_level (cli_log_level cli) in
  let? store := parse_store (storage_backend cli) in
  let? redis := parse_redis_runtime env store in
  let? sidecar := parse_sidecar_runtime env store in
  let? headers := parse_custom_headers (cli_custom_header cli) in
  let auth_token := env_nonempty env "CONFIGPROXY_AUTH_TOKEN" in
  let? require := parse_required_auth_policy env in
  guard? negb (require && is_none auth_token) else MissingRequiredAuthToken in
  Ok {| public_listener := public_listener_of cli;
        api_listener := api_listener;
        metrics_listener := metrics_listener_of cli;
        public_tls := public_tls; api_tls := api_tls; client_tls := client_tls;
        default_target := default_target; error_target := error_target;
        error_path := cli_error_path cli;
        redirect_port := nonzero_port (cli_redirect_port cli);
        redirect_to := nonzero_port (cli_redirect_to cli);
        pid_file := cli_pid_file cli;
        auth_token := auth_token; log_level := level; store := store;
        redis := redis; sidecar := sidecar;
        proxy := proxy_options_of cli headers |}.

(** ** What an accepted configuration satisfies *)

Definition pair_complete (t : option TlsConfig) : Prop :=
  forall c, t = Some c -> is_some (tls_key c) = is_some (tls_cert c).

(** Rejecting unauthorized clients implies asking for a certificate and a CA to
    check it against. *)
Definition policy_enforceable (t : option TlsConfig) : Prop :=
  forall c, t = Some c -> reject_unauthorized c = true ->
    request_cert c = true /\ exists ca, tls_ca c = Some ca /\ ca <> "".

Definition valid_target (t : option Url) : Prop :=
  forall u, t = Some u ->
    ((scheme u = "http" \/ scheme u = "https") /\ exists h, host_str u = Some h /\ h <> "") \/
    ((scheme u = "http+unix" \/ scheme u = "unix+http") /\
     is_percent_encoded_socket_host (host_and_port u) = true).

Record config_valid (env : Env) (c : AppConfig) : Prop := {
  v_handlers : error_target c = None \/ error_path c = None;
  v_pairs : pair_complete (public_tls c) /\ pair_complete (api_tls c) /\ pair_complete (client_tls c);
  v_policies : policy_enforceable (public_tls c) /\ policy_enforceable (api_tls c);
  v_client : forall t, client_tls c = Some t -> request_cert t = false /\ reject_unauthorized t = false;
  v_redirect : is_Some (redirect_port c) ->
    exists t, public_tls c = Some t /\ is_Some (tls_key t) /\ is_Some (tls_cert t);
  v_redirect_nonzero : redirect_port c <> Some 0 /\ redirect_to c <> Some 0;
  v_targets : valid_target (default_target c) /\ valid_target (error_target c);
  v_redis : (store c = StoreRedis <-> is_Some (redis c)) /\
    forall r, redis c = Some r ->
      valid_redis_url (redis_url r) = true /\ redis_route_key r <> "" /\ 0 < operation_timeout r;
  v_sidecar : (store c = StoreSidecar <-> is_Some (sidecar c)) /\
    forall s, sidecar c = Some s ->
      bearer_token s <> "" /\ 0 < connect_timeout s /\ 0 < request_timeout s /\
      exists u, url_parse (sidecar_url s) = Ok u /\ is_bare_origin u = true;
  v_auth : auth_token c <> Some "" /\
    (env "PINGORA_REQUIRE_AUTH_TOKEN" = Some "true" -> is_Some (auth_token c));
  v_keep_alive : exists ms, keep_alive_timeout_ms (proxy c) = Some ms /\ ms <> 0;
  v_headers : forall name, is_Some (custom_headers (proxy c) !! name) -> name <> ""
}.

(** *** Inversion lemmas *)

Lemma env_nonempty_Some env name v : env_nonempty env name = Some v -> v <> "".
Proof.
  unfold env_nonempty. destruct (env_var env name) as [x| |]; [|done|done].
  destruct (is_empty x) eqn:He; [done|]. intros [= <-] ->. done.
Qed.

Lemma positive_duration_pos env name d e t :
  0 < d -> positive_duration_from_env env name d e = Ok t -> 0 < t.
Proof.
  unfold positive_duration_from_env, from_millis, positive_ms. intros Hd.
  destruct (env_var env name) as [x| |]; [|intros [= <-]; lia|done].
  destruct (parse_u64 x) as [n|]; simpl; [|done].
  destruct (0 <? n) eqn:Hn; simpl; [|done]. bool_simp. intros [= <-]. lia.
Qed.

Lemma parse_target_valid v kind u : parse_target v kind = Ok u -> valid_target u.
Proof.
  unfold parse_target. destruct v as [v|]; [|intros [= <-] ? ?; done].
  destruct (url_parse v) as [url|]; [|done]. intros Hok. apply guard_ok in Hok as [Hv Hok].
  injection Hok as <-. intros u' [= <-].
  destruct (String.eqb (scheme url) "http" || String.eqb (scheme url) "https") eqn:Hs.
  - left. apply orb_true_iff in Hs as [Hs|Hs]; apply String.eqb_eq in Hs;
      (split; [by auto|]); destruct (host_str url) as [h|]; simpl in Hv; try done;
      exists h; split; try done; intros ->; done.
  - destruct (String.eqb (scheme url) "http+unix" || String.eqb (scheme url) "unix+http") eqn:Hs'; [|done].
    right. split; [|done]. apply orb_true_iff in Hs' as [Hs'|Hs']; apply String.eqb_eq in Hs'; by auto.
Qed.

Lemma validate_pair_ok {T} (k c : option T) n r : validate_pair k c n = Ok r -> is_some k = is_some c.
Proof. unfold validate_pair. destruct k, c; simpl; done. Qed.

Lemma tls_config_pair k c ca pw rq rj inh act :
  is_some k = is_some c -> pair_complete (tls_config k c ca pw rq rj inh act).
Proof. intros Heq t. unfold tls_config. case_match; [done|]. by intros [= <-]. Qed.

Lemma tls_config_policy k c ca pw rq rj inh act f1 f2 f3 r :
  validate_listener_tls_policy rj rq ca f1 f2 f3 = Ok r ->
  policy_enforceable (tls_config k c ca pw rq rj inh act).
Proof.
  unfold validate_listener_tls_policy, tls_config. intros Hv t Ht Hrj.
  case_match; [done|]. injection Ht as <-. simpl in *. subst rj.
  destruct rq, ca as [p|]; simpl in *; try done. split; [done|]. exists p. split; [done|].
  intros ->. done.
Qed.

Lemma parse_redis_ok env st r :
  parse_redis_runtime env st = Ok r ->
  (st = StoreRedis <-> is_Some r) /\ forall c, r = Some c ->
    valid_redis_url (redis_url c) = true /\ redis_route_key c <> "" /\ 0 < operation_timeout c.
Proof.
  unfold parse_redis_runtime. case_bool_decide as Hst; simpl.
  - intros Hok. inv_ok Hok. injection Hok as <-. split; [by split; eauto|]. intros c [= <-]. simpl.
    split_and!; [done| |by eapply positive_duration_pos; [|eassumption]; reflexivity].
    destruct (env_var env "PINGORA_REDIS_ROUTE_KEY") as [v| |]; simplify_eq; try done.
    destruct (is_empty v) eqn:Hv; [done|]. simplify_eq. by intros ->.
  - intros [= <-]. split; [|done]. split; [done|by intros []].
Qed.

Lemma parse_sidecar_ok env st r :
  parse_sidecar_runtime env st = Ok r ->
  (st = StoreSidecar <-> is_Some r) /\ forall s, r = Some s ->
    bearer_token s <> "" /\ 0 < connect_timeout s /\ 0 < request_timeout s /\
    exists u, url_parse (sidecar_url s) = Ok u /\ is_bare_origin u = true.
Proof.
  unfold parse_sidecar_runtime. case_bool_decide as Hst; simpl.
  - intros Hok. inv_ok Hok. injection Hok as <-. split; [by split; eauto|]. intros c [= <-]. simpl.
    apply ok_or_Ok in E, E1. split_and!.
    + by eapply env_nonempty_Some.
    + eapply positive_duration_pos; [|eassumption]; reflexivity.
    + eapply positive_duration_pos; [|eassumption]; reflexivity.
    + destruct (url_parse _) as [u|]; simpl in *; simplify_eq. eauto.
  - intros [= <-]. split; [|done]. split; [done|by intros []].
Qed.

Lemma parse_custom_headers_names values headers r :
  (forall n, is_Some (headers !! n) -> n <> "") ->
  parse_custom_headers_loop values headers = Ok r -> forall n, is_Some (r !! n) -> n <> "".
Proof.
  revert headers. induction values as [|v vs IH]; simpl; intros headers Hh.
  - by intros [= <-].
  - destruct (split_once colon (trim v)) as [[name hv]|]; [|done].
    destruct (is_empty (trim name)) eqn:He; [done|]. apply IH. intros n.
    rewrite lookup_insert_is_Some'. intros [<-|?]; [|auto]. intros Heq. by rewrite Heq in He.
Qed.

(** ** Theorems *)

(** C32: every configuration the process starts with is usable: exclusive error
    handlers, complete key pairs, client-certificate policies that can be
    enforced, redirects only behind TLS, well-formed targets, exactly the
    runtime settings of the chosen backend with positive timeouts, no empty
    token, and a token whenever one is required. *)
Theorem accepted_configuration_is_valid env cli c :
  try_from env cli = Ok c -> config_valid env c.
Proof.
  unfold try_from. intros Hok. inv_ok Hok. injection Hok as <-.
  unfold check_flags in E. inv_ok E. bool_simp.
  assert (Hpub := validate_pair_ok _ _ _ _ E9). assert (Hapi := validate_pair_ok _ _ _ _ E10).
  assert (Hcli := validate_pair_ok _ _ _ _ E11).
  destruct (parse_redis_ok _ _ _ E5) as [Hr1 Hr2]. destruct (parse_sidecar_ok _ _ _ E6) as [Hs1 Hs2].
  split; cbn [error_target error_path public_tls api_tls client_tls redirect_port redirect_to
              default_target store redis sidecar auth_token proxy].
  - destruct (cli_error_path cli) as [p|]; [|by right]. left.
    destruct (cli_error_target cli); [done|]. unfold parse_error_target in E2. simpl in E2. congruence.
  - split_and!; by apply tls_config_pair.
  - split; by eapply tls_config_policy.
  - intros t. unfold tls_config. case_match; [done|]. intros [= <-]. simpl. done.
  - intros [p Hp]. rewrite Hp in *. simpl in *.
    destruct (ssl_key cli), (ssl_cert cli); simpl in *; try done.
    unfold tls_config; simpl. eexists. split; [done|]. simpl. by split; eexists.
  - unfold nonzero_port. split; intros [_ Hz]%opt_filter_Some; done.
  - split; [by eapply parse_target_valid|]. by eapply parse_target_valid.
  - done.
  - done.
  - split.
    + intros Ht. by eapply env_nonempty_Some in Ht.
    + intros Hreq. unfold parse_required_auth_policy in E8. rewrite Hreq in E8. simpl in E8.
      injection E8 as <-. destruct (env_nonempty env "CONFIGPROXY_AUTH_TOKEN"); [by eexists|done].
  - eexists. split; [done|]. destruct (opt_filter _ _) as [t|] eqn:Ht; simpl; [|done].
    apply opt_filter_Some in Ht as [_ Ht]. bool_simp. done.
  - intros name. simpl. eapply parse_custom_headers_names; [|exact E7].
    intros n. rewrite lookup_empty. by intros [].
Qed.

End Config.

(** ** Witnesses *)

Definition sample_cli (p : option Z) : Cli := {|
  ip := None; cli_port := p; socket := None; ssl_key := None; ssl_cert := None; ssl_ca := None;
  ssl_request_cert := false; ssl_reject_unauthorized := false; ssl_protocol := None;
  ssl_ciphers := None; ssl_allow_rc4 := false; ssl_dhparam := None; api_ip := None;
  api_port := None; api_socket := None; api_ssl_key := None; api_ssl_cert := None;
  api_ssl_ca := None; api_ssl_request_cert := false; api_ssl_reject_unauthorized := false;
  client_ssl_key := None; client_ssl_cert := None; client_ssl_ca := None;
  client_ssl_request_cert := false; client_ssl_reject_unauthorized := false;
  cli_default_target := Some "http://127.0.0.1:9000/base"; cli_error_target := None;
  cli_error_path := None; cli_redirect_port := None; cli_redirect_to := None; cli_pid_file := None;
  cli_x_forward := true; cli_prepend_path := true; cli_include_prefix := true;
  cli_auto_rewrite := false; cli_change_origin := false; cli_protocol_rewrite := None;
  cli_custom_header := ["X-Test: yes"]; insecure := false; cli_host_routing := false;
  metrics_ip := None; metrics_port := None; metrics_socket := None; cli_log_level := "INFO";
  cli_timeout := None; cli_proxy_timeout := None; storage_backend := Some "redis";
  keep_alive_timeout := Some 0 |}.

Definition sample_env : Env := fun name =>
  if String.eqb name "PINGORA_REDIS_URL" then Some "redis://localhost" else None.

Lemma accepted_configuration_is_valid_witness :
  match try_from (starts_with "redis://") sample_env (sample_cli None) with
  | Ok c => config_valid (starts_with "redis://") sample_env c
  | Err _ => False
  end.
Proof.
  assert (Hok : is_ok (try_from (starts_with "redis://") sample_env (sample_cli None)) = true)
    by (vm_compute; reflexivity).
  destruct (try_from (starts_with "redis://") sample_env (sample_cli None)) as [c|e] eqn:Hc.
  - apply (accepted_configuration_is_valid (starts_with "redis://") sample_env (sample_cli None) c Hc).
  - discriminate Hok.
Defined.
