(* ===== verification/Upstream.v ===== *)
(** * Upstream targets and request policy (src/upstream.rs)

    Target parsing, the upstream URI, the header passes, redirect rewriting and
    peer construction.  Operations that mutate a [HeaderMap] in place return the
    new map; every fallible step of the source comes before its first mutation,
    so on [Err] the map is the one passed in. *)

From S2P Require Import Prelude RustStr Route Percent Http Config.

(** ** Data *)

Inductive Target : Type :=
| Tcp (host : string) (port : Z) (authority path : string) (tls : bool)
| Unix (socket_path path : string).

Record UpstreamRoute : Type := mkUpstreamRoute { ur_key : RouteKey; ur_target : Target }.

Record TlsClientConfig : Type := mkTlsClientConfig {
  verify_cert : bool; verify_hostname : bool;
  connection_timeout : option Duration; total_connection_timeout : option Duration;
  read_timeout : option Duration; write_timeout : option Duration; idle_timeout : option Duration;
  ca_file : option string; client_certificate : option string; client_key : option string
}.

Definition TlsClientConfig_default : TlsClientConfig :=
  mkTlsClientConfig true true None None None None None None None None.

Record ForwardedContext : Type := mkForwardedContext {
  client_address : string; fwd_port : Z; fwd_protocol : string }.

Inductive TargetError : Type :=
| UnsupportedScheme (scheme : string)
| MissingHost
| InvalidUnixSocket
| AddressResolution (display cause : string)
| NoResolvedAddress (display : string)
| UnixPeer (cause : string)
| PartialClientIdentity
| TlsFile (kind path cause : string)
| InvalidCa (path cause : string)
| InvalidClientCertificate (path cause : string)
| InvalidClientKey (path cause : string).

Inductive ProxyRequestError : Type :=
| RoutePrefixMismatch
| InvalidUri (cause : string)
| InvalidCustomHeaderName (name : string)
| InvalidCustomHeaderValue (name : string)
| InvalidLocation
| InvalidProtocolRewrite (protocol : string).

Definition target_authority (t : Target) : string :=
  match t with Tcp _ _ authority _ _ => authority | Unix _ _ => "localhost" end.

Definition target_path_of (t : Target) : string :=
  match t with Tcp _ _ _ path _ | Unix _ path => path end.

Definition is_tls (t : Target) : bool := match t with Tcp _ _ _ _ tls => tls | Unix _ _ => false end.

Definition unix_path (t : Target) : option string :=
  match t with Unix socket_path _ => Some socket_path | Tcp _ _ _ _ _ => None end.

(** ** Strings *)

Definition split_query (value : string) : string * option string :=
  match split_once question value with
  | Some (path, query) => (path, Some query)
  | None => (value, None)
  end.

(** One iteration of the loop over the two paths. *)
Definition join_segment (joined segment : string) : string :=
  if is_empty segment then joined
  else if ends_with_char slash joined && starts_with_char slash segment
  then joined +:+ default EmptyString (drop_bytes 1 segment)
  else if is_empty joined || ends_with_char slash joined || starts_with_char slash segment
  then joined +:+ segment
  else joined +:+ str1 slash +:+ segment.

Definition url_join (left right : string) : string :=
  let (left_path, left_query) := split_query left in
  let (right_path, right_query) := split_query right in
  let joined := fold_left join_segment [left_path; right_path] EmptyString in
  let queries := List.filter (fun q => negb (is_empty q)) (omap id [left_query; right_query]) in
  match queries with
  | [] => joined
  | _ => joined +:+ str1 question +:+ join "&" queries
  end.

Definition whatwg_scheme (value : string) : option string :=
  let scheme := match split_once colon value with Some (s, _) => s | None => value end in
  match scheme with
  | EmptyString => None
  | String c rest =>
      if is_ascii_alphabetic c &&
         all_chars (fun b => is_ascii_alphanumeric b || one_of ["+"; "-"; "."]%char b) rest
      then Some scheme else None
  end.

Definition host_name (authority : string) : string :=
  if starts_with_char "[" authority then
    match split_once "]" authority with
    | Some (host, _) => take_bytes (S (String.length host)) authority
    | None => authority
    end
  else match split_once colon authority with Some (host, _) => host | None => authority end.

Definition host_port (authority : string) : option Z :=
  match strip_prefix "[" authority with
  | Some bracketed =>
      '(_, rest) ← split_once "]" bracketed; port ← strip_prefix ":" rest; parse_u16 port
  | None => '(_, port) ← rsplit_once colon authority; parse_u16 port
  end.

Definition is_redirect_rewrite_status (status : Z) : bool :=
  existsb (Z.eqb status) [201; 301; 302; 307; 308].

(** ** Targets *)

Section Targets.
Context `{UrlLib}.

Definition target_path (url : Url) : string :=
  let path := if is_empty (url_path url) then "/" else url_path url in
  match url_query url with Some query => path +:+ "?" +:+ query | None => path end.

Definition authority (url : Url) (host : string) : string :=
  let display_host := if IpAddr.is_ipv6 host then "[" +:+ host +:+ "]" else host in
  match url_port url with
  | Some port => display_host +:+ ":" +:+ show_Z port
  | None => display_host
  end.

Definition url_host (url : Url) : option string := (fun host => authority url host) <$> host_str url.

(** [raw_host.strip_prefix('[').and_then(|h| h.strip_suffix(']')).unwrap_or(raw_host)]. *)
Definition unbracket (raw_host : string) : string :=
  default raw_host (host ← strip_prefix "[" raw_host; strip_suffix "]" host).

Definition target_parse (url : Url) : result Target TargetError :=
  let path := target_path url in
  let s := scheme url in
  if String.eqb s "http" || String.eqb s "https" then
    let? raw_host := ok_or (host_str url) MissingHost in
    let host := unbracket raw_host in
    guard? negb (is_empty host) else MissingHost in
    let? port := ok_or (port_or_known_default url) MissingHost in
    Ok (Tcp host port (authority url host) path (String.eqb s "https"))
  else if String.eqb s "http+unix" || String.eqb s "unix+http" then
    let? decoded := ok_or (percent_decode (host_and_port url)) InvalidUnixSocket in
    guard? negb (is_empty decoded || contains_char nul decoded || negb (starts_with_char slash decoded))
      else InvalidUnixSocket in
    Ok (Unix decoded path)
  else Err (UnsupportedScheme s).

End Targets.

(** ** Peers *)

Section Peers.
(** The resolver, the file system and OpenSSL, as the source calls them. *)
Context {SocketAddr Cert Key : Type}.
Variable to_socket_addrs : string -> Z -> result (list SocketAddr) string.
Variable new_uds : string -> result unit string.
Variable read_file : string -> result string string.
Variable certificates_from_pem : string -> result (list Cert) string.
Variable private_key_from_pem : string -> result Key string.

Record HttpPeer : Type := mkHttpPeer {
  peer_address : SocketAddr + string;
  peer_tls : bool; peer_sni : string;
  opt_verify_cert : bool; opt_verify_hostname : bool;
  opt_connection_timeout : option Duration; opt_total_connection_timeout : option Duration;
  opt_read_timeout : option Duration; opt_write_timeout : option Duration;
  opt_idle_timeout : option Duration;
  opt_ca : option (list Cert);
  client_cert_key : option (list Cert * Key)
}.

Definition resolve_one (host : string) (port : Z) : result SocketAddr TargetError :=
  let display := host +:+ ":" +:+ show_Z port in
  let? addresses := map_err (AddressResolution display) (to_socket_addrs host port) in
  ok_or (head addresses) (NoResolvedAddress display).

Definition validate_identity_pair (tls : TlsClientConfig) : result unit TargetError :=
  if negb (Bool.eqb (is_some (client_certificate tls)) (is_some (client_key tls)))
  then Err PartialClientIdentity else Ok tt.

Definition read_tls (path kind : string) : result string TargetError :=
  map_err (TlsFile kind path) (read_file path).

Definition load_ca (path : string) : result (list Cert) TargetError :=
  let? bytes := read_tls path "CA" in
  let? certificates := map_err (InvalidCa path) (certificates_from_pem bytes) in
  match certificates with
  | [] => Err (InvalidCa path "no certificates found")
  | _ => Ok certificates
  end.

Definition load_identity (certificate_path key_path : string) : result (list Cert * Key) TargetError :=
  let? certificate_bytes := read_tls certificate_path "client certificate" in
  let? certificates := map_err (InvalidClientCertificate certificate_path)
                         (certificates_from_pem certificate_bytes) in
  match certificates with
  | [] => Err (InvalidClientCertificate certificate_path "no certificates found")
  | _ =>
      let? key_bytes := read_tls key_path "client key" in
      let? key := map_err (InvalidClientKey key_path) (private_key_from_pem key_bytes) in
      Ok (certificates, key)
  end.

Definition http_peer (t : Target) (tls : TlsClientConfig) : result HttpPeer TargetError :=
  let? _ := if is_tls t then validate_identity_pair tls else Ok tt in
  let? addr := match t with
               | Tcp host port _ _ use_tls =>
                   let? address := resolve_one host port in Ok (inl address, use_tls, host)
               | Unix socket_path _ =>
                   if negb (utf8_valid socket_path) then Err InvalidUnixSocket
                   else let? _ := map_err UnixPeer (new_uds socket_path) in
                        Ok (inr socket_path, false, EmptyString)
               end in
  let? ca := if is_tls t then
               match ca_file tls with
               | Some path => let? c := load_ca path in Ok (Some c)
               | None => Ok None
               end
             else Ok None in
  let? identity := if is_tls t then
                     match client_certificate tls, client_key tls with
                     | Some cert_path, Some key_path =>
                         let? i := load_identity cert_path key_path in Ok (Some i)
                     | _, _ => Ok None
                     end
                   else Ok None in
  Ok (mkHttpPeer addr.1.1 addr.1.2 addr.2 (verify_cert tls) (verify_hostname tls)
        (connection_timeout tls) (total_connection_timeout tls) (read_timeout tls)
        (write_timeout tls) (idle_timeout tls) ca identity).

End Peers.
Arguments HttpPeer : clear implicits.

(** ** Requests *)

Section Requests.
Context `{HeaderLib} `{UrlLib} `{UriLib}.

(** [get_path]: WHATWG normalization of the request path, query kept. *)
Definition get_path (raw : string) : result string ProxyRequestError :=
  if is_empty raw || starts_with_char question raw then Ok raw
  else
    let absolute :=
      if starts_with "//" raw then "http://base.invalid" +:+ raw
      else "http://base.invalid/" +:+ trim_start_matches slash raw in
    let? parsed := map_err InvalidUri (url_parse absolute) in
    Ok match url_query parsed with
       | Some query => url_path parsed +:+ "?" +:+ query
       | None => url_path parsed
       end.

(** The part of the raw request the source forwards: all of it, or what follows
    as many bytes as the route key has UTF-16 units. *)
Definition forwarded_suffix (key : RouteKey) (options : ProxyOptions) (raw_request : string) : string :=
  if include_prefix options then raw_request
  else default EmptyString (get_from (utf16_len (as_str key)) raw_request).

Definition build_upstream_uri (route : UpstreamRoute) (request_uri : Uri) (options : ProxyOptions) :
    result Uri ProxyRequestError :=
  let raw_request := raw_path_and_query request_uri in
  let? request_path_and_query := get_path (forwarded_suffix (ur_key route) options raw_request) in
  let path_and_query :=
    if prepend_path options then url_join (target_path_of (ur_target route)) request_path_and_query
    else url_join "/" request_path_and_query in
  map_err InvalidUri (uri_parse path_and_query).

(** *** Headers *)

Definition connection_tokens (headers : HeaderMap) : list string :=
  List.filter (fun token => negb (is_empty token))
    (map trim (concat (map (split ",") (omap value_to_str (get_all CONNECTION headers))))).

Definition is_websocket_upgrade (headers : HeaderMap) : bool :=
  is_some_and (fun value => eq_ignore_ascii_case value "websocket")
    (value ← header_get UPGRADE headers; value_to_str value)
  && existsb (fun token => eq_ignore_ascii_case token "upgrade") (connection_tokens headers).

Definition hop_by_hop_names : list HeaderName :=
  [name_from_static "keep-alive"; name_from_static "proxy-connection";
   name_from_static "proxy-authorization"; name_from_static "proxy-authenticate";
   TE; TRAILER; TRANSFER_ENCODING].

Definition remove_all (names : list HeaderName) (headers : HeaderMap) : HeaderMap :=
  fold_left (fun h n => header_remove n h) names headers.

Definition remove_hop_by_hop (headers : HeaderMap) (websocket : bool) : HeaderMap :=
  let named :=
    omap name_from_bytes
      (List.filter (fun token => negb (websocket && eq_ignore_ascii_case token "upgrade"))
         (connection_tokens headers)) in
  let headers := remove_all named headers in
  let headers := remove_all hop_by_hop_names headers in
  if websocket then header_insert CONNECTION (value_from_static "upgrade") headers
  else header_remove UPGRADE (header_remove CONNECTION headers).

(** [BTreeMap<String, String>] in key order. *)
Definition btree_entries (m : gmap string string) : list (string * string) :=
  omap (fun k => v ← m !! k; Some (k, v)) (merge_sort string_le (map_to_list m).*1).

Definition parse_custom_header (nv : string * string) :
    result (HeaderName * HeaderValue) ProxyRequestError :=
  let? name := ok_or (name_from_bytes nv.1) (InvalidCustomHeaderName nv.1) in
  let? value := ok_or (value_from_str nv.2) (InvalidCustomHeaderValue nv.1) in
  Ok (name, value).

Definition insert_all (nvs : list (HeaderName * HeaderValue)) (headers : HeaderMap) : HeaderMap :=
  fold_left (fun h nv => header_insert nv.1 nv.2 h) nvs headers.

Definition X_FORWARDED_HOST : HeaderName := name_from_static "x-forwarded-host".

Definition apply_request_headers (headers : HeaderMap) (target : Target) (options : ProxyOptions) :
    result HeaderMap ProxyRequestError :=
  let original_host := header_get HOST headers in
  let? origin_host :=
    if change_origin options then
      let? v := ok_or (value_from_str (target_authority target)) (InvalidCustomHeaderValue "host") in
      Ok (Some v)
    else Ok None in
  let? custom_headers := collect parse_custom_header (btree_entries (custom_headers options)) in
  let websocket_upgrade := if is_websocket_upgrade headers then header_get UPGRADE headers else None in
  let headers := remove_hop_by_hop headers (is_some websocket_upgrade) in
  let headers :=
    if x_forward options && negb (contains_key X_FORWARDED_HOST headers) then
      match original_host with
      | Some host => header_insert X_FORWARDED_HOST host headers
      | None => headers
      end
    else headers in
  let headers := match origin_host with Some host => header_insert HOST host headers | None => headers end in
  let headers := insert_all custom_headers headers in
  let headers := remove_hop_by_hop headers false in
  Ok match websocket_upgrade with
     | Some upgrade =>
         header_insert UPGRADE upgrade (header_insert CONNECTION (value_from_static "upgrade") headers)
     | None => headers
     end.

(** The combined value of one forwarded header. *)
Definition forwarded_value (headers : HeaderMap) (name value : string) :
    result (HeaderName * HeaderValue) ProxyRequestError :=
  let? parts := collect (fun existing => ok_or (value_to_str existing) (InvalidCustomHeaderValue name))
                  (get_all (name_from_static name) headers) in
  let combined := join "," (parts ++ [value]) in
  let? value := ok_or (value_from_str combined) (InvalidCustomHeaderValue name) in
  Ok (name_from_static name, value).

Definition apply_forwarded_headers (headers : HeaderMap) (context : ForwardedContext)
    (options : ProxyOptions) : result HeaderMap ProxyRequestError :=
  if negb (x_forward options) then Ok headers
  else
    let? parsed := collect (fun nv => forwarded_value headers nv.1 nv.2)
      [("x-forwarded-for", client_address context);
       ("x-forwarded-port", show_Z (fwd_port context));
       ("x-forwarded-proto", fwd_protocol context)] in
    let forwarded_host :=
      if contains_key X_FORWARDED_HOST headers then None
      else Some (default (value_from_static EmptyString) (header_get HOST headers)) in
    let headers := insert_all parsed headers in
    Ok match forwarded_host with
       | Some host => header_insert X_FORWARDED_HOST host headers
       | None => headers
       end.

(** *** Redirects *)

Definition rewrite_host (request_headers : HeaderMap) (options : ProxyOptions) (parsed : Url) :
    result Url ProxyRequestError :=
  if auto_rewrite options then
    match header_get HOST request_headers with
    | Some host =>
        let? host := ok_or (value_to_str host) InvalidLocation in
        let? parsed := ok_or (set_host (host_name host) parsed) InvalidLocation in
        match host_port host with
        | Some port => ok_or (set_port port parsed) InvalidLocation
        | None => Ok parsed
        end
    | None => Ok parsed
    end
  else Ok parsed.

(** A failed [set_scheme] leaves the URL as it was. *)
Definition rewrite_protocol (options : ProxyOptions) (parsed : Url) : Url :=
  match protocol_rewrite options with
  | Some protocol =>
      match whatwg_scheme protocol with
      | Some protocol => default parsed (set_scheme protocol parsed)
      | None => parsed
      end
  | None => parsed
  end.

Definition rewrite_location (status : Z) (response_headers request_headers : HeaderMap)
    (target : Target) (options : ProxyOptions) : result HeaderMap ProxyRequestError :=
  if negb (is_redirect_rewrite_status status)
     || (negb (auto_rewrite options) && is_none (protocol_rewrite options))
  then Ok response_headers
  else
    match header_get LOCATION response_headers with
    | None => Ok response_headers
    | Some location =>
        let? location := ok_or (value_to_str location) InvalidLocation in
        match url_parse location with
        | Err _ => Ok response_headers
        | Ok parsed =>
            if negb (bool_decide (url_host parsed = Some (target_authority target)))
            then Ok response_headers
            else
              let? parsed := rewrite_host request_headers options parsed in
              let parsed := rewrite_protocol options parsed in
              let? value := ok_or (value_from_str (url_as_str parsed)) InvalidLocation in
              Ok (header_insert LOCATION value response_headers)
        end
    end.

End Requests.

(** ** Lemmas: joining paths *)

Definition drop_last_slash (s : string) : string :=
  if ends_with_char slash s then pop_byte s else s.
Definition drop_first_slash (s : string) : string :=
  match s with String c rest => if Ascii.eqb c slash then rest else s | EmptyString => EmptyString end.

Lemma is_empty_false s : is_empty s = false <-> s <> "".
Proof. by destruct s. Qed.

Lemma join_segment_first s : join_segment "" s = s.
Proof. destruct s; done. Qed.

(** Two non-empty segments meet in exactly one slash. *)
Lemma join_segment_slash a b :
  a <> "" -> b <> "" ->
  join_segment a b = drop_last_slash a +:+ str1 slash +:+ drop_first_slash b.
Proof.
  intros Ha Hb. unfold join_segment, drop_last_slash.
  apply is_empty_false in Ha as Ha'. apply is_empty_false in Hb as Hb'. rewrite Ha', Hb'.
  destruct b as [|c b]; [done|]. simpl starts_with_char. simpl drop_first_slash.
  destruct (Ascii.eqb c slash) eqn:Hc, (ends_with_char slash a) eqn:He; simpl.
  - apply ends_with_char_split in He. rewrite He at 1. rewrite <- str_app_assoc. simpl.
    by destruct b.
  - apply ascii_eqb_true in Hc as ->. done.
  - apply ends_with_char_split in He. rewrite He at 1. by rewrite <- str_app_assoc.
  - done.
Qed.

(** The path part of a join. *)
Definition joined_path (left right : string) : string :=
  match left, right with
  | EmptyString, _ => right
  | _, EmptyString => left
  | _, _ => drop_last_slash left +:+ str1 slash +:+ drop_first_slash right
  end.

Lemma join_paths left right :
  fold_left join_segment [left; right] "" = joined_path left right.
Proof.
  simpl. rewrite join_segment_first. destruct left as [|a left], right as [|b right]; try done.
  unfold joined_path. by apply join_segment_slash.
Qed.

(** ** Lemmas: header passes *)

Section HeaderLemmas.
Context `{HeaderLaws}.
Set Default Proof Using "Type*".

Lemma get_all_remove_all n ns h :
  get_all n (remove_all ns h) = if decide (n ∈ ns) then [] else get_all n h.
Proof.
  unfold remove_all. revert h. induction ns as [|m ns IH]; intros h; cbn [fold_left].
  { rewrite decide_False; [done|]. set_solver. }
  rewrite IH, get_all_remove. destruct (decide (n ∈ m :: ns)) as [Hin|Hin].
  - apply elem_of_cons in Hin as [->|Hin]; [rewrite (decide_True (P := m = m)) by done|].
    + by case_decide.
    + by rewrite (decide_True (P := n ∈ ns)).
  - rewrite (decide_False (P := n ∈ ns)) by set_solver. rewrite decide_False; [done|]. set_solver.
Qed.

Lemma static_ne a b : a <> b -> name_from_static a <> name_from_static b.
Proof. intros Hne Heq. by apply name_from_static_inj in Heq. Qed.

Lemma remove_hop_by_hop_false h n :
  n ∈ hop_by_hop_names \/ n = CONNECTION \/ n = UPGRADE -> get_all n (remove_hop_by_hop h false) = [].
Proof.
  intros Hn. unfold remove_hop_by_hop. rewrite !get_all_remove, get_all_remove_all.
  destruct Hn as [Hn|[->| ->]].
  - repeat case_decide; done.
  - repeat case_decide; done.
  - by rewrite decide_True.
Qed.

Lemma hop_names_not_connection n :
  n ∈ hop_by_hop_names -> n <> CONNECTION /\ n <> UPGRADE.
Proof.
  unfold hop_by_hop_names, TE, TRAILER, TRANSFER_ENCODING, CONNECTION, UPGRADE.
  intros Hn. split; repeat (apply elem_of_cons in Hn as [->|Hn]; [by apply static_ne|]); by inversion Hn.
Qed.

Lemma get_all_insert_all n nvs h :
  n ∉ nvs.*1 -> get_all n (insert_all nvs h) = get_all n h.
Proof.
  unfold insert_all. revert h. induction nvs as [|[m v] nvs IH]; intros h Hn; simpl; [done|].
  rewrite IH by set_solver. rewrite get_all_insert. rewrite decide_False; [done|]. set_solver.
Qed.

(** *** What survives a hop-by-hop pass *)

(** The names the [Connection] header nominates. *)
Definition nominated (h : HeaderMap) : list HeaderName := omap name_from_bytes (connection_tokens h).

Lemma remove_hop_by_hop_keeps h n :
  n ∉ hop_by_hop_names -> n <> CONNECTION -> n <> UPGRADE ->
  get_all n (remove_hop_by_hop h false) = if decide (n ∈ nominated h) then [] else get_all n h.
Proof.
  intros Hh Hc Hu. unfold remove_hop_by_hop.
  rewrite !get_all_remove, !get_all_remove_all.
  rewrite (decide_False (P := n = UPGRADE)), (decide_False (P := n = CONNECTION)),
    (decide_False (P := n ∈ hop_by_hop_names)) by done.
  assert (Hf : List.filter (fun token => negb (false && eq_ignore_ascii_case token "upgrade"))
    (connection_tokens h) = connection_tokens h).
  { simpl. induction (connection_tokens h) as [|t l IH]; simpl; [done|]. by rewrite IH. }
  rewrite Hf. done.
Qed.

Lemma remove_hop_by_hop_websocket_keeps h n :
  n ∉ hop_by_hop_names -> n <> CONNECTION -> n <> UPGRADE ->
  get_all n (remove_hop_by_hop h true) = if decide (n ∈ nominated h) then [] else get_all n h.
Proof.
  intros Hh Hc Hu. unfold remove_hop_by_hop.
  rewrite get_all_insert, !get_all_remove_all.
  rewrite (decide_False (P := n = CONNECTION)), (decide_False (P := n ∈ hop_by_hop_names)) by done.
  apply decide_ext. unfold nominated. rewrite !list_elem_of_omap.
  split; intros (t & Ht & Heq); exists t; split; try done.
  - apply list_elem_of_In, filter_In in Ht as [Ht _]. by apply list_elem_of_In.
  - apply list_elem_of_In, filter_In. split; [by apply list_elem_of_In|]. simpl.
    apply negb_true_iff. destruct (eq_ignore_ascii_case t "upgrade") eqn:He; [|done].
    destruct Hu. unfold UPGRADE. apply name_from_bytes_static in Heq as ->. f_equal.
    unfold eq_ignore_ascii_case in He. by apply String.eqb_eq in He.
Qed.

Lemma tokens_of_static_upgrade h :
  get_all CONNECTION h = [value_from_static "upgrade"] -> connection_tokens h = ["upgrade"].
Proof.
  intros Hc. unfold connection_tokens. rewrite Hc. cbn [omap list_omap].
  rewrite static_value_to_str by reflexivity. reflexivity.
Qed.

Lemma tokens_of_none h : get_all CONNECTION h = [] -> connection_tokens h = [].
Proof. intros Hc. unfold connection_tokens. by rewrite Hc. Qed.

End HeaderLemmas.

(** ** Lemmas: prefixes *)

Lemma utf16_len_ascii s : all_chars (fun c => code c <? 128) s = true -> utf16_len s = String.length s.
Proof.
  induction s as [|c s IH]; simpl; [done|]. intros Hs. bool_simp. rewrite IH by done.
  unfold is_cont, byte_in. destruct (128 <=? code c) eqn:H1; bool_simp; [lia|]. simpl.
  destruct (240 <=? code c) eqn:H2; bool_simp; lia.
Qed.

(** ** Theorems *)

Section TargetTheorems.
Context `{UrlLaws}.
Set Default Proof Using "Type*".

(** Every target the configuration accepts can be used as an upstream: the
    two validators, written separately, agree, for TCP and Unix targets alike. *)
Theorem configured_targets_parse value kind url :
  parse_target value kind = Ok (Some url) -> exists t, target_parse url = Ok t.
Proof.
  intros Hv%parse_target_valid. unfold target_parse.
  destruct (Hv url eq_refl) as [[Hs (h & Hh & Hne)]|[Hs Hsock]].
  - replace (String.eqb (scheme url) "http" || String.eqb (scheme url) "https") with true
      by (destruct Hs as [-> | ->]; reflexivity).
    rewrite Hh. simpl.
    assert (Hub : is_empty (unbracket h) = false).
    { apply is_empty_false. unfold unbracket. destruct (strip_prefix "[" h) as [r|] eqn:Hp; [|done].
      simpl. destruct (strip_suffix "]" r) as [r'|] eqn:Hr; [|done]. simpl. intros ->.
      apply strip_prefix_Some in Hp as ->. apply strip_suffix_Some in Hr as ->.
      by apply (host_not_bare_brackets url). }
    rewrite Hub. simpl. destruct (http_known_port url Hs) as [p ->]. simpl. eauto.
  - destruct (socket_host_sound _ Hsock) as (path & Hd & H1 & H2 & H3).
    destruct Hs as [-> | ->]; simpl; rewrite Hd; simpl; rewrite H1, H2, H3; simpl; eauto.
Qed.

End TargetTheorems.

(** [url_join] in closed form: the two paths meet in exactly one slash, an
    empty one disappears, and the non-empty queries follow in order. *)
Theorem url_join_spec left_path left_query right_path right_query :
  contains_char question left_path = false -> contains_char question right_path = false ->
  let with_query p q := match q with Some q => p +:+ str1 question +:+ q | None => p end in
  url_join (with_query left_path left_query) (with_query right_path right_query) =
  let queries := List.filter (fun q => negb (is_empty q)) (omap id [left_query; right_query]) in
  joined_path left_path right_path +:+
    match queries with [] => EmptyString | _ => str1 question +:+ join "&" queries end.
Proof.
  intros Hl Hr with_query.
  assert (Hsplit : forall p q, contains_char question p = false -> split_query (with_query p q) = (p, q)).
  { intros p [q|] Hp; unfold split_query, with_query.
    - simpl. by rewrite split_once_app.
    - by rewrite (proj2 (split_once_None question p)). }
  unfold url_join. rewrite !Hsplit by done. rewrite join_paths.
  destruct (List.filter _ _); [by rewrite str_app_nil_r|done].
Qed.

Lemma url_join_spec_witness :
  url_join "/base/?a=1" "/user?b=2" = "/base/user?a=1&b=2".
Proof.
  exact (url_join_spec "/base/" (Some "a=1") "/user" (Some "b=2") eq_refl eq_refl).
Defined.

(** With prefix stripping on, the part of a request under an ASCII route key
    that is forwarded is exactly what follows the key, unless that would split a
    character. *)
Theorem prefix_stripping_is_exact key options rest :
  include_prefix options = false ->
  all_chars (fun c => code c <? 128) (as_str key) = true ->
  match rest with String c _ => is_cont c = false | EmptyString => True end ->
  forwarded_suffix key options (as_str key +:+ rest) = rest.
Proof.
  intros Ho Hk Hr. unfold forwarded_suffix, get_from. rewrite Ho, utf16_len_ascii by done.
  rewrite drop_bytes_app. destruct rest as [|c rest]; [done|]. by rewrite Hr.
Qed.

Definition sample_options (change xfwd prefix : bool) : ProxyOptions := {|
  x_forward := xfwd; prepend_path := true; include_prefix := prefix; auto_rewrite := true;
  change_origin := change; protocol_rewrite := None; custom_headers := ∅;
  verify_upstream_tls := true; host_routing := false; timeout_ms := None;
  proxy_timeout_ms := None; keep_alive_timeout_ms := None |}.

Lemma prefix_stripping_is_exact_witness :
  forwarded_suffix (normalize "/user/alice") (sample_options false false false) "/user/alice/tree?x=1"
  = "/tree?x=1".
Proof.
  apply (prefix_stripping_is_exact (normalize "/user/alice") (sample_options false false false) "/tree?x=1");
    reflexivity.
Defined.

Section HeaderTheorems.
Context `{HeaderLaws} `{UrlLib}.
Set Default Proof Using "Type*".

(** What a request pass leaves of the hop-by-hop headers. *)
Lemma request_headers_stripped headers target options headers' :
  apply_request_headers headers target options = Ok headers' ->
  (forall n, n ∈ hop_by_hop_names -> get_all n headers' = []) /\
  (if is_websocket_upgrade headers
   then exists v, header_get UPGRADE headers = Some v /\ get_all UPGRADE headers' = [v] /\
          get_all CONNECTION headers' = [value_from_static "upgrade"]
   else get_all UPGRADE headers' = [] /\ get_all CONNECTION headers' = []).
Proof.
  unfold apply_request_headers. intros Hok. inv_ok Hok.
  remember (insert_all _ _) as h2. injection Hok as <-.
  assert (Hne : UPGRADE <> CONNECTION) by by apply static_ne.
  destruct (is_websocket_upgrade headers) eqn:Hws.
  - unfold is_websocket_upgrade in Hws. apply andb_true_iff in Hws as [Hup _].
    destruct (header_get UPGRADE headers) as [v|]; [|done]. split.
    + intros n Hn. destruct (hop_names_not_connection n Hn). rewrite !get_all_insert, !decide_False by done.
      apply remove_hop_by_hop_false. by left.
    + exists v. rewrite !get_all_insert. rewrite decide_True by done.
      rewrite (decide_False (P := CONNECTION = UPGRADE)) by (by apply not_eq_sym).
      by rewrite decide_True by done.
  - split; [|split]; intros; apply remove_hop_by_hop_false; auto.
Qed.

(** An element of a [Connection] header, without the white space around it. *)
Definition connection_part (h : HeaderMap) (part : string) : Prop :=
  exists v text raw, v ∈ get_all CONNECTION h /\ value_to_str v = Some text /\ raw ∈ split "," text /\ part = trim raw.

(** A header the sender says is for this hop only. *)
Definition nominates (h : HeaderMap) (n : HeaderName) : Prop :=
  exists part, connection_part h part /\ part <> "" /\ name_from_bytes part = Some n.

(** A request to switch to WebSocket, with the value of its [Upgrade] header. *)
Definition asks_upgrade (h : HeaderMap) (v : HeaderValue) : Prop :=
  header_get UPGRADE h = Some v /\
  (exists text, value_to_str v = Some text /\ to_ascii_lowercase text = "websocket") /\
  exists part, connection_part h part /\ to_ascii_lowercase part = "upgrade".

(** What the proxy sets itself after the client's headers are stripped. *)
Definition set_by_proxy (options : ProxyOptions) (n : HeaderName) : Prop :=
  (change_origin options = true /\ n = HOST) \/ (x_forward options = true /\ n = X_FORWARDED_HOST) \/
  exists k v, custom_headers options !! k = Some v /\ name_from_bytes k = Some n.

Lemma connection_tokens_spec h part : part ∈ connection_tokens h <-> connection_part h part /\ part <> "".
Proof.
  unfold connection_tokens, connection_part. rewrite list_elem_of_In, filter_In, in_map_iff. split.
  - intros [(raw & <- & Hin) Hne]. apply in_concat in Hin as (parts & (text & <- & Ht)%in_map_iff & Hraw).
    apply list_elem_of_In, list_elem_of_omap in Ht as (v & Hv & Htext). split.
    + exists v, text, raw. split_and!; [done|done|by apply list_elem_of_In|done].
    + intros Heq. by rewrite Heq in Hne.
  - intros [(v & text & raw & Hv & Ht & Hraw & ->) Hne]. split; [|by destruct (trim raw)].
    exists raw. split; [done|]. apply in_concat. exists (split "," text). split; [|by apply list_elem_of_In].
    apply in_map, list_elem_of_In, list_elem_of_omap. eauto.
Qed.

Lemma nominated_spec h n : n ∈ nominated h <-> nominates h n.
Proof.
  unfold nominated, nominates. rewrite list_elem_of_omap. split.
  - intros (part & [Hp Hne]%connection_tokens_spec & Hn). eauto.
  - intros (part & Hp & Hne & Hn). exists part. split; [|done]. by apply connection_tokens_spec.
Qed.

Lemma is_websocket_upgrade_spec h : is_websocket_upgrade h = true <-> exists v, asks_upgrade h v.
Proof.
  unfold is_websocket_upgrade, asks_upgrade, eq_ignore_ascii_case. rewrite andb_true_iff, existsb_exists. split.
  - intros [Hup (part & Hin & Heq)]. destruct (header_get UPGRADE h) as [v|]; [|done]. simpl in Hup.
    destruct (value_to_str v) as [text|] eqn:Ht; [|done]. simpl in Hup. apply String.eqb_eq in Hup, Heq.
    apply list_elem_of_In, connection_tokens_spec in Hin as [Hp _]. exists v. split_and!; eauto.
  - intros (v & -> & (text & Ht & Htext) & part & Hp & Hpart). simpl. rewrite Ht. simpl. rewrite Htext. split; [done|].
    exists part. rewrite Hpart. split; [|done]. apply list_elem_of_In, connection_tokens_spec. split; [done|]. by intros ->.
Qed.

Lemma btree_entries_lookup m k v : (k, v) ∈ btree_entries m -> m !! k = Some v.
Proof.
  unfold btree_entries. intros (k' & _ & Hk)%list_elem_of_omap. simpl in Hk.
  destruct (m !! k') as [v'|] eqn:Hm; simpl in Hk; by simplify_eq.
Qed.

Lemma custom_names options nvs n :
  collect parse_custom_header (btree_entries (custom_headers options)) = Ok nvs -> n ∈ nvs.*1 -> set_by_proxy options n.
Proof.
  intros Hc%collect_Ok_Forall2 ([n' v'] & -> & Hin)%list_elem_of_fmap. right; right.
  apply list_elem_of_lookup in Hin as [i Hi]. destruct (Forall2_lookup_r _ _ _ _ _ Hc Hi) as ([k v] & Hk & Hp).
  exists k, v. split; [by apply btree_entries_lookup, (list_elem_of_lookup_2 _ i)|].
  unfold parse_custom_header in Hp. inv_ok Hp. apply ok_or_Ok in E. by injection Hp as -> _.
Qed.

(** A header the client nominated is not forwarded, unless the proxy sets it. *)
Lemma nominated_headers_stripped headers target options headers' n :
  apply_request_headers headers target options = Ok headers' ->
  nominates headers n -> n <> CONNECTION -> n <> UPGRADE -> ~ set_by_proxy options n -> get_all n headers' = [].
Proof.
  intros Hok Hnom Hc Hu Hset. destruct (decide (n ∈ hop_by_hop_names)) as [Hh|Hh].
  { by apply (request_headers_stripped _ _ _ _ Hok). }
  unfold apply_request_headers in Hok. inv_ok Hok. injection Hok as <-.
  apply nominated_spec in Hnom.
  set (ws := if is_websocket_upgrade headers then header_get UPGRADE headers else None).
  set (h1 := remove_hop_by_hop headers (is_some ws)).
  assert (Hget1 : get_all n h1 = []).
  { subst h1. destruct (is_some ws); [rewrite remove_hop_by_hop_websocket_keeps by done|rewrite remove_hop_by_hop_keeps by done];
      by rewrite decide_True. }
  set (h2 := if x_forward options && _ then _ else h1).
  assert (Hget2 : get_all n h2 = []).
  { subst h2. destruct (x_forward options) eqn:Hx; [|done]. simpl. destruct (negb _); [|done].
    destruct (header_get HOST headers); [|done]. rewrite get_all_insert, decide_False; [done|].
    intros ->. apply Hset. right; by left. }
  set (h3 := match r with Some host => header_insert HOST host h2 | None => h2 end).
  assert (Hget3 : get_all n h3 = []).
  { subst h3. destruct r as [host|]; [|done]. rewrite get_all_insert, decide_False; [done|]. intros ->. apply Hset. left.
    split; [|done]. by destruct (change_origin options). }
  assert (Hget4 : get_all n (remove_hop_by_hop (insert_all r0 h3) false) = []).
  { rewrite remove_hop_by_hop_keeps by done. case_decide; [done|]. rewrite get_all_insert_all; [done|].
    intros Hin. by eapply Hset, custom_names. }
  destruct ws; [|exact Hget4]. by rewrite !get_all_insert, !decide_False.
Qed.

Lemma forwarding_keeps headers context options headers' n :
  apply_forwarded_headers headers context options = Ok headers' ->
  n ∉ map name_from_static ["x-forwarded-for"; "x-forwarded-port"; "x-forwarded-proto"; "x-forwarded-host"] ->
  get_all n headers' = get_all n headers.
Proof.
  unfold apply_forwarded_headers. destruct (x_forward options); simpl negb; cbv iota; [|by intros [= ->]].
  intros Hok Hn. inv_ok Hok. apply collect_Ok_Forall2 in E.
  assert (Hnames : forall nv name value, forwarded_value headers name value = Ok nv -> nv.1 = name_from_static name).
  { intros nv name value Hv. unfold forwarded_value in Hv. inv_ok Hv. by injection Hv as <-. }
  assert (Hin : get_all n (insert_all r headers) = get_all n headers).
  { apply get_all_insert_all. intros (nv & -> & Hnv)%list_elem_of_fmap.
    apply list_elem_of_lookup in Hnv as [i Hi]. destruct (Forall2_lookup_r _ _ _ _ _ E Hi) as (x & Hx & Hv).
    apply Hnames in Hv. rewrite Hv in Hn. apply list_elem_of_lookup_2 in Hx.
    apply Hn. rewrite !elem_of_cons in Hx. simpl. rewrite !elem_of_cons.
    destruct Hx as [->|[->|[->|Hx]]]; [by left|by right; left|by right; right; left|by inversion Hx]. }
  destruct (contains_key _ headers); injection Hok as <-; [done|].
  rewrite get_all_insert, decide_False; [done|]. intros ->. apply Hn. simpl. rewrite !elem_of_cons. right; right; right; by left.
Qed.

(** The [Host] an upstream sees: the target's authority under
    [--change-origin], otherwise the client's own header, unless its
    [Connection] header nominated it. *)
Theorem upstream_host_policy headers target options headers' :
  custom_headers options = ∅ ->
  apply_request_headers headers target options = Ok headers' ->
  if change_origin options
  then exists v, get_all HOST headers' = [v] /\ value_as_bytes v = target_authority target
  else get_all HOST headers' = (if decide (HOST ∈ nominated headers) then [] else get_all HOST headers).
Proof.
  intros Hcust. unfold apply_request_headers. rewrite Hcust.
  change (btree_entries ∅) with (@nil (string * string)). intros Hok. inv_ok Hok.
  apply Ok_inj in E0 as <-. apply Ok_inj in Hok as <-.
  assert (Hd : (HOST ∉ hop_by_hop_names) /\ HOST <> CONNECTION /\ HOST <> UPGRADE /\ HOST <> X_FORWARDED_HOST).
  { split_and!; try by apply static_ne. unfold hop_by_hop_names, TE, TRAILER, TRANSFER_ENCODING.
    intros Hn. repeat (apply elem_of_cons in Hn as [Hn|Hn]; [revert Hn; by apply static_ne|]). by inversion Hn. }
  destruct Hd as (Hhop & Hcon & Hup & Hxf).
  set (ws := if is_websocket_upgrade headers then header_get UPGRADE headers else None).
  set (h1 := remove_hop_by_hop headers (is_some ws)).
  set (h2 := if x_forward options && _ then _ else h1).
  set (h3 := match r with Some host => header_insert HOST host h2 | None => h2 end).
  assert (Hfin : forall h, get_all HOST match ws with Some u => header_insert UPGRADE u
    (header_insert CONNECTION (value_from_static "upgrade") h) | None => h end = get_all HOST h).
  { intros h. destruct ws; [|done]. rewrite !get_all_insert, !decide_False by done. done. }
  assert (Hc3 : get_all CONNECTION h3 = get_all CONNECTION h1).
  { unfold h3, h2. destruct r; rewrite ?get_all_insert, ?decide_False by (by apply not_eq_sym || done);
      (destruct (x_forward options && _); [|done]); (destruct (header_get HOST headers); [|done]);
      rewrite get_all_insert, decide_False; (done || by apply static_ne). }
  assert (Hnom : HOST ∉ nominated h3).
  { unfold nominated. destruct ws as [u|] eqn:Hws.
    - rewrite (tokens_of_static_upgrade h3).
      + rewrite list_elem_of_omap. intros (t & Ht & Hn). apply list_elem_of_singleton in Ht as ->.
        apply name_from_bytes_static in Hn. by apply static_ne in Hn.
      + rewrite Hc3. unfold h1, remove_hop_by_hop. simpl. by rewrite get_all_insert, decide_True.
    - rewrite (tokens_of_none h3); [by inversion 1|]. rewrite Hc3.
      apply remove_hop_by_hop_false. auto. }
  change (insert_all [] h3) with h3. rewrite Hfin, remove_hop_by_hop_keeps, decide_False by done.
  unfold h3. destruct (change_origin options); simplify_eq/=.
  - inv_ok E. apply ok_or_Ok in E0. injection E as <-. exists r0.
    rewrite get_all_insert, decide_True by done. split; [done|]. by apply value_bytes.
  - assert (Hh2 : get_all HOST h2 = get_all HOST h1).
    { unfold h2. destruct (x_forward options && _); [|done]. destruct (header_get HOST headers); [|done].
      by rewrite get_all_insert, decide_False. }
    rewrite Hh2. unfold h1. destruct ws; simpl.
    + by apply remove_hop_by_hop_websocket_keeps.
    + by apply remove_hop_by_hop_keeps.
Qed.

(** Forwarding appends to what the client claims and forges nothing else:
    each of the three headers holds the earlier values joined with ours, an
    existing [X-Forwarded-Host] is kept, and no other header changes. *)
Theorem forwarded_headers_append headers context options headers' :
  x_forward options = true ->
  apply_forwarded_headers headers context options = Ok headers' ->
  (forall name value, (name, value) ∈
      [("x-forwarded-for", client_address context); ("x-forwarded-port", show_Z (fwd_port context));
       ("x-forwarded-proto", fwd_protocol context)] ->
    exists parts v, Forall2 (fun e p => value_to_str e = Some p) (get_all (name_from_static name) headers) parts /\
      get_all (name_from_static name) headers' = [v] /\ value_as_bytes v = join "," (parts ++ [value])) /\
  (contains_key X_FORWARDED_HOST headers = true ->
     get_all X_FORWARDED_HOST headers' = get_all X_FORWARDED_HOST headers) /\
  (forall n, n ∉ map name_from_static
      ["x-forwarded-for"; "x-forwarded-port"; "x-forwarded-proto"; "x-forwarded-host"] ->
    get_all n headers' = get_all n headers).
Proof.
  intros Hx. unfold apply_forwarded_headers. rewrite Hx. simpl negb. cbv iota.
  assert (Hval : forall name value nv, forwarded_value headers name value = Ok nv ->
    nv.1 = name_from_static name /\ exists parts,
      Forall2 (fun e p => value_to_str e = Some p) (get_all (name_from_static name) headers) parts /\
      value_as_bytes nv.2 = join "," (parts ++ [value])).
  { intros name value nv. unfold forwarded_value. intros Hok. inv_ok Hok. injection Hok as <-.
    split; [done|]. exists r. apply ok_or_Ok in E0. split; [|by apply value_bytes].
    apply collect_Ok_Forall2 in E. eapply Forall2_impl; [exact E|]. intros e p He. by apply ok_or_Ok in He. }
  intros Hok. inv_ok Hok. apply collect_Ok_Forall2 in E.
  apply Forall2_cons_inv_l in E as (a & ? & Ha & E & ->).
  apply Forall2_cons_inv_l in E as (b & ? & Hb & E & ->).
  apply Forall2_cons_inv_l in E as (c & ? & Hc & E & ->).
  apply Forall2_nil_inv_l in E as ->. simpl in Ha, Hb, Hc.
  apply Hval in Ha as (Ha & Pa), Hb as (Hb & Pb), Hc as (Hc & Pc).
  set (h1 := insert_all _ _) in Hok.
  assert (Hget : forall n, get_all n h1 =
    if decide (n = name_from_static "x-forwarded-proto") then [c.2] else
    if decide (n = name_from_static "x-forwarded-port") then [b.2] else
    if decide (n = name_from_static "x-forwarded-for") then [a.2] else get_all n headers).
  { intros n. unfold h1, insert_all. simpl. by rewrite Ha, Hb, Hc, !get_all_insert. }
  assert (Hh : forall n, n <> X_FORWARDED_HOST -> get_all n headers' = get_all n h1).
  { intros n Hn. injection Hok as <-. destruct (contains_key _ _); [done|].
    by rewrite get_all_insert, decide_False. }
  split_and!.
  - intros name value Hin. repeat (apply elem_of_cons in Hin as [[= -> ->]|Hin]); [..|by inversion Hin];
      rewrite Hh by (by apply static_ne); rewrite Hget;
      rewrite ?decide_True by done; rewrite ?decide_False by (by apply static_ne);
      rewrite ?decide_True by done.
    + destruct Pa as (ps & ? & ?). by exists ps, a.2.
    + destruct Pb as (ps & ? & ?). by exists ps, b.2.
    + destruct Pc as (ps & ? & ?). by exists ps, c.2.
  - intros Hk. rewrite Hk in Hok. injection Hok as <-. rewrite Hget.
    by rewrite !decide_False by (by apply static_ne).
  - intros n Hn. simpl in Hn. rewrite Hh by set_solver. rewrite Hget.
    by rewrite !decide_False by set_solver.
Qed.

(** Redirect rewriting touches nothing but the [Location] of a redirect
    that points at the target itself. *)
Theorem location_rewrite_is_confined status resp req target options resp' :
  rewrite_location status resp req target options = Ok resp' ->
  resp' = resp \/
  (is_redirect_rewrite_status status = true /\
   (exists location text parsed, header_get LOCATION resp = Some location /\
      value_to_str location = Some text /\ url_parse text = Ok parsed /\
      url_host parsed = Some (target_authority target)) /\
   forall n, n <> LOCATION -> get_all n resp' = get_all n resp).
Proof.
  unfold rewrite_location. destruct (is_redirect_rewrite_status status); simpl; [|intros [= <-]; by left].
  case_match; [intros [= <-]; by left|].
  destruct (header_get LOCATION resp) as [location|]; [|intros [= <-]; by left].
  destruct (value_to_str location) as [text|] eqn:Ht; [|done]. simpl.
  destruct (url_parse text) as [parsed|] eqn:Hp; [|intros [= <-]; by left].
  case_bool_decide as Hh; simpl; [|intros [= <-]; by left].
  intros Hok. inv_ok Hok. injection Hok as <-. right. split_and!.
  - done.
  - by exists location, text, parsed.
  - intros n Hn. by rewrite get_all_insert, decide_False.
Qed.

End HeaderTheorems.

(** ** Witnesses over the executable libraries *)

Definition socket_url : SimpleHttp.SimpleUrl :=
  SimpleHttp.mkUrl "http+unix" "%2Ftmp%2Fs.sock" None "/base" None.

Lemma configured_targets_parse_witness :
  exists t, target_parse (H := SimpleHttp.urls) socket_url = Ok t /\ unix_path t = Some "/tmp/s.sock".
Proof.
  assert (Hp : parse_target (H := SimpleHttp.urls) (Some "http+unix://%2Ftmp%2Fs.sock/base") "default target"
    = Ok (Some socket_url)) by (vm_compute; reflexivity).
  assert (Ht : target_parse (H := SimpleHttp.urls) socket_url = Ok (Unix "/tmp/s.sock" "/base"))
    by (vm_compute; reflexivity).
  destruct (configured_targets_parse _ _ _ Hp) as (t & Ht').
  exists t. split; [exact Ht'|]. rewrite Ht in Ht'. injection Ht' as <-. reflexivity.
Defined.

Definition ws_request : list (string * string) :=
  [("host", "public.example"); ("connection", "keep-alive, Upgrade, X-Drop"); ("upgrade", "WebSocket");
   ("x-drop", "1"); ("te", "trailers"); ("x-keep", "2")].

Definition sample_target : Target := Tcp "up" 8080 "up:8080" "/base" false.

Definition ws_forwarded : list (string * string) :=
  match apply_request_headers ws_request sample_target (sample_options true false true) with
  | Ok h => h | Err _ => [] end.

Lemma upstream_host_policy_witness :
  exists v, get_all (HeaderLib := SimpleHttp.headers) "host" ws_forwarded = [v] /\ v = "up:8080".
Proof.
  assert (Hok : apply_request_headers ws_request sample_target (sample_options true false true) = Ok ws_forwarded)
    by (vm_compute; reflexivity).
  exact (upstream_host_policy (H := SimpleHttp.headers) ws_request sample_target (sample_options true false true) ws_forwarded eq_refl Hok).
Defined.

Definition sample_context : ForwardedContext := mkForwardedContext "10.0.0.9" 443 "https".

Definition xf_request : list (string * string) := [("host", "public.example"); ("x-forwarded-for", "1.2.3.4")].

Definition xf_forwarded : list (string * string) :=
  match apply_forwarded_headers xf_request sample_context (sample_options true true true) with
  | Ok h => h | Err _ => [] end.

Lemma forwarded_headers_append_witness :
  get_all (HeaderLib := SimpleHttp.headers) "host" xf_forwarded = ["public.example"] /\
  get_all (HeaderLib := SimpleHttp.headers) "x-forwarded-for" xf_forwarded = ["1.2.3.4,10.0.0.9"].
Proof.
  assert (Hok : apply_forwarded_headers xf_request sample_context (sample_options true true true) = Ok xf_forwarded)
    by (vm_compute; reflexivity).
  split; [|vm_compute; reflexivity].
  destruct (forwarded_headers_append (H := SimpleHttp.headers) xf_request sample_context (sample_options true true true) xf_forwarded
    eq_refl Hok) as (_ & _ & Hn).
  apply (Hn "host"). simpl. rewrite !elem_of_cons.
  intros [H|[H|[H|[H|H]]]]; try discriminate H. by inversion H.
Defined.

Definition redirect_response : list (string * string) := [("location", "http://up:8080/next"); ("x", "y")].

Definition redirect_rewritten : list (string * string) :=
  match rewrite_location 302 redirect_response ws_request sample_target (sample_options true true true) with
  | Ok h => h | Err _ => [] end.

Lemma location_rewrite_is_confined_witness :
  get_all (HeaderLib := SimpleHttp.headers) "location" redirect_rewritten = ["http://public.example:8080/next"] /\
  get_all (HeaderLib := SimpleHttp.headers) "x" redirect_rewritten
    = get_all (HeaderLib := SimpleHttp.headers) "x" redirect_response.
Proof.
  assert (Hok : rewrite_location 302 redirect_response ws_request sample_target (sample_options true true true)
    = Ok redirect_rewritten) by (vm_compute; reflexivity).
  split; [vm_compute; reflexivity|].
  destruct (location_rewrite_is_confined (H := SimpleHttp.headers) 302 redirect_response ws_request sample_target
    (sample_options true true true) redirect_rewritten Hok) as [Heq|(_ & _ & Hn)].
  - by rewrite Heq.
  - apply Hn. discriminate.
Defined.
