(* ===== verification/Errors.v ===== *)
(** * Error pages (src/errors.rs)

    What a client sees when the proxy cannot forward: the page of a custom error
    service, a file, or the built-in text, each bounded in size.  The custom
    service is reached through a resolver whose cache entry is pinned by a lease
    while an attempt uses it.  Bytes are strings; the [httparse] crate and what the
    network delivers are parameters. *)

From S2P Require Import Prelude RustStr Percent Http Config Upstream.

(** ** Constants *)

Definition MAX_ERROR_HEADER_BYTES : Z := 16 * 1024.
Definition MAX_ERROR_BODY_BYTES : Z := 1024 * 1024.
Definition MAX_UNIX_WIRE_BYTES : Z := MAX_ERROR_HEADER_BYTES + MAX_ERROR_BODY_BYTES + 64 * 1024.
Definition MAX_RESOLVED_ADDRESSES : nat := 16.
Definition RESOLVER_QUEUE_CAPACITY : nat := 8.
Definition RESOLVER_CACHE_TTL : Duration := from_secs 30.

Definition len (s : string) : Z := Z.of_nat (String.length s).

Definition crlf : string := String (chr 13) (str1 (chr 10)).
Definition header_terminator : string := crlf +:+ crlf.

(** ** Slices *)

(** [windows(n).position(|bytes| bytes == pat)] for a non-empty [pat] of length [n]. *)
Fixpoint position (pat s : string) : option nat :=
  if starts_with pat s then Some 0%nat
  else match s with
       | EmptyString => None
       | String _ rest => S <$> position pat rest
       end.

(** [slice.get(..n)] *)
Definition get_to (n : Z) (s : string) : option string :=
  if n <=? len s then Some (take_bytes (Z.to_nat n) s) else None.

(** [slice.get(n..)] *)
Definition get_after (n : Z) (s : string) : option string :=
  if n <=? len s then drop_bytes (Z.to_nat n) s else None.

(** ** Chunked bodies *)

Fixpoint hex_digits_value (acc : Z) (s : string) : option Z :=
  match s with
  | EmptyString => Some acc
  | String c rest => d ← hex c; hex_digits_value (acc * 16 + d) rest
  end.

(** [usize::from_str_radix(_, 16)] *)
Definition from_str_radix_16 (s : string) : option Z :=
  let digits := match s with String "+" rest => rest | _ => s end in
  if is_empty digits then None
  else opt_filter (fun n => n <=? usize_max) (hex_digits_value 0 digits).

(** The size on a chunk's line, its extensions dropped. *)
Definition chunk_size (line : string) : option Z :=
  text ← from_utf8 line;
  value ← head (split ";" text);
  from_str_radix_16 (trim value).

(** The loop; [fuel] bounds the chunks, of which there are fewer than bytes. *)
Fixpoint decode_chunked_loop (fuel : nat) (input output : string) : option string :=
  match fuel with
  | O => None
  | S fuel =>
      line_end ← position crlf input;
      size ← chunk_size (take_bytes line_end input);
      input ← drop_bytes (line_end + 2) input;
      if size =? 0 then if starts_with crlf input then Some output else None
      else
        chunk ← get_to size input;
        let output := output +:+ chunk in
        if MAX_ERROR_BODY_BYTES <? len output then None
        else
          input ← get_after size input;
          input ← strip_prefix crlf input;
          decode_chunked_loop fuel input output
  end.

Definition decode_chunked (input : string) : option string :=
  decode_chunked_loop (S (String.length input)) input "".

(** The decoder as a relation: its own reading of the size lines, without its loop
    ([ChunkGrammar] says what those lines are). *)
Inductive chunked_body : string -> string -> Prop :=
| cb_last line rest :
    position crlf line = None -> chunk_size line = Some 0 ->
    chunked_body (line +:+ crlf +:+ crlf +:+ rest) ""
| cb_chunk line data wire body :
    position crlf line = None -> chunk_size line = Some (len data) -> data <> "" ->
    chunked_body wire body ->
    chunked_body (line +:+ crlf +:+ data +:+ crlf +:+ wire) (data +:+ body).

(** ** The custom service's response *)

(** What the crates [httparse] and [http] contribute. *)
Inductive ParseStatus : Type :=
| Complete (consumed : nat) (code : option Z) (headers : list (string * string))
| Partial.

Class ErrorLib `{HeaderLib} : Type := {
  httparse_response : string -> option ParseStatus;     (** [None] is its error *)
  value_from_bytes : string -> option HeaderValue;
  canonical_reason : Z -> option string
}.

Section Rendering.
Context `{HeaderLib} `{UrlLib} `{!ErrorLib}.

Record RenderedError : Type := mkRendered {
  rendered_body : string;
  content_type : option HeaderValue;
  content_encoding : option HeaderValue
}.

(** The variables of the header loop. *)
Record Framing : Type := mkFraming {
  fr_type : option HeaderValue; fr_encoding : option HeaderValue;
  fr_chunked : bool; fr_length : option Z
}.

Definition read_header (f : Framing) (nv : string * string) : option Framing :=
  let (name, value) := nv in
  if eq_ignore_ascii_case name "content-type" then
    Some (mkFraming (value_from_bytes value) (fr_encoding f) (fr_chunked f) (fr_length f))
  else if eq_ignore_ascii_case name "content-encoding" then
    Some (mkFraming (fr_type f) (value_from_bytes value) (fr_chunked f) (fr_length f))
  else if eq_ignore_ascii_case name "transfer-encoding" then
    if fr_chunked f || negb (eq_ignore_ascii_case value "chunked") then None
    else Some (mkFraming (fr_type f) (fr_encoding f) true (fr_length f))
  else if eq_ignore_ascii_case name "content-length" then
    if is_some (fr_length f) then None
    else
      text ← from_utf8 value;
      length ← parse_uint usize_max text;
      if MAX_ERROR_BODY_BYTES <? length then None
      else Some (mkFraming (fr_type f) (fr_encoding f) (fr_chunked f) (Some length))
  else Some f.

Fixpoint read_headers (headers : list (string * string)) (f : Framing) : option Framing :=
  match headers with
  | [] => Some f
  | nv :: rest => f ← read_header f nv; read_headers rest f
  end.

Definition parse_http_response (response : string) (eof : bool) : option RenderedError :=
  header_end ← position header_terminator response;
  if MAX_ERROR_HEADER_BYTES <? Z.of_nat (header_end + 4) then None
  else
    parsed ← httparse_response (take_bytes (header_end + 4) response);
    match parsed with
    | Partial => None
    | Complete consumed code headers =>
        if negb (Nat.eqb consumed (header_end + 4)) then None
        else
          _ ← code;
          f ← read_headers headers (mkFraming None None false None);
          if fr_chunked f && is_some (fr_length f) then None
          else
            raw_body ← drop_bytes (header_end + 4) response;
            body ← (if fr_chunked f then decode_chunked raw_body
                    else match fr_length f with
                         | Some length => get_to length raw_body
                         | None =>
                             if eof && (len raw_body <=? MAX_ERROR_BODY_BYTES) then Some raw_body else None
                         end);
            Some (mkRendered body (fr_type f) (fr_encoding f))
    end.

(** One [stream.read] under its timeout. *)
Inductive ReadResult : Type := ReadFailed | ReadBytes (chunk : string).

(** The reading loop of both transports; when the reads end before an answer the
    overall deadline passes. *)
Fixpoint read_response (reads : list ReadResult) (response : string) : option RenderedError :=
  match reads with
  | [] => None
  | ReadFailed :: _ => None
  | ReadBytes chunk :: reads =>
      if is_empty chunk then parse_http_response response true
      else if MAX_UNIX_WIRE_BYTES <? saturating_add usize_max (len response) (len chunk) then None
      else
        let response := response +:+ chunk in
        if negb (is_some (position header_terminator response)) && (MAX_ERROR_HEADER_BYTES <? len response)
        then None
        else match parse_http_response response false with
             | Some rendered => Some rendered
             | None => read_response reads response
             end
  end.

Definition custom_error_url (target : Url) (status : Z) (original_uri : string) : option Url :=
  match url_parse (url_as_str target +:+ show_Z status +:+ "?url=" +:+ encode_uri_component original_uri) with
  | Ok url => Some url
  | Err _ => None
  end.

(** A connected stream, as its peer and the deadlines let it behave: whether all
    of a request is written and then flushed in time, and what is read back. *)
Record Stream : Type := mkStream {
  wrote : string -> bool;
  flushed : bool;
  read_back : string -> list ReadResult
}.

(** The network: connecting over a Unix socket or over HTTP(S) within the
    connection timeout, and the generation [ensure_cached] leases once the
    requests before this one are done; [None] is a failure or a passed deadline. *)
Record Network : Type := mkNetwork {
  unix_connect : string -> option Stream;
  http_connect : Url -> option Stream;
  lease_generation : option Z
}.

Definition request_text (request_target host : string) : string :=
  "GET " +:+ request_target +:+ " HTTP/1.1" +:+ crlf +:+ "Host: " +:+ host +:+ crlf
    +:+ "Connection: close" +:+ header_terminator.

Definition write_all_and_flush (stream : Stream) (bytes : string) : option unit :=
  if wrote stream bytes && flushed stream then Some tt else None.

(** The Unix transport writes without a flush. *)
Definition unix_custom_error_inner (net : Network) (url : Url) : option RenderedError :=
  match target_parse url with
  | Err _ => None
  | Ok t =>
      socket_path ← unix_path t;
      stream ← unix_connect net socket_path;
      let request := request_text (target_path_of t) "localhost" in
      if wrote stream request then read_response (read_back stream request) "" else None
  end.

Definition bounded_request_inner (net : Network) (url : Url) : option RenderedError :=
  stream ← http_connect net url;
  let request_target := match url_query url with
                        | Some query => url_path url +:+ "?" +:+ query
                        | None => url_path url
                        end in
  let request := request_text request_target (host_and_port url) in
  _ ← write_all_and_flush stream request;
  read_response (read_back stream request) "".

(** The page, and how the attempt ended its lease: the generation and whether it
    succeeded ([Drop for ResolverAttempt]). *)
Definition bounded_request (net : Network) (url : Url) : option RenderedError * option (Z * bool) :=
  match lease_generation net with
  | None => (None, None)
  | Some generation =>
      let rendered := bounded_request_inner net url in
      (rendered, Some (generation, is_some rendered))
  end.

Definition custom_error (net : Network) (target : Url) (status : Z) (original_uri : string) :
    option RenderedError :=
  url ← custom_error_url target status original_uri;
  if String.eqb (scheme url) "http+unix" || String.eqb (scheme url) "unix+http" then
    unix_custom_error_inner net url
  else if negb (String.eqb (scheme url) "http" || String.eqb (scheme url) "https") then None
  else (bounded_request net url).1.

(** ** Files *)

Definition is_normal (part : string) : bool := negb (is_empty part) && negb (String.eqb part ".").

(** [Path::components().count()] on Unix: a root, then each component; a leading
    [.] counts. *)
Definition component_count (path : string) : nat :=
  match split slash path with
  | [] => 0
  | first :: rest =>
      (if starts_with_char slash path then 1 else if String.eqb first "." then 1 else 0)
      + length (List.filter is_normal (first :: rest))
  end.

(** A regular file as [open_bounded_regular_file] returns it. *)
Record OpenFile : Type := mkOpenFile { metadata_len : option Z; read_to_end : option string }.

Definition read_bounded_file (open : string -> option OpenFile) (filename : string) : option string :=
  if negb (Nat.eqb (component_count filename) 1) then None
  else
    file ← open filename;
    size ← metadata_len file;
    if MAX_ERROR_BODY_BYTES <? size then None
    else
      content ← read_to_end file;
      let body := take_bytes (Z.to_nat (MAX_ERROR_BODY_BYTES + 1)) content in
      if len body <=? MAX_ERROR_BODY_BYTES then Some body else None.

(** ** Rendering *)

Definition chp_page (title message : string) : string :=
  join (str1 newline)
    ["<!doctype html>"; "<html>"; "  <head>";
     "    <meta charset=" +:+ str1 quote +:+ "utf-8" +:+ str1 quote +:+ " />";
     "    <title>" +:+ title +:+ "</title>"; "  </head>"; EmptyString; "  <body>";
     "    <h1>" +:+ title +:+ "</h1>"; "    <p>" +:+ message +:+ "</p>"; "    <hr />";
     "    <p>configurable-http-proxy</p>"; "  </body>"; "</html>"; EmptyString].

Definition CHP_404_HTML : string := chp_page "404: Not Found" "No service is registered at this URL".
Definition CHP_503_HTML : string :=
  chp_page "503: Proxy Target Missing" "The upstream service is unavailable".

Definition reason_phrase (status : Z) : RenderedError :=
  mkRendered (default "Unknown Error" (canonical_reason status)) None None.

Definition html (body : string) : RenderedError :=
  mkRendered body (Some (value_from_static "text/html")) None.

Record ProxyErrorRenderer : Type := mkRenderer {
  rn_error_target : option Url;
  rn_error_path : option string
}.

Definition render (r : ProxyErrorRenderer) (net : Network) (open : string -> string -> option OpenFile)
    (status : Z) (original_uri : string) : RenderedError :=
  match rn_error_target r with
  | Some target =>
      match custom_error net target status original_uri with
      | Some rendered => rendered
      | None => reason_phrase status
      end
  | None =>
      match rn_error_path r with
      | Some path =>
          match read_bounded_file (open path) (show_Z status +:+ ".html") with
          | Some body => html body
          | None =>
              match read_bounded_file (open path) "error.html" with
              | Some body => html body
              | None => reason_phrase status
              end
          end
      | None =>
          if status =? 404 then html CHP_404_HTML
          else if status =? 503 then html CHP_503_HTML
          else reason_phrase status
      end
  end.

(** The response [respond] writes: status, declared length, the two optional
    headers and the body. *)
Record ErrorResponse : Type := mkErrorResponse {
  er_status : Z; er_content_length : Z; er_type : option HeaderValue; er_encoding : option HeaderValue;
  er_body : string
}.

(** The errors that building the header can return are not modelled: the status is
    a valid one and the values are header values already. *)
Definition respond (r : ProxyErrorRenderer) (net : Network) (open : string -> string -> option OpenFile)
    (status : Z) (original_uri : string) : ErrorResponse :=
  let rendered := render r net open status original_uri in
  mkErrorResponse status (len (rendered_body rendered)) (content_type rendered)
    (content_encoding rendered) (rendered_body rendered).

(** ** Lemmas *)

Lemma take_bytes_app l r : take_bytes (String.length l) (l +:+ r) = l.
Proof. induction l as [|c l IH]; [by destruct r|]. simpl. by rewrite IH. Qed.

Lemma bytes_split n s :
  (n <= String.length s)%nat ->
  exists l r, s = l +:+ r /\ String.length l = n.
Proof.
  revert s. induction n as [|n IH]; intros s Hn; [by exists "", s|].
  destruct s as [|c s]; simpl in Hn; [lia|].
  destruct (IH s) as (l & r & -> & Hl); [lia|]. exists (String c l), r. simpl. by rewrite Hl.
Qed.

Lemma len_app a b : len (a +:+ b) = len a + len b.
Proof. unfold len. rewrite str_length_app. lia. Qed.

Lemma len_nonneg a : 0 <= len a.
Proof. unfold len. lia. Qed.

Lemma get_to_Some n s chunk :
  0 <= n -> get_to n s = Some chunk <-> exists rest, s = chunk +:+ rest /\ len chunk = n.
Proof.
  intros Hn. unfold get_to. split.
  - destruct (Z.leb_spec n (len s)) as [Hle|]; [|done]. intros [= <-].
    destruct (bytes_split (Z.to_nat n) s) as (l & r & -> & Hl); [unfold len in Hle; lia|].
    rewrite <- Hl, take_bytes_app. exists r. split; [done|]. unfold len. lia.
  - intros (rest & -> & <-). rewrite len_app. pose proof (len_nonneg rest).
    destruct (Z.leb_spec (len chunk) (len chunk + len rest)); [|lia].
    unfold len. by rewrite Nat2Z.id, take_bytes_app.
Qed.

Lemma get_after_app a b : get_after (len a) (a +:+ b) = Some b.
Proof.
  unfold get_after. rewrite len_app. pose proof (len_nonneg b).
  destruct (Z.leb_spec (len a) (len a + len b)); [|lia]. unfold len. by rewrite Nat2Z.id, drop_bytes_app.
Qed.

Lemma starts_with_crlf s : starts_with crlf s = true <-> exists rest, s = crlf +:+ rest.
Proof.
  unfold starts_with. destruct (strip_prefix crlf s) as [rest|] eqn:Hs; cbn [is_some].
  - apply strip_prefix_Some in Hs as ->. split; [by exists rest|done].
  - split; [done|]. intros [rest ->]. by rewrite (proj2 (strip_prefix_Some crlf _ rest) eq_refl) in Hs.
Qed.

Lemma position_crlf_Some s n :
  position crlf s = Some n <->
  exists line rest, s = line +:+ crlf +:+ rest /\ String.length line = n /\ position crlf line = None.
Proof.
  revert n. induction s as [|c s IH]; intros n.
  - split; [done|]. intros (line & rest & Hs & _). by destruct line.
  - cbn [position]. destruct (starts_with crlf (String c s)) eqn:Hst.
    + apply starts_with_crlf in Hst as [rest Hs]. split.
      * intros [= <-]. exists "", rest. by rewrite Hs.
      * intros (line & rest' & Hl & <- & Hnone). destruct line as [|a line]; [done|].
        exfalso. rewrite Hs in Hl. destruct line as [|b line].
        { injection Hl as <- Hx. discriminate Hx. }
        injection Hl as <- <- _. done.
    + split.
      * destruct (position crlf s) as [m|] eqn:Hp; [|done]. intros [= <-].
        destruct (proj1 (IH m) eq_refl) as (line & rest & -> & <- & Hnone).
        exists (String c line), rest. split; [done|]. split; [done|].
        cbn [position]. rewrite Hnone. simpl.
        destruct (starts_with crlf (String c line)) eqn:Hx; [|done].
        apply starts_with_crlf in Hx as [r Hr]. exfalso.
        assert (Hc : starts_with crlf (String c (line +:+ crlf +:+ rest)) = true).
        { apply starts_with_crlf. exists (r +:+ crlf +:+ rest). change (String c (line +:+ crlf +:+ rest))
            with (String c line +:+ crlf +:+ rest). by rewrite Hr, <- str_app_assoc. }
        congruence.
      * intros (line & rest & Hl & <- & Hnone). destruct line as [|a line].
        { simpl in Hl. rewrite Hl in Hst. done. }
        injection Hl as <- ->. cbn [position] in Hnone.
        destruct (starts_with crlf (String c line)); [done|].
        destruct (position crlf line) eqn:Hp; [done|].
        rewrite (proj2 (IH (String.length line))); [done|]. by exists line, rest.
Qed.

Lemma drop_line line rest : drop_bytes (String.length line + 2) (line +:+ crlf +:+ rest) = Some rest.
Proof.
  rewrite str_app_assoc. replace (String.length line + 2)%nat with (String.length (line +:+ crlf)).
  - apply drop_bytes_app.
  - by rewrite str_length_app.
Qed.

Lemma hex_nonneg c d : hex c = Some d -> 0 <= d.
Proof. unfold hex, byte_in. repeat case_goal; intros; simplify_eq; bool_simp; lia. Qed.

Lemma hex_digits_value_nonneg s acc n : 0 <= acc -> hex_digits_value acc s = Some n -> 0 <= n.
Proof.
  revert acc. induction s as [|c s IH]; intros acc Ha; simpl; [by intros [= <-]|].
  intros (d & Hd & Hs)%bind_Some. apply hex_nonneg in Hd. apply (IH (acc * 16 + d)); [lia|done].
Qed.

Lemma chunk_size_nonneg line n : chunk_size line = Some n -> 0 <= n.
Proof.
  unfold chunk_size, from_str_radix_16. intros (t & _ & (v & _ & Hn)%bind_Some)%bind_Some.
  destruct (is_empty _); [done|]. apply opt_filter_Some in Hn as [Hn _].
  by apply (hex_digits_value_nonneg _ 0) in Hn.
Qed.

(** One turn of the loop on a line that ends in its first CRLF. *)
Lemma decode_chunked_turn fuel line rest output :
  position crlf line = None ->
  decode_chunked_loop (S fuel) (line +:+ crlf +:+ rest) output =
  (size ← chunk_size line;
   if size =? 0 then if starts_with crlf rest then Some output else None
   else
     chunk ← get_to size rest;
     if MAX_ERROR_BODY_BYTES <? len (output +:+ chunk) then None
     else
       input ← get_after size rest;
       input ← strip_prefix crlf input;
       decode_chunked_loop fuel input (output +:+ chunk)).
Proof.
  intros Hl. cbn [decode_chunked_loop].
  rewrite (proj2 (position_crlf_Some _ (String.length line))) by by exists line, rest.
  cbn [mbind option_bind]. rewrite take_bytes_app, drop_line. done.
Qed.

Lemma decode_chunked_loop_sound fuel input output result :
  decode_chunked_loop fuel input output = Some result -> len output <= MAX_ERROR_BODY_BYTES ->
  exists body, result = output +:+ body /\ chunked_body input body /\ len result <= MAX_ERROR_BODY_BYTES.
Proof.
  revert input output. induction fuel as [|fuel IH]; intros input output Hdec Hout; [done|].
  assert (Hpos : exists n, position crlf input = Some n).
  { cbn [decode_chunked_loop] in Hdec. apply bind_Some in Hdec as (n & Hn & _). by exists n. }
  destruct Hpos as (n & (line & rest & -> & _ & Hline)%position_crlf_Some).
  rewrite decode_chunked_turn in Hdec by done.
  apply bind_Some in Hdec as (size & Hsize & Hdec). pose proof (chunk_size_nonneg _ _ Hsize) as Hpos.
  destruct (Z.eqb_spec size 0) as [->|Hnz].
  - destruct (starts_with crlf rest) eqn:Hst; [|done]. injection Hdec as <-.
    apply starts_with_crlf in Hst as [rest' ->]. exists "". split_and!; [by rewrite str_app_nil_r|by apply cb_last|done].
  - apply bind_Some in Hdec as (chunk & Hchunk & Hdec).
    apply get_to_Some in Hchunk as (rest' & -> & <-); [|done].
    destruct (Z.ltb_spec MAX_ERROR_BODY_BYTES (len (output +:+ chunk))) as [|Hle]; [done|].
    rewrite get_after_app in Hdec. apply bind_Some in Hdec as (input & [= <-] & Hdec).
    apply bind_Some in Hdec as (wire & Hw & Hdec). apply strip_prefix_Some in Hw as ->.
    destruct (IH _ _ Hdec Hle) as (body & -> & Hb & Hmax).
    exists (chunk +:+ body). split_and!; [by rewrite str_app_assoc|apply cb_chunk; [done|done| |done]|done].
    intros ->. by apply Hnz.
Qed.

Lemma decode_chunked_loop_complete wire body :
  chunked_body wire body -> forall fuel output,
  (String.length wire < fuel)%nat -> len (output +:+ body) <= MAX_ERROR_BODY_BYTES ->
  decode_chunked_loop fuel wire output = Some (output +:+ body).
Proof.
  induction 1 as [line rest Hl Hs|line data wire body Hl Hs Hne Hb IH]; intros [|fuel] output Hf Hmax; try lia.
  - rewrite decode_chunked_turn, Hs by done. cbn [mbind option_bind].
    rewrite (proj2 (starts_with_crlf (crlf +:+ rest))) by by exists rest. by rewrite str_app_nil_r.
  - rewrite decode_chunked_turn, Hs by done. cbn [mbind option_bind].
    destruct (Z.eqb_spec (len data) 0) as [Hz|_].
    { destruct data; [done|]. unfold len in Hz. simpl in Hz. lia. }
    rewrite (proj2 (get_to_Some (len data) (data +:+ crlf +:+ wire) data (len_nonneg data))) by by eexists.
    cbn [mbind option_bind]. rewrite (str_app_assoc output data body) in Hmax |- *.
    assert (Hle : len (output +:+ data) <= MAX_ERROR_BODY_BYTES).
    { rewrite len_app in Hmax. pose proof (len_nonneg body). lia. }
    destruct (Z.ltb_spec MAX_ERROR_BODY_BYTES (len (output +:+ data))); [lia|].
    rewrite get_after_app. cbn [mbind option_bind].
    rewrite (proj2 (strip_prefix_Some crlf (crlf +:+ wire) wire) eq_refl). cbn [mbind option_bind].
    apply IH; [|done]. rewrite !str_length_app in Hf. change (String.length crlf) with 2%nat in Hf. lia.
Qed.

(** *** Bounds *)

Lemma read_headers_length headers f f' :
  (forall n, fr_length f = Some n -> 0 <= n <= MAX_ERROR_BODY_BYTES) ->
  read_headers headers f = Some f' ->
  forall n, fr_length f' = Some n -> 0 <= n <= MAX_ERROR_BODY_BYTES.
Proof.
  revert f. induction headers as [|[name value] headers IH]; intros f Hf; simpl; [by intros [= <-]|].
  intros (f1 & Hf1 & Hrest)%bind_Some. apply (IH f1); [|done]. clear IH Hrest.
  unfold read_header in Hf1.
  destruct (eq_ignore_ascii_case name "content-type"); [by simplify_eq|].
  destruct (eq_ignore_ascii_case name "content-encoding"); [by simplify_eq|].
  destruct (eq_ignore_ascii_case name "transfer-encoding").
  { destruct (_ || _); [done|]. by simplify_eq. }
  destruct (eq_ignore_ascii_case name "content-length"); [|by simplify_eq].
  destruct (is_some _); [done|]. apply bind_Some in Hf1 as (text & _ & Hf1).
  apply bind_Some in Hf1 as (length & Hl & Hf1). apply parse_uint_range in Hl.
  destruct (Z.ltb_spec MAX_ERROR_BODY_BYTES length); [done|]. injection Hf1 as <-. simpl.
  intros n [= <-]. lia.
Qed.

Lemma parse_http_response_bounded response eof r :
  parse_http_response response eof = Some r -> len (rendered_body r) <= MAX_ERROR_BODY_BYTES.
Proof.
  unfold parse_http_response. intros (header_end & _ & Hp)%bind_Some.
  destruct (_ <? _); [done|]. apply bind_Some in Hp as ([consumed code headers|] & _ & Hp); [|done].
  destruct (negb _); [done|]. apply bind_Some in Hp as (c & _ & Hp).
  apply bind_Some in Hp as (f & Hf & Hp). destruct (_ && _); [done|].
  apply bind_Some in Hp as (raw & _ & Hp). apply bind_Some in Hp as (body & Hb & [= <-]). simpl.
  destruct (fr_chunked f).
  { apply decode_chunked_loop_sound in Hb as (b & _ & _ & Hmax); [done|]. by vm_compute. }
  destruct (fr_length f) as [n|] eqn:Hn.
  - assert (Hrange : 0 <= n <= MAX_ERROR_BODY_BYTES) by by eapply (read_headers_length headers); [|done|].
    apply get_to_Some in Hb as (rest & _ & <-); lia.
  - destruct eof; [|done]. simpl in Hb. destruct (Z.leb_spec (len raw) MAX_ERROR_BODY_BYTES); [|done].
    by injection Hb as <-.
Qed.

Lemma read_response_bounded reads response r :
  read_response reads response = Some r -> len (rendered_body r) <= MAX_ERROR_BODY_BYTES.
Proof.
  revert response. induction reads as [|[|chunk] reads IH]; intros response; simpl; [done|done|].
  destruct (is_empty chunk); [apply parse_http_response_bounded|].
  destruct (_ <? _); [done|]. destruct (_ && _); [done|].
  destruct (parse_http_response _ false) as [r'|] eqn:Hp; [|apply IH].
  intros [= <-]. by apply parse_http_response_bounded in Hp.
Qed.

Lemma custom_error_bounded net target status original r :
  custom_error net target status original = Some r -> len (rendered_body r) <= MAX_ERROR_BODY_BYTES.
Proof.
  unfold custom_error, unix_custom_error_inner, bounded_request, bounded_request_inner.
  intros (url & _ & Hc)%bind_Some. destruct (_ || _).
  - destruct (target_parse url) as [t|]; [|done]. apply bind_Some in Hc as (path & _ & Hc).
    apply bind_Some in Hc as (stream & _ & Hc). destruct (wrote stream _); [|done]. by apply read_response_bounded in Hc.
  - destruct (negb _); [done|]. destruct (lease_generation net); [|done]. apply bind_Some in Hc as (stream & _ & Hc).
    apply bind_Some in Hc as (? & _ & Hc). by apply read_response_bounded in Hc.
Qed.

Lemma read_bounded_file_bounded open filename body :
  read_bounded_file open filename = Some body -> len body <= MAX_ERROR_BODY_BYTES.
Proof.
  unfold read_bounded_file. destruct (negb _); [done|]. intros (file & _ & Hf)%bind_Some.
  apply bind_Some in Hf as (size & _ & Hf). destruct (_ <? _); [done|].
  apply bind_Some in Hf as (content & _ & Hf).
  set (b := take_bytes _ _) in Hf. destruct (Z.leb_spec (len b) MAX_ERROR_BODY_BYTES); [|done].
  by injection Hf as <-.
Qed.

(** ** Theorems *)

(** C34: every error page is bounded, whatever the custom service sends, however
    its response is framed, and whatever the error files hold: the body never
    exceeds one mebibyte and the declared length is its length. *)
Theorem error_pages_are_bounded r net open status original :
  (forall s reason, canonical_reason s = Some reason -> len reason <= MAX_ERROR_BODY_BYTES) ->
  let out := respond r net open status original in
  len (er_body out) <= MAX_ERROR_BODY_BYTES /\ er_content_length out = len (er_body out) /\
  er_status out = status.
Proof.
  intros Hreason out. split; [|done]. subst out. unfold respond, er_body.
  assert (Hphrase : len (rendered_body (reason_phrase status)) <= MAX_ERROR_BODY_BYTES).
  { unfold reason_phrase. simpl. destruct (canonical_reason status) as [x|] eqn:Hx; [by eapply Hreason|].
    by vm_compute. }
  unfold render. destruct (rn_error_target r) as [target|].
  { destruct (custom_error _ _ _ _) as [x|] eqn:Hx; [by apply custom_error_bounded in Hx|done]. }
  destruct (rn_error_path r) as [path|].
  - destruct (read_bounded_file (open path) (show_Z status +:+ ".html")) as [b|] eqn:Hb;
      [by apply read_bounded_file_bounded in Hb|].
    destruct (read_bounded_file (open path) "error.html") as [b'|] eqn:Hb';
      [by apply read_bounded_file_bounded in Hb'|done].
  - destruct (status =? 404); [by vm_compute|]. destruct (status =? 503); [by vm_compute|done].
Qed.

End Rendering.

(** ** The bounded resolver

    [Instant]s are numbers; what a lookup answers is up to the environment. *)

Module Resolver.

Section Resolver.
Context {SocketAddr : Type} `{EqDecision SocketAddr}.

Record CachedAddresses : Type := mkCached {
  addresses : list SocketAddr; generation : Z; expires_at : Z }.

Record ResolverCache : Type := mkCache {
  current : option CachedAddresses;
  cache_generation : Z;
  leased_generation : option Z
}.

Definition cache_default : ResolverCache := mkCache None 0 None.

Definition fresh (now : Z) (c : ResolverCache) : option CachedAddresses * ResolverCache :=
  let expired := is_some_and (fun cached =>
    (expires_at cached <=? now) && negb (bool_decide (leased_generation c = Some (generation cached)))) (current c) in
  let c := if expired then mkCache None (cache_generation c) (leased_generation c) else c in
  (current c, c).

Definition lease (g : Z) (c : ResolverCache) : bool * ResolverCache :=
  if is_some_and (fun cached => generation cached =? g) (current c) && is_none (leased_generation c)
  then (true, mkCache (current c) (cache_generation c) (Some g))
  else (false, c).

Definition finish_lease (g : Z) (succeeded : bool) (c : ResolverCache) : ResolverCache :=
  let c := if bool_decide (leased_generation c = Some g)
           then mkCache (current c) (cache_generation c) None else c in
  if negb succeeded && is_some_and (fun cached => generation cached =? g) (current c)
  then mkCache None (cache_generation c) (leased_generation c) else c.

(** [Vec::dedup] *)
Fixpoint dedup_after (last : SocketAddr) (l : list SocketAddr) : list SocketAddr :=
  match l with
  | [] => []
  | a :: l => if decide (a = last) then dedup_after last l else a :: dedup_after a l
  end.
Definition dedup (l : list SocketAddr) : list SocketAddr :=
  match l with [] => [] | a :: l => a :: dedup_after a l end.

(** The worker's closure on a finished lookup; [None] is its [NotFound]. *)
Definition store_lookup (now : Z) (found : list SocketAddr) (c : ResolverCache) :
    option CachedAddresses * ResolverCache :=
  let addresses := dedup (take MAX_RESOLVED_ADDRESSES found) in
  if bool_decide (addresses = []) then (None, c)
  else
    let g := wrapping_add u64_max (cache_generation c) 1 in
    let cached := mkCached addresses g (now + RESOLVER_CACHE_TTL) in
    (Some cached, mkCache (Some cached) g (leased_generation c)).

(** *** The request queue *)

Definition resolver_batch_count {A} (queue : list A) : nat :=
  Nat.min (length queue) (RESOLVER_QUEUE_CAPACITY - 1).

(** [None] is the [expect] on an empty queue. *)
Fixpoint receive {A} (waiting : nat) (queue : list A) : option (list A * list A) :=
  match waiting, queue with
  | O, _ => Some ([], queue)
  | S _, [] => None
  | S n, a :: queue => '(batch, queue) ← receive n queue; Some (a :: batch, queue)
  end.

Definition take_resolver_batch {A} (first : A) (waiting : nat) (queue : list A) : option (list A * list A) :=
  '(batch, queue) ← receive waiting queue; Some (first :: batch, queue).

(** *** The resolver among its callers

    A requester waits under a number.  The worker is idle or in a lookup for the
    request it took; an attempt holds the generation it leased until it drops. *)

Inductive Worker : Type := Idle | Looking (first : nat) | Panicked.

Record World : Type := mkWorld {
  cache : ResolverCache;
  queue : list nat;
  worker : Worker;
  answered : list (nat * option CachedAddresses);
  attempts : list Z
}.

Definition initial : World := mkWorld cache_default [] Idle [] [].

Definition with_cache (c : ResolverCache) (w : World) : World :=
  mkWorld c (queue w) (worker w) (answered w) (attempts w).

(** The end of one turn of the worker: the captured batch is answered. *)
Definition answer (first : nat) (result : option CachedAddresses) (c : ResolverCache) (w : World) : World :=
  match take_resolver_batch first (resolver_batch_count (queue w)) (queue w) with
  | None => mkWorld c (queue w) Panicked (answered w) (attempts w)
  | Some (batch, rest) =>
      mkWorld c rest Idle (map (fun id => (id, result)) batch ++ answered w) (attempts w)
  end.

(** [lease] on behalf of an attempt. *)
Definition lease_for (g : Z) (w : World) : World :=
  let (ok, c) := lease g (cache w) in
  mkWorld c (queue w) (worker w) (answered w) (if ok then g :: attempts w else attempts w).

Inductive step : World -> World -> Prop :=
(* [ensure_cached] with a cached entry, leased or not *)
| step_ensure_hit w now cached c :
    fresh now (cache w) = (Some cached, c) -> step w (lease_for (generation cached) (with_cache c w))
(* a miss of [ensure_cached], or the connector's own [call] *)
| step_fresh w now : step w (with_cache (fresh now (cache w)).2 w)
(* [try_send] with room in the queue *)
| step_send w id :
    (length (queue w) < RESOLVER_QUEUE_CAPACITY)%nat ->
    step w (mkWorld (cache w) (queue w ++ [id]) (worker w) (answered w) (attempts w))
(* the worker takes a request: answered from the cache, or a lookup starts *)
| step_receive w now first rest :
    worker w = Idle -> queue w = first :: rest ->
    step w (let (cached, c) := fresh now (cache w) in
            let w := mkWorld c rest (worker w) (answered w) (attempts w) in
            match cached with
            | Some cached => answer first (Some cached) c w
            | None => mkWorld c rest (Looking first) (answered w) (attempts w)
            end)
(* the lookup ends: failed, or with addresses *)
| step_lookup_failed w first :
    worker w = Looking first -> step w (answer first None (cache w) w)
| step_lookup w first now found :
    worker w = Looking first ->
    step w (answer first (store_lookup now found (cache w)).1 (store_lookup now found (cache w)).2 w)
(* the end of [ensure_cached] after a miss *)
| step_reply w id cached :
    (id, Some cached) ∈ answered w -> step w (lease_for (generation cached) w)
(* [Drop for ResolverAttempt] *)
| step_drop w g succeeded before after :
    attempts w = before ++ g :: after ->
    step w (mkWorld (finish_lease g succeeded (cache w)) (queue w) (worker w) (answered w) (before ++ after)).

(** *** Invariant *)

Definition entry_ok (c : CachedAddresses) : Prop :=
  addresses c <> [] /\ (length (addresses c) <= MAX_RESOLVED_ADDRESSES)%nat.

Record world_ok (w : World) : Prop := {
  ok_attempts : attempts w = match leased_generation (cache w) with Some g => [g] | None => [] end;
  ok_leased : forall g, leased_generation (cache w) = Some g ->
    exists cached, current (cache w) = Some cached /\ generation cached = g;
  ok_current : forall cached, current (cache w) = Some cached -> entry_ok cached;
  ok_looking : forall first, worker w = Looking first -> current (cache w) = None;
  ok_queue : (length (queue w) <= RESOLVER_QUEUE_CAPACITY)%nat;
  ok_worker : worker w <> Panicked
}.

Lemma receive_total {A} n (q : list A) : (n <= length q)%nat -> exists b, receive n q = Some (b, drop n q).
Proof.
  revert q. induction n as [|n IH]; intros q Hn; [by exists []|].
  destruct q as [|a q]; simpl in Hn; [lia|]. destruct (IH q) as [b Hb]; [lia|].
  exists (a :: b). simpl. by rewrite Hb.
Qed.

Lemma answer_eq first result c w :
  exists batch, answer first result c w =
    mkWorld c (drop (resolver_batch_count (queue w)) (queue w)) Idle batch (attempts w).
Proof.
  unfold answer, take_resolver_batch.
  destruct (receive_total (resolver_batch_count (queue w)) (queue w)) as [b Hb]; [apply Nat.le_min_l|].
  rewrite Hb. by eexists.
Qed.

Lemma fresh_cases now c :
  (fresh now c).1 = current (fresh now c).2 /\
  leased_generation (fresh now c).2 = leased_generation c /\
  (current (fresh now c).2 = current c \/
   current (fresh now c).2 = None /\
     forall cached, current c = Some cached -> leased_generation c <> Some (generation cached)).
Proof.
  unfold fresh. destruct (current c) as [cached|] eqn:Hc; simpl; [|by rewrite Hc; auto].
  destruct (expires_at cached <=? now); simpl; [|by rewrite Hc; auto].
  destruct (bool_decide_reflect (leased_generation c = Some (generation cached))); simpl; [by rewrite Hc; auto|].
  split_and!; [done|done|]. right. split; [done|]. by intros ? [= <-].
Qed.

Lemma fresh_ok w now : world_ok w -> world_ok (with_cache (fresh now (cache w)).2 w).
Proof.
  intros [Ha Hl Hc Hk Hq Hp]. destruct (fresh_cases now (cache w)) as (_ & Hle & Hcur).
  split; cbn [cache attempts queue worker with_cache]; rewrite ?Hle; try done.
  - intros g Hg. destruct Hcur as [->|[_ Hne]]; [by apply Hl|].
    destruct (Hl g Hg) as (cached & Hcc & <-). by destruct (Hne _ Hcc).
  - intros cached. destruct Hcur as [->|[-> _]]; [apply Hc|done].
  - intros first Hw. destruct Hcur as [->|[-> _]]; [by eapply Hk|done].
Qed.

Lemma lease_ok w g : world_ok w -> world_ok (lease_for g w).
Proof.
  intros [Ha Hl Hc Hk Hq Hp]. unfold lease_for, lease.
  destruct (current (cache w)) as [cached|] eqn:Hcur; simpl; [|by split; simpl; rewrite ?Hcur].
  destruct (Z.eqb_spec (generation cached) g) as [<-|]; simpl; [|by split; simpl; rewrite ?Hcur].
  destruct (leased_generation (cache w)) as [g'|] eqn:Hg; simpl; [by split; simpl; rewrite ?Hcur, ?Hg|].
  split; simpl; try done.
  - by rewrite Ha.
  - intros g [= <-]. by exists cached.
Qed.

Lemma finish_ok w g succeeded before after :
  world_ok w -> attempts w = before ++ g :: after ->
  world_ok (mkWorld (finish_lease g succeeded (cache w)) (queue w) (worker w) (answered w) (before ++ after)).
Proof.
  intros [Ha Hl Hc Hk Hq Hp] Heq. rewrite Ha in Heq.
  destruct (leased_generation (cache w)) as [g'|] eqn:Hg; [|by destruct before].
  destruct before as [|? before]; [|by destruct before]. injection Heq as <- <-.
  unfold finish_lease. rewrite Hg, bool_decide_eq_true_2 by done. cbn [current].
  destruct (negb succeeded && _); split; simpl; try done.
Qed.

Lemma dedup_after_length last l : (length (dedup_after last l) <= length l)%nat.
Proof.
  revert last. induction l as [|a l IH]; intros last; simpl; [done|].
  destruct (decide (a = last)); simpl; [specialize (IH last)|specialize (IH a)]; lia.
Qed.

Lemma store_lookup_ok now found c :
  (forall cached, current c = Some cached -> entry_ok cached) ->
  let c' := (store_lookup now found c).2 in
  (forall cached, current c' = Some cached -> entry_ok cached) /\
  leased_generation c' = leased_generation c.
Proof.
  intros Hc. unfold store_lookup. case_bool_decide as Hnil; simpl; [done|]. split; [|done].
  intros cached [= <-]. split; [done|]. simpl. unfold dedup.
  pose proof (length_take_le found MAX_RESOLVED_ADDRESSES) as Hle.
  destruct (take MAX_RESOLVED_ADDRESSES found) as [|a l] eqn:Ht; simpl; [lia|].
  pose proof (dedup_after_length a l). assert (Hlen : (length (take MAX_RESOLVED_ADDRESSES found) <= MAX_RESOLVED_ADDRESSES)%nat).
  { rewrite length_take. lia. } rewrite Ht in Hlen. simpl in Hlen. lia.
Qed.

Lemma step_ok w w' : world_ok w -> step w w' -> world_ok w'.
Proof.
  intros Hok Hs. pose proof Hok as [Ha Hl Hc Hk Hq Hp].
  destruct Hs as [w now cached c Hf|w now|w id Hlen|w now first rest Hw Hqu|w first Hw|w first now found Hw
    |w id cached Hin|w g succeeded before after Heq].
  - apply lease_ok. replace c with (fresh now (cache w)).2 by by rewrite Hf. by apply fresh_ok.
  - by apply fresh_ok.
  - split; simpl; try done. rewrite length_app. simpl. lia.
  - pose proof (fresh_ok w now Hok) as [Ha' Hl' Hc' Hk' _ _]. destruct (fresh_cases now (cache w)) as [Hsame _].
    destruct (fresh now (cache w)) as [[cached|] c]; simpl in *.
    + destruct (answer_eq first (Some cached) c (mkWorld c rest (worker w) (answered w) (attempts w)))
        as [batch ->]. rewrite Hqu in Hq. simpl in Hq.
      split; simpl; try done. rewrite length_drop. lia.
    + rewrite Hqu in Hq. simpl in Hq. split; simpl; try done. lia.
  - destruct (answer_eq first None (cache w) w) as [batch ->]. split; simpl; try done. rewrite length_drop. lia.
  - destruct (answer_eq first (store_lookup now found (cache w)).1 (store_lookup now found (cache w)).2 w)
      as [batch ->].
    destruct (store_lookup_ok now found (cache w) Hc) as [Hc' Hl'].
    assert (Hnone : leased_generation (cache w) = None).
    { destruct (leased_generation (cache w)) as [g|] eqn:Hg; [|done].
      destruct (Hl g eq_refl) as (cached & Hcc & _). by rewrite (Hk first Hw) in Hcc. }
    rewrite Hnone in *. split; simpl; rewrite ?Hl'; try done. rewrite length_drop. lia.
  - by apply lease_ok.
  - by apply finish_ok.
Qed.

Lemma fresh_pinned now c cached :
  current c = Some cached -> leased_generation c = Some (generation cached) -> fresh now c = (Some cached, c).
Proof.
  intros Hc Hl. unfold fresh. rewrite Hc. simpl. rewrite (bool_decide_eq_true_2 _ Hl), andb_false_r. by rewrite Hc.
Qed.

(** While a generation stays leased, no step replaces its addresses. *)
Lemma step_pinned w w' cached :
  world_ok w -> current (cache w) = Some cached -> leased_generation (cache w) = Some (generation cached) ->
  step w w' -> generation cached ∈ attempts w' -> current (cache w') = Some cached.
Proof.
  intros Hok Hc Hl Hs. pose proof (ok_looking w Hok) as Hk. pose proof (ok_attempts w Hok) as Ha. rewrite Hl in Ha.
  assert (Hf : forall now, fresh now (cache w) = (Some cached, cache w)) by by intros; apply fresh_pinned.
  destruct Hs as [w now cached' c Hf'|w now|w id Hlen|w now first rest Hw Hqu|w first Hw|w first now found Hw
    |w id cached' Hin|w g succeeded before after Heq].
  - rewrite Hf in Hf'. injection Hf' as <- <-. unfold lease_for, lease. simpl. rewrite Hl, andb_false_r. done.
  - by rewrite Hf.
  - done.
  - rewrite Hf. cbv beta iota zeta. by destruct (answer_eq first (Some cached) (cache w)
      (mkWorld (cache w) rest (worker w) (answered w) (attempts w))) as [batch ->].
  - by rewrite (Hk first Hw) in Hc.
  - by rewrite (Hk first Hw) in Hc.
  - unfold lease_for, lease. rewrite Hl, andb_false_r. done.
  - rewrite Ha in Heq. destruct before as [|? before]; [|by destruct before].
    injection Heq as <- <-. simpl. set_solver.
Qed.

Lemma reachable_ok w : rtc step initial w -> world_ok w.
Proof.
  intros Hr. assert (Hi : world_ok initial) by (split; simpl; try done; lia). revert Hi.
  induction Hr as [|x y z Hs _ IH]; [done|]. intros Hx. by apply IH, (step_ok x).
Qed.

(** C35: the resolver pins what an attempt uses: in every interleaving at most one
    attempt holds a lease, its generation's addresses stay current, whatever the
    time and whatever step runs, until it is dropped; the queue stays within its
    capacity and the worker never panics on a captured batch. *)
Theorem leased_addresses_are_pinned w :
  rtc step initial w ->
  (length (queue w) <= RESOLVER_QUEUE_CAPACITY)%nat /\ worker w <> Panicked /\ (length (attempts w) <= 1)%nat /\
  forall g, g ∈ attempts w ->
    exists cached, current (cache w) = Some cached /\ generation cached = g /\
      (0 < length (addresses cached) <= MAX_RESOLVED_ADDRESSES)%nat /\
      (forall now, (fresh now (cache w)).1 = Some cached) /\
      (forall w', step w w' -> g ∈ attempts w' -> current (cache w') = Some cached).
Proof.
  intros Hr. pose proof (reachable_ok w Hr) as Hok. pose proof Hok as [Ha Hl Hc Hk Hq Hp].
  split; [done|]. split; [done|]. rewrite Ha.
  destruct (leased_generation (cache w)) as [g|] eqn:Hg; [|split; [simpl; lia|set_solver]].
  split; [done|]. intros g' Hin. assert (g' = g) as -> by set_solver.
  destruct (Hl g eq_refl) as (cached & Hcur & <-). exists cached.
  destruct (Hc _ Hcur) as [Hne Hle]. split_and!; try done.
  - destruct (addresses cached); [done|simpl; lia].
  - intros now. by rewrite (fresh_pinned _ _ cached).
  - intros w' Hs Hin'. by eapply step_pinned.
Qed.

End Resolver.

End Resolver.

(** ** Witnesses *)

(** A response head of one [Content-Length] header. *)
#[local] Instance sample_error_lib : ErrorLib (H := SimpleHttp.headers) := {|
  httparse_response s := Some (Complete (String.length s) (Some 200) [("Content-Length", "2")]);
  value_from_bytes := SimpleHttp.from_str;
  canonical_reason s := if s =? 500 then Some "Internal Server Error" else None
|}.

Definition sample_network : Network (H0 := SimpleHttp.urls) :=
  {| unix_connect _ := None;
     http_connect _ := Some (mkStream (fun _ => true) true
       (fun _ => [ReadBytes ("HTTP/1.1 200 OK" +:+ header_terminator); ReadBytes "page"; ReadBytes ""]));
     lease_generation := Some 1 |}.

Definition sample_renderer : ProxyErrorRenderer (H0 := SimpleHttp.urls) :=
  mkRenderer (Some (SimpleHttp.mkUrl "http" "errors" None "/" None)) None.

Lemma error_pages_are_bounded_witness :
  let out := respond sample_renderer sample_network (fun _ _ => None) 503 "/a?b" in
  er_body out = "pa" /\ len (er_body out) <= MAX_ERROR_BODY_BYTES.
Proof.
  split; [vm_compute; reflexivity|].
  apply (error_pages_are_bounded sample_renderer sample_network (fun _ _ => None) 503 "/a?b").
  intros s reason. simpl. destruct (s =? 500); [|discriminate]. intros [= <-]. vm_compute. discriminate.
Defined.

(** A request, a lookup, the lease, and a look at the cache long after expiry. *)
Definition sample_leased : Resolver.World (SocketAddr := nat) :=
  Resolver.lease_for 1 (Resolver.answer 0 (Resolver.store_lookup 0 [7; 7; 8]%nat Resolver.cache_default).1
    (Resolver.store_lookup 0 [7; 7; 8]%nat Resolver.cache_default).2
    (Resolver.mkWorld Resolver.cache_default [] (Resolver.Looking 0) [] [])).

Lemma sample_leased_reachable : rtc Resolver.step Resolver.initial sample_leased.
Proof.
  eapply rtc_l; [apply (Resolver.step_send _ 0%nat); unfold RESOLVER_QUEUE_CAPACITY; simpl; lia|].
  eapply rtc_l; [apply (Resolver.step_receive _ 0 0%nat []); reflexivity|].
  eapply rtc_l; [apply (Resolver.step_lookup _ 0%nat 0 [7; 7; 8]%nat); reflexivity|].
  eapply rtc_l; [|apply rtc_refl].
  apply (Resolver.step_reply _ 0%nat (Resolver.mkCached [7; 8]%nat 1 RESOLVER_CACHE_TTL)).
  vm_compute. left.
Qed.

Lemma leased_addresses_are_pinned_witness :
  exists cached, (Resolver.fresh (from_secs 3600) (Resolver.cache sample_leased)).1 = Some cached /\
    Resolver.generation cached = 1.
Proof.
  destruct (Resolver.leased_addresses_are_pinned sample_leased sample_leased_reachable) as (_ & _ & _ & Hg).
  destruct (Hg 1) as (cached & _ & Hgen & _ & Hf & _); [vm_compute; left|].
  exists cached. split; [exact (Hf (from_secs 3600))|exact Hgen].
Defined.
