(* ===== verification/ChunkGrammar.v ===== *)
(** * The grammar of chunked bodies (src/errors.rs, [decode_chunked])

    What the decoder of the custom error service's responses accepts, written
    down without the decoder: a size line in terms of its characters, and a body
    in terms of its chunks.  The chunked bodies of RFC 9112 that have no trailer
    section are among them, those with trailers are not. *)

From S2P Require Import Prelude RustStr Percent Http Errors.

(** ** Numbers *)



(** ** Size lines *)




(** ** Bodies *)





(** ** Lemmas: numbers *)






(** ** Lemmas: white space *)























(** ** Lemmas: size lines *)











(** ** Lemmas: the bodies of RFC 9112 *)










(** ** The theorem *)


