(* ===== verification/ErrorClient.v ===== *)
(** * The client of the custom error service (src/errors.rs, [with_tls_policy])

    The renderer asks its error service over a connector of its own, built from
    the proxy's upstream TLS configuration: which certificates it trusts, whether
    it verifies at all, and the identity it presents.  The crates [rustls],
    [rustls_pki_types] and [webpki_roots] and the files are parameters. *)

From S2P Require Import Prelude RustStr Http Config Upstream Errors.

Definition ERROR_CONNECT_TIMEOUT : Duration := from_millis 500.

Class Rustls : Type := {
  Certificate : Type;
  PrivateKey : Type;
  TrustAnchor : Type;
  SignatureScheme : Type;
  fs_read : string -> result string string;
  (** [CertificateDer::pem_slice_iter]: each item, [None] for a malformed one. *)
  pem_certificates : string -> list (option Certificate);
  pem_private_key : string -> option PrivateKey;
  (** What [RootCertStore::add] stores. *)
  anchor_of : Certificate -> option TrustAnchor;
  TLS_SERVER_ROOTS : list TrustAnchor;
  default_versions_supported : bool;
  supported_schemes : list SignatureScheme;
  (** [with_client_auth_cert] takes a key that signs for the certificates. *)
  identity_consistent : list Certificate -> PrivateKey -> bool;
  (** The verifier [with_root_certificates] installs. *)
  chain_valid : list TrustAnchor -> Certificate -> string -> bool
}.

Inductive ErrorRendererBuildError : Type :=
| ReadTls (kind source : string)
| InvalidCa
| InvalidIdentity
| Client.

Section ErrorClient.
Context `{HeaderLib} `{UrlLib} `{Rustls}.

Inductive ServerVerifier : Type :=
| RootCertificates (roots : list TrustAnchor)
| NoCertificateVerification (schemes : list SignatureScheme).

Definition verify_server_cert (v : ServerVerifier) (end_entity : Certificate) (server_name : string) : bool :=
  match v with
  | RootCertificates roots => chain_valid roots end_entity server_name
  | NoCertificateVerification _ => true
  end.

Record ClientConfig : Type := mkClientConfig {
  cc_verifier : ServerVerifier;
  cc_identity : option (list Certificate * PrivateKey)
}.

Record Connector : Type := mkConnector {
  cn_tls : ClientConfig;
  cn_resolver_host : string;
  cn_connect_timeout : option Duration;
  cn_schemes : list string              (** [https_or_http] *)
}.

(** The renderer with the connector it asks its service through. *)
Record ErrorClient : Type := mkErrorClient { ec_connector : Connector; ec_renderer : ProxyErrorRenderer }.

(** Every certificate of a PEM text, or the first error. *)
Definition read_certificates (pem : string) (e : ErrorRendererBuildError) : result (list Certificate) ErrorRendererBuildError :=
  collect (fun item => ok_or item e) (pem_certificates pem).

Definition trusted_roots (tls : option TlsConfig) : result (list TrustAnchor) ErrorRendererBuildError :=
  match tls ≫= tls_ca with
  | Some path =>
      let? pem := map_err (ReadTls "CA certificate") (fs_read path) in
      let? certificates := read_certificates pem InvalidCa in
      if bool_decide (certificates = []) then Err InvalidCa
      else collect (fun certificate => ok_or (anchor_of certificate) InvalidCa) certificates
  | None => Ok TLS_SERVER_ROOTS
  end.

Definition client_identity (tls : option TlsConfig) :
    result (option (list Certificate * PrivateKey)) ErrorRendererBuildError :=
  match tls with
  | Some tls =>
      match tls_cert tls, tls_key tls with
      | Some certificate, Some key =>
          let? pem := map_err (ReadTls "client certificate") (fs_read certificate) in
          let? certificates := read_certificates pem InvalidIdentity in
          let? key_pem := map_err (ReadTls "client key") (fs_read key) in
          let? private_key := ok_or (pem_private_key key_pem) InvalidIdentity in
          if bool_decide (certificates = []) then Err InvalidIdentity
          else Ok (Some (certificates, private_key))
      | _, _ => Ok None
      end
  | None => Ok None
  end.

Definition client_config (verifier : ServerVerifier) (tls : option TlsConfig) :
    result ClientConfig ErrorRendererBuildError :=
  let? identity := client_identity tls in
  match identity with
  | Some (certificates, private_key) =>
      guard? identity_consistent certificates private_key else InvalidIdentity in
      Ok (mkClientConfig verifier (Some (certificates, private_key)))
  | None => Ok (mkClientConfig verifier None)
  end.

Definition with_tls_policy (error_target : option Url) (error_path : option string) (verify_tls : bool)
    (tls : option TlsConfig) : result ErrorClient ErrorRendererBuildError :=
  let? roots := trusted_roots tls in
  guard? default_versions_supported else Client in
  let verifier := if verify_tls then RootCertificates roots else NoCertificateVerification supported_schemes in
  let? tls_config := client_config verifier tls in
  let resolver_host := default "localhost" (error_target ≫= host_str) in
  Ok (mkErrorClient (mkConnector tls_config resolver_host (Some ERROR_CONNECT_TIMEOUT) ["https"; "http"])
        (mkRenderer error_target error_path)).

(** ** The policy *)

Lemma collect_map {A B E} (f : A -> option B) (e : E) l bs :
  collect (fun a => ok_or (f a) e) l = Ok bs <-> map f l = map Some bs.
Proof.
  rewrite collect_Ok_Forall2. revert bs. induction l as [|a l IH]; intros [|b bs]; simpl.
  - by split; [|constructor].
  - by split; [inversion 1|].
  - by split; [inversion 1|].
  - rewrite Forall2_cons, ok_or_Ok, IH. split; [by intros [-> ->]|by intros [= -> ->]].
Qed.

Lemma read_certificates_Ok pem e l : read_certificates pem e = Ok l <-> pem_certificates pem = map Some l.
Proof. unfold read_certificates. rewrite (collect_map (fun item => item)). by rewrite map_id. Qed.

Definition pem_holds (path : string) (certificates : list Certificate) : Prop :=
  certificates <> [] /\ exists pem, fs_read path = Ok pem /\ pem_certificates pem = map Some certificates.

(** The certificates a configuration trusts. *)
Definition trusts (tls : option TlsConfig) (roots : list TrustAnchor) : Prop :=
  match tls ≫= tls_ca with
  | Some path => exists certificates, pem_holds path certificates /\ map anchor_of certificates = map Some roots
  | None => roots = TLS_SERVER_ROOTS
  end.

(** The identity a configuration presents. *)
Definition presents (tls : option TlsConfig) (identity : option (list Certificate * PrivateKey)) : Prop :=
  match tls ≫= tls_cert, tls ≫= tls_key with
  | Some certificate, Some key =>
      exists certificates private_key key_pem, identity = Some (certificates, private_key) /\
        pem_holds certificate certificates /\ fs_read key = Ok key_pem /\ pem_private_key key_pem = Some private_key /\
        identity_consistent certificates private_key = true
  | _, _ => identity = None
  end.

Lemma trusted_roots_spec tls roots : trusted_roots tls = Ok roots <-> trusts tls roots.
Proof.
  unfold trusted_roots, trusts, pem_holds. destruct (tls ≫= tls_ca) as [path|]; [|split; congruence]. split.
  - intros Hr. inv_ok Hr. apply read_certificates_Ok in E0. revert Hr. case_bool_decide as Hn; [done|]. rewrite collect_map.
    intros Hr. exists r0. split; [|done]. split; [done|]. exists r. by destruct (fs_read path); simplify_eq/=.
  - intros (l & (Hne & pem & Hp & Hl) & Hr). rewrite Hp. cbn [map_err]. apply (read_certificates_Ok _ InvalidCa) in Hl as ->.
    by rewrite bool_decide_false, collect_map.
Qed.

Lemma client_config_spec verifier tls c :
  client_config verifier tls = Ok c <-> exists identity, c = mkClientConfig verifier identity /\ presents tls identity.
Proof.
  unfold client_config, client_identity, presents, pem_holds. destruct tls as [tls|]; simpl; [|naive_solver].
  destruct (tls_cert tls) as [certificate|], (tls_key tls) as [key|]; simpl; try naive_solver. split.
  - intros Hi. inv_ok Hi. revert E Hi. destruct (fs_read certificate) as [pem|] eqn:Hp; [|done]. simpl.
    destruct (read_certificates pem _) as [l|] eqn:Hl; [|done]. destruct (fs_read key) as [key_pem|] eqn:Hk; [|done]. simpl.
    destruct (pem_private_key key_pem) as [k|] eqn:Hpk; [|done]. simpl. case_bool_decide as Hne; [done|]. intros [= <-] Hi.
    inv_ok Hi. injection Hi as <-. apply read_certificates_Ok in Hl. eexists. split; [done|]. exists l, k, key_pem. split_and!; [done|done|by exists pem|done..].
  - intros (? & -> & l & k & key_pem & -> & (Hne & pem & Hp & Hl) & Hk & Hpk & Hid). rewrite Hp. cbn [map_err].
    apply (read_certificates_Ok _ InvalidIdentity) in Hl as ->. rewrite Hk. cbn [map_err]. rewrite Hpk. cbn [ok_or].
    rewrite bool_decide_false by done. by rewrite Hid.
Qed.

(** The error service is reached under the upstream TLS policy: the renderer
    is built exactly when every configured file is readable and well formed and
    the client key signs for its certificate, even where verification is off; then
    it believes a server exactly when its chain ends in the configured authority,
    or in the public roots where none is configured, or verification is off; and it
    presents the client identity exactly when both of its files are configured. *)
Theorem error_client_keeps_the_tls_policy error_target error_path verify_tls tls client :
  default_versions_supported = true ->
  with_tls_policy error_target error_path verify_tls tls = Ok client <->
  exists roots identity,
    trusts tls roots /\ presents tls identity /\
    (forall certificate name, verify_server_cert (cc_verifier (cn_tls (ec_connector client))) certificate name =
       negb verify_tls || chain_valid roots certificate name) /\
    ec_connector client = mkConnector
      (mkClientConfig (if verify_tls then RootCertificates roots else NoCertificateVerification supported_schemes) identity)
      (default "localhost" (error_target ≫= host_str)) (Some ERROR_CONNECT_TIMEOUT) ["https"; "http"] /\
    ec_renderer client = mkRenderer error_target error_path.
Proof.
  intros Hv. unfold with_tls_policy. rewrite Hv. split.
  - intros Hc. inv_ok Hc. apply trusted_roots_spec in E. apply client_config_spec in E0 as (identity & -> & Hi).
    injection Hc as <-. exists r, identity. split_and!; try done. intros. by destruct verify_tls.
  - destruct client as [connector renderer]. intros (roots & identity & Hr & Hi & _ & Hc & Hn). simpl in Hc, Hn. subst.
    apply trusted_roots_spec in Hr as ->.
    by rewrite (proj2 (client_config_spec _ _ _) (ex_intro _ identity (conj eq_refl Hi))).
Qed.

End ErrorClient.

Module ErrorClientExamples.
Import SimpleHttp.

(** Files that hold a certificate or a key each. *)
#[export] Instance rustls : Rustls := {|
  Certificate := string; PrivateKey := string; TrustAnchor := string; SignatureScheme := Z;
  fs_read path := if String.eqb path "missing.pem" then Err "not found" else Ok path;
  pem_certificates pem := if String.eqb pem "empty.pem" then [] else [Some pem];
  pem_private_key pem := Some pem;
  anchor_of c := Some c; TLS_SERVER_ROOTS := ["public root"];
  default_versions_supported := true; supported_schemes := [1027];
  identity_consistent _ _ := true;
  chain_valid roots c _ := existsb (String.eqb c) roots
|}.

Definition private_ca (ca : string) : option TlsConfig :=
  Some (mkTlsConfig (Some "key.pem") (Some "client.pem") (Some ca) None false false None None None).

Definition private_client : ErrorClient (H0 := urls) :=
  mkErrorClient (mkConnector (mkClientConfig (RootCertificates ["ca.pem"]) (Some (["client.pem"], "key.pem")))
    "localhost" (Some ERROR_CONNECT_TIMEOUT) ["https"; "http"]) (mkRenderer None None).

(** With a private authority a certificate of the public roots is not believed. *)
Lemma error_client_keeps_the_tls_policy_witness :
  with_tls_policy (H0 := urls) None None true (private_ca "ca.pem") = Ok private_client /\
  verify_server_cert (cc_verifier (cn_tls (ec_connector private_client))) "ca.pem" "errors" = true /\
  verify_server_cert (cc_verifier (cn_tls (ec_connector private_client))) "public root" "errors" = false.
Proof.
  split; [|split].
  - apply (error_client_keeps_the_tls_policy (H0 := urls) None None true (private_ca "ca.pem")); [reflexivity|].
    exists ["ca.pem"], (Some (["client.pem"], "key.pem")). split_and!; [| |by intros|reflexivity|reflexivity].
    + exists ["ca.pem"]. split; [|done]. split; [done|]. by exists "ca.pem".
    + exists ["client.pem"], "key.pem", "key.pem". split; [done|]. split; [split; [done|by exists "client.pem"]|done].
  - reflexivity.
  - reflexivity.
Defined.

(** A missing or empty authority is an error even where verification is off. *)
Example unreadable_authorities :
  with_tls_policy (H0 := urls) None None false (private_ca "missing.pem") = Err (ReadTls "CA certificate" "not found") /\
  with_tls_policy (H0 := urls) None None false (private_ca "empty.pem") = Err InvalidCa.
Proof. by split. Qed.

End ErrorClientExamples.
