(* ===== verification/SocketAddr.v ===== *)
(** * Socket addresses ([std::net])

    [SocketAddr::from_str] and its [Display] form, as the Rust standard library
    defines them: an IPv4 address or a bracketed IPv6 address with an optional
    scope, then a port.  A host name is not a socket address, and neither is an
    address with its host left out. *)

From S2P Require Import Prelude RustStr Percent Http Errors.

Inductive IpAddr : Type :=
| V4 (a b c d : Z)
| V6 (segments : list Z).

Record SocketAddr : Type := mkSocketAddr { addr_ip : IpAddr; addr_port : Z }.

(** ** Reading *)

Fixpoint span (p : ascii -> bool) (s : string) : string * string :=
  match s with
  | String c rest => if p c then let (x, y) := span p rest in (String c x, y) else (EmptyString, s)
  | EmptyString => (EmptyString, EmptyString)
  end.

Definition given_char (c : ascii) (s : string) : option string :=
  match s with String a rest => if Ascii.eqb a c then Some rest else None | EmptyString => None end.

(** [read_number] in base ten: the digits, how many of them, zero prefixes, the width. *)
Definition read_decimal (max_digits : option nat) (zero_prefix : bool) (width_max : Z) (s : string) : option (Z * string) :=
  let (digits, rest) := span is_ascii_digit s in
  let n := String.length digits in
  if (n =? 0)%nat || is_some_and (fun m => (m <? n)%nat) max_digits
     || (negb zero_prefix && (1 <? n)%nat && starts_with_char "0" digits) then None
  else
    value ← digits_value 0 digits;
    if value <=? width_max then Some (value, rest) else None.

Definition read_octet : string -> option (Z * string) := read_decimal (Some 3%nat) false 255.

(** A group of an IPv6 address: one to four hexadecimal digits. *)
Definition read_group (s : string) : option (Z * string) :=
  let (digits, rest) := span is_ascii_hexdigit s in
  let n := String.length digits in
  if (n =? 0)%nat || (4 <? n)%nat then None
  else value ← hex_digits_value 0 digits; Some (value, rest).

Definition read_ipv4 (s : string) : option (Z * Z * Z * Z * string) :=
  '(a, s) ← read_octet s; s ← given_char "." s; '(b, s) ← read_octet s; s ← given_char "." s;
  '(c, s) ← read_octet s; s ← given_char "." s; '(d, s) ← read_octet s; Some (a, b, c, d, s).

Definition separator (index : nat) (s : string) : option string :=
  if (0 <? index)%nat then given_char ":" s else Some s.

(** [read_groups]: the groups, and whether an IPv4 tail ended them. *)
Fixpoint read_groups (remaining index : nat) (s : string) : list Z * bool * string :=
  match remaining with
  | O => ([], false, s)
  | S remaining' =>
      match (if (0 <? remaining')%nat then s ← separator index s; read_ipv4 s else None) with
      | Some (a, b, c, d, rest) => ([a * 256 + b; c * 256 + d], true, rest)
      | None =>
          match (s ← separator index s; read_group s) with
          | Some (group, rest) =>
              let '(groups, v4, rest) := read_groups remaining' (S index) rest in (group :: groups, v4, rest)
          | None => ([], false, s)
          end
      end
  end.

Definition read_ipv6 (s : string) : option (list Z * string) :=
  let '(head, head_ipv4, rest) := read_groups 8 0 s in
  if (length head =? 8)%nat then Some (head, rest)
  else if head_ipv4 then None
  else
    rest ← given_char ":" rest;
    rest ← given_char ":" rest;
    let '(tail, _, rest) := read_groups (8 - (length head + 1)) 0 rest in
    Some (head ++ repeat 0 (8 - length head - length tail) ++ tail, rest).

Definition read_port (s : string) : option (Z * string) := s ← given_char ":" s; read_decimal None true u16_max s.

Definition read_socket_addr_v4 (s : string) : option (SocketAddr * string) :=
  '(a, b, c, d, s) ← read_ipv4 s;
  '(port, s) ← read_port s;
  Some (mkSocketAddr (V4 a b c d) port, s).

(** The scope id after [%] is read and is no part of the address proper. *)
Definition read_socket_addr_v6 (s : string) : option (SocketAddr * string) :=
  s ← given_char "[" s;
  '(segments, s) ← read_ipv6 s;
  let s := match (s ← given_char "%" s; read_decimal None true (2 ^ 32 - 1) s) with Some (_, s) => s | None => s end in
  s ← given_char "]" s;
  '(port, s) ← read_port s;
  Some (mkSocketAddr (V6 segments) port, s).

Definition parse_socket_addr (s : string) : option SocketAddr :=
  match (match read_socket_addr_v4 s with Some r => Some r | None => read_socket_addr_v6 s end) with
  | Some (a, EmptyString) => Some a
  | _ => None
  end.

(** ** Display *)

Definition hex_char (nibble : Z) : ascii := chr (if nibble <? 10 then 48 + nibble else 87 + nibble).

(** [{:x}] of a 16-bit group. *)
Definition show_group (g : Z) : string :=
  let nibbles := [g / 4096; g / 256 mod 16; g / 16 mod 16; g mod 16] in
  let significant := if g <? 16 then drop 3 nibbles else if g <? 256 then drop 2 nibbles
                     else if g <? 4096 then drop 1 nibbles else nibbles in
  foldr (fun n s => String (hex_char n) s) EmptyString significant.

Definition show_ipv4 (a b c d : Z) : string := join "." [show_Z a; show_Z b; show_Z c; show_Z d].

(** The first longest run of zero groups, as its start and its length: [i] groups
    are behind, and [current] is the run that ends here. *)
Fixpoint longest_zeroes (segments : list Z) (i : nat) (current longest : nat * nat) : nat * nat :=
  match segments with
  | [] => longest
  | g :: segments =>
      if g =? 0 then
        let current := if (current.2 =? 0)%nat then (i, 1%nat) else (current.1, S current.2) in
        longest_zeroes segments (S i) current (if (longest.2 <? current.2)%nat then current else longest)
      else longest_zeroes segments (S i) (0, 0)%nat longest
  end.

(** An address of the form [::ffff:a.b.c.d] shows its IPv4 part ([to_ipv4_mapped]). *)
Definition is_ipv4_mapped (segments : list Z) : bool := bool_decide (take 6 segments = [0; 0; 0; 0; 0; 65535]).

Definition show_groups (l : list Z) : string := join ":" (map show_group l).

Definition show_ipv6 (segments : list Z) : string :=
  if is_ipv4_mapped segments then
    let x := nth 6 segments 0 in
    let y := nth 7 segments 0 in
    "::ffff:" +:+ show_ipv4 (x / 256) (x mod 256) (y / 256) (y mod 256)
  else
    let '(start, len) := longest_zeroes segments 0 (0, 0)%nat (0, 0)%nat in
    if (1 <? len)%nat then show_groups (take start segments) +:+ "::" +:+ show_groups (drop (start + len) segments)
    else show_groups segments.

Definition show_socket_addr (a : SocketAddr) : string :=
  match addr_ip a with
  | V4 a1 a2 a3 a4 => show_ipv4 a1 a2 a3 a4 +:+ ":" +:+ show_Z (addr_port a)
  | V6 segments => "[" +:+ show_ipv6 segments +:+ "]:" +:+ show_Z (addr_port a)
  end.

Example ipv6_forms :
  map parse_socket_addr ["[::1]:8000"; "[fe80::1%2]:80"; "[1:2:3:4:5:6:1.2.3.4]:1"; "[::]:0"; "[1::2::3]:1"; "::1:80"; "[::1]"]
  = [Some (mkSocketAddr (V6 [0; 0; 0; 0; 0; 0; 0; 1]) 8000);
     Some (mkSocketAddr (V6 [65152; 0; 0; 0; 0; 0; 0; 1]) 80);
     Some (mkSocketAddr (V6 [1; 2; 3; 4; 5; 6; 258; 772]) 1);
     Some (mkSocketAddr (V6 [0; 0; 0; 0; 0; 0; 0; 0]) 0); None; None; None] /\
  map show_socket_addr
    [mkSocketAddr (V6 [65152; 0; 0; 0; 0; 0; 0; 1]) 80; mkSocketAddr (V6 [1; 0; 0; 2; 0; 0; 0; 3]) 1;
     mkSocketAddr (V6 [0; 0; 0; 0; 0; 65535; 2561; 513]) 443; mkSocketAddr (V6 [1; 2; 3; 0; 5; 6; 7; 8]) 9]
  = ["[fe80::1]:80"; "[1:0:0:2::3]:1"; "[::ffff:10.1.2.1]:443"; "[1:2:3:0:5:6:7:8]:9"].
Proof. by vm_compute. Qed.

(** ** IPv4 addresses are read back *)

Lemma span_app p a rest :
  all_chars p a = true -> match rest with String c _ => p c = false | EmptyString => True end -> span p (a +:+ rest) = (a, rest).
Proof.
  intros Ha Hr. induction a as [|c a IH]; simpl in *.
  - destruct rest as [|c rest]; [done|]. simpl. by rewrite Hr.
  - apply andb_true_iff in Ha as [-> Ha]. by rewrite (IH Ha).
Qed.

Lemma pretty_char_digit x : is_ascii_digit (pretty_N_char (x mod 10)) = true /\ code (pretty_N_char (x mod 10)) - 48 = Z.of_N (x mod 10).
Proof.
  assert (Hx : (x mod 10 < 10)%N) by (apply N.mod_lt; lia). revert Hx. generalize (x mod 10)%N. intros y Hy.
  assert (Hin : y ∈ [0; 1; 2; 3; 4; 5; 6; 7; 8; 9]%N) by (rewrite !elem_of_cons; lia). clear Hy.
  repeat (apply elem_of_cons in Hin as [->|Hin]; [by vm_compute|]). by apply elem_of_nil in Hin.
Qed.

Lemma pretty_go_digits x s : all_chars is_ascii_digit s = true -> all_chars is_ascii_digit (pretty_N_go x s) = true.
Proof.
  revert s. induction (N.lt_wf_0 x) as [x _ IH]. intros s Hs. destruct (decide (x = 0)%N) as [->|Hx]; [by rewrite pretty_N_go_0|].
  rewrite pretty_N_go_step by lia. apply IH; [apply N.div_lt; lia|]. simpl. by rewrite (proj1 (pretty_char_digit x)), Hs.
Qed.

Lemma pretty_go_value x s : digits_value 0 (pretty_N_go x s) = digits_value (Z.of_N x) s.
Proof.
  revert s. induction (N.lt_wf_0 x) as [x _ IH]. intros s. destruct (decide (x = 0)%N) as [->|Hx]; [by rewrite pretty_N_go_0|].
  rewrite pretty_N_go_step by lia. rewrite IH by (apply N.div_lt; lia). simpl.
  destruct (pretty_char_digit x) as [-> ->]. f_equal. pose proof (N.div_mod x 10). lia.
Qed.

Lemma show_Z_digits n : all_chars is_ascii_digit (show_Z n) = true.
Proof. unfold show_Z, pretty, pretty_N. case_decide; [done|]. by apply pretty_go_digits. Qed.

Lemma show_Z_value n : 0 <= n -> digits_value 0 (show_Z n) = Some n.
Proof.
  intros Hn. unfold show_Z, pretty, pretty_N. case_decide as Hz; [replace n with 0 by lia; by vm_compute|].
  rewrite pretty_go_value. simpl. f_equal. lia.
Qed.

Lemma show_Z_nonempty n : 0 <= n -> show_Z n <> "".
Proof. intros Hn He. pose proof (show_Z_value n Hn) as Hv. rewrite He in Hv. simpl in Hv. injection Hv as <-. done. Qed.

Lemma read_decimal_show max zero_prefix width n rest :
  0 <= n <= width -> match rest with String c _ => is_ascii_digit c = false | EmptyString => True end ->
  is_some_and (fun m => (m <? String.length (show_Z n))%nat) max
    || (negb zero_prefix && (1 <? String.length (show_Z n))%nat && starts_with_char "0" (show_Z n)) = false ->
  read_decimal max zero_prefix width (show_Z n +:+ rest) = Some (n, rest).
Proof.
  intros Hn Hr Hf. unfold read_decimal. rewrite span_app by (done || apply show_Z_digits).
  rewrite <- orb_assoc, Hf. pose proof (show_Z_nonempty n ltac:(lia)) as Hne.
  destruct (show_Z n) as [|c s] eqn:Hs; [done|]. rewrite <- Hs, show_Z_value by lia. cbn [String.length Nat.eqb orb mbind option_bind].
  destruct (Z.leb_spec n width); [|lia]. by rewrite Hs.
Qed.

(** What a byte looks like. *)
Definition octet_form (n : Z) : bool :=
  negb ((3 <? String.length (show_Z n))%nat || ((1 <? String.length (show_Z n))%nat && starts_with_char "0" (show_Z n))).

Lemma octet_forms n : 0 <= n <= 255 -> octet_form n = true.
Proof.
  intros Hn. assert (Hall : forallb (fun k => octet_form (Z.of_nat k)) (seq 0 256) = true) by (vm_compute; reflexivity).
  rewrite forallb_forall in Hall. replace n with (Z.of_nat (Z.to_nat n)) by lia. apply Hall, in_seq. lia.
Qed.

Lemma read_octet_show n rest :
  0 <= n <= 255 -> match rest with String c _ => is_ascii_digit c = false | EmptyString => True end ->
  read_octet (show_Z n +:+ rest) = Some (n, rest).
Proof.
  intros Hn Hr. apply read_decimal_show; [done|done|]. apply octet_forms in Hn. unfold octet_form in Hn.
  by apply negb_true_iff in Hn.
Qed.

Definition ipv4_in_range (a b c d : Z) : Prop := 0 <= a <= 255 /\ 0 <= b <= 255 /\ 0 <= c <= 255 /\ 0 <= d <= 255.

Lemma read_ipv4_show a b c d rest :
  ipv4_in_range a b c d -> match rest with String c _ => is_ascii_digit c = false | EmptyString => True end ->
  read_ipv4 (show_ipv4 a b c d +:+ rest) = Some (a, b, c, d, rest).
Proof.
  intros (Ha & Hb & Hc & Hd) Hr. unfold show_ipv4, read_ipv4. cbn [join].
  rewrite <- !str_app_assoc. rewrite read_octet_show by done. cbn. rewrite <- ?str_app_assoc.
  rewrite read_octet_show by done. cbn. rewrite <- ?str_app_assoc. rewrite read_octet_show by done. cbn.
  by rewrite read_octet_show by done.
Qed.

(** [to_string] of an IPv4 socket address is read back. *)
Lemma parse_show_v4 a b c d port :
  ipv4_in_range a b c d -> 0 <= port <= u16_max ->
  parse_socket_addr (show_socket_addr (mkSocketAddr (V4 a b c d) port)) = Some (mkSocketAddr (V4 a b c d) port).
Proof.
  intros Hr Hp. unfold parse_socket_addr, read_socket_addr_v4, show_socket_addr. cbn [addr_ip addr_port].
  rewrite read_ipv4_show by done. cbn. rewrite <- (str_app_nil_r (show_Z port)).
  by rewrite read_decimal_show by done.
Qed.

(** ** What cannot be read *)

Lemma read_octet_first c s : is_ascii_digit c = false -> read_octet (String c s) = None.
Proof. intros Hc. unfold read_octet, read_decimal. simpl. by rewrite Hc. Qed.

(** A socket address starts with a digit or a bracket: no host name and no
    missing host is one. *)
Lemma parse_socket_addr_first c s : is_ascii_digit c = false -> Ascii.eqb c "[" = false -> parse_socket_addr (String c s) = None.
Proof.
  intros Hc Hb. unfold parse_socket_addr, read_socket_addr_v4, read_ipv4. rewrite read_octet_first by done. cbn [mbind option_bind].
  unfold read_socket_addr_v6, given_char. by rewrite Hb.
Qed.

(** Octets, groups and ports are in range. *)
Lemma digits_value_range max z width s n rest : read_decimal max z width s = Some (n, rest) -> 0 <= n <= width.
Proof.
  unfold read_decimal. destruct (span _ s) as [digits r]. destruct (_ || _); [done|]. intros (v & Hv & Hn)%bind_Some.
  destruct (Z.leb_spec v width); [|done]. injection Hn as <- _. apply digits_value_nonneg in Hv; lia.
Qed.

Lemma parse_v4_range s a b c d port :
  parse_socket_addr s = Some (mkSocketAddr (V4 a b c d) port) -> ipv4_in_range a b c d /\ 0 <= port <= u16_max.
Proof.
  unfold parse_socket_addr. destruct (read_socket_addr_v4 s) as [[x r]|] eqn:H4.
  - destruct r; [|done]. intros [= ->]. unfold read_socket_addr_v4, read_ipv4, read_port in H4.
    repeat match goal with
    | H : mbind _ _ = Some _ |- _ => apply bind_Some in H as (? & ? & H); simpl in H
    | p : (_ * _)%type |- _ => destruct p; simpl in *
    end; simplify_eq; repeat match goal with H : read_octet _ = Some _ |- _ => apply digits_value_range in H end;
    repeat match goal with H : read_decimal _ _ _ _ = Some _ |- _ => apply digits_value_range in H end; done.
  - unfold read_socket_addr_v6. intros Hs. exfalso. destruct (given_char "[" s); [|done]. cbn [mbind option_bind] in Hs.
    destruct (read_ipv6 _) as [[segments r]|]; [|done]. cbn [mbind option_bind] in Hs.
    destruct (given_char "]" _) as [r'|]; [|done]. cbn [mbind option_bind] in Hs.
    destruct (read_port r') as [[p r2]|]; [|done]. cbn [mbind option_bind] in Hs. by destruct r2.
Qed.

(** ** IPv6 addresses are read back *)

Definition group_in_range (g : Z) : Prop := 0 <= g <= u16_max.

Lemma hex_char_digit n : 0 <= n < 16 -> is_ascii_hexdigit (hex_char n) = true /\ hex (hex_char n) = Some n.
Proof.
  intros Hn. assert (Hall : forallb (fun k => is_ascii_hexdigit (hex_char (Z.of_nat k))
    && bool_decide (hex (hex_char (Z.of_nat k)) = Some (Z.of_nat k))) (seq 0 16) = true) by (vm_compute; reflexivity).
  rewrite forallb_forall in Hall. specialize (Hall (Z.to_nat n)). rewrite Z2Nat.id in Hall by lia.
  destruct (proj1 (andb_true_iff _ _) (Hall ltac:(apply in_seq; lia))) as [Hh Hv]. by apply bool_decide_eq_true_1 in Hv.
Qed.

(** Digits of a group: at most four, and their value is the group. *)
Lemma group_forms g : group_in_range g ->
  all_chars is_ascii_hexdigit (show_group g) = true /\ (0 < String.length (show_group g) <= 4)%nat /\
  hex_digits_value 0 (show_group g) = Some g.
Proof.
  unfold group_in_range, u16_max. intros Hg.
  assert (H3 : 0 <= g / 4096 < 16) by (Z.to_euclidean_division_equations; lia).
  assert (H2 : 0 <= g / 256 mod 16 < 16) by (apply Z.mod_pos_bound; lia).
  assert (H1 : 0 <= g / 16 mod 16 < 16) by (apply Z.mod_pos_bound; lia).
  assert (H0 : 0 <= g mod 16 < 16) by (apply Z.mod_pos_bound; lia).
  destruct (hex_char_digit _ H3) as [D3 V3], (hex_char_digit _ H2) as [D2 V2],
    (hex_char_digit _ H1) as [D1 V1], (hex_char_digit _ H0) as [D0 V0].
  unfold show_group. destruct (Z.ltb_spec g 16); [|destruct (Z.ltb_spec g 256); [|destruct (Z.ltb_spec g 4096)]];
    cbn [drop foldr all_chars String.length hex_digits_value]; rewrite ?D3, ?D2, ?D1, ?D0, ?V3, ?V2, ?V1, ?V0;
    cbn [mbind option_bind]; (split; [done|]); (split; [lia|]); f_equal; Z.to_euclidean_division_equations; lia.
Qed.

(** A text that cannot be taken for a group, nor for more of one. *)
Definition delimited (rest : string) : Prop :=
  match rest with String c _ => is_ascii_hexdigit c = false /\ c <> "."%char | EmptyString => False end.

Lemma hexdigit_digit c : is_ascii_digit c = true -> is_ascii_hexdigit c = true.
Proof. unfold is_ascii_hexdigit. by intros ->. Qed.

Lemma read_group_show g rest : group_in_range g -> delimited rest -> read_group (show_group g +:+ rest) = Some (g, rest).
Proof.
  intros Hg Hr. destruct (group_forms g Hg) as (Ha & Hl & Hv).
  unfold read_group. rewrite span_app; [|done|by destruct rest as [|c rest]; [|destruct Hr]].
  destruct (Nat.eqb_spec (String.length (show_group g)) 0); [lia|]. destruct (Nat.ltb_spec 4 (String.length (show_group g))); [lia|].
  simpl. by rewrite Hv.
Qed.

(** Nothing that starts like a group is an IPv4 address, unless a dot follows. *)
Lemma digits_then_no_dot a rest :
  all_chars is_ascii_hexdigit a = true -> delimited rest -> given_char "." (span is_ascii_digit (a +:+ rest)).2 = None.
Proof.
  intros Ha Hr. induction a as [|c a IH]; simpl in *.
  - destruct rest as [|c rest]; [done|]. destruct Hr as [Hh Hd]. simpl. destruct (is_ascii_digit c) eqn:Hc.
    + apply hexdigit_digit in Hc. congruence.
    + simpl. by destruct (Ascii.eqb_spec c ".").
  - apply andb_true_iff in Ha as [Hc Ha]. destruct (is_ascii_digit c) eqn:Hd.
    + destruct (span is_ascii_digit (a +:+ rest)) as [x y]. simpl in *. by apply IH.
    + simpl. destruct (Ascii.eqb_spec c "."); [by subst|done].
Qed.

Lemma read_decimal_rest max z width s n rest : read_decimal max z width s = Some (n, rest) -> rest = (span is_ascii_digit s).2.
Proof.
  unfold read_decimal. destruct (span _ s) as [digits r]. destruct (_ || _); [done|]. intros (v & _ & Hn)%bind_Some.
  destruct (v <=? width); [|done]. by injection Hn as _ <-.
Qed.

Lemma read_ipv4_needs_a_dot s : given_char "." (span is_ascii_digit s).2 = None -> read_ipv4 s = None.
Proof.
  intros Hs. unfold read_ipv4. destruct (read_octet s) as [[v rest]|] eqn:Ho; [|done]. apply read_decimal_rest in Ho as ->. simpl. by rewrite Hs.
Qed.

Lemma read_ipv4_group g rest : group_in_range g -> delimited rest -> read_ipv4 (show_group g +:+ rest) = None.
Proof.
  intros Hg Hr. apply read_ipv4_needs_a_dot, digits_then_no_dot; [|done]. by apply group_forms.
Qed.

Lemma delimited_reads_nothing rest : delimited rest -> read_ipv4 rest = None /\ read_group rest = None.
Proof.
  intros Hr. split; [apply read_ipv4_needs_a_dot; by apply (digits_then_no_dot "")|].
  unfold read_group. destruct rest as [|c rest]; [done|]. destruct Hr as [Hc _]. simpl. by rewrite Hc.
Qed.

(** After a group comes what is not one more: a bracket, or the double colon. *)
Definition ends_groups (rest : string) : Prop :=
  delimited rest /\ match given_char ":" rest with Some r => delimited r | None => True end.

(** Groups behind their separators. *)
Definition following (l : list Z) (rest : string) : string := foldr (fun g s => String ":" (show_group g +:+ s)) rest l.

Lemma following_delimited l rest : delimited rest -> delimited (following l rest).
Proof. by destruct l. Qed.

Lemma show_groups_cons g l rest : show_groups (g :: l) +:+ rest = show_group g +:+ following l rest.
Proof.
  revert g. induction l as [|h l IH]; intros g; [done|]. unfold show_groups in *. cbn [map].
  change (join ":" (show_group g :: show_group h :: map show_group l)) with
    (show_group g +:+ ":" +:+ join ":" (map show_group (h :: l))).
  rewrite <- !str_app_assoc. f_equal.
  change (String ":" (join ":" (map show_group (h :: l)) +:+ rest) = String ":" (show_group h +:+ following l rest)). f_equal. apply IH.
Qed.

(** Where no group is, [read_groups] stops without taking the separator. *)
Lemma read_groups_stop n i rest : ends_groups rest -> read_groups n i rest = ([], false, rest).
Proof.
  intros [Hr Hc]. destruct n as [|n]; [done|]. cbn [read_groups].
  assert (Hnone : (s ← separator i rest; read_ipv4 s) = None /\ (s ← separator i rest; read_group s) = None).
  { unfold separator. destruct (0 <? i)%nat; [|by apply delimited_reads_nothing].
    destruct (given_char ":" rest) as [r|]; [by apply delimited_reads_nothing|done]. }
  destruct Hnone as [-> ->]. by destruct (0 <? n)%nat.
Qed.

Lemma read_groups_step n i text g rest :
  separator i text = Some (show_group g +:+ rest) -> group_in_range g -> delimited rest ->
  read_groups (S n) i text = let '(groups, v4, rest) := read_groups n (S i) rest in (g :: groups, v4, rest).
Proof.
  intros Hs Hg Hr. cbn [read_groups]. rewrite Hs. cbn [mbind option_bind]. rewrite read_ipv4_group, read_group_show by done.
  by destruct (0 <? n)%nat.
Qed.

Lemma read_groups_following l n i rest :
  (0 < i)%nat -> (length l <= n)%nat -> Forall group_in_range l -> ends_groups rest ->
  read_groups n i (following l rest) = (l, false, rest).
Proof.
  revert n i. induction l as [|g l IH]; intros n i Hi Hn Hl Hr; [by apply read_groups_stop|].
  destruct n as [|n]; simpl in Hn; [lia|]. apply Forall_cons in Hl as [Hg Hl].
  rewrite (read_groups_step n i _ g (following l rest)); [|..].
  - rewrite IH by (done || lia). done.
  - unfold separator. by destruct (Nat.ltb_spec 0 i); [|lia].
  - done.
  - apply following_delimited, Hr.
Qed.

Lemma read_groups_show l n rest :
  (length l <= n)%nat -> Forall group_in_range l -> ends_groups rest -> read_groups n 0 (show_groups l +:+ rest) = (l, false, rest).
Proof.
  intros Hn Hl Hr. destruct l as [|g l]; [by apply read_groups_stop|]. destruct n as [|n]; simpl in Hn; [lia|].
  apply Forall_cons in Hl as [Hg Hl]. rewrite show_groups_cons, (read_groups_step n 0 _ g (following l rest)); [|done|done|apply following_delimited, Hr].
  by rewrite read_groups_following by (done || lia).
Qed.

(** *** The run of zeroes that is left out *)

Definition zero_run (l : list Z) (run : nat * nat) : Prop :=
  (run.1 + run.2 <= length l)%nat /\ forall j, (run.1 <= j < run.1 + run.2)%nat -> l !! j = Some 0.

Lemma longest_zeroes_run pre l current longest :
  zero_run pre current -> (current.2 <> 0 -> current.1 + current.2 = length pre)%nat -> zero_run pre longest ->
  zero_run (pre ++ l) (longest_zeroes l (length pre) current longest).
Proof.
  revert pre current longest. induction l as [|g l IH]; intros pre current longest Hc He Hl; simpl; [by rewrite app_nil_r|].
  assert (Hgrow : forall run, zero_run pre run -> zero_run (pre ++ [g]) run).
  { intros run [Hb Hz]. split; [rewrite length_app; lia|]. intros j Hj. rewrite lookup_app_l by lia. by apply Hz. }
  rewrite cons_middle, app_assoc. replace (S (length pre)) with (length (pre ++ [g])) by (rewrite length_app; simpl; lia).
  destruct (Z.eqb_spec g 0) as [->|].
  - set (cur := if (current.2 =? 0)%nat then _ else _).
    assert (Hcur : zero_run (pre ++ [0]) cur /\ (cur.1 + cur.2 = length (pre ++ [0%Z]))%nat).
    { unfold cur. rewrite length_app. simpl. destruct (Nat.eqb_spec current.2 0) as [|Hne]; simpl.
      - split; [|lia]. split; simpl; [rewrite length_app; simpl; lia|]. intros j Hj. replace j with (length pre) by lia.
        by rewrite lookup_app_r, Nat.sub_diag by lia.
      - specialize (He Hne). split; [|lia]. split; simpl; [rewrite length_app; simpl; lia|]. intros j Hj.
        destruct (decide (j = length pre)) as [->|]; [by rewrite lookup_app_r, Nat.sub_diag by lia|].
        rewrite lookup_app_l by lia. apply Hc. lia. }
    destruct Hcur as [Hcur Hend]. apply IH; [done|done|]. destruct (_ <? _)%nat; auto.
  - apply IH; [|done|auto]. split; simpl; [lia|]. intros j Hj. lia.
Qed.

Lemma zero_run_elided l start len :
  zero_run l (start, len) -> l = take start l ++ repeat 0 len ++ drop (start + len) l.
Proof.
  intros [Hb Hz]. simpl in *. rewrite <- (take_drop start l) at 1. f_equal. rewrite <- (take_drop len (drop start l)), drop_drop. f_equal.
  apply list_eq. intros j. destruct (decide (j < len)%nat) as [Hj|Hj].
  - rewrite lookup_take_lt, lookup_drop, Hz by lia. symmetry.
    replace (repeat 0 len) with (replicate len 0) by (clear; by induction len; simpl; congruence). by apply lookup_replicate_2.
  - rewrite lookup_take_ge by lia. symmetry. apply lookup_ge_None. rewrite repeat_length. lia.
Qed.

(** *** Round trip *)

Lemma bracket_ends text : ends_groups (String "]" text).
Proof. by split. Qed.

Lemma double_colon_ends text : ends_groups ("::" +:+ text).
Proof. by split. Qed.

Lemma read_ipv6_mapped x y text :
  group_in_range x -> group_in_range y ->
  read_ipv6 ("::ffff:" +:+ show_ipv4 (x / 256) (x mod 256) (y / 256) (y mod 256) +:+ String "]" text)
  = Some ([0; 0; 0; 0; 0; 65535; x; y], String "]" text).
Proof.
  unfold group_in_range, u16_max. intros Hx Hy.
  assert (Hr : ipv4_in_range (x / 256) (x mod 256) (y / 256) (y mod 256))
    by (unfold ipv4_in_range; Z.to_euclidean_division_equations; lia).
  set (quad := show_ipv4 _ _ _ _ +:+ _). unfold read_ipv6.
  change ("::ffff:" +:+ quad) with ("::" +:+ (show_group 65535 +:+ String ":" quad)).
  rewrite read_groups_stop by apply double_colon_ends. cbn [length Nat.eqb].
  change (given_char ":" ("::" +:+ ?s)) with (Some (":" +:+ s)). cbn [mbind option_bind].
  change (given_char ":" (":" +:+ ?s)) with (Some s). cbn [mbind option_bind Nat.sub Nat.add].
  rewrite (read_groups_step 6 0 _ 65535 (String ":" quad)); [|done|done|done].
  assert (Hq : read_groups 6 1 (String ":" quad) = ([x; y], true, String "]" text)).
  { cbn [read_groups Nat.ltb Nat.leb]. change (separator 1 (String ":" quad)) with (Some quad). cbn [mbind option_bind].
    unfold quad. rewrite read_ipv4_show by done. do 3 f_equal; [|f_equal]; Z.to_euclidean_division_equations; lia. }
  by rewrite Hq.
Qed.

Lemma read_ipv6_show segments text :
  length segments = 8%nat -> Forall group_in_range segments ->
  read_ipv6 (show_ipv6 segments +:+ String "]" text) = Some (segments, String "]" text).
Proof.
  intros Hlen Hall. unfold show_ipv6. destruct (is_ipv4_mapped segments) eqn:Hm.
  - apply bool_decide_eq_true_1 in Hm.
    do 8 (destruct segments as [|? segments]; [done|]). destruct segments; [|done]. simpl in Hm. simplify_eq.
    repeat (apply Forall_cons in Hall as [? Hall]). cbn [nth]. rewrite <- str_app_assoc. by apply read_ipv6_mapped.
  - pose proof (longest_zeroes_run [] segments (0, 0)%nat (0, 0)%nat) as Hrun. cbn [app length] in Hrun.
    destruct (longest_zeroes segments 0 (0, 0)%nat (0, 0)%nat) as [start len].
    assert (Hz : zero_run segments (start, len)) by (apply Hrun; [split; simpl; lia|simpl; lia|split; simpl; lia]). clear Hrun.
    unfold read_ipv6. destruct (Nat.ltb_spec 1 len) as [Hlen1|_].
    + pose proof (zero_run_elided _ _ _ Hz) as Heq. destruct Hz as [Hb _]. simpl in Hb.
      rewrite <- !str_app_assoc. rewrite read_groups_show; [|rewrite length_take; lia|by apply Forall_take|apply double_colon_ends].
      rewrite length_take, Nat.min_l by lia. destruct (Nat.eqb_spec start 8); [lia|].
      change (given_char ":" ("::" +:+ ?s)) with (Some (":" +:+ s)). cbn [mbind option_bind].
      change (given_char ":" (":" +:+ ?s)) with (Some s). cbn [mbind option_bind].
      rewrite read_groups_show; [|rewrite length_drop; lia|by apply Forall_drop|apply bracket_ends].
      rewrite length_drop. replace (8 - start - (length segments - (start + len)))%nat with len by lia. by rewrite <- Heq.
    + rewrite read_groups_show by (done || lia || apply bracket_ends). by rewrite Hlen.
Qed.

(** Addresses as [SocketAddr] holds them. *)
Definition ip_in_range (ip : IpAddr) : Prop :=
  match ip with
  | V4 a b c d => ipv4_in_range a b c d
  | V6 segments => length segments = 8%nat /\ Forall group_in_range segments
  end.

Definition socket_addr_in_range (a : SocketAddr) : Prop := ip_in_range (addr_ip a) /\ 0 <= addr_port a <= u16_max.

(** [to_string] of a socket address is read back. *)
Lemma parse_show a : socket_addr_in_range a -> parse_socket_addr (show_socket_addr a) = Some a.
Proof.
  destruct a as [[a b c d|segments] port]; intros [Hip Hport]; simpl in Hip, Hport; [by apply parse_show_v4|]. destruct Hip as [Hlen Hall].
  unfold parse_socket_addr, show_socket_addr. cbn [addr_ip addr_port].
  assert (H4 : read_socket_addr_v4 ("[" +:+ show_ipv6 segments +:+ "]:" +:+ show_Z port) = None)
    by (unfold read_socket_addr_v4, read_ipv4; change ("[" +:+ ?s) with (String "[" s); by rewrite read_octet_first).
  rewrite H4. unfold read_socket_addr_v6. change (given_char "[" ("[" +:+ ?s)) with (Some s). cbn [mbind option_bind].
  change ("]:" +:+ show_Z port) with (String "]" (":" +:+ show_Z port)). rewrite read_ipv6_show by done. cbn.
  rewrite <- (str_app_nil_r (show_Z port)). by rewrite read_decimal_show by done.
Qed.

(** *** What is read is in range *)

Lemma hex_digits_value_bound s acc n : 0 <= acc -> hex_digits_value acc s = Some n -> 0 <= n < (acc + 1) * 16 ^ Z.of_nat (String.length s).
Proof.
  revert acc. induction s as [|c s IH]; intros acc Ha.
  - intros [= <-]. simpl. lia.
  - cbn [hex_digits_value String.length]. intros (d & Hd & Hs)%bind_Some. assert (Hd' : 0 <= d < 16).
    { revert Hd. unfold hex, byte_in. repeat case_goal; intros; simplify_eq; bool_simp; lia. }
    apply IH in Hs; [|lia]. rewrite Nat2Z.inj_succ, Z.pow_succ_r by lia. nia.
Qed.

Lemma read_group_range s g rest : read_group s = Some (g, rest) -> group_in_range g.
Proof.
  unfold read_group. destruct (span _ s) as [digits r]. destruct (Nat.ltb_spec 4 (String.length digits)); [by rewrite orb_true_r|].
  destruct (_ || _); [done|]. intros (v & Hv & [= -> _])%bind_Some. apply hex_digits_value_bound in Hv; [|lia].
  assert (16 ^ Z.of_nat (String.length digits) <= 16 ^ 4) by (apply Z.pow_le_mono_r; lia). unfold group_in_range, u16_max. lia.
Qed.

Lemma read_ipv4_range s a b c d rest : read_ipv4 s = Some (a, b, c, d, rest) -> ipv4_in_range a b c d.
Proof.
  unfold read_ipv4. intros H4.
  repeat match goal with
  | H : mbind _ _ = Some _ |- _ => apply bind_Some in H as (? & ? & H); simpl in H
  | p : (_ * _)%type |- _ => destruct p; simpl in *
  end; simplify_eq. repeat match goal with H : read_octet _ = Some _ |- _ => apply digits_value_range in H end. done.
Qed.

Lemma read_groups_range n i s l v4 rest :
  read_groups n i s = (l, v4, rest) -> (length l <= n)%nat /\ Forall group_in_range l.
Proof.
  revert i s l v4 rest. induction n as [|n IH]; intros i s l v4 rest; [by intros [= <- _ _]|]. cbn [read_groups].
  destruct (if (0 <? n)%nat then _ else None) as [[[[[a b] c] d] r]|] eqn:H4.
  - destruct (Nat.ltb_spec 0 n); [|done]. apply bind_Some in H4 as (s' & _ & H4). apply read_ipv4_range in H4 as (Ha & Hb & Hc & Hd).
    intros [= <- _ _]. simpl. split; [lia|]. unfold group_in_range, u16_max. repeat constructor; lia.
  - destruct (separator i s ≫= read_group) as [[g r]|] eqn:Hg; [|by intros [= <- _ _]; simpl; split; [lia|constructor]].
    apply bind_Some in Hg as (s' & _ & Hg). apply read_group_range in Hg.
    destruct (read_groups n (S i) r) as [[groups w] r'] eqn:Hrec. apply IH in Hrec as [Hl Hr]. intros [= <- _ _]. simpl. split; [lia|]. by constructor.
Qed.

Lemma read_ipv6_range s l rest : read_ipv6 s = Some (l, rest) -> length l = 8%nat /\ Forall group_in_range l.
Proof.
  unfold read_ipv6. destruct (read_groups 8 0 s) as [[head v4] r] eqn:Hh. apply read_groups_range in Hh as [Hlen Hhead].
  destruct (Nat.eqb_spec (length head) 8); [by intros [= <- _]|]. destruct v4; [done|].
  intros (r1 & _ & (r2 & _ & Ht)%bind_Some)%bind_Some.
  destruct (read_groups _ 0 r2) as [[tail w] r3] eqn:Hr. apply read_groups_range in Hr as [Htl Htail]. injection Ht as <- _.
  rewrite !length_app, repeat_length. split; [lia|]. apply Forall_app. split; [done|]. apply Forall_app. split; [|done].
  apply Forall_forall. intros x Hx%list_elem_of_In%repeat_spec. subst. done.
Qed.

(** An address that was read is one that can be written and read again. *)
Lemma parse_range s a : parse_socket_addr s = Some a -> socket_addr_in_range a.
Proof.
  destruct a as [[a b c d|segments] port]; [intros [? ?]%parse_v4_range; by split|].
  unfold parse_socket_addr. destruct (read_socket_addr_v4 s) as [[x r]|] eqn:H4.
  - destruct r; [|done]. intros [= ->]. unfold read_socket_addr_v4 in H4. destruct (read_ipv4 s) as [[[[[a b] c] d] r]|]; [|done].
    cbn [mbind option_bind] in H4. destruct (read_port r) as [[p r']|]; [|done]. done.
  - clear H4. destruct (read_socket_addr_v6 s) as [[x r]|] eqn:H6; [|done]. destruct r; [|done]. intros [= ->].
    unfold read_socket_addr_v6 in H6. destruct (given_char "[" s) as [s1|]; [|done]. cbn [mbind option_bind] in H6.
    destruct (read_ipv6 s1) as [[l s2]|] eqn:Hl; [|done]. cbn [mbind option_bind] in H6. apply read_ipv6_range in Hl.
    destruct (given_char "]" _) as [s3|]; [|done]. cbn [mbind option_bind] in H6.
    destruct (read_port s3) as [[p s4]|] eqn:Hp; [|done]. cbn [mbind option_bind] in H6. simplify_eq. split; [done|]. simpl.
    unfold read_port in Hp. apply bind_Some in Hp as (s5 & _ & Hp). by apply digits_value_range in Hp.
Qed.
