(* ===== verification/Lifecycle.v ===== *)
(** * Traffic admission and ordered shutdown (src/api_server.rs, src/shutdown.rs)

    [TrafficLifecycle] counts admitted public requests with atomics and no lock,
    so its operations are interleaved at each atomic access ([traffic_step], in a
    sequentially consistent order of those accesses).  [Shutdown] is the
    coordinator: four phases in order, each under its own deadline. *)

From S2P Require Import Prelude RustStr Route RouteTable Store Tracker Registry.

(** ** Management listener handshake *)

Record ManagementLifecycle : Type := mkManagement {
  stop_requested : bool; management_accepts_stopped : bool }.

Definition Management_default : ManagementLifecycle := mkManagement false false.
Definition request_stop (m : ManagementLifecycle) : ManagementLifecycle :=
  mkManagement true (management_accepts_stopped m).
Definition management_acknowledge (m : ManagementLifecycle) : ManagementLifecycle :=
  mkManagement (stop_requested m) true.

(** ** Public traffic *)

Record TrafficLifecycle : Type := mkTraffic {
  accepting : bool; traffic_active : Z; accepts_stopped : bool }.

Definition Traffic_new : TrafficLifecycle := mkTraffic true 0 false.

(** [finish] without interference: the flag is the "released more than once" error. *)
Definition traffic_finish (t : TrafficLifecycle) : TrafficLifecycle * bool :=
  if traffic_active t =? 0 then (t, true)
  else (mkTraffic (accepting t) (traffic_active t - 1) (accepts_stopped t), false).

(** [try_admit] without interference. *)
Definition try_admit (t : TrafficLifecycle) : bool * TrafficLifecycle :=
  if negb (accepting t) then (false, t)
  else
    let t := mkTraffic (accepting t) (wrapping_add usize_max (traffic_active t) 1) (accepts_stopped t) in
    if accepting t then (true, t) else (false, (traffic_finish t).1).

Definition acknowledge_accepts_stopped (t : TrafficLifecycle) : TrafficLifecycle :=
  mkTraffic false (traffic_active t) true.

Definition drained (t : TrafficLifecycle) : bool := traffic_active t =? 0.

(** *** Interleaving *)

(** How many threads stand at each point: past the first load of [try_admit],
    past its [fetch_add], admitted, and retreating to [finish] after the second
    load.  The two stores of an acknowledgement are [tr_stop_accepting] and
    [tr_acknowledge]. *)
Record TrafficWorld : Type := mkTrafficWorld {
  tw : TrafficLifecycle;
  checked : nat; added : nat; admitted : nat; retreating : nat;
  over_released : bool
}.

Definition traffic_initial : TrafficWorld := mkTrafficWorld Traffic_new 0 0 0 0 false.

Definition finish_in (w : TrafficWorld) (adm ret : nat) : TrafficWorld :=
  let (t, over) := traffic_finish (tw w) in
  mkTrafficWorld t (checked w) (added w) adm ret (over_released w || over).

Inductive traffic_step (w : TrafficWorld) : TrafficWorld -> Prop :=
| tr_check :
    accepting (tw w) = true ->
    traffic_step w (mkTrafficWorld (tw w) (S (checked w)) (added w) (admitted w) (retreating w) (over_released w))
| tr_refuse : accepting (tw w) = false -> traffic_step w w
| tr_add n :
    checked w = S n -> traffic_active (tw w) < usize_max ->
    traffic_step w (mkTrafficWorld
      (mkTraffic (accepting (tw w)) (wrapping_add usize_max (traffic_active (tw w)) 1) (accepts_stopped (tw w)))
      n (S (added w)) (admitted w) (retreating w) (over_released w))
| tr_confirm n :
    added w = S n -> accepting (tw w) = true ->
    traffic_step w (mkTrafficWorld (tw w) (checked w) n (S (admitted w)) (retreating w) (over_released w))
| tr_retreat n :
    added w = S n -> accepting (tw w) = false ->
    traffic_step w (mkTrafficWorld (tw w) (checked w) n (admitted w) (S (retreating w)) (over_released w))
| tr_retreat_finish n : retreating w = S n -> traffic_step w (finish_in w (admitted w) n)
| tr_release n : admitted w = S n -> traffic_step w (finish_in w n (retreating w))
| tr_stop_accepting :
    traffic_step w (mkTrafficWorld (mkTraffic false (traffic_active (tw w)) (accepts_stopped (tw w)))
      (checked w) (added w) (admitted w) (retreating w) (over_released w))
| tr_acknowledge :
    accepting (tw w) = false ->
    traffic_step w (mkTrafficWorld (mkTraffic false (traffic_active (tw w)) true)
      (checked w) (added w) (admitted w) (retreating w) (over_released w)).

(** *** Invariant *)

Record traffic_inv (w : TrafficWorld) : Prop := {
  ti_count : traffic_active (tw w) = Z.of_nat (added w + admitted w + retreating w);
  ti_width : traffic_active (tw w) <= usize_max;
  ti_release : over_released w = false;
  ti_stopped : accepts_stopped (tw w) = true -> accepting (tw w) = false
}.

Lemma finish_in_inv w adm ret :
  traffic_inv w -> (S (adm + ret) = admitted w + retreating w)%nat -> traffic_inv (finish_in w adm ret).
Proof.
  intros [Hc Hw Hr Hs] Heq. unfold finish_in, traffic_finish.
  destruct (Z.eqb_spec (traffic_active (tw w)) 0); [lia|].
  split; simpl; [lia|lia|by rewrite Hr|done].
Qed.

Lemma traffic_inv_step w w' : traffic_inv w -> traffic_step w w' -> traffic_inv w'.
Proof.
  intros Hinv Hstep. pose proof Hinv as [Hc Hw Hr Hs].
  destruct Hstep as [|Ha|n Hn Hb|n Hn Ha|n Hn Ha|n Hn|n Hn| |]; try done.
  - assert (Hadd : wrapping_add usize_max (traffic_active (tw w)) 1 = traffic_active (tw w) + 1)
      by (unfold wrapping_add; apply Z.mod_small; lia).
    split; simpl; rewrite ?Hadd; try done; lia.
  - split; simpl; try done; lia.
  - split; simpl; try done; lia.
  - apply finish_in_inv; [done|lia].
  - apply finish_in_inv; [done|lia].
Qed.

Lemma traffic_reachable_inv w : rtc traffic_step traffic_initial w -> traffic_inv w.
Proof.
  revert w. apply (rtc_ind_r traffic_inv); [|intros; by eapply traffic_inv_step].
  by split.
Qed.

Lemma finish_in_accepting w adm ret : accepting (tw (finish_in w adm ret)) = accepting (tw w).
Proof. unfold finish_in, traffic_finish. by destruct (traffic_active (tw w) =? 0). Qed.

Lemma finish_in_admitted w adm ret : admitted (finish_in w adm ret) = adm.
Proof. unfold finish_in, traffic_finish. by destruct (traffic_active (tw w) =? 0). Qed.

Lemma stopped_step w w' :
  accepting (tw w) = false -> traffic_step w w' ->
  accepting (tw w') = false /\ (admitted w' <= admitted w)%nat.
Proof.
  intros Ha Hstep. destruct Hstep as [|?|n Hn Hb|n Hn Hc|n Hn Hc|n Hn|n Hn| |]; simpl; try (done || congruence).
  - rewrite finish_in_accepting, finish_in_admitted. done.
  - rewrite finish_in_accepting, finish_in_admitted. split; [done|lia].
Qed.

Lemma stopped_path w w' :
  rtc traffic_step w w' -> accepting (tw w) = false ->
  accepting (tw w') = false /\ (admitted w' <= admitted w)%nat.
Proof.
  induction 1 as [w|w1 w2 w3 H12 _ IH]; intros Ha; [done|].
  destruct (stopped_step _ _ Ha H12) as [Ha2 Hle]. destruct (IH Ha2). split; [done|lia].
Qed.

(** ** Ordered shutdown *)

Module Shutdown.

Definition TERMINAL_MUTATION_DRAIN_TIMEOUT : Duration := from_secs 5.
Definition ACCEPT_STOP_TIMEOUT : Duration := from_secs 1.
Definition ACTIVITY_FLUSH_TIMEOUT : Duration := from_secs 1.
Definition TRAFFIC_DRAIN_TIMEOUT : Duration := from_secs 2.

Definition ORDERED_SHUTDOWN_PHASE_DEADLINES : list (string * Duration) :=
  [("management and public accept-stop", ACCEPT_STOP_TIMEOUT);
   ("terminal mutation drain", TERMINAL_MUTATION_DRAIN_TIMEOUT);
   ("activity watermark flush", ACTIVITY_FLUSH_TIMEOUT);
   ("admitted traffic drain", TRAFFIC_DRAIN_TIMEOUT)].

Definition as_secs (d : Duration) : Z := d / 1000000000.

Definition SHUTDOWN_GRACE_PERIOD_SECONDS : Z :=
  as_secs ACCEPT_STOP_TIMEOUT + as_secs TERMINAL_MUTATION_DRAIN_TIMEOUT
  + as_secs ACTIVITY_FLUSH_TIMEOUT + as_secs TRAFFIC_DRAIN_TIMEOUT + 1.

Definition RUNTIME_SHUTDOWN_TIMEOUT_SECONDS : Z := 1.

(** [tokio::time::timeout]: a future that would take [needs] (for ever when
    [None]) under a deadline takes the smaller time, and errs past it. *)
Definition timeout (deadline : Duration) (needs : option Duration) : Duration * bool :=
  match needs with
  | Some d => if d <=? deadline then (d, true) else (deadline, false)
  | None => (deadline, false)
  end.

(** [tokio::join!]. *)
Definition join_all (a b : option Duration) : option Duration :=
  x ← a; y ← b; Some (Z.max x y).

(** How long each awaited condition takes to hold once its phase starts. *)
Record Needs : Type := mkNeeds {
  management_stop : option Duration; public_stop : option Duration;
  mutations_drain : option Duration; flush_needs : option Duration; traffic_needs : option Duration }.

(** One phase: its name, when it started and ended, and whether it completed. *)
Record PhaseRun : Type := mkPhaseRun { ph_name : string; ph_start : Duration; ph_end : Duration; ph_ok : bool }.

Definition run_phase (name : string) (deadline : Duration) (needs : option Duration) (now : Duration) :
    PhaseRun :=
  let (took, ok) := timeout deadline needs in mkPhaseRun name now (now + took) ok.

(** [ShutdownCoordinator::start] after the shutdown signal. *)
Definition start (mutation_timeout : Duration) (n : Needs) (now : Duration) : list PhaseRun :=
  let p1 := run_phase "management and public accept-stop" ACCEPT_STOP_TIMEOUT
              (join_all (management_stop n) (public_stop n)) now in
  let p2 := run_phase "terminal mutation drain" mutation_timeout (mutations_drain n) (ph_end p1) in
  let p3 := run_phase "activity watermark flush" ACTIVITY_FLUSH_TIMEOUT (flush_needs n) (ph_end p2) in
  let p4 := run_phase "admitted traffic drain" TRAFFIC_DRAIN_TIMEOUT (traffic_needs n) (ph_end p3) in
  [p1; p2; p3; p4].

Lemma run_phase_bounds name d needs now :
  0 <= d -> (forall x, needs = Some x -> 0 <= x) ->
  now <= ph_end (run_phase name d needs now) <= now + d /\
  ph_start (run_phase name d needs now) = now.
Proof.
  intros Hd Hn. unfold run_phase, timeout. destruct needs as [x|]; simpl; [|lia].
  specialize (Hn x eq_refl). destruct (Z.leb_spec x d); simpl; lia.
Qed.

Definition nonneg (o : option Duration) : Prop := forall x, o = Some x -> 0 <= x.

Lemma join_all_nonneg a b : nonneg a -> nonneg b -> nonneg (join_all a b).
Proof.
  intros Ha Hb x. unfold join_all. destruct a as [y|], b as [z|]; simpl; try done.
  intros [= <-]. specialize (Ha y eq_refl). lia.
Qed.

End Shutdown.

(** ** Theorems *)

(** The lock-free admission count is exact in every interleaving: it equals
    the requests inside plus the refused ones still backing out, no release ever
    finds it at zero, and an acknowledged stop implies that admission is off. *)
Theorem traffic_count_is_exact w :
  rtc traffic_step traffic_initial w ->
  traffic_active (tw w) = Z.of_nat (added w + admitted w + retreating w) /\
  over_released w = false /\
  (accepts_stopped (tw w) = true -> accepting (tw w) = false).
Proof. intros [Hc Hw Hr Hs]%traffic_reachable_inv. done. Qed.

(** A completed traffic drain is final: once admission is off and the count
    was seen at zero, no request is inside then or in any later state. *)
Theorem drained_traffic_stays_drained w w' :
  rtc traffic_step traffic_initial w -> accepting (tw w) = false -> drained (tw w) = true ->
  rtc traffic_step w w' -> admitted w = 0%nat /\ admitted w' = 0%nat.
Proof.
  intros [Hc _ _ _]%traffic_reachable_inv Ha Hd%Z.eqb_eq Hp.
  destruct (stopped_path _ _ Hp Ha) as [_ Hle]. lia.
Qed.

Definition admitted_one : TrafficWorld := mkTrafficWorld (mkTraffic true 1 false) 0 0 1 0 false.

Lemma admitted_one_reachable : rtc traffic_step traffic_initial admitted_one.
Proof.
  apply (rtc_l _ _ (mkTrafficWorld Traffic_new 1 0 0 0 false)).
  { exact (tr_check traffic_initial eq_refl). }
  apply (rtc_l _ _ (mkTrafficWorld (mkTraffic true 1 false) 0 1 0 0 false)).
  { exact (tr_add (mkTrafficWorld Traffic_new 1 0 0 0 false) 0 eq_refl eq_refl). }
  apply rtc_once. exact (tr_confirm (mkTrafficWorld (mkTraffic true 1 false) 0 1 0 0 false) 0 eq_refl eq_refl).
Qed.

Lemma traffic_count_is_exact_witness :
  traffic_active (tw admitted_one) = 1 /\ over_released admitted_one = false.
Proof. split; [reflexivity|]. apply (traffic_count_is_exact admitted_one admitted_one_reachable). Defined.

Definition stopped_idle : TrafficWorld := mkTrafficWorld (mkTraffic false 0 false) 0 0 0 0 false.

Lemma drained_traffic_stays_drained_witness : admitted stopped_idle = 0%nat.
Proof.
  apply (drained_traffic_stays_drained stopped_idle stopped_idle);
    [apply rtc_once, tr_stop_accepting|reflexivity|reflexivity|apply rtc_refl].
Defined.

(** Shutdown is ordered and bounded: the four phases run one after another
    in the documented order, each within its deadline whatever it waits for, and
    all of them end at least a second before Pingora's grace period does. *)
Theorem shutdown_is_ordered_and_bounded n now :
  Shutdown.nonneg (Shutdown.management_stop n) -> Shutdown.nonneg (Shutdown.public_stop n) ->
  Shutdown.nonneg (Shutdown.mutations_drain n) -> Shutdown.nonneg (Shutdown.flush_needs n) ->
  Shutdown.nonneg (Shutdown.traffic_needs n) ->
  let phases := Shutdown.start Shutdown.TERMINAL_MUTATION_DRAIN_TIMEOUT n now in
  map Shutdown.ph_name phases = map fst Shutdown.ORDERED_SHUTDOWN_PHASE_DEADLINES /\
  (forall i p q, phases !! i = Some p -> phases !! S i = Some q -> Shutdown.ph_end p = Shutdown.ph_start q) /\
  (forall p, p ∈ phases -> now <= Shutdown.ph_start p <= Shutdown.ph_end p /\
     Shutdown.ph_end p + from_secs 1 <= now + from_secs Shutdown.SHUTDOWN_GRACE_PERIOD_SECONDS).
Proof.
  intros H1 H2 H3 H4 H5 phases. unfold phases, Shutdown.start.
  set (p1 := Shutdown.run_phase "management and public accept-stop" _ _ now).
  set (p2 := Shutdown.run_phase "terminal mutation drain" _ _ (Shutdown.ph_end p1)).
  set (p3 := Shutdown.run_phase "activity watermark flush" _ _ (Shutdown.ph_end p2)).
  set (p4 := Shutdown.run_phase "admitted traffic drain" _ _ (Shutdown.ph_end p3)).
  assert (B1 := Shutdown.run_phase_bounds "management and public accept-stop" Shutdown.ACCEPT_STOP_TIMEOUT
    _ now ltac:(done) (Shutdown.join_all_nonneg _ _ H1 H2)). fold p1 in B1.
  assert (B2 := Shutdown.run_phase_bounds "terminal mutation drain" Shutdown.TERMINAL_MUTATION_DRAIN_TIMEOUT
    _ (Shutdown.ph_end p1) ltac:(done) H3). fold p2 in B2.
  assert (B3 := Shutdown.run_phase_bounds "activity watermark flush" Shutdown.ACTIVITY_FLUSH_TIMEOUT
    _ (Shutdown.ph_end p2) ltac:(done) H4). fold p3 in B3.
  assert (B4 := Shutdown.run_phase_bounds "admitted traffic drain" Shutdown.TRAFFIC_DRAIN_TIMEOUT
    _ (Shutdown.ph_end p3) ltac:(done) H5). fold p4 in B4.
  split_and!.
  - unfold p1, p2, p3, p4, Shutdown.run_phase. by repeat case_match.
  - intros i p q Hp Hq. destruct i as [|[|[|[|i]]]]; simplify_eq/=; lia.
  - intros p Hp. unfold Shutdown.SHUTDOWN_GRACE_PERIOD_SECONDS, Shutdown.as_secs in *.
    unfold Shutdown.ACCEPT_STOP_TIMEOUT, Shutdown.TERMINAL_MUTATION_DRAIN_TIMEOUT,
      Shutdown.ACTIVITY_FLUSH_TIMEOUT, Shutdown.TRAFFIC_DRAIN_TIMEOUT, from_secs in *.
    repeat (apply elem_of_cons in Hp as [->|Hp]; [split; [lia|]; Z.div_mod_to_equations; lia|]). by inversion Hp.
Qed.

Lemma shutdown_is_ordered_and_bounded_witness :
  let n := Shutdown.mkNeeds (Some 5) None (Some 7) None (Some 3) in
  map Shutdown.ph_ok (Shutdown.start Shutdown.TERMINAL_MUTATION_DRAIN_TIMEOUT n 0)
    = [false; true; false; true] /\
  map Shutdown.ph_name (Shutdown.start Shutdown.TERMINAL_MUTATION_DRAIN_TIMEOUT n 0)
    = map fst Shutdown.ORDERED_SHUTDOWN_PHASE_DEADLINES.
Proof.
  intros n. split; [reflexivity|].
  apply (shutdown_is_ordered_and_bounded n 0); intros x Hx; inversion Hx; subst; discriminate.
Defined.

(** [RouteRegistry::drain_mutations] as the flush phase finds the registry: the
    drain seals before it waits, and its outcome only empties the diagnostics. *)
Definition drain_mutations {St} (r : RouteRegistry St) : RouteRegistry St :=
  with_mutations (drain_start (reg_mutations r)).2 r.

(** The activity flush of the third phase cannot persist anything: the drain
    of the second phase has sealed the registry, so every attempt of the activity
    worker is refused and leaves the backend as it was. *)
Theorem flush_after_drain_persists_nothing {Env St} `{Store Env View St}
    (r : RouteRegistry St) caller key at_ :
  exists e, persist_observed_activity caller key at_ (drain_mutations r) = (Err e, drain_mutations r).
Proof.
  unfold persist_observed_activity, run_mutation, drain_mutations. cbn [reg_mutations with_mutations].
  assert (Hs : seal (drain_start (reg_mutations r)).2 <> Open).
  { unfold drain_start. case_bool_decide; simpl; by destruct (active _ =? 0). }
  unfold begin. destruct (seal (drain_start (reg_mutations r)).2); [done|..]; eauto.
Qed.

Lemma flush_after_drain_persists_nothing_witness :
  let r := mkRegistry MemoryStore.new (from_routes ∅) tracker_default in
  exists e, (persist_observed_activity (Env := MemoryStore.Clock) attached (normalize "/a") 5
    (drain_mutations r)).1 = Err e.
Proof.
  intros r. destruct (flush_after_drain_persists_nothing (Env := MemoryStore.Clock) r attached (normalize "/a") 5)
    as [e He]. exists e. by rewrite He.
Defined.
