(* ===== verification/Api.v ===== *)
(** * The route-management API (src/api.rs)

    Every handler and the router around them, as state passing over the registry
    and the metrics.  JSON, form decoding, date parsing and the constant-time
    comparison belong to other crates: they are the class [ApiLib], with the one
    fact the authorization relies on in [ApiLaws]. *)

From S2P Require Import Prelude RustStr Route RouteTable Store Tracker Registry RegistryConc.
From S2P Require Import Metrics Percent Http.

(** ** Libraries *)

Class ApiLib : Type := {
  JsonError : Type;
  json_from_slice : string -> result Value JsonError;
  json_is_eof : JsonError -> bool;
  json_display : JsonError -> string;
  json_quote : string -> string;                  (** [serde_json::to_string] of a text *)
  json_first_value_end : string -> option nat;    (** [byte_offset] after one streamed value *)
  form_urlencoded_parse : string -> list (string * string);
  parse_from_rfc3339 : string -> option DateTime;
  parse_iso_date : string -> option DateTime;     (** [%Y-%m-%d], midnight UTC *)
  parse_from_rfc2822 : string -> option DateTime;
  parse_space_separated : string -> option DateTime; (** [%Y-%m-%d %H:%M:%S%.f%#z] *)
  to_rfc3339_millis : DateTime -> string;
  constant_time_eq : string -> string -> bool
}.

Class ApiLaws `{ApiLib} : Prop := {
  constant_time_eq_spec a b : constant_time_eq a b = String.eqb a b
}.

(** ** Requests and responses *)

Definition MAX_JSON_BODY_BYTES : Z := 1024 * 1024.

Inductive Method : Type := GET | POST | DELETE | HEAD | OtherMethod (name : string).

Inductive Body : Type := BodyEmpty | BodyText (text : string) | BodyJson (value : Value).

Record Response : Type := mkResponse { status : Z; body : Body }.

Definition empty (s : Z) : Response := mkResponse s BodyEmpty.
Definition text (s : Z) (t : string) : Response := mkResponse s (BodyText t).
Definition json (v : Value) : Response := mkResponse 200 (BodyJson v).

Inductive RoutePathError : Type := BadRequest | NotFound.

Definition route_path_error_response (e : RoutePathError) : Response :=
  match e with
  | BadRequest => text 400 "Bad Request"
  | NotFound => text 404 "Not Found"
  end.

(** ** Tokens *)

Definition js_whitespace_bytes : list Z := [32; 9; 10; 11; 12; 13; 160].

Definition js_whitespace_chars : list string :=
  map encode_utf8 [160; 5760; 8192; 8193; 8194; 8195; 8196; 8197; 8198; 8199; 8200; 8201; 8202;
                   8232; 8233; 8239; 8287; 12288; 65279].

Definition javascript_whitespace_width (input : string) : option nat :=
  match input with
  | EmptyString => None
  | String first _ =>
      if existsb (Z.eqb (code first)) js_whitespace_bytes then Some 1%nat
      else if utf8_valid input then
        match List.find (fun c => starts_with c input) js_whitespace_chars with
        | Some c => Some (String.length c)
        | None => None
        end
      else None
  end.

(** [header[start..]] after the loop that skips whitespace; every width is at
    least one, so the length bounds the turns. *)
Fixpoint skip_whitespace (fuel : nat) (s : string) : string :=
  match fuel with
  | O => s
  | S fuel' =>
      match javascript_whitespace_width s with
      | Some width => skip_whitespace fuel' (default EmptyString (drop_bytes width s))
      | None => s
      end
  end.

(** [header[start..end]]: up to the first whitespace. *)
Fixpoint take_token (s : string) : string :=
  match s with
  | EmptyString => EmptyString
  | String c rest =>
      match javascript_whitespace_width s with
      | None => String c (take_token rest)
      | Some _ => EmptyString
      end
  end.

(** What follows the first occurrence of the marker. *)
Fixpoint find_after (marker s : string) : option string :=
  match strip_prefix marker s with
  | Some rest => Some rest
  | None => match s with EmptyString => None | String _ rest => find_after marker rest end
  end.

Fixpoint extract_token_loop (fuel : nat) (header : string) : option string :=
  match fuel with
  | O => None
  | S fuel' =>
      match find_after "token" header with
      | None => None
      | Some after_marker =>
          let start := skip_whitespace (String.length after_marker) after_marker in
          if (String.length start <? String.length after_marker)%nat then
            let token := take_token start in
            if is_empty token then extract_token_loop fuel' after_marker else Some token
          else extract_token_loop fuel' after_marker
      end
  end.

Definition extract_token (header : string) : option string :=
  extract_token_loop (S (String.length header)) header.

(** ** JSON syntax errors in V8's words *)

(** The scan for an odd number of unescaped quotes. *)
Fixpoint count_quotes (escaped : bool) (quotes : nat) (s : string) : nat :=
  match s with
  | EmptyString => quotes
  | String c rest =>
      let quotes := if Ascii.eqb c quote && negb escaped then S quotes else quotes in
      let escaped := Ascii.eqb c backslash && negb escaped in
      count_quotes escaped quotes rest
  end.

Definition has_unterminated_string (input : string) : bool := Nat.odd (count_quotes false 0 input).

Definition syntax_error_at (message input : string) (position : nat) : string :=
  let prefix := take_bytes (Nat.min position (String.length input)) input in
  let line := (count_byte newline prefix + 1)%nat in
  let column := match rsplit_once newline prefix with
                | Some (_, tail) => (String.length tail + 1)%nat
                | None => (String.length prefix + 1)%nat
                end in
  "SyntaxError: " +:+ message +:+ " at position " +:+ show_nat position +:+
  " (line " +:+ show_nat line +:+ " column " +:+ show_nat column +:+ ")".

(** Bytes before the first character that is not whitespace, when there is one. *)
Definition first_non_whitespace (s : string) : option (nat * string) :=
  let t := trim_start s in
  if is_empty t then None else Some ((String.length s - String.length t)%nat, t).

Fixpoint find_char (c : ascii) (s : string) : option (nat * string) :=
  match s with
  | EmptyString => None
  | String a rest =>
      if Ascii.eqb a c then Some (0%nat, rest)
      else '(n, r) ← find_char c rest; Some (S n, r)
  end.

Definition unquoted_property_position (input : string) : option nat :=
  '(open, rest) ← find_char "{" input;
  '(position, tail) ← first_non_whitespace rest;
  match tail with
  | String c _ => if negb (Ascii.eqb c quote) && negb (Ascii.eqb c "}")
                  then Some (open + 1 + position)%nat else None
  | EmptyString => None
  end.

Section Api.
Context `{HeaderLib} `{UrlLib} `{UriLib} `{ApiLib} `{F64}.
Context {Env St : Type} `{Store Env View St}.

Definition trailing_data_position (input : string) : option nat :=
  offset ← json_first_value_end input;
  rest ← drop_bytes offset input;
  '(position, _) ← first_non_whitespace rest;
  Some (offset + position)%nat.

Definition javascript_json_error (body : string) (error : JsonError) : string :=
  match from_utf8 body with
  | None => "SyntaxError: " +:+ json_display error
  | Some text =>
      let trimmed := trim_end text in
      if has_unterminated_string trimmed then
        syntax_error_at "Unterminated string in JSON" text (String.length text)
      else if ends_with "{" trimmed then
        syntax_error_at "Expected property name or '}' in JSON" text (String.length trimmed)
      else if json_is_eof error then "SyntaxError: Unexpected end of JSON input"
      else match trailing_data_position text with
      | Some position => syntax_error_at "Unexpected non-whitespace character after JSON" text position
      | None =>
          if ends_with ",}" trimmed then
            syntax_error_at "Expected double-quoted property name in JSON" text (String.length trimmed - 1)
          else if ends_with ",]" trimmed then
            "SyntaxError: Unexpected token ']', " +:+ json_quote text +:+ " is not valid JSON"
          else match unquoted_property_position text with
          | Some position => syntax_error_at "Expected property name or '}' in JSON" text position
          | None => "SyntaxError: " +:+ json_display error
          end
      end
  end.

(** ** State *)

(** [ApiState] and what its shared pointers lead to. *)
Record ApiState : Type := mkApiState {
  api_registry : RouteRegistry St;
  auth_token : option string;
  api_metrics : Metrics
}.

Definition ApiState_new (registry : RouteRegistry St) (token : option string) (m : Metrics) : ApiState :=
  mkApiState registry (opt_filter (fun t => negb (is_empty t)) token) m.

Definition set_registry (r : RouteRegistry St) (s : ApiState) : ApiState :=
  mkApiState r (auth_token s) (api_metrics s).
Definition set_metrics (m : Metrics) (s : ApiState) : ApiState :=
  mkApiState (api_registry s) (auth_token s) m.

(** A request with its collected body; [None] is a body over the limit, or one
    that could not be read. [env] and [elapsed] are the clock readings. *)
Record ApiRequest : Type := mkApiRequest {
  method : Method; uri : Uri; raw_query : option string; headers : HeaderMap;
  req_body : option string; req_env : Env; elapsed : Duration
}.

Definition registry_unavailable (s : ApiState) : bool :=
  bool_decide (consistency_status (view (api_registry s)) = StatusIndeterminate).

Definition mutation_failure (s : ApiState) (e : StoreError) : Response :=
  if is_indeterminate_error e || registry_unavailable s then empty 503
  else text 500 "Internal Server Error".

Definition authorized (s : ApiState) (h : HeaderMap) : bool :=
  match auth_token s with
  | None => true
  | Some expected =>
      match (header ← header_get AUTHORIZATION h; extract_token (value_as_bytes header)) with
      | None => false
      | Some candidate =>
          let equal_length := (String.length candidate =? String.length expected)%nat in
          let compared := if equal_length then candidate else expected in
          equal_length && constant_time_eq compared expected
      end
  end.

(** ** Parameters *)

Definition first_value (parameters : list (string * string)) (key : string) : option string :=
  snd <$> List.find (fun p => String.eqb p.1 key) parameters.

Definition parse_pinned_date_parse_subset (raw : string) : option DateTime :=
  match parse_from_rfc3339 raw with
  | Some t => Some t
  | None =>
      match parse_iso_date raw with
      | Some t => Some t
      | None =>
          match parse_from_rfc2822 raw with
          | Some t => Some t
          | None => parse_space_separated raw
          end
      end
  end.

Definition inactive_since (query : option string) : result (option DateTime) string :=
  let parameters := match query with Some q => form_urlencoded_parse q | None => [] end in
  let nonempty := opt_filter (fun v => negb (is_empty v)) in
  let current := opt_or_else (nonempty (first_value parameters "inactiveSince"))
                   (nonempty (first_value parameters "inactive_since")) in
  match current with
  | None => Ok None
  | Some raw =>
      match parse_pinned_date_parse_subset raw with
      | Some t => Ok (Some t)
      | None => Err ("Invalid datestamp '" +:+ raw +:+ "' must be ISO8601.")
      end
  end.

Definition whatwg_normalized_pathname (path : string) : option string :=
  url_path <$> ok (url_parse ("http://route.invalid" +:+ path)).

(** [for _ in 1..clean_count]. *)
Definition clean_key (clean_count : nat) (key : RouteKey) : RouteKey :=
  Nat.iter (clean_count - 1) (fun key => route_key (as_str key)) key.

Definition route_key_from_uri (u : Uri) (clean_count : nat) : result RouteKey RoutePathError :=
  let? pathname := ok_or (whatwg_normalized_pathname (uri_path u)) BadRequest in
  match strip_prefix "/api/routes" pathname with
  | None => Err NotFound
  | Some raw =>
      let? decoded := ok_or (percent_decode raw) BadRequest in
      Ok (clean_key clean_count (route_key (if is_empty decoded then "/" else decoded)))
  end.

(** ** Handlers *)

(** [Json] of the route map. *)
Definition routes_value (m : gmap RouteKey RouteData) : Value :=
  VObject (list_to_map (map (fun kd => (as_str kd.1, serialize_route to_rfc3339_millis kd.2)) (map_to_list m))).

Definition retain_inactive (ts : option DateTime) (m : gmap RouteKey RouteData) : gmap RouteKey RouteData :=
  match ts with
  | Some timestamp => filter (fun kd : RouteKey * RouteData => last_activity kd.2 < timestamp) m
  | None => m
  end.

Definition get_all_routes (req : ApiRequest) (s : ApiState) : Response * ApiState :=
  if negb (authorized s (headers req)) then (empty 403, s)
  else if registry_unavailable s then (empty 503, s)
  else
    match inactive_since (raw_query req) with
    | Err value => (text 400 value, s)
    | Ok ts =>
        (json (routes_value (retain_inactive ts (all (view (api_registry s))))),
         set_metrics (record_api_route_get (api_metrics s)) s)
    end.

Definition get_one_route (req : ApiRequest) (s : ApiState) : Response * ApiState :=
  if negb (authorized s (headers req)) then (empty 403, s)
  else if registry_unavailable s then (empty 503, s)
  else
    match route_key_from_uri (uri req) 2 with
    | Err e => (route_path_error_response e, s)
    | Ok key =>
        match get key (view (api_registry s)) with
        | Some route => (json (serialize_route to_rfc3339_millis route), s)
        | None => (empty 404, s)
        end
    end.

(** The body's object without its target and stamp, or no target. *)
Definition take_target (value : Value) : option (string * gmap string Value) :=
  let object := match value with VObject o => o | _ => ∅ end in
  match object !! "target" with
  | Some (VString target) => Some (target, delete "last_activity" (delete "target" object))
  | _ => None
  end.

Definition post_route (key : RouteKey) (req : ApiRequest) (s : ApiState) : Response * ApiState :=
  match req_body req with
  | None => (empty 413, s)
  | Some body =>
      match json_from_slice body with
      | Err error => (text 400 ("Body not valid JSON: " +:+ javascript_json_error body error), s)
      | Ok value =>
          if negb (authorized s (headers req)) then (empty 403, s)
          else if registry_unavailable s then (empty 503, s)
          else
            match take_target value with
            | None => (text 400 "Must specify 'target' as string", s)
            | Some (target, object) =>
                let (res, r) := registry_add attached (req_env req) key target object (api_registry s) in
                let s := set_registry r s in
                match res with
                | Err error => (mutation_failure s error, s)
                | Ok _ =>
                    (empty 201,
                     set_metrics (record_api_route_add
                       (record_last_activity_update (elapsed req) (api_metrics s))) s)
                end
            end
      end
  end.

Definition post_root_route (req : ApiRequest) (s : ApiState) : Response * ApiState :=
  post_route (route_key "/") req s.

Definition post_one_route (req : ApiRequest) (s : ApiState) : Response * ApiState :=
  match route_key_from_uri (uri req) 2 with
  | Err e => (route_path_error_response e, s)
  | Ok key => post_route key req s
  end.

Definition is_server_error (s : Z) : bool := (500 <=? s) && (s <? 600).

Definition delete_route_handler (key : RouteKey) (req : ApiRequest) (s : ApiState) : Response * ApiState :=
  if negb (authorized s (headers req)) then (empty 403, s)
  else if registry_unavailable s then (empty 503, s)
  else
    let (res, r) := registry_delete (Env := Env) attached key (api_registry s) in
    let s := set_registry r s in
    match res with
    | Err error => (mutation_failure s error, s)
    | Ok deleted =>
        let st := if is_some deleted then 204 else 404 in
        (empty st,
         if negb (is_server_error st) then set_metrics (record_api_route_delete (api_metrics s)) s else s)
    end.

Definition delete_root_route (req : ApiRequest) (s : ApiState) : Response * ApiState :=
  delete_route_handler (route_key "/") req s.

Definition delete_one_route (req : ApiRequest) (s : ApiState) : Response * ApiState :=
  match route_key_from_uri (uri req) 1 with
  | Err e => (route_path_error_response e, s)
  | Ok key => delete_route_handler key req s
  end.

Definition method_not_allowed : Response := text 405 "Method not supported".
Definition not_found : Response := text 404 "Not Found".

(** ** The router *)

Inductive RouteMatched : Type := RootRoutes | OneRoute | NoRoute.

(** [/api/routes], [/api/routes/] and [/api/routes/{*route}]; a catch-all needs
    at least one character. *)
Definition match_path (path : string) : RouteMatched :=
  if String.eqb path "/api/routes" || String.eqb path "/api/routes/" then RootRoutes
  else match strip_prefix "/api/routes/" path with
       | Some rest => if is_empty rest then NoRoute else OneRoute
       | None => NoRoute
       end.

Definition dispatch (req : ApiRequest) (s : ApiState) : Response * ApiState :=
  match match_path (uri_path (uri req)), method req with
  | NoRoute, _ => (not_found, s)
  | RootRoutes, GET => get_all_routes req s
  | RootRoutes, POST => post_root_route req s
  | RootRoutes, DELETE => delete_root_route req s
  | OneRoute, GET => get_one_route req s
  | OneRoute, POST => post_one_route req s
  | OneRoute, DELETE => delete_one_route req s
  | _, _ => (method_not_allowed, s)
  end.

(** The middleware layer [record_completed_request]. *)
Definition router (req : ApiRequest) (s : ApiState) : Response * ApiState :=
  let (response, s) := dispatch req s in
  (response, set_metrics (record_api_request (status response) (api_metrics s)) s).

(** ** Lemmas *)

Lemma authorized_spec `{!ApiLaws} s h :
  authorized s h = true <->
  auth_token s = None \/
  exists expected header, auth_token s = Some expected /\ header_get AUTHORIZATION h = Some header /\
    extract_token (value_as_bytes header) = Some expected.
Proof.
  unfold authorized. destruct (auth_token s) as [expected|]; [|split; [by left|done]].
  destruct (header_get AUTHORIZATION h) as [header|]; simpl.
  2:{ split; [done|]. intros [?|(? & ? & _ & ? & _)]; done. }
  destruct (extract_token (value_as_bytes header)) as [candidate|] eqn:Hx.
  - rewrite constant_time_eq_spec. split.
    + intros [Hl He]%andb_true_iff. rewrite Hl in He. apply String.eqb_eq in He as ->.
      right. by exists expected, header.
    + intros [?|(? & ? & [= <-] & [= <-] & Hx')]; [done|]. rewrite Hx in Hx'. injection Hx' as ->.
      by rewrite Nat.eqb_refl, String.eqb_refl.
  - split; [done|]. intros [?|(? & ? & ? & [= <-] & ?)]; [done|congruence].
Qed.

(** What is left of a body has no reserved field. *)
Lemma take_target_reserved_free value t o : take_target value = Some (t, o) -> reserved_free o.
Proof.
  unfold take_target, reserved_free. destruct (_ !! "target") as [[]|]; try done. intros [= _ <-].
  split; [rewrite lookup_delete_ne by done|]; apply lookup_delete_eq.
Qed.

(** *** Tokens *)

(** White space as ECMAScript defines it: white space, line terminators and the
    space separators of Unicode. *)
Definition ecma_space (c : Z) : Prop :=
  9 <= c <= 13 \/ c = 32 \/ c = 160 \/ c = 5760 \/ 8192 <= c <= 8202 \/
  c = 8232 \/ c = 8233 \/ c = 8239 \/ c = 8287 \/ c = 12288 \/ c = 65279.

(** A space [sp] at the head of [s]: one byte that is a space in Latin-1, or, when
    the rest of the header is UTF-8, the encoding of a space outside ASCII. *)
Definition space_at (s sp : string) : Prop :=
  exists rest c, s = sp +:+ rest /\ ecma_space c /\
    ((exists b, sp = str1 b /\ code b = c) \/
     (128 <= c /\ sp = encode_utf8 c /\ utf8_valid s = true)).

(** A run of spaces in front of [rest]. *)
Inductive spaces (rest : string) : string -> Prop :=
| spaces_nil : spaces rest ""
| spaces_cons sp ws : space_at (sp +:+ ws +:+ rest) sp -> spaces rest ws -> spaces rest (sp +:+ ws).

(** No space begins anywhere in [t] before [post]. *)
Fixpoint unspaced (t post : string) : Prop :=
  match t with
  | "" => True
  | String c t' => (forall sp, ~ space_at (t +:+ post) sp) /\ unspaced t' post
  end.

(** A match of [/token\s+(\S+)/] at the end of [pre]. *)
Definition token_at (header pre t : string) : Prop :=
  exists ws post, header = pre +:+ "token" +:+ ws +:+ t +:+ post /\ ws <> "" /\ spaces (t +:+ post) ws /\
    t <> "" /\ unspaced t post /\ (post = "" \/ exists sp, space_at post sp).

(** The first one. *)
Definition first_token (header t : string) : Prop :=
  exists pre, token_at header pre t /\
    forall pre' t', token_at header pre' t' -> (String.length pre <= String.length pre')%nat.

Lemma ecma_spaces_outside_ascii c : ecma_space c -> 128 <= c -> encode_utf8 c ∈ js_whitespace_chars.
Proof.
  intros Hc Hb. apply list_elem_of_In, in_map. unfold ecma_space in Hc.
  assert (Hr : 8192 <= c <= 8202 -> c = 8192 \/ c = 8193 \/ c = 8194 \/ c = 8195 \/ c = 8196 \/ c = 8197 \/
    c = 8198 \/ c = 8199 \/ c = 8200 \/ c = 8201 \/ c = 8202) by lia.
  simpl. lia.
Qed.

(** The encodings: none is a prefix of another, none begins with a space byte. *)
Lemma js_chars_prefix_free x y r r' :
  x ∈ js_whitespace_chars -> y ∈ js_whitespace_chars -> x +:+ r = y +:+ r' -> x = y.
Proof.
  intros Hx%list_elem_of_In Hy%list_elem_of_In Heq.
  assert (Hall : forallb (fun x => forallb (fun y => implb (starts_with x y) (String.eqb x y)) js_whitespace_chars)
    js_whitespace_chars = true) by (vm_compute; reflexivity).
  assert (Hp : forall x y, In x js_whitespace_chars -> In y js_whitespace_chars -> starts_with x y = true -> x = y).
  { intros x' y' Hx' Hy' Hst. pose proof (proj1 (forallb_forall _ _) Hall x' Hx') as Hone.
    pose proof (proj1 (forallb_forall _ _) Hone y' Hy') as Htwo. simpl in Htwo. rewrite Hst in Htwo. by apply String.eqb_eq in Htwo. }
  destruct (app_prefixes _ _ _ _ Heq); [by apply Hp|symmetry; by apply Hp].
Qed.

Lemma js_chars_head x : x ∈ js_whitespace_chars ->
  exists b x', x = String b x' /\ existsb (Z.eqb (code b)) js_whitespace_bytes = false.
Proof.
  intros Hx%list_elem_of_In.
  assert (Hall : forallb (fun x => match x with
    String b _ => negb (existsb (Z.eqb (code b)) js_whitespace_bytes) | EmptyString => false end) js_whitespace_chars = true)
    by (vm_compute; reflexivity).
  apply (proj1 (forallb_forall _ _) Hall) in Hx. destruct x as [|b x]; [done|]. exists b, x. split; [done|].
  by apply negb_true_iff in Hx.
Qed.

Lemma js_byte_spec b : existsb (Z.eqb (code b)) js_whitespace_bytes = true <-> ecma_space (code b).
Proof.
  rewrite existsb_exists. unfold js_whitespace_bytes, ecma_space. pose proof (code_range b) as Hr. split.
  - intros (x & Hin & <-%Z.eqb_eq). simpl in Hin. lia.
  - intros Hc. exists (code b). split; [|apply Z.eqb_refl]. simpl. lia.
Qed.

Lemma js_char_spec x : x ∈ js_whitespace_chars <-> exists c, ecma_space c /\ 128 <= c /\ x = encode_utf8 c.
Proof.
  split.
  - unfold js_whitespace_chars. intros (c & <- & Hc)%list_elem_of_In%in_map_iff. exists c.
    simpl in Hc. unfold ecma_space. split_and!; [lia|lia|done].
  - intros (c & Hc & Hb & ->). by apply ecma_spaces_outside_ascii.
Qed.

(** The character test is the definition of a space. *)
Lemma whitespace_width_spec s w :
  javascript_whitespace_width s = Some w <-> exists sp, space_at s sp /\ String.length sp = w.
Proof.
  unfold javascript_whitespace_width, space_at. split.
  - destruct s as [|b s]; [done|]. destruct (existsb _ js_whitespace_bytes) eqn:Hw.
    { intros [= <-]. apply js_byte_spec in Hw. exists (str1 b). split; [|done].
      exists s, (code b). split_and!; [done|done|]. left. by exists b. }
    destruct (utf8_valid (String b s)) eqn:Hu; [|done].
    destruct (List.find _ _) as [x|] eqn:Hf; [|done]. intros [= <-]. exists x. split; [|done].
    apply find_some in Hf as [Hin%list_elem_of_In [rest Hs]%starts_with_app].
    apply js_char_spec in Hin as (c & Hc & Hb & Hx). exists rest, c. rewrite Hs in Hu |- *. by split_and!; [..|right].
  - intros (sp & (rest & c & -> & Hc & [(b & -> & <-)|(Hb & Hsp & Hu)]) & <-).
    + change (str1 b +:+ rest) with (String b rest). cbv iota. by rewrite (proj2 (js_byte_spec b) Hc).
    + assert (Hin : sp ∈ js_whitespace_chars) by (apply js_char_spec; eauto).
      destruct (js_chars_head sp Hin) as (b & sp' & -> & Hb'). change (String b sp' +:+ rest) with (String b (sp' +:+ rest)) in *. cbv iota. rewrite Hb', Hu.
      change (String b (sp' +:+ rest)) with (String b sp' +:+ rest).
      destruct (List.find _ _) as [x|] eqn:Hf.
      * apply find_some in Hf as [Hx%list_elem_of_In [r Hs]%starts_with_app].
        by rewrite (js_chars_prefix_free _ _ _ _ Hx Hin (eq_sym Hs)).
      * exfalso. apply list_elem_of_In in Hin. pose proof (find_none _ _ Hf _ Hin) as Hn. simpl in Hn.
        rewrite (proj2 (starts_with_app _ _)) in Hn; [done|by exists rest].
Qed.

Lemma space_at_width s sp : space_at s sp -> javascript_whitespace_width s = Some (String.length sp).
Proof. intros Hsp. apply whitespace_width_spec. eauto. Qed.

Lemma no_space_width s : (forall sp, ~ space_at s sp) <-> javascript_whitespace_width s = None.
Proof.
  split.
  - intros Hn. destruct (javascript_whitespace_width s) as [w|] eqn:Hw; [|done].
    apply whitespace_width_spec in Hw as (sp & Hsp & _). by destruct (Hn sp).
  - intros Hw sp Hsp%space_at_width. congruence.
Qed.

Lemma space_at_split s sp : space_at s sp -> exists rest, s = sp +:+ rest /\ (0 < String.length sp)%nat.
Proof.
  intros (rest & c & -> & Hc & Hsp). exists rest. split; [done|].
  destruct Hsp as [(b & -> & _)|(Hb & -> & _)]; [simpl; lia|].
  assert (Hin : encode_utf8 c ∈ js_whitespace_chars) by (apply js_char_spec; eauto).
  destruct (js_chars_head _ Hin) as (b & x & -> & _). simpl. lia.
Qed.

(** What is skipped is a run of spaces, and no other run has as much behind it. *)
Lemma skip_whitespace_spec n s : (String.length s <= n)%nat ->
  javascript_whitespace_width (skip_whitespace n s) = None /\
  exists ws, s = ws +:+ skip_whitespace n s /\ spaces (skip_whitespace n s) ws.
Proof.
  revert s. induction n as [|n IH]; intros s Hn; simpl.
  { destruct s; [|simpl in Hn; lia]. split; [done|]. exists "". split; [done|constructor]. }
  destruct (javascript_whitespace_width s) as [w|] eqn:Hw.
  - apply whitespace_width_spec in Hw as (sp & Hsp & <-). destruct (space_at_split _ _ Hsp) as (rest & -> & Hl).
    rewrite drop_bytes_app. simpl. rewrite str_length_app in Hn.
    destruct (IH rest) as (Hnone & ws & Hws & Hrun); [lia|]. split; [done|]. exists (sp +:+ ws).
    rewrite <- str_app_assoc, <- Hws. split; [done|]. constructor; [by rewrite <- Hws|done].
  - split; [done|]. exists "". split; [done|constructor].
Qed.

Lemma skip_whitespace_run n rest ws :
  spaces rest ws -> (String.length (ws +:+ rest) <= n)%nat -> javascript_whitespace_width rest = None ->
  skip_whitespace n (ws +:+ rest) = rest.
Proof.
  intros Hrun. revert n. induction Hrun as [|sp ws Hsp Hrun IH]; intros n Hn Hnone.
  - destruct n; [done|]. simpl. by rewrite Hnone.
  - rewrite <- str_app_assoc in Hn |- *. rewrite str_length_app in Hn.
    destruct (space_at_split _ _ Hsp) as (_ & _ & Hl). destruct n as [|n]; [lia|]. simpl.
    rewrite (space_at_width _ _ Hsp), drop_bytes_app. simpl. apply IH; [lia|done].
Qed.

Lemma take_token_spec s :
  exists post, s = take_token s +:+ post /\ unspaced (take_token s) post /\ (post = "" \/ exists sp, space_at post sp).
Proof.
  induction s as [|c s IH]; [exists ""; split_and!; [done|done|by left]|]. cbn [take_token].
  destruct (javascript_whitespace_width (String c s)) as [w|] eqn:Hw.
  - exists (String c s). split_and!; [done|done|]. right. apply whitespace_width_spec in Hw as (sp & ? & _). eauto.
  - destruct IH as (post & Hs & Hun & Hp). exists post. split_and!; [simpl; by f_equal| |done].
    simpl. rewrite <- Hs. split; [by apply no_space_width|done].
Qed.

Lemma take_token_word t post :
  unspaced t post -> post = "" \/ (exists sp, space_at post sp) -> take_token (t +:+ post) = t.
Proof.
  intros Hun Hp. induction t as [|c t IH]; simpl in Hun.
  - simpl. destruct post as [|c post]; [done|]. destruct Hp as [?|[sp Hsp]]; [done|]. cbn [take_token].
    by rewrite (space_at_width _ _ Hsp).
  - destruct Hun as [Hn%no_space_width Hun]. simpl in Hn |- *. rewrite Hn. f_equal. by apply IH.
Qed.

(** The first occurrence of the marker. *)
Lemma find_after_first marker s rest :
  find_after marker s = Some rest -> exists pre, s = pre +:+ marker +:+ rest /\
    forall pre' rest', s = pre' +:+ marker +:+ rest' -> (String.length pre <= String.length pre')%nat.
Proof.
  induction s as [|c s IH].
  - simpl. destruct (strip_prefix marker "") as [r|] eqn:Hp; [|done]. intros [= <-].
    apply strip_prefix_Some in Hp. exists "". split; [done|]. intros. simpl. lia.
  - cbn [find_after]. destruct (strip_prefix marker (String c s)) as [r|] eqn:Hp.
    + intros [= <-]. apply strip_prefix_Some in Hp. exists "". split; [done|]. intros. simpl. lia.
    + intros (pre & -> & Hmin)%IH. exists (String c pre). split; [done|]. intros pre' rest' Heq.
      destruct pre' as [|c' pre']; [|injection Heq as <- Heq; simpl; apply Hmin in Heq; lia].
      simpl in Heq. apply strip_prefix_Some in Heq. congruence.
Qed.

Lemma find_after_None marker s pre rest : find_after marker s = None -> s <> pre +:+ marker +:+ rest.
Proof.
  revert pre. induction s as [|c s IH]; intros pre Hf Heq.
  - destruct pre; [|done]. simpl in Hf, Heq. apply strip_prefix_Some in Heq. by rewrite Heq in Hf.
  - cbn [find_after] in Hf. destruct (strip_prefix marker (String c s)) eqn:Hp; [done|].
    destruct pre as [|c' pre]; [simpl in Heq; apply strip_prefix_Some in Heq; congruence|].
    injection Heq as <- Heq. by apply (IH pre).
Qed.

(** Two occurrences of the word [token] do not overlap. *)
Lemma token_occurrences_apart pre after pre' rest :
  pre +:+ "token" +:+ after = pre' +:+ "token" +:+ rest -> (String.length pre <= String.length pre')%nat ->
  (pre' = pre /\ rest = after) \/ exists mid, pre' = pre +:+ "token" +:+ mid /\ after = mid +:+ "token" +:+ rest.
Proof.
  revert pre'. induction pre as [|c pre IH]; intros pre' Heq Hle.
  - simpl in Heq. destruct pre' as [|c1 pre']; [injection Heq as ->; by left|]. right.
    do 4 (destruct pre' as [|? pre']; [simpl in Heq; discriminate Heq|]).
    simpl in Heq. injection Heq as <- <- <- <- <- Heq. by exists pre'.
  - destruct pre' as [|c' pre']; [simpl in Hle; lia|]. simpl in Heq, Hle. injection Heq as <- Heq.
    destruct (IH pre' Heq) as [[-> ->]|(mid & -> & ->)]; [lia|by left|right; by exists mid].
Qed.

(** A match right after a marker is what the scan finds there. *)
Definition scan (after : string) : string := take_token (skip_whitespace (String.length after) after).

Lemma token_here pre after t :
  token_at (pre +:+ "token" +:+ after) pre t <->
  (String.length (skip_whitespace (String.length after) after) < String.length after)%nat /\ t <> "" /\ scan after = t.
Proof.
  unfold token_at, scan. split.
  - intros (ws & post & Heq & Hws & Hrun & Ht & Hun & Hp). apply str_app_cancel in Heq. injection Heq as ->.
    assert (Hnone : javascript_whitespace_width (t +:+ post) = None).
    { destruct t as [|c t]; [done|]. destruct Hun as [Hun _]. by apply no_space_width. }
    rewrite (skip_whitespace_run _ _ _ Hrun) by done. split_and!; [|done|by apply take_token_word].
    rewrite (str_length_app ws). destruct ws; [done|simpl; lia].
  - intros (Hlt & Ht & Hs). destruct (skip_whitespace_spec (String.length after) after) as (Hnone & ws & Hws & Hrun); [done|].
    destruct (take_token_spec (skip_whitespace (String.length after) after)) as (post & Hpost & Hun & Hp).
    rewrite Hs in Hpost, Hun. exists ws, post. split_and!; try done.
    + by rewrite <- Hpost, <- Hws.
    + intros ->. simpl in Hws. rewrite <- Hws in Hlt. lia.
    + by rewrite <- Hpost.
Qed.

Lemma token_at_later pre after mid t :
  token_at (pre +:+ "token" +:+ after) (pre +:+ "token" +:+ mid) t <-> token_at after mid t.
Proof.
  unfold token_at. split; intros (ws & post & Heq & Hrest); exists ws, post; (split; [|done]).
  - rewrite <- !str_app_assoc in Heq. apply str_app_cancel in Heq. by injection Heq as ->.
  - rewrite <- !str_app_assoc. by do 2 f_equal.
Qed.

(** The scan is the leftmost match. *)
Lemma extract_token_loop_spec n header t :
  (String.length header < n)%nat -> extract_token_loop n header = Some t <-> first_token header t.
Proof.
  revert header. induction n as [|n IH]; intros header Hn; [lia|]. cbn [extract_token_loop].
  destruct (find_after "token" header) as [after|] eqn:Hf.
  2: { split; [done|]. intros (pre & (ws & post & Heq & _) & _). by destruct (find_after_None _ _ _ _ Hf Heq). }
  apply find_after_first in Hf as (pre & -> & Hmin).
  assert (Hocc : forall pre' t', token_at (pre +:+ "token" +:+ after) pre' t' ->
    pre' = pre \/ exists mid, pre' = pre +:+ "token" +:+ mid /\ token_at after mid t').
  { intros pre' t' Hat. pose proof Hat as (ws & post & Heq & _).
    destruct (token_occurrences_apart _ _ _ _ Heq (Hmin _ _ Heq)) as [[-> _]|(mid & -> & _)]; [by left|].
    right. exists mid. split; [done|]. by apply token_at_later in Hat. }
  assert (Hlater : (forall t', ~ token_at (pre +:+ "token" +:+ after) pre t') ->
    extract_token_loop n after = Some t <-> first_token (pre +:+ "token" +:+ after) t).
  { intros Hno. rewrite IH by (rewrite !str_length_app in Hn; simpl in Hn; lia). unfold first_token. split.
    - intros (mid & Hat & Hfirst). exists (pre +:+ "token" +:+ mid). split; [by apply token_at_later|].
      intros pre' t' Hat'. destruct (Hocc _ _ Hat') as [->|(mid' & -> & Hat'')]; [by destruct (Hno t')|].
      apply Hfirst in Hat''. rewrite !str_length_app. lia.
    - intros (pre' & Hat & Hfirst). destruct (Hocc _ _ Hat) as [->|(mid & -> & Hat')]; [by destruct (Hno t)|].
      exists mid. split; [done|]. intros mid' t' Hat''. apply (token_at_later pre after mid') in Hat''.
      apply Hfirst in Hat''. rewrite !str_length_app in Hat''. lia. }
  destruct (Nat.ltb_spec (String.length (skip_whitespace (String.length after) after)) (String.length after)) as [Hlt|Hge].
  2: { apply Hlater. intros t' (Hlt & _)%token_here. lia. }
  destruct (is_empty (take_token _)) eqn:He.
  { apply Hlater. intros t' (_ & Ht & Hs)%token_here. unfold scan in Hs. rewrite Hs in He. by destruct t'. }
  assert (Hhere : token_at (pre +:+ "token" +:+ after) pre (scan after)).
  { apply token_here. split_and!; [done| |done]. unfold scan. by destruct (take_token _). }
  split.
  - intros [= <-]. exists pre. split; [exact Hhere|]. intros pre' t' (ws & post & Heq & _). by eapply Hmin.
  - intros (pre' & Hat & Hfirst). pose proof (Hfirst _ _ Hhere) as Hle.
    destruct (Hocc _ _ Hat) as [->|(mid & -> & _)]; [|rewrite !str_length_app in Hle; simpl in Hle; lia].
    apply token_here in Hat as (_ & _ & <-). done.
Qed.

(** The header a client sends: a visible token right after [token ]. *)
Lemma visible_not_whitespace c rest :
  byte_in 33 126 c = true -> javascript_whitespace_width (String c rest) = None.
Proof.
  intros Hc. unfold byte_in in Hc. bool_simp. unfold javascript_whitespace_width.
  destruct (existsb (Z.eqb (code c)) js_whitespace_bytes) eqn:Hw.
  { apply existsb_exists in Hw as (w & Hin & Heq). bool_simp. subst w.
    repeat (destruct Hin as [Hin|Hin]; [lia|]). done. }
  destruct (utf8_valid _); [|done].
  destruct (List.find _ js_whitespace_chars) as [x|] eqn:Hf; [|done].
  apply find_some in Hf as [Hin Hst].
  assert (Hhigh : forallb (fun x => match x with String h _ => 128 <=? code h | EmptyString => false end)
    js_whitespace_chars = true) by (vm_compute; reflexivity).
  apply (proj1 (forallb_forall _ _) Hhigh) in Hin. destruct x as [|h x]; [done|].
  unfold starts_with in Hst. simpl in Hst. destruct (Ascii.eqb h c) eqn:Hh; [|done].
  apply ascii_eqb_true in Hh as ->. bool_simp. lia.
Qed.

Lemma take_visible_token t : all_chars (byte_in 33 126) t = true -> take_token t = t.
Proof.
  induction t as [|c t IH]; [done|]. simpl all_chars. intros [Hc Ht]%andb_true_iff.
  cbn [take_token]. by rewrite visible_not_whitespace, IH.
Qed.

Lemma extract_visible_token t :
  t <> "" -> all_chars (byte_in 33 126) t = true -> extract_token ("token " +:+ t) = Some t.
Proof.
  intros Hne Ht. unfold extract_token. cbn [extract_token_loop].
  replace (find_after "token" ("token " +:+ t)) with (Some (" " +:+ t)) by done.
  assert (Hskip : skip_whitespace (String.length (" " +:+ t)) (" " +:+ t) = t).
  { cbn [String.append String.length skip_whitespace]. destruct t as [|c t]; [done|].
    simpl in Ht. apply andb_true_iff in Ht as [Hc _].
    change (javascript_whitespace_width (String " " (String c t))) with (Some 1%nat).
    cbn [drop_bytes default from_option id String.length skip_whitespace]. by rewrite visible_not_whitespace. }
  rewrite Hskip, take_visible_token by done.
  destruct (Nat.ltb_spec (String.length t) (String.length (" " +:+ t))) as [|Hge]; [|simpl in Hge; lia].
  by destruct t.
Qed.

(** *** Handlers *)

(** What every refusal looks like. *)
Definition refusal (out : Response * ApiState) (s : ApiState) : Prop :=
  api_registry out.2 = api_registry s /\ auth_token out.2 = auth_token s /\
  requests_api (api_metrics out.2) = requests_api (api_metrics s) /\
  status out.1 ∈ [400; 403; 404; 405; 413; 503] /\ (forall v, body out.1 <> BodyJson v).

Ltac solve_refusal :=
  unfold refusal; cbn [fst snd]; split_and!; try reflexivity;
  [apply (bool_decide_unpack _); vm_compute; exact I|discriminate].

Lemma path_error_refusal e s : refusal (route_path_error_response e, s) s.
Proof. destruct e; solve_refusal. Qed.

(** A request that is not authorized, or meets an indeterminate registry. *)
Definition blocked (req : ApiRequest) (s : ApiState) : Prop :=
  authorized s (headers req) = false \/ registry_unavailable s = true.

Lemma post_route_blocked key req s : blocked req s -> refusal (post_route key req s) s.
Proof.
  intros Hb. unfold post_route. destruct (req_body req) as [b|]; [|solve_refusal].
  destruct (json_from_slice b) as [v|e]; [|solve_refusal].
  destruct (authorized s (headers req)) eqn:Ha; cbn [negb]; [|solve_refusal].
  destruct Hb as [Hb|Hb]; [congruence|]. rewrite Hb. solve_refusal.
Qed.

Lemma delete_route_blocked key req s : blocked req s -> refusal (delete_route_handler key req s) s.
Proof.
  intros Hb. unfold delete_route_handler.
  destruct (authorized s (headers req)) eqn:Ha; cbn [negb]; [|solve_refusal].
  destruct Hb as [Hb|Hb]; [congruence|]. rewrite Hb. solve_refusal.
Qed.

Lemma get_all_blocked req s : blocked req s -> refusal (get_all_routes req s) s.
Proof.
  intros Hb. unfold get_all_routes.
  destruct (authorized s (headers req)) eqn:Ha; cbn [negb]; [|solve_refusal].
  destruct Hb as [Hb|Hb]; [congruence|]. rewrite Hb. solve_refusal.
Qed.

Lemma get_one_blocked req s : blocked req s -> refusal (get_one_route req s) s.
Proof.
  intros Hb. unfold get_one_route.
  destruct (authorized s (headers req)) eqn:Ha; cbn [negb]; [|solve_refusal].
  destruct Hb as [Hb|Hb]; [congruence|]. rewrite Hb. solve_refusal.
Qed.

Lemma dispatch_blocked req s : blocked req s -> refusal (dispatch req s) s.
Proof.
  intros Hb. unfold dispatch, not_found, method_not_allowed.
  destruct (match_path _), (method req); try solve_refusal;
    try (by apply get_all_blocked); try (by apply get_one_blocked); try (by apply post_route_blocked);
    try (by apply delete_route_blocked); unfold post_one_route, delete_one_route;
    (destruct (route_key_from_uri _ _); [|apply path_error_refusal]);
    [by apply post_route_blocked|by apply delete_route_blocked].
Qed.

(** What a blocked request is answered does not depend on the registry. *)
Lemma dispatch_hides req s r :
  blocked req s -> blocked req (set_registry r s) ->
  dispatch req (set_registry r s) = ((dispatch req s).1, set_registry r (dispatch req s).2).
Proof.
  unfold blocked. change (authorized (set_registry r s) (headers req)) with (authorized s (headers req)). intros Hb Hb'.
  assert (Hpost : forall key, post_route key req (set_registry r s)
    = ((post_route key req s).1, set_registry r (post_route key req s).2)).
  { intros key. unfold post_route. change (authorized (set_registry r s)) with (authorized s).
    destruct (req_body req); [|done]. destruct (json_from_slice _); [|done].
    destruct (authorized s (headers req)); [|done]. cbn [negb]. by destruct Hb as [?| ->], Hb' as [?| ->]. }
  assert (Hdelete : forall key, delete_route_handler key req (set_registry r s)
    = ((delete_route_handler key req s).1, set_registry r (delete_route_handler key req s).2)).
  { intros key. unfold delete_route_handler. change (authorized (set_registry r s)) with (authorized s).
    destruct (authorized s (headers req)); [|done]. cbn [negb]. by destruct Hb as [?| ->], Hb' as [?| ->]. }
  unfold dispatch, get_all_routes, get_one_route, post_one_route, delete_one_route.
  change (authorized (set_registry r s)) with (authorized s).
  destruct (match_path _), (method req); try done; try apply Hpost; try apply Hdelete;
    try (destruct (route_key_from_uri _ _); [apply Hpost || apply Hdelete|done]);
    (destruct (authorized s (headers req)); [|done]); cbn [negb]; by destruct Hb as [?| ->], Hb' as [?| ->].
Qed.

Lemma dispatch_requests_api req s :
  requests_api (api_metrics (dispatch req s).2) = requests_api (api_metrics s).
Proof.
  assert (Hp : forall key, requests_api (api_metrics (post_route key req s).2) = requests_api (api_metrics s)).
  { intros key. unfold post_route. destruct (req_body req); [|done]. destruct (json_from_slice _); [|done].
    destruct (authorized _ _); [|done]. destruct (registry_unavailable s); [done|].
    destruct (take_target _) as [[t o]|]; [|done]. cbn [negb].
    destruct (registry_add _ _ _ _ _ _) as [[]]; done. }
  assert (Hd : forall key, requests_api (api_metrics (delete_route_handler key req s).2) = requests_api (api_metrics s)).
  { intros key. unfold delete_route_handler. destruct (authorized _ _); [|done].
    destruct (registry_unavailable s); [done|]. cbn [negb].
    destruct (registry_delete _ _ _) as [[[]|]]; done. }
  unfold dispatch. destruct (match_path _), (method req); try done; try apply Hp; try apply Hd.
  - unfold get_all_routes. destruct (authorized _ _); [|done]. destruct (registry_unavailable s); [done|].
    by destruct (inactive_since _).
  - unfold get_one_route. destruct (authorized _ _); [|done]. destruct (registry_unavailable s); [done|]. cbn [negb].
    destruct (route_key_from_uri _ _); [|done]. by destruct (get _ _).
  - unfold post_one_route. destruct (route_key_from_uri _ _); [apply Hp|done].
  - unfold delete_one_route. destruct (route_key_from_uri _ _); [apply Hd|done].
Qed.

(** *** Listings *)

Lemma routes_value_lookup m :
  exists o, routes_value m = VObject o /\
    forall k, o !! as_str k = serialize_route to_rfc3339_millis <$> m !! k.
Proof.
  eexists. split; [done|]. intros k. set (f := fun kd : RouteKey * RouteData => _).
  assert (Hnd : NoDup (map f (map_to_list m)).*1).
  { change (map f (map_to_list m)) with (f <$> map_to_list m). rewrite <- list_fmap_compose.
    apply NoDup_fmap_2_strong; [|apply NoDup_map_to_list].
    intros [k1 d1] [k2 d2] Hin1 Hin2 Heq. simpl in Heq.
    apply elem_of_map_to_list in Hin1, Hin2. destruct k1, k2; simpl in *; subst. congruence. }
  destruct (m !! k) as [d|] eqn:Hk; simpl.
  - apply elem_of_list_to_map_1; [done|]. apply list_elem_of_fmap. exists (k, d).
    split; [done|]. by apply elem_of_map_to_list.
  - apply not_elem_of_list_to_map_1. rewrite <- list_fmap_compose.
    intros ([k' d'] & Heq & Hin)%list_elem_of_fmap. apply elem_of_map_to_list in Hin.
    destruct k, k'; simpl in *; subst. congruence.
Qed.

Lemma retain_inactive_lookup ts m k d :
  retain_inactive ts m !! k = Some d <->
  m !! k = Some d /\ forall t, ts = Some t -> last_activity d < t.
Proof.
  unfold retain_inactive. destruct ts as [t|].
  - rewrite map_lookup_filter_Some. simpl. split; [|naive_solver]. intros [? ?]. split; [done|]. by intros ? [= <-].
  - split; [done|]. by intros [? _].
Qed.

(** ** Theorems *)

(** C24: without the configured token nothing happens and nothing is learnt: no
    request changes the registry, each gets one of the refusal statuses, and the
    whole answer, like every counter it moves, is the one the same request would
    get over any other registry.  The same holds for every caller while the
    registry is indeterminate, over any other indeterminate registry. *)
Theorem blocked_requests_are_inert req s :
  blocked req s ->
  let out := router req s in
  api_registry out.2 = api_registry s /\
  status out.1 ∈ [400; 403; 404; 405; 413; 503] /\
  (forall v, body out.1 <> BodyJson v) /\
  (forall r, blocked req (set_registry r s) ->
     (router req (set_registry r s)).1 = out.1 /\
     api_metrics (router req (set_registry r s)).2 = api_metrics out.2) /\
  (authorized s (headers req) = false -> forall r, blocked req (set_registry r s)).
Proof.
  intros Hb out. unfold out, router. destruct (dispatch_blocked req s Hb) as (Hr & _ & _ & Hs & Hv).
  split_and!.
  - by destruct (dispatch req s).
  - by destruct (dispatch req s).
  - by destruct (dispatch req s).
  - intros r Hb'. rewrite (dispatch_hides req s r Hb Hb'). by destruct (dispatch req s).
  - intros Ha r. by left.
Qed.

(** Every response is counted once under its own status, and no other
    status count moves. *)
Theorem every_response_is_counted req s :
  let out := router req s in
  requests_api (api_metrics out.2) = count_status (status out.1) (requests_api (api_metrics s)).
Proof.
  unfold router. pose proof (dispatch_requests_api req s) as Hd.
  destruct (dispatch req s) as [resp s']. simpl in *. by rewrite Hd.
Qed.

(** A listing is exact: under each key the JSON object holds the published
    record when it passes the [inactiveSince] bound, and nothing otherwise. *)
Theorem listing_is_exact req s ts :
  authorized s (headers req) = true -> registry_unavailable s = false ->
  inactive_since (raw_query req) = Ok ts ->
  exists o, (get_all_routes req s).1 = json (VObject o) /\
    forall k v, o !! as_str k = Some v <->
      exists d, get k (view (api_registry s)) = Some d /\ v = serialize_route to_rfc3339_millis d /\
        forall t, ts = Some t -> last_activity d < t.
Proof.
  intros Ha Hu Hi. unfold get_all_routes. rewrite Ha, Hu, Hi. cbn [negb fst].
  destruct (routes_value_lookup (retain_inactive ts (all (view (api_registry s))))) as (o & -> & Ho).
  exists o. split; [done|]. intros k v. rewrite Ho, fmap_Some.
  assert (Hget : get k (view (api_registry s)) = all (view (api_registry s)) !! k).
  { unfold get, all. destruct (is_indeterminate _); [by rewrite lookup_empty|done]. }
  rewrite Hget. split.
  - intros (d & Hd & ->). apply retain_inactive_lookup in Hd as [Hd Ht]. eauto.
  - intros (d & Hd & -> & Ht). exists d. split; [|done]. by apply retain_inactive_lookup.
Qed.

(** C26: the token grammar.  With a configured token a request is authorized
    exactly when its header matches [/token\s+(\S+)/] of ECMAScript and the first
    match captures that very token: the word [token], at least one white-space
    character, then the token up to the next white space or the end of the header.
    In particular the header [token t] of a visible token [t] authorizes exactly
    when [t] is the configured one. *)
Theorem authorization_needs_the_exact_token `{!ApiLaws} s h expected :
  auth_token s = Some expected ->
  (authorized s h = true <->
   exists header, header_get AUTHORIZATION h = Some header /\ first_token (value_as_bytes header) expected) /\
  (forall header t, header_get AUTHORIZATION h = Some header -> value_as_bytes header = "token " +:+ t ->
     t <> "" -> all_chars (byte_in 33 126) t = true -> authorized s h = String.eqb t expected).
Proof.
  intros Ht. split.
  - rewrite authorized_spec. split.
    + intros [Hn|(e & header & He & Hh & Hx)]; [congruence|]. rewrite Ht in He. injection He as <-.
      exists header. split; [done|]. apply extract_token_loop_spec in Hx; [done|lia].
    + intros (header & Hh & Hx). right. exists expected, header. split_and!; [done|done|].
      apply extract_token_loop_spec; [lia|done].
  - intros header t Hh Hb Hne Hvis. unfold authorized. rewrite Ht, Hh. cbn [mbind option_bind].
    rewrite Hb, extract_visible_token, constant_time_eq_spec by done.
    destruct (Nat.eqb_spec (String.length t) (String.length expected)) as [|Hlen]; [done|].
    simpl. symmetry. apply String.eqb_neq. by intros ->.
Qed.

End Api.

Section Creation.
Context `{HeaderLib} `{UrlLib} `{UriLib} `{ApiLib} `{F64}.
Context {Env St : Type} `{StoreContract Env View St}.
Set Default Proof Using "Type*".

(** A creation is visible to the next read: after [201] the key serves a
    record with the target and the metadata of the body, minus its reserved
    fields, and a request for the key's path resolves to it. *)
Theorem created_route_is_served key (req : ApiRequest) (s : ApiState) :
  rooted key -> snapshot_wf (reg_snapshot (api_registry s)) ->
  status (post_route key req s).1 = 201 ->
  let r' := api_registry (post_route key req s).2 in
  exists payload value t o d, req_body req = Some payload /\ json_from_slice payload = Ok value /\
    take_target value = Some (t, o) /\ o !! "target" = None /\ o !! "last_activity" = None /\
    target d = t /\ extra d = o /\ get key (view r') = Some d /\
    registry_resolve (as_str key) (view r') = Some (mkRouteMatch key d).
Proof.
  intros Hkey Hwf. unfold post_route.
  destruct (req_body req) as [payload|]; [|done].
  destruct (json_from_slice payload) as [value|] eqn:Hj; [|done].
  destruct (authorized s (headers req)); [|done]. destruct (registry_unavailable s); [done|]. cbn [negb].
  destruct (take_target value) as [[t o]|] eqn:Ht; [|done].
  destruct (registry_add attached (req_env req) key t o (api_registry s)) as [[[]|e] r'] eqn:Hadd.
  - intros _. destruct (add_visible (req_env req) key t o (api_registry s) r' Hkey (take_target_reserved_free _ _ _ Ht) Hwf Hadd)
      as (d & Hd1 & Hd2 & Hd3 & _ & Hd4 & _).
    exists payload, value, t, o, d.
    destruct (take_target_reserved_free _ _ _ Ht). by split_and!.
  - unfold mutation_failure. by destruct (_ || _).
Qed.

End Creation.

(** ** Witnesses *)

(** A JSON library that knows one document. *)
#[local] Instance sample_api_lib : ApiLib := {|
  JsonError := unit;
  json_from_slice s :=
    if String.eqb s "{target: http://b}"
    then Ok (VObject {["target" := VString "http://b"; "user" := VString "x"; "last_activity" := VNull]})
    else Err tt;
  json_is_eof _ := false;
  json_display _ := "expected value";
  json_quote s := s;
  json_first_value_end _ := None;
  form_urlencoded_parse q := match split_once "=" q with Some kv => [kv] | None => [] end;
  parse_from_rfc3339 s := digits_value 0 s;
  parse_iso_date _ := None;
  parse_from_rfc2822 _ := None;
  parse_space_separated _ := None;
  to_rfc3339_millis := show_Z;
  constant_time_eq := String.eqb
|}.

#[local] Instance sample_api_laws : ApiLaws.
Proof. by split. Qed.

Definition sample_state (token : option string) : ApiState :=
  ApiState_new (mkRegistry MemoryStore.new (from_routes {[normalize "/a" := mkRouteData "http://a" 5 ∅]}) tracker_default)
    token Metrics_new.

Definition sample_request (m : Method) (h : list (string * string)) : @ApiRequest SimpleHttp.headers SimpleHttp.uris MemoryStore.Clock :=
  mkApiRequest m "/api/routes/b" (Some "inactiveSince=9") h (Some "{target: http://b}") sample_clock 0.

Lemma blocked_requests_are_inert_witness :
  status (router (sample_request POST []) (sample_state (Some "secret"))).1 = 403 /\
  api_registry (router (sample_request POST []) (sample_state (Some "secret"))).2
    = api_registry (sample_state (Some "secret")) /\
  (router (sample_request POST []) (set_registry (mkRegistry MemoryStore.new (from_routes ∅) tracker_default)
     (sample_state (Some "secret")))).1 = (router (sample_request POST []) (sample_state (Some "secret"))).1.
Proof.
  split; [vm_compute; reflexivity|].
  destruct (blocked_requests_are_inert (sample_request POST []) (sample_state (Some "secret"))) as (Hr & _ & _ & Hi & Hb).
  - left. vm_compute. reflexivity.
  - split; [exact Hr|]. apply Hi, Hb. vm_compute. reflexivity.
Defined.

Lemma listing_is_exact_witness :
  exists o, (get_all_routes (sample_request GET []) (sample_state None)).1 = json (VObject o) /\
    o !! "/a" = Some (serialize_route show_Z (mkRouteData "http://a" 5 ∅)).
Proof.
  assert (Hi : inactive_since (raw_query (sample_request GET [])) = Ok (Some 9)) by (vm_compute; reflexivity).
  destruct (listing_is_exact (sample_request GET []) (sample_state None) (Some 9) eq_refl eq_refl Hi)
    as (o & Ho & Hk).
  exists o. split; [exact Ho|]. apply (Hk (normalize "/a")).
  exists (mkRouteData "http://a" 5 ∅). split; [reflexivity|]. split; [reflexivity|].
  intros t [= <-]. reflexivity.
Defined.

Lemma authorization_needs_the_exact_token_witness :
  authorized (sample_state (Some "secret")) [("authorization", "token  secret")] = true /\
  first_token "token  secret" "secret".
Proof.
  assert (Ha : authorized (sample_state (Some "secret")) [("authorization", "token  secret")] = true)
    by (vm_compute; reflexivity).
  split; [exact Ha|].
  destruct (authorization_needs_the_exact_token (H := SimpleHttp.headers) (sample_state (Some "secret"))
    [("authorization", "token  secret")] "secret" eq_refl) as [Hexact _].
  destruct (proj1 Hexact Ha) as (header & Hh & Hf). vm_compute in Hh. injection Hh as <-. exact Hf.
Defined.

Lemma created_route_is_served_witness :
  let out := post_route (normalize "/b") (sample_request POST []) (sample_state None) in
  status out.1 = 201 /\
  exists d, registry_resolve "/b" (view (api_registry out.2)) = Some (mkRouteMatch (normalize "/b") d).
Proof.
  intros out. assert (Hs : status out.1 = 201) by (vm_compute; reflexivity). split; [exact Hs|].
  destruct (created_route_is_served (normalize "/b") (sample_request POST []) (sample_state None)
    eq_refl (from_ordered_routes_wf _ (from_sorted_wf _)) Hs) as (p & v & t & o & d & _ & _ & _ & _ & _ & _ & _ & _ & Hr).
  exists d. exact Hr.
Defined.
