(* ===== verification/Proxy.v ===== *)
(** * The HTTP data plane (src/proxy.rs)

    The callbacks Pingora drives for each request, as functions on the request
    context and the shared proxy state.  The session gives what the source reads
    of it; what a callback sends downstream is its list of [Output]s, and writing
    one may fail.  [ChpProxy]'s metrics are the ones of its activity writer. *)

From S2P Require Import Prelude RustStr Route RouteTable Store Tracker Registry RegistryConc.
From S2P Require Import Metrics Activity Percent Http Config Upstream ErrorClient Lifecycle.

(** ** Errors *)

Inductive ProxyErrorClass : Type := RouteMiss | UnavailableUpstream | Internal.

Definition class_status (c : ProxyErrorClass) : Z :=
  match c with RouteMiss => 404 | UnavailableUpstream => 503 | Internal => 500 end.

Inductive ErrorSource : Type := SourceUpstream | SourceDownstream | SourceInternal | SourceUnset.

#[export] Instance ErrorSource_eq_dec : EqDecision ErrorSource.
Proof. solve_decision. Defined.

Inductive ErrorType : Type :=
| HTTPStatus (code : Z) | ConnectError | ReadError | WriteError | ConnectionClosed | OtherError (name : string).

(** The retry state of a Pingora error: [undecided] is that of a new error,
    [decide_reuse] its update once it is known whether the connection was reused. *)
Class RetryLib : Type := {
  RetryType : Type;
  undecided : RetryType;
  decide_reuse : bool -> RetryType -> RetryType
}.

Record Error `{RetryLib} : Type := mkError { esource : ErrorSource; etype : ErrorType; retry : RetryType }.
Arguments mkError {_} _ _ _.

Definition new_in `{RetryLib} (t : ErrorType) : Error := mkError SourceInternal t undecided.
Definition new_up `{RetryLib} (t : ErrorType) : Error := mkError SourceUpstream t undecided.

(** ** Small helpers *)

Definition HEALTH_PATH : string := "/_chp_healthz".

Definition records_proxy_response_status (status : Z) : bool := negb (status =? 101).

Definition forwarded_client_address (address : option string) : string := default "undefined" address.

Inductive Output : Type :=
| SendHealth
| SendEmpty (status : Z)
| SendErrorPage (status : Z) (original : string).

Record FailToProxy : Type := mkFailToProxy { error_code : Z; can_reuse_downstream : bool }.

Section Proxy.
Context `{HeaderLib} `{UrlLib} `{UriLib} `{F64}.
Context {Env St : Type} `{Store Env View St} `{RetryLib}.

(** ** State *)

Record RequestContext : Type := mkContext {
  resolved_route_key : option RouteKey;
  original_uri : Uri;
  original_host : option HeaderValue;
  error_classification : option ProxyErrorClass;
  upstream_route : option UpstreamRoute;
  request_activity_published : bool;
  response_activity_published : bool;
  traffic_admission : bool       (** holds the shared [TrafficLifecycle] *)
}.

Definition new_ctx : RequestContext := mkContext None uri_root None None None false false false.

Definition set_class (c : ProxyErrorClass) (x : RequestContext) : RequestContext :=
  mkContext (resolved_route_key x) (original_uri x) (original_host x) (Some c) (upstream_route x)
    (request_activity_published x) (response_activity_published x) (traffic_admission x).
Definition set_key (k : RouteKey) (x : RequestContext) : RequestContext :=
  mkContext (Some k) (original_uri x) (original_host x) (error_classification x) (upstream_route x)
    (request_activity_published x) (response_activity_published x) (traffic_admission x).
Definition set_route (r : UpstreamRoute) (x : RequestContext) : RequestContext :=
  mkContext (resolved_route_key x) (original_uri x) (original_host x) (error_classification x) (Some r)
    (request_activity_published x) (response_activity_published x) (traffic_admission x).
Definition set_admission (b : bool) (x : RequestContext) : RequestContext :=
  mkContext (resolved_route_key x) (original_uri x) (original_host x) (error_classification x)
    (upstream_route x) (request_activity_published x) (response_activity_published x) b.
Definition set_original (u : Uri) (h : option HeaderValue) (x : RequestContext) : RequestContext :=
  mkContext (resolved_route_key x) u h (error_classification x)
    (upstream_route x) (request_activity_published x) (response_activity_published x) (traffic_admission x).

(** [claim_*]: [mem::replace] of the flag, inside [&&]'s short circuit. *)
Definition claim_request_activity (x : RequestContext) : bool * RequestContext :=
  (negb (request_activity_published x),
   mkContext (resolved_route_key x) (original_uri x) (original_host x) (error_classification x)
     (upstream_route x) true (response_activity_published x) (traffic_admission x)).

Definition claim_response_activity (websocket : bool) (x : RequestContext) : bool * RequestContext :=
  if websocket then
    (negb (response_activity_published x),
     mkContext (resolved_route_key x) (original_uri x) (original_host x) (error_classification x)
       (upstream_route x) (request_activity_published x) true (traffic_admission x))
  else (false, x).

Definition claim_http_completion_activity (successful websocket : bool) (x : RequestContext) :
    bool * RequestContext :=
  if successful && negb websocket then claim_request_activity x else (false, x).

(** The session as the callbacks read it. *)
Record Session : Type := mkSession {
  req_uri : Uri; req_headers : HeaderMap; is_upgrade_req : bool; is_body_empty : bool;
  client_ip : option string; server_port : option Z;
  response_written : option Z; retry_buffer_truncated : bool
}.

Record ChpProxy : Type := mkProxy {
  registry : RouteRegistry St;
  options : ProxyOptions;
  tls : TlsClientConfig;
  activity : ActivityWriter;
  downstream_protocol : string;
  traffic : TrafficLifecycle
}.

Definition set_activity (a : ActivityWriter) (p : ChpProxy) : ChpProxy :=
  mkProxy (registry p) (options p) (tls p) a (downstream_protocol p) (traffic p).
Definition set_traffic (t : TrafficLifecycle) (p : ChpProxy) : ChpProxy :=
  mkProxy (registry p) (options p) (tls p) (activity p) (downstream_protocol p) t.
Definition set_px_registry (r : RouteRegistry St) (p : ChpProxy) : ChpProxy :=
  mkProxy r (options p) (tls p) (activity p) (downstream_protocol p) (traffic p).
Definition map_metrics (f : Metrics -> Metrics) (p : ChpProxy) : ChpProxy :=
  set_activity (with_metrics (f (metrics (activity p))) (activity p)) p.

(** ** Construction *)

Inductive ProxyBuildError : Type := DefaultRoute (e : StoreError) | ErrorRenderer (cause : ErrorRendererBuildError).

Definition tls_of_config (c : AppConfig) : TlsClientConfig :=
  let connection := from_millis <$> timeout_ms (proxy c) in
  let proxy_timeout := from_millis <$> proxy_timeout_ms (proxy c) in
  {| verify_cert := verify_upstream_tls (proxy c);
     verify_hostname := verify_upstream_tls (proxy c);
     connection_timeout := connection;
     total_connection_timeout := connection;
     read_timeout := proxy_timeout;
     write_timeout := proxy_timeout;
     idle_timeout := from_millis <$> keep_alive_timeout_ms (proxy c);
     ca_file := client_tls c ≫= tls_ca;
     client_certificate := client_tls c ≫= tls_cert;
     client_key := client_tls c ≫= tls_key |}.

(** The error renderer, which is kept beside the proxy's own state, is built first. *)
Definition from_config `{Rustls} (env : Env) (r : RouteRegistry St)
    (c : AppConfig) (a : ActivityWriter) : result ChpProxy ProxyBuildError * RouteRegistry St :=
  match with_tls_policy (error_target c) (error_path c) (verify_upstream_tls (proxy c)) (client_tls c) with
  | Err cause => (Err (ErrorRenderer cause), r)
  | Ok _ =>
      let (added, r) :=
        match default_target c with
        | Some target => registry_add attached env (route_key "/") (url_as_str target) ∅ r
        | None => (Ok tt, r)
        end in
      match added with
      | Err e => (Err (DefaultRoute e), r)
      | Ok _ =>
          (Ok (mkProxy r (proxy c) (tls_of_config c) a
                 (if is_some (public_tls c) then "https" else "http") Traffic_new), r)
      end
  end.

(** ** Shared steps *)

Definition internal_error (x : RequestContext) : Error * RequestContext :=
  (new_in (HTTPStatus 500), set_class Internal x).

Definition lookup_path (opts : ProxyOptions) (x : RequestContext) (decoded_path : string) : string :=
  if host_routing opts then
    let host := match (v ← original_host x; value_to_str v) with
                | Some host => default EmptyString (head (split colon host))
                | None => "undefined"
                end in
    "/" +:+ host +:+ decoded_path
  else decoded_path.

Definition route_for_request (p : ChpProxy) (s : Session) (x : RequestContext) :
    result (option UpstreamRoute) Error * RequestContext :=
  let fail := (Err (internal_error x).1, (internal_error x).2) in
  match percent_decode (uri_path (req_uri s)) with
  | None => fail
  | Some decoded =>
      match registry_resolve (lookup_path (options p) x decoded) (view (registry p)) with
      | None => (Ok None, x)
      | Some matched =>
          match url_parse (target (rm_data matched)) with
          | Err _ => fail
          | Ok url =>
              match target_parse url with
              | Err _ => fail
              | Ok t => (Ok (Some (mkUpstreamRoute (rm_key matched) t)), set_key (rm_key matched) x)
              end
          end
      end
  end.

Definition count_kind (s : Session) (p : ChpProxy) : ChpProxy :=
  map_metrics (if is_upgrade_req s then record_ws_request else record_web_request) p.

Definition record_public_failure (s : Session) (status : Z) (p : ChpProxy) : ChpProxy :=
  map_metrics (record_proxy_request status) (count_kind s p).

(** The clock readings of one callback. *)
Record Tick : Type := mkTick { fixed_now : option DateTime; utc_now : DateTime; took : Duration }.

(** [publish_activity]; [None] is the recorder's panic. *)
Definition publish_activity (k : Tick) (x : RequestContext) (p : ChpProxy) : option ChpProxy :=
  match resolved_route_key x with
  | Some key =>
      '(r, a) ← record (fixed_now k) (utc_now k) (took k) key (registry p) (activity p);
      Some (set_activity a (set_px_registry r p))
  | None => Some p
  end.

(** [release_traffic_admission], also the whole of [Drop for RequestContext]. *)
Definition release_traffic_admission (x : RequestContext) (p : ChpProxy) : RequestContext * ChpProxy :=
  if traffic_admission x then (set_admission false x, set_traffic (traffic_finish (traffic p)).1 p)
  else (x, p).

(** ** Callbacks *)

(** Sends one output; a failed write is the callback's error. *)
Definition send (write : Output -> result unit Error) (o : Output) : result bool Error :=
  let? _ := write o in Ok true.

(** The answer, the context, the proxy and what was sent. [Ok true] means that
    the request was answered here. *)
Definition request_filter (write : Output -> result unit Error) (k : Tick) (s : Session)
    (x : RequestContext) (p : ChpProxy) : result bool Error * RequestContext * ChpProxy * list Output :=
  let (ok, t) := try_admit (traffic p) in
  let p := set_traffic t p in
  if negb ok then
    (send write (SendEmpty 503), x, record_public_failure s 503 p, [SendEmpty 503])
  else
    let x := set_admission true x in
    if bool_decide (consistency_status (view (registry p)) = StatusIndeterminate) then
      (send write (SendEmpty 503), x, record_public_failure s 503 p, [SendEmpty 503])
    else
      let x := set_original (req_uri s) (header_get HOST (req_headers s)) x in
      let original := raw_path_and_query (original_uri x) in
      if String.eqb original HEALTH_PATH then (send write SendHealth, x, p, [SendHealth])
      else
        let p := count_kind s p in
        let (route, x) := route_for_request p s x in
        let p := map_metrics (record_find_target (took k)) p in
        match route with
        | Err e => (Err e, x, p, [])
        | Ok None =>
            (send write (SendErrorPage 404 original), set_class RouteMiss x,
             map_metrics (record_proxy_request 404) p, [SendErrorPage 404 original])
        | Ok (Some route) => (Ok false, set_route route x, p, [])
        end.

(** [upstream_peer], over the outcome of [http_peer] for the route's target. *)
Definition upstream_peer {Peer} (http_peer : Target -> TlsClientConfig -> result Peer TargetError)
    (x : RequestContext) (p : ChpProxy) : result Peer Error * RequestContext :=
  match upstream_route x with
  | None => let (e, x) := internal_error x in (Err e, x)
  | Some route =>
      match http_peer (ur_target route) (tls p) with
      | Ok peer => (Ok peer, x)
      | Err error =>
          let unavailable := match error with
                             | AddressResolution _ _ | NoResolvedAddress _ => true
                             | _ => false
                             end in
          (Err (if unavailable then new_up ConnectError else new_in (HTTPStatus 500)),
           set_class (if unavailable then UnavailableUpstream else Internal) x)
      end
  end.

(** [replace_request_headers]: entries without a name are skipped.  The error that
    appending a name and a value can return is not modelled: both are valid already,
    and the map they come from is within the limit on its size. *)
Definition replace_request_headers (request new : HeaderMap) : HeaderMap :=
  let request := remove_all (header_keys request) request in
  fold_left (fun h nv => match nv.1 with Some name => header_append name nv.2 h | None => h end)
    (into_iter new) request.

Definition forwarded_port (p : ChpProxy) (s : Session) (x : RequestContext) : Z :=
  let default_port := if String.eqb (downstream_protocol p) "https" then 443 else 80 in
  match original_host x with
  | Some host => default default_port (h ← value_to_str host; authority_port h)
  | None => default default_port (server_port s)
  end.

(** The upstream request's headers and URI. *)
Definition upstream_request_filter (s : Session) (request_headers : HeaderMap)
    (x : RequestContext) (p : ChpProxy) : result (HeaderMap * Uri) Error * RequestContext :=
  let fail := (Err (internal_error x).1, (internal_error x).2) in
  match upstream_route x with
  | None => fail
  | Some route =>
      match build_upstream_uri route (original_uri x) (options p) with
      | Err _ => fail
      | Ok uri =>
          let context := mkForwardedContext (forwarded_client_address (client_ip s))
                           (forwarded_port p s x) (downstream_protocol p) in
          match apply_forwarded_headers request_headers context (options p) with
          | Err _ => fail
          | Ok headers =>
              match apply_request_headers headers (ur_target route) (options p) with
              | Err _ => fail
              | Ok headers =>
                  let headers := replace_request_headers request_headers headers in
                  let headers :=
                    if negb (is_body_empty s) && negb (contains_key CONTENT_LENGTH headers)
                    then header_insert TRANSFER_ENCODING (value_from_static "chunked") headers
                    else headers in
                  (Ok (headers, uri), x)
              end
          end
      end
  end.

Definition upstream_response_filter (status : Z) (response_headers : HeaderMap)
    (x : RequestContext) (p : ChpProxy) : result HeaderMap Error * RequestContext * ChpProxy :=
  let fail := (Err (internal_error x).1, (internal_error x).2, p) in
  match upstream_route x with
  | None => fail
  | Some route =>
      let request := match original_host x with
                     | Some host => header_insert HOST host header_empty
                     | None => header_empty
                     end in
      match rewrite_location status response_headers request (ur_target route) (options p) with
      | Err _ => fail
      | Ok rewritten =>
          let headers := match header_get LOCATION rewritten with
                         | Some location => header_insert LOCATION location response_headers
                         | None => header_remove LOCATION response_headers
                         end in
          (Ok headers, x,
           if records_proxy_response_status status then map_metrics (record_proxy_request status) p else p)
      end
  end.

Definition observe_request_stream_data (k : Tick) (x : RequestContext) (p : ChpProxy) :
    option (RequestContext * ChpProxy) :=
  let (claimed, x) := claim_request_activity x in
  if claimed then p ← publish_activity k x p; Some (x, p) else Some (x, p).

Definition observe_response_stream_data (k : Tick) (websocket : bool) (x : RequestContext) (p : ChpProxy) :
    option (RequestContext * ChpProxy) :=
  let (claimed, x) := claim_response_activity websocket x in
  if claimed then p ← publish_activity k x p; Some (x, p) else Some (x, p).

Definition request_body_filter (k : Tick) (body : option string) (x : RequestContext) (p : ChpProxy) :
    option (RequestContext * ChpProxy) :=
  if is_some_and (fun b => negb (is_empty b)) body then
    observe_request_stream_data k x p
  else Some (x, p).

Definition upstream_response_body_filter (k : Tick) (s : Session) (body : option string)
    (x : RequestContext) (p : ChpProxy) : option (RequestContext * ChpProxy) :=
  if is_some_and (fun b => negb (is_empty b)) body then
    observe_response_stream_data k (is_upgrade_req s) x p
  else Some (x, p).

Definition fail_to_connect (x : RequestContext) (e : Error) : Error * RequestContext :=
  (e, set_class UnavailableUpstream x).

Definition error_while_proxy (s : Session) (client_reused : bool) (x : RequestContext) (e : Error) :
    Error * RequestContext :=
  let x := if is_none (error_classification x) && bool_decide (esource e = SourceUpstream)
           then set_class UnavailableUpstream x else x in
  (mkError (esource e) (etype e) (decide_reuse (client_reused && negb (retry_buffer_truncated s)) (retry e)), x).

Definition is_disconnect (t : ErrorType) : bool :=
  match t with ReadError | WriteError | ConnectionClosed => true | _ => false end.

Definition fail_to_proxy (s : Session) (e : Error) (x : RequestContext) (p : ChpProxy) :
    FailToProxy * ChpProxy * list Output :=
  match response_written s with
  | Some status => (mkFailToProxy status false, p, [])
  | None =>
      if bool_decide (esource e = SourceDownstream) && is_disconnect (etype e)
      then (mkFailToProxy 0 false, p, [])
      else
        let class := match error_classification x with
                     | Some c => c
                     | None => if bool_decide (esource e = SourceUpstream)
                               then UnavailableUpstream else Internal
                     end in
        let status := class_status class in
        let p := map_metrics (record_proxy_request status) p in
        if is_upgrade_req s then (mkFailToProxy status false, p, [SendEmpty status])
        else (mkFailToProxy status false, p,
              [SendErrorPage status (raw_path_and_query (original_uri x))])
  end.

Definition logging (k : Tick) (s : Session) (failed : bool) (x : RequestContext) (p : ChpProxy) :
    option (RequestContext * ChpProxy) :=
  let successful := negb failed && is_some_and (fun status => status <? 300) (response_written s) in
  let (claimed, x) := claim_http_completion_activity successful (is_upgrade_req s) x in
  p ← (if claimed then publish_activity k x p else Some p);
  Some (release_traffic_admission x p).

(** ** The life of one request *)

(** One callback after [request_filter]; the label counts the activity
    publications it makes. *)
Inductive callback (s : Session) (x : RequestContext) (p : ChpProxy) :
    nat -> RequestContext -> ChpProxy -> Prop :=
| cb_upstream_peer {Peer} (hp : Target -> TlsClientConfig -> result Peer TargetError) :
    callback s x p 0 (upstream_peer hp x p).2 p
| cb_upstream_request h : callback s x p 0 (upstream_request_filter s h x p).2 p
| cb_upstream_response status h :
    callback s x p 0 (upstream_response_filter status h x p).1.2 (upstream_response_filter status h x p).2
| cb_request_body k body x' p' :
    request_body_filter k body x p = Some (x', p') ->
    callback s x p
      (if is_some_and (fun b => negb (is_empty b)) body && negb (request_activity_published x) then 1 else 0) x' p'
| cb_response_body k body x' p' :
    upstream_response_body_filter k s body x p = Some (x', p') ->
    callback s x p
      (if is_some_and (fun b => negb (is_empty b)) body && is_upgrade_req s
          && negb (response_activity_published x) then 1 else 0) x' p'
| cb_fail_to_connect e : callback s x p 0 (fail_to_connect x e).2 p
| cb_error_while reused e : callback s x p 0 (error_while_proxy s reused x e).2 p
| cb_fail_to_proxy e : callback s x p 0 x (fail_to_proxy s e x p).1.2
| cb_logging k failed written x' p' :
    logging k (mkSession (req_uri s) (req_headers s) (is_upgrade_req s) (is_body_empty s) (client_ip s)
      (server_port s) written (retry_buffer_truncated s)) failed x p = Some (x', p') ->
    callback s x p
      (if (negb failed && is_some_and (fun status => status <? 300) written) && negb (is_upgrade_req s)
          && negb (request_activity_published x) then 1 else 0) x' p'.

Inductive callbacks (s : Session) : nat -> RequestContext -> ChpProxy -> RequestContext -> ChpProxy -> Prop :=
| cbs_done x p : callbacks s 0 x p x p
| cbs_step n m x p x1 p1 x2 p2 :
    callback s x p n x1 p1 -> callbacks s m x1 p1 x2 p2 -> callbacks s (n + m) x p x2 p2.

(** [Drop for RequestContext]. *)
Definition drop_context (x : RequestContext) (p : ChpProxy) : ChpProxy := (release_traffic_admission x p).2.

(** *** Lemmas *)

Definition b2z (b : bool) : Z := if b then 1 else 0.

Lemma publish_activity_traffic k x p p' : publish_activity k x p = Some p' -> traffic p' = traffic p.
Proof.
  unfold publish_activity. destruct (resolved_route_key x); [|by intros [= <-]].
  intros ([reg act] & _ & [= <-])%bind_Some. done.
Qed.

(** A callback leaves the admission and the traffic alone, or it releases the
    admission the context carries. *)
Lemma callback_traffic s x p n x' p' :
  callback s x p n x' p' ->
  (traffic_admission x' = traffic_admission x /\ traffic p' = traffic p) \/
  (traffic_admission x = true /\ traffic_admission x' = false /\ traffic p' = (traffic_finish (traffic p)).1).
Proof.
  intros Hc.
  destruct Hc as [Peer hp|h|status h|k body x' p' Hb|k body x' p' Hb|e|reused e|e|k failed written x' p' Hl].
  - unfold upstream_peer. destruct (upstream_route x) as [r|]; [|by left]. left; by destruct (hp _ _).
  - unfold upstream_request_filter. destruct (upstream_route x) as [r|]; [|by left].
    destruct (build_upstream_uri _ _ _); [|by left]. destruct (apply_forwarded_headers _ _ _); [|by left].
    left; by destruct (apply_request_headers _ _ _).
  - unfold upstream_response_filter. destruct (upstream_route x) as [r|]; [|by left].
    destruct (rewrite_location _ _ _ _ _); [|by left]. left; by destruct (records_proxy_response_status status).
  - unfold request_body_filter, observe_request_stream_data in Hb. destruct (is_some_and _ body); [|left; by simplify_eq]. simpl in Hb.
    destruct (request_activity_published x); simpl in Hb; [left; by simplify_eq|].
    apply bind_Some in Hb as (p1 & Hp & [= <- <-]). apply publish_activity_traffic in Hp as ->. by left.
  - unfold upstream_response_body_filter, observe_response_stream_data in Hb. destruct (is_some_and _ body); [|left; by simplify_eq].
    unfold claim_response_activity in Hb. destruct (is_upgrade_req s); [|left; by simplify_eq]. simpl in Hb.
    destruct (response_activity_published x); simpl in Hb; [left; by simplify_eq|].
    apply bind_Some in Hb as (p1 & Hp & [= <- <-]). apply publish_activity_traffic in Hp as ->. by left.
  - by left.
  - unfold error_while_proxy. simpl. left; by destruct (_ && _).
  - unfold fail_to_proxy. destruct (response_written s); [by left|]. destruct (_ && _); [by left|].
    left; by destruct (is_upgrade_req s).
  - unfold logging in Hl. destruct (claim_http_completion_activity _ _ x) as [claimed x1] eqn:Hclaim.
    assert (Hx1 : traffic_admission x1 = traffic_admission x).
    { unfold claim_http_completion_activity in Hclaim. case_hyp Hclaim; injection Hclaim as _ <-; done. }
    apply bind_Some in Hl as (p1 & Hp & Hrel).
    assert (Hp1 : traffic p1 = traffic p).
    { destruct claimed; [by apply publish_activity_traffic in Hp|by simplify_eq]. }
    unfold release_traffic_admission in Hrel. rewrite Hx1, Hp1 in Hrel.
    destruct (traffic_admission x); simplify_eq; [by right|left; by rewrite Hx1, Hp1].
Qed.

(** The count this request contributes is the flag it carries. *)
Lemma callback_admission s x p n x' p' :
  callback s x p n x' p' -> (traffic_admission x = true -> 0 < traffic_active (traffic p)) ->
  traffic_active (traffic p') - b2z (traffic_admission x') = traffic_active (traffic p) - b2z (traffic_admission x).
Proof.
  intros [[-> ->]|(Hx & -> & ->)]%callback_traffic Hpos; [done|]. rewrite Hx. specialize (Hpos Hx).
  unfold traffic_finish. destruct (Z.eqb_spec (traffic_active (traffic p)) 0); simpl; lia.
Qed.

(** Over any callbacks the count is the others' plus this request's flag. *)
Lemma callbacks_admission s n x p x' p' base :
  callbacks s n x p x' p' -> 0 <= base ->
  traffic_active (traffic p) = base + b2z (traffic_admission x) ->
  traffic_active (traffic p') = base + b2z (traffic_admission x').
Proof.
  intros Hc Hb. induction Hc as [x p|n m x p x1 p1 x2 p2 Hc1 Hc2 IH]; intros Heq; [done|].
  apply IH. assert (Hpos : traffic_admission x = true -> 0 < traffic_active (traffic p)).
  { intros Ht. rewrite Heq, Ht. simpl. lia. }
  pose proof (callback_admission _ _ _ _ _ _ Hc1 Hpos). lia.
Qed.

Lemma drop_context_admission x p base :
  0 <= base -> traffic_active (traffic p) = base + b2z (traffic_admission x) ->
  traffic_active (traffic (drop_context x p)) = base.
Proof.
  intros Hb Heq. unfold drop_context, release_traffic_admission. destruct (traffic_admission x); simpl in *; [|lia].
  unfold traffic_finish. destruct (Z.eqb_spec (traffic_active (traffic p)) 0); [lia|]. simpl. lia.
Qed.

Lemma try_admit_count t :
  0 <= traffic_active t < usize_max ->
  traffic_active (try_admit t).2 = traffic_active t + b2z (try_admit t).1 /\
  (try_admit t).1 = accepting t.
Proof.
  intros Hw. unfold try_admit. destruct (accepting t) eqn:Ha; simpl; [|lia]. rewrite ?Ha. simpl.
  split; [|done]. unfold wrapping_add. apply Z.mod_small. lia.
Qed.

Lemma route_for_request_admission p s x : traffic_admission (route_for_request p s x).2 = traffic_admission x.
Proof.
  unfold route_for_request. destruct (percent_decode _); [|done]. destruct (registry_resolve _ _); [|done].
  destruct (url_parse _); [|done]. by destruct (target_parse _).
Qed.

Lemma map_metrics_traffic f p : traffic (map_metrics f p) = traffic p.
Proof. done. Qed.

(** What [request_filter] does to the traffic is [try_admit]. *)
Lemma request_filter_traffic write k s x p :
  traffic_admission x = false ->
  let out := request_filter write k s x p in
  traffic_admission out.1.1.2 = (try_admit (traffic p)).1 /\ traffic out.1.2 = (try_admit (traffic p)).2.
Proof.
  intros Hx. unfold request_filter. destruct (try_admit (traffic p)) as [ok t]. destruct ok; simpl; [|by rewrite Hx].
  destruct (bool_decide _); [done|]. destruct (String.eqb _ _); [done|].
  set (x1 := set_original _ _ _). set (p1 := count_kind s _).
  pose proof (route_for_request_admission p1 s x1) as Hr.
  destruct (route_for_request p1 s x1) as [[[route|]|e] x2]; simpl in *; rewrite Hr; done.
Qed.

Lemma request_filter_admission write k s x p :
  traffic_admission x = false -> 0 <= traffic_active (traffic p) < usize_max ->
  let out := request_filter write k s x p in
  traffic_active (traffic out.1.2) = traffic_active (traffic p) + b2z (traffic_admission out.1.1.2) /\
  traffic_admission out.1.1.2 = accepting (traffic p).
Proof.
  intros Hx Hw. destruct (try_admit_count (traffic p) Hw) as [Hc Ha]. simpl.
  destruct (request_filter_traffic write k s x p Hx) as [-> ->]. by split.
Qed.

(** *** Publications *)

Definition b2n (b : bool) : nat := if b then 1 else 0.

Lemma callback_publications s x p n x' p' :
  callback s x p n x' p' ->
  (n + b2n (request_activity_published x) + b2n (response_activity_published x)
   <= b2n (request_activity_published x') + b2n (response_activity_published x'))%nat /\
  (is_upgrade_req s = false -> response_activity_published x' = response_activity_published x).
Proof.
  intros Hc.
  destruct Hc as [Peer hp|h|status h|k body x' p' Hb|k body x' p' Hb|e|reused e|e|k failed written x' p' Hl].
  - unfold upstream_peer. destruct (upstream_route x) as [ur|]; [|simpl; split; [lia|done]].
    destruct (hp _ _); simpl; (split; [lia|done]).
  - unfold upstream_request_filter. destruct (upstream_route x) as [ur|]; [|simpl; split; [lia|done]].
    destruct (build_upstream_uri _ _ _); [|simpl; split; [lia|done]].
    destruct (apply_forwarded_headers _ _ _); [|simpl; split; [lia|done]].
    destruct (apply_request_headers _ _ _); simpl; (split; [lia|done]).
  - unfold upstream_response_filter. destruct (upstream_route x) as [ur|]; [|simpl; split; [lia|done]].
    destruct (rewrite_location _ _ _ _ _); simpl; (split; [lia|done]).
  - unfold request_body_filter, observe_request_stream_data in Hb. destruct (is_some_and _ body); [|simplify_eq; simpl; split; [lia|done]].
    simpl in Hb. destruct (request_activity_published x) eqn:Hr; simpl in *.
    + simplify_eq. simpl. split; [lia|done].
    + apply bind_Some in Hb as (p1 & Hp & [= <- <-]). simpl. split; [lia|done].
  - unfold upstream_response_body_filter, observe_response_stream_data in Hb.
    destruct (is_some_and _ body); [|simplify_eq; simpl; split; [lia|done]].
    unfold claim_response_activity in Hb. destruct (is_upgrade_req s); [|simplify_eq; simpl; split; [lia|done]].
    simpl in Hb. destruct (response_activity_published x) eqn:Hr; simpl in *.
    + simplify_eq. simpl. split; [lia|done].
    + apply bind_Some in Hb as (p1 & Hp & [= <- <-]). simpl. split; [lia|done].
  - simpl. split; [lia|done].
  - unfold error_while_proxy. simpl. destruct (_ && _); simpl; (split; [lia|done]).
  - split; [lia|done].
  - unfold logging, claim_http_completion_activity in Hl. cbn [response_written is_upgrade_req] in Hl.
    destruct ((negb failed && is_some_and (fun status => status <? 300) written) && negb (is_upgrade_req s)) eqn:Hsucc.
    + simpl in Hl. apply bind_Some in Hl as (p1 & Hp & Hrel). unfold release_traffic_admission in Hrel. simpl in Hrel.
      destruct (traffic_admission x), (request_activity_published x); simplify_eq/=; (split; [lia|done]).
    + simpl in Hl. unfold release_traffic_admission in Hl.
      destruct (traffic_admission x); simplify_eq/=; (split; [lia|done]).
Qed.

Lemma callbacks_publications s n x p x' p' :
  callbacks s n x p x' p' ->
  (n + b2n (request_activity_published x) + b2n (response_activity_published x)
   <= b2n (request_activity_published x') + b2n (response_activity_published x'))%nat /\
  (is_upgrade_req s = false -> response_activity_published x' = response_activity_published x).
Proof.
  induction 1 as [x p|n m x p x1 p1 x2 p2 Hc1 Hc2 [IH1 IH2]]; [split; [lia|done]|].
  destruct (callback_publications _ _ _ _ _ _ Hc1) as [C1 C2]. split; [lia|].
  intros Hs. by rewrite IH2, C2.
Qed.

(** *** Replacing request headers *)

(** The value of an entry whose name is present and is [n]. *)
Definition named (n : HeaderName) (nv : option HeaderName * HeaderValue) : option HeaderValue :=
  match nv.1 with Some m => if decide (m = n) then Some nv.2 else None | None => None end.

Lemma get_all_fold_append `{!HeaderLaws} n (l : list (option HeaderName * HeaderValue)) h :
  get_all n (fold_left (fun h nv => match nv.1 with Some name => header_append name nv.2 h | None => h end) l h)
  = get_all n h ++ omap (named n) l.
Proof.
  revert h. induction l as [|[[m|] v] l IH]; intros h; cbn [fold_left omap list_omap named fst snd].
  - by rewrite app_nil_r.
  - rewrite IH, get_all_append. destruct (decide (n = m)) as [->|Hne].
    + rewrite decide_True by done. by rewrite <- app_assoc.
    + by rewrite decide_False by congruence.
  - apply IH.
Qed.

Lemma omap_into_iter `{!HeaderLaws} n h :
  omap (named n) (into_iter h) = take 1 (get_all n h).
Proof.
  unfold into_iter. set (f := named n).
  assert (Hun : forall vs, omap f (map (fun v => (None, v)) vs) = []) by (intros vs; by induction vs).
  pose proof (header_keys_NoDup h) as Hnd. pose proof (header_keys_spec n h) as Hin.
  assert (Hkeys : forall ks, NoDup ks ->
    omap f (concat (map (fun m => match get_all m h with
      | [] => [] | v :: vs => (Some m, v) :: map (fun v => (None, v)) vs end) ks))
    = if decide (n ∈ ks) then take 1 (get_all n h) else []).
  { induction ks as [|m ks IH]; intros Hks; cbn [map concat].
    - by rewrite decide_False by set_solver.
    - apply NoDup_cons in Hks as [Hm Hks]. rewrite omap_app, (IH Hks).
      destruct (decide (m = n)) as [->|Hne].
      + rewrite (decide_False (P := n ∈ ks)) by done. rewrite (decide_True (P := n ∈ n :: ks)) by set_solver.
        rewrite app_nil_r. destruct (get_all n h) as [|v vs]; [done|].
        cbn [omap list_omap]. unfold f at 1, named at 1. cbn [fst snd]. rewrite decide_True by done.
        transitivity [v]; [|by destruct vs]. f_equal. apply Hun.
      + transitivity (if decide (n ∈ ks) then take 1 (get_all n h) else []).
        2: { destruct (decide (n ∈ ks)), (decide (n ∈ m :: ks)); set_solver. }
        destruct (get_all m h) as [|v vs]; [done|].
        cbn [omap list_omap]. unfold f at 1, named at 1. cbn [fst snd]. rewrite decide_False by done.
        by rewrite Hun. }
  rewrite Hkeys by done. destruct (decide (n ∈ header_keys h)) as [Hk|Hk]; [done|].
  destruct (get_all n h) as [|v vs] eqn:Hg; [done|]. destruct Hk. by apply Hin.
Qed.

Lemma get_all_replaced `{!HeaderLaws} n request new :
  get_all n (replace_request_headers request new) = take 1 (get_all n new).
Proof.
  unfold replace_request_headers. rewrite get_all_fold_append, omap_into_iter.
  assert (Hnone : get_all n (remove_all (header_keys request) request) = []).
  { rewrite get_all_remove_all. destruct (decide (n ∈ header_keys request)) as [Hk|Hk]; [done|].
    destruct (get_all n request) eqn:Hg; [done|]. destruct Hk. apply header_keys_spec. by rewrite Hg. }
  by rewrite Hnone.
Qed.

Lemma record_public_failure_counts s status p :
  requests_proxy (metrics (activity (record_public_failure s status p)))
  = count_status status (requests_proxy (metrics (activity p))).
Proof. unfold record_public_failure, count_kind. by destruct (is_upgrade_req s). Qed.

(** ** Theorems *)

(** Whatever callbacks Pingora runs for a request, in whatever order, its
    admission is released exactly once: when its context is dropped the traffic
    count is back where it was before [request_filter]. *)
Theorem admission_is_released_exactly_once write k s p n x' p' :
  0 <= traffic_active (traffic p) < usize_max ->
  let out := request_filter write k s new_ctx p in
  callbacks s n out.1.1.2 out.1.2 x' p' ->
  traffic_active (traffic (drop_context x' p')) = traffic_active (traffic p).
Proof.
  intros Hw out Hc. destruct (request_filter_admission write k s new_ctx p eq_refl Hw) as [Hcount _].
  fold out in Hcount. apply drop_context_admission; [lia|].
  apply (callbacks_admission s n out.1.1.2 out.1.2); [done|lia|done].
Qed.

(** One request publishes activity at most once as a plain HTTP exchange and
    at most twice as a WebSocket (once per direction), however many body chunks
    pass through the filters. *)
Theorem activity_is_published_at_most_once_per_direction s n p x' p' :
  callbacks s n new_ctx p x' p' -> (n <= if is_upgrade_req s then 2 else 1)%nat.
Proof.
  intros Hc. destruct (callbacks_publications _ _ _ _ _ _ Hc) as [Hn Hr]. simpl in *.
  destruct (is_upgrade_req s).
  - destruct (request_activity_published x'), (response_activity_published x'); simpl in *; lia.
  - rewrite Hr in Hn by done. destruct (request_activity_published x'); simpl in *; lia.
Qed.

(** A proxy that stopped accepting, or whose registry is indeterminate,
    forwards nothing: the request is answered with an empty 503, no route is
    chosen, and the failure is counted. *)
Theorem unavailable_proxy_answers_503 write k s p :
  accepting (traffic p) = false \/ consistency_status (view (registry p)) = StatusIndeterminate ->
  let out := request_filter write k s new_ctx p in
  out.2 = [SendEmpty 503] /\ out.1.1.1 <> Ok false /\ upstream_route out.1.1.2 = None /\
  requests_proxy (metrics (activity out.1.2)) = count_status 503 (requests_proxy (metrics (activity p))).
Proof.
  intros Hun. unfold request_filter.
  assert (Hs : send write (SendEmpty 503) <> Ok false).
  { unfold send. by destruct (write (SendEmpty 503)). }
  destruct (try_admit (traffic p)) as [ok t] eqn:Ht. destruct ok; simpl.
  - destruct Hun as [Ha|Hi]; [unfold try_admit in Ht; rewrite Ha in Ht; by simplify_eq/=|].
    rewrite bool_decide_eq_true_2 by done. split_and!; try done. apply (record_public_failure_counts s 503 (set_traffic t p)).
  - split_and!; try done. apply (record_public_failure_counts s 503 (set_traffic t p)).
Qed.

(** C1: a request that is forwarded goes to the best route: the decoded request
    path (behind the host when host routing is on) matches the chosen key on
    segment boundaries, no published key matches deeper, and the upstream target
    is the parsed target of that very record. *)
Theorem forwarded_requests_follow_the_best_route write k s x p out :
  snapshot_wf (reg_snapshot (registry p)) ->
  out = request_filter write k s x p -> out.1.1.1 = Ok false ->
  exists decoded m url t,
    percent_decode (uri_path (req_uri s)) = Some decoded /\
    is_best_match (routes (reg_snapshot (registry p)))
      (lookup_path (options p) (set_original (req_uri s) (header_get HOST (req_headers s)) x) decoded) m /\
    url_parse (target (rm_data m)) = Ok url /\ target_parse url = Ok t /\
    upstream_route out.1.1.2 = Some (mkUpstreamRoute (rm_key m) t) /\
    resolved_route_key out.1.1.2 = Some (rm_key m).
Proof.
  intros [Hwf Hsn] -> . unfold request_filter, send.
  destruct (try_admit (traffic p)) as [[] tr]; simpl; [|by destruct (write _)].
  destruct (bool_decide _); [simpl; by destruct (write _)|].
  destruct (String.eqb _ _); [simpl; by destruct (write _)|].
  set (x1 := set_original _ _ _). set (p1 := count_kind s _).
  assert (Hp1 : registry p1 = registry p /\ options p1 = options p) by done. destruct Hp1 as [Hreg Hopt].
  unfold route_for_request. rewrite Hreg, Hopt.
  destruct (percent_decode (uri_path (req_uri s))) as [decoded|] eqn:Hd; [|done].
  destruct (registry_resolve _ (view (registry p))) as [m|] eqn:Hres; [|simpl; by destruct (write _)].
  destruct (url_parse (target (rm_data m))) as [url|] eqn:Hurl; [|done].
  destruct (target_parse url) as [t|] eqn:Ht; [|done]. intros _.
  unfold registry_resolve in Hres. destruct (is_indeterminate _); [done|].
  pose proof (resolve_best (routes (reg_snapshot (registry p))) (lookup_path (options p) x1 decoded) Hwf) as Hb.
  rewrite <- Hsn in Hb. cbn [v_snapshot view] in Hres. rewrite Hres in Hb.
  exists decoded, m, url, t. by split_and!.
Qed.

(** Replacing the upstream request's headers keeps only the first value of
    each name: entries that [into_iter] yields without a name are dropped, so a
    repeated header loses every later value on its way upstream. *)
Theorem repeated_request_headers_lose_values `{!HeaderLaws} n request new :
  get_all n (replace_request_headers request new) = take 1 (get_all n new).
Proof. apply get_all_replaced. Qed.

(** C18: no upstream request is ambiguous about its body: it never carries both
    [Content-Length] and [Transfer-Encoding], has at most one of each, and the
    only transfer coding ever sent is [chunked], chosen by the proxy. *)
Theorem upstream_body_framing_is_unambiguous `{!HeaderLaws} s h x p headers uri x' :
  upstream_request_filter s h x p = (Ok (headers, uri), x') ->
  (get_all TRANSFER_ENCODING headers = [] \/
   (get_all TRANSFER_ENCODING headers = [value_from_static "chunked"] /\ get_all CONTENT_LENGTH headers = [] /\
    is_body_empty s = false)) /\
  (length (get_all CONTENT_LENGTH headers) <= 1)%nat.
Proof.
  unfold upstream_request_filter. destruct (upstream_route x) as [route|]; [|done].
  destruct (build_upstream_uri _ _ _); [|done]. destruct (apply_forwarded_headers _ _ _) as [h1|]; [|done].
  destruct (apply_request_headers h1 _ _) as [h2|] eqn:Hreq; [|done].
  apply request_headers_stripped in Hreq as [Hhop _].
  assert (Hte : get_all TRANSFER_ENCODING (replace_request_headers h h2) = []).
  { rewrite get_all_replaced, Hhop; [done|]. apply (list_elem_of_lookup_2 _ 6). done. }
  assert (Hcl : (length (get_all CONTENT_LENGTH (replace_request_headers h h2)) <= 1)%nat).
  { rewrite get_all_replaced. rewrite length_take. lia. }
  destruct (negb (is_body_empty s) && negb (contains_key CONTENT_LENGTH (replace_request_headers h h2))) eqn:Hb;
    intros [= <- _ _]; [|by split; [left|]].
  apply andb_true_iff in Hb as [Hbody Hnone].
  assert (Hne : CONTENT_LENGTH <> TRANSFER_ENCODING) by by apply static_ne.
  rewrite !get_all_insert, decide_True, (decide_False (P := CONTENT_LENGTH = TRANSFER_ENCODING)) by done.
  assert (Hnil : get_all CONTENT_LENGTH (replace_request_headers h h2) = []).
  { unfold contains_key, header_get in Hnone. by destruct (get_all CONTENT_LENGTH _). }
  split; [|rewrite Hnil; simpl; lia]. right. split_and!; [done|done|]. by destruct (is_body_empty s).
Qed.

(** The headers of an upstream request: stripped, replaced, then framed. *)
Lemma upstream_headers s h x p headers uri x' :
  upstream_request_filter s h x p = (Ok (headers, uri), x') ->
  exists context h1 target h2, apply_forwarded_headers h context (options p) = Ok h1 /\
    apply_request_headers h1 target (options p) = Ok h2 /\
    (headers = replace_request_headers h h2 \/
     headers = header_insert TRANSFER_ENCODING (value_from_static "chunked") (replace_request_headers h h2)).
Proof.
  unfold upstream_request_filter. destruct (upstream_route x) as [route|]; [|done].
  destruct (build_upstream_uri _ _ _); [|done]. destruct (apply_forwarded_headers _ _ _) as [h1|] eqn:Hf; [|done].
  destruct (apply_request_headers h1 _ _) as [h2|] eqn:Hreq; [|done].
  intros [= <- _ _]. eexists _, h1, _, h2. split_and!; [exact Hf|exact Hreq|]. destruct (_ && _); [by right|by left].
Qed.

Lemma forwarding_keeps_connection `{!HeaderLaws} h context opts h' :
  apply_forwarded_headers h context opts = Ok h' ->
  get_all CONNECTION h' = get_all CONNECTION h /\ get_all UPGRADE h' = get_all UPGRADE h.
Proof.
  intros Hf. split; (eapply forwarding_keeps; [exact Hf|]); simpl; rewrite !elem_of_cons;
    intros [Hn|[Hn|[Hn|[Hn|Hn]]]]; try (revert Hn; by apply static_ne); by inversion Hn.
Qed.

(** C17: what is for one hop only stops here, whatever the client sent and
    whatever custom headers are configured.  The request an upstream gets has none
    of the hop-by-hop headers; a [Transfer-Encoding] is the proxy's own; no header
    that the client's [Connection] nominated is in it, but for what the proxy sets
    itself; and [Connection] and [Upgrade] are in it exactly when the client asked
    for WebSocket, with its own [Upgrade] value. *)
Theorem hop_by_hop_headers_are_stripped `{!HeaderLaws} s h x p headers uri x' :
  upstream_request_filter s h x p = (Ok (headers, uri), x') ->
  (forall name, name ∈ ["keep-alive"; "proxy-connection"; "proxy-authorization"; "proxy-authenticate"; "te"; "trailer"] ->
     get_all (name_from_static name) headers = []) /\
  (get_all TRANSFER_ENCODING headers = [] \/ get_all TRANSFER_ENCODING headers = [value_from_static "chunked"]) /\
  (forall n, nominates h n -> n <> CONNECTION -> n <> UPGRADE -> n <> TRANSFER_ENCODING ->
     ~ set_by_proxy (options p) n -> get_all n headers = []) /\
  (forall v, asks_upgrade h v -> get_all UPGRADE headers = [v] /\ get_all CONNECTION headers = [value_from_static "upgrade"]) /\
  ((forall v, ~ asks_upgrade h v) -> get_all UPGRADE headers = [] /\ get_all CONNECTION headers = []).
Proof.
  intros (context & h1 & target & h2 & Hf & Hreq & Hout)%upstream_headers.
  destruct (forwarding_keeps_connection _ _ _ _ Hf) as [Hconn Hup].
  assert (Hpart : forall part, connection_part h1 part <-> connection_part h part)
    by (intros part; unfold connection_part; by rewrite Hconn).
  assert (Hask : forall v, asks_upgrade h1 v <-> asks_upgrade h v).
  { intros v. unfold asks_upgrade, header_get. rewrite Hup. split; intros (? & ? & part & ? & ?); split_and!; try done;
      exists part; (split; [|done]); by apply Hpart. }
  assert (Hget : forall n, n <> TRANSFER_ENCODING -> get_all n headers = take 1 (get_all n h2)).
  { intros n Hn. destruct Hout as [->| ->]; [|rewrite get_all_insert, decide_False by done]; apply get_all_replaced. }
  destruct (request_headers_stripped _ _ _ _ Hreq) as [Hhop Hws].
  assert (Hnames : UPGRADE <> TRANSFER_ENCODING /\ CONNECTION <> TRANSFER_ENCODING) by (split; by apply static_ne).
  split_and!.
  - intros name Hn. rewrite Hget.
    + rewrite Hhop; [done|]. change hop_by_hop_names with (map name_from_static
        ["keep-alive"; "proxy-connection"; "proxy-authorization"; "proxy-authenticate"; "te"; "trailer"; "transfer-encoding"]).
      apply list_elem_of_fmap. exists name. split; [done|].
      apply (elem_of_app ["keep-alive"; "proxy-connection"; "proxy-authorization"; "proxy-authenticate"; "te"; "trailer"]). by left.
    + apply static_ne. intros ->. rewrite !elem_of_cons in Hn. destruct_or! Hn; try discriminate Hn. by inversion Hn.
  - assert (Hte : get_all TRANSFER_ENCODING (replace_request_headers h h2) = []).
    { rewrite get_all_replaced, Hhop; [done|]. apply (list_elem_of_lookup_2 _ 6). done. }
    destruct Hout as [->| ->]; [by left|right]. by rewrite get_all_insert, decide_True.
  - intros n (part & Hp & Hne & Hn) Hc Hu Ht Hset. rewrite Hget by done.
    rewrite (nominated_headers_stripped _ _ _ _ n Hreq); [done| |done|done|done].
    exists part. split_and!; [by apply Hpart|done|done].
  - intros v Hv%Hask. assert (Hw : is_websocket_upgrade h1 = true) by (apply is_websocket_upgrade_spec; eauto).
    rewrite Hw in Hws. destruct Hws as (v' & Hv' & Hu' & Hc').
    rewrite !Hget by apply Hnames. destruct Hv as [Hv _]. rewrite Hu', Hc'. by simplify_eq.
  - intros Hno. assert (Hw : is_websocket_upgrade h1 = false).
    { apply not_true_is_false. intros (v & Hv%Hask)%is_websocket_upgrade_spec. by destruct (Hno v). }
    rewrite Hw in Hws. destruct Hws as [Hu' Hc']. rewrite !Hget by apply Hnames. by rewrite Hu', Hc'.
Qed.

End Proxy.

(** ** Witnesses *)

Definition sample_proxy (t : TrafficLifecycle) : ChpProxy (St := MemoryStore.t) :=
  mkProxy (mkRegistry MemoryStore.new (from_routes {[normalize "/a" := mkRouteData "http://up:8080" 5 ∅]})
             tracker_default)
    (sample_options true true true) TlsClientConfig_default (start 4) "http" t.

Definition sample_session (path : string) : Session :=
  mkSession (H := SimpleHttp.headers) (H1 := SimpleHttp.uris) (path : @Uri SimpleHttp.uris)
    [("host", "public.example"); ("accept", "a"); ("accept", "b")] false false (Some "10.0.0.9") (Some 80) None false.

(** Retries are possible, or for a reused connection only. *)
#[local] Instance sample_retry : RetryLib := {|
  RetryType := option bool; undecided := Some false;
  decide_reuse reused r := match r with Some b => Some b | None => Some reused end |}.

Definition sample_tick : Tick := mkTick (Some 9) 9 1.

Lemma some_default {A B} (d : A * B) (o : option (A * B)) :
  is_some o = true -> o = Some ((default d o).1, (default d o).2).
Proof. by destruct o as [[]|]. Qed.

Definition sent (o : Output) : result unit Error := Ok tt.

(** A request to [/a/x], its first body chunk, and its completion with 200. *)
Definition sample_filtered :=
  request_filter sent sample_tick (sample_session "/a/x") new_ctx (sample_proxy Traffic_new).

Definition sample_uploaded :=
  default (new_ctx, sample_proxy Traffic_new)
    (request_body_filter sample_tick (Some "chunk") sample_filtered.1.1.2 sample_filtered.1.2).

Definition sample_logged :=
  default (new_ctx, sample_proxy Traffic_new)
    (logging sample_tick (mkSession (H := SimpleHttp.headers) (H1 := SimpleHttp.uris) ("/a/x" : @Uri SimpleHttp.uris)
       [("host", "public.example"); ("accept", "a"); ("accept", "b")] false false (Some "10.0.0.9") (Some 80)
       (Some 200) false) false sample_uploaded.1 sample_uploaded.2).

Lemma sample_life x0 p0 :
  x0 = sample_filtered.1.1.2 -> p0 = sample_filtered.1.2 ->
  callbacks (sample_session "/a/x") 1 x0 p0 sample_logged.1 sample_logged.2.
Proof.
  intros -> ->.
  apply (cbs_step _ 1 0 _ _ sample_uploaded.1 sample_uploaded.2).
  - refine (cb_request_body (sample_session "/a/x") sample_filtered.1.1.2 sample_filtered.1.2 sample_tick
      (Some "chunk") sample_uploaded.1 sample_uploaded.2 _).
    apply some_default. vm_compute. reflexivity.
  - apply (cbs_step _ 0 0 _ _ sample_logged.1 sample_logged.2); [|constructor].
    refine (cb_logging (sample_session "/a/x") sample_uploaded.1 sample_uploaded.2 sample_tick false (Some 200)
      sample_logged.1 sample_logged.2 _).
    apply some_default. vm_compute. reflexivity.
Qed.

Lemma admission_is_released_exactly_once_witness :
  traffic_active (traffic sample_filtered.1.2) = 1 /\
  traffic_active (traffic (drop_context sample_logged.1 sample_logged.2)) = 0.
Proof.
  split; [vm_compute; reflexivity|].
  apply (admission_is_released_exactly_once sent sample_tick (sample_session "/a/x") (sample_proxy Traffic_new) 1).
  - vm_compute. split; [discriminate|reflexivity].
  - apply sample_life; reflexivity.
Defined.

Lemma activity_is_published_at_most_once_per_direction_witness :
  exists x p, callbacks (sample_session "/a/x") 1 new_ctx (sample_proxy Traffic_new) x p /\ (1 <= 1)%nat.
Proof.
  assert (Hc : callbacks (sample_session "/a/x") 1 new_ctx (sample_proxy Traffic_new)
    (default (new_ctx, sample_proxy Traffic_new)
       (request_body_filter sample_tick (Some "chunk") new_ctx (sample_proxy Traffic_new))).1
    (default (new_ctx, sample_proxy Traffic_new)
       (request_body_filter sample_tick (Some "chunk") new_ctx (sample_proxy Traffic_new))).2).
  { eapply (cbs_step _ 1 0); [|constructor].
    refine (cb_request_body (sample_session "/a/x") new_ctx (sample_proxy Traffic_new) sample_tick (Some "chunk") _ _ _).
    apply some_default. vm_compute. reflexivity. }
  eexists _, _. split; [exact Hc|].
  exact (activity_is_published_at_most_once_per_direction _ _ _ _ _ Hc).
Defined.

Lemma unavailable_proxy_answers_503_witness :
  (request_filter sent sample_tick (sample_session "/a/x") new_ctx
     (sample_proxy (acknowledge_accepts_stopped Traffic_new))).2 = [SendEmpty 503].
Proof.
  destruct (unavailable_proxy_answers_503 sent sample_tick (sample_session "/a/x")
    (sample_proxy (acknowledge_accepts_stopped Traffic_new))) as [Ho _]; [left; reflexivity|exact Ho].
Defined.

Lemma forwarded_requests_follow_the_best_route_witness :
  exists m, resolved_route_key sample_filtered.1.1.2 = Some (rm_key m) /\
    is_best_match (routes (reg_snapshot (registry (sample_proxy Traffic_new)))) "/a/x" m.
Proof.
  assert (Hok : sample_filtered.1.1.1 = Ok false) by (vm_compute; reflexivity).
  destruct (forwarded_requests_follow_the_best_route sent sample_tick (sample_session "/a/x") new_ctx
    (sample_proxy Traffic_new) sample_filtered (from_ordered_routes_wf _ (from_sorted_wf _)) eq_refl Hok)
    as (decoded & m & url & t & Hd & Hm & _ & _ & _ & Hk).
  exists m. split; [exact Hk|]. assert (Hp : decoded = "/a/x") by (vm_compute in Hd; congruence).
  subst decoded. exact Hm.
Defined.

Lemma repeated_request_headers_lose_values_witness :
  get_all (HeaderLib := SimpleHttp.headers) "accept"
    (replace_request_headers [] (req_headers (sample_session "/a/x"))) = ["a"].
Proof. exact (repeated_request_headers_lose_values (H := SimpleHttp.headers) "accept" [] _). Defined.

Definition sample_upstream_request :=
  upstream_request_filter (sample_session "/a/x") (req_headers (sample_session "/a/x"))
    sample_filtered.1.1.2 sample_filtered.1.2.

Definition sample_upstream_headers : list (string * string) :=
  match sample_upstream_request.1 with Ok out => out.1 | Err _ => [] end.

Lemma upstream_body_framing_is_unambiguous_witness :
  get_all (HeaderLib := SimpleHttp.headers) "transfer-encoding" sample_upstream_headers = ["chunked"] /\
  (length (get_all (HeaderLib := SimpleHttp.headers) "content-length" sample_upstream_headers) <= 1)%nat.
Proof.
  split; [vm_compute; reflexivity|]. unfold sample_upstream_headers.
  destruct sample_upstream_request as [[[headers uri]|e] x'] eqn:Hok; simpl; [|lia].
  exact (proj2 (upstream_body_framing_is_unambiguous (H := SimpleHttp.headers) _ _ _ _ _ _ _ Hok)).
Defined.

(** A client that nominates a header of its own. *)
Definition nominating_headers : list (string * string) :=
  [("host", "public.example"); ("connection", "close, X-Secret"); ("x-secret", "1"); ("te", "trailers"); ("accept", "a")].

Definition nominating_request :=
  upstream_request_filter (sample_session "/a/x") nominating_headers sample_filtered.1.1.2 sample_filtered.1.2.

Definition nominating_upstream : list (string * string) :=
  match nominating_request.1 with Ok out => out.1 | Err _ => [] end.

Lemma hop_by_hop_headers_are_stripped_witness :
  get_all (HeaderLib := SimpleHttp.headers) "x-secret" nominating_upstream = [] /\
  get_all (HeaderLib := SimpleHttp.headers) "accept" nominating_upstream = ["a"].
Proof.
  split; [|vm_compute; reflexivity].
  unfold nominating_upstream. destruct nominating_request as [[[headers uri]|e] x'] eqn:Hok; [|reflexivity].
  destruct (hop_by_hop_headers_are_stripped (H := SimpleHttp.headers) _ _ _ _ _ _ _ Hok) as (_ & _ & Hn & _).
  apply Hn; [|discriminate|discriminate|discriminate|].
  - exists "X-Secret". split; [|split; [discriminate|vm_compute; reflexivity]].
    exists "close, X-Secret", "close, X-Secret", " X-Secret".
    split_and!; [apply (list_elem_of_lookup_2 _ 0)|..|apply (list_elem_of_lookup_2 _ 1)|]; vm_compute; reflexivity.
  - intros [[_ Hs]|[[_ Hs]|(k & v & Hs & _)]]; [discriminate Hs|discriminate Hs|].
    vm_compute in Hs. discriminate Hs.
Defined.
