(* ===== verification/DataPlane.v ===== *)
(** * Concurrent requests over the data plane (src/proxy.rs with api_server.rs)

    Pingora runs the callbacks of many requests, each with its own
    [RequestContext], over one shared [ChpProxy].  Here their callbacks come in any
    order, a context may be dropped at any point (its request ended, failed or
    panicked), other components change what they share with the proxy, and the
    public service may have acknowledged its stop.  The plane is shown to be a run
    of the traffic relation of [Lifecycle], in which the requests that stand for an
    admission are exactly the contexts that carry one; so what is shown there, and
    in [System] of the shutdown, is about these callbacks.  A callback is one step:
    how the accesses inside [try_admit] interleave is in [traffic_step]. *)

From S2P Require Import Prelude RustStr Route RouteTable Store Tracker Registry.
From S2P Require Import Metrics Activity Http Upstream Lifecycle Proxy.

Section DataPlane.
Context `{HeaderLib} `{UrlLib} `{UriLib} `{F64}.
Context {Env St : Type} `{Store Env View St} `{RetryLib}.

(** ** State and steps *)

Record Plane : Type := mkPlane {
  plane_proxy : ChpProxy (St:=St);
  plane_requests : list (Session * RequestContext)    (** the contexts alive *)
}.

Definition admissions (l : list (Session * RequestContext)) : nat :=
  foldr (fun r n => ((if traffic_admission r.2 then 1 else 0) + n)%nat) 0%nat l.

Inductive plane_step : Plane -> Plane -> Prop :=
| pl_request write k s p l :
    Z.of_nat (length l) < usize_max ->
    let out := request_filter write k s new_ctx p in
    plane_step (mkPlane p l) (mkPlane out.1.2 ((s, out.1.1.2) :: l))
| pl_callback s n x x' p p' l1 l2 :
    callback s x p n x' p' ->
    plane_step (mkPlane p (l1 ++ (s, x) :: l2)) (mkPlane p' (l1 ++ (s, x') :: l2))
| pl_drop s x p l1 l2 :
    plane_step (mkPlane p (l1 ++ (s, x) :: l2)) (mkPlane (drop_context x p) (l1 ++ l2))
| pl_acknowledge p l :
    plane_step (mkPlane p l) (mkPlane (set_traffic (acknowledge_accepts_stopped (traffic p)) p) l)
| pl_others p p' l : traffic p' = traffic p -> plane_step (mkPlane p l) (mkPlane p' l).

Definition plane_reachable (s : Plane) : Prop :=
  exists p, traffic p = Traffic_new /\ rtc plane_step (mkPlane p []) s.

(** ** The refinement *)

Definition plane_world (s : Plane) : TrafficWorld :=
  mkTrafficWorld (traffic (plane_proxy s)) 0 0 (admissions (plane_requests s)) 0 false.

Lemma admissions_middle l1 r l2 :
  admissions (l1 ++ r :: l2) = ((if traffic_admission r.2 then 1 else 0) + admissions (l1 ++ l2))%nat.
Proof. induction l1 as [|r1 l1 IH]; simpl in *; [done|]. rewrite IH. lia. Qed.

Lemma admissions_le l : (admissions l <= length l)%nat.
Proof. induction l as [|r l IH]; simpl; [done|]. destruct (traffic_admission r.2); lia. Qed.

Lemma admissions_none l : admissions l = 0%nat -> Forall (fun r => traffic_admission r.2 = false) l.
Proof. induction l as [|r l IH]; simpl; constructor; destruct (traffic_admission r.2); try lia; auto. Qed.

(** Releasing one of the admissions that stand is [tr_release]. *)
Lemma release_runs t n :
  0 < traffic_active t ->
  rtc traffic_step (mkTrafficWorld t 0 0 (S n) 0 false) (mkTrafficWorld (traffic_finish t).1 0 0 n 0 false).
Proof.
  intros Hpos. apply rtc_once.
  pose proof (tr_release (mkTrafficWorld t 0 0 (S n) 0 false) n eq_refl) as Hs.
  unfold finish_in in Hs. simpl in Hs. unfold traffic_finish in *. by destruct (Z.eqb_spec (traffic_active t) 0); [lia|].
Qed.

(** [try_admit] run alone is three accesses of the relation. *)
Lemma try_admit_runs t n :
  0 <= traffic_active t < usize_max ->
  rtc traffic_step (mkTrafficWorld t 0 0 n 0 false)
    (mkTrafficWorld (try_admit t).2 0 0 ((if (try_admit t).1 then 1 else 0) + n) 0 false).
Proof.
  intros Hw. unfold try_admit. destruct (accepting t) eqn:Ha; simpl; [|apply rtc_refl].
  eapply rtc_l; [exact (tr_check (mkTrafficWorld t 0 0 n 0 false) Ha)|]. simpl.
  eapply rtc_l; [refine (tr_add (mkTrafficWorld t 1 0 n 0 false) 0 eq_refl _); simpl; lia|]. simpl. rewrite Ha.
  apply rtc_once. exact (tr_confirm (mkTrafficWorld (mkTraffic true _ _) 0 1 n 0 false) 0 eq_refl eq_refl).
Qed.

Lemma plane_callback_runs s n x x' p p' l1 l2 :
  callback s x p n x' p' -> traffic_inv (plane_world (mkPlane p (l1 ++ (s, x) :: l2))) ->
  rtc traffic_step (plane_world (mkPlane p (l1 ++ (s, x) :: l2))) (plane_world (mkPlane p' (l1 ++ (s, x') :: l2))).
Proof.
  intros Hc [Hn _ _ _]. unfold plane_world in *; simpl in *. rewrite admissions_middle in Hn. rewrite !admissions_middle. simpl in *.
  apply callback_traffic in Hc as [[-> ->]|(Hx & -> & ->)]; [apply rtc_refl|]. rewrite Hx in *. apply release_runs. lia.
Qed.

Lemma plane_drop_runs s x p l1 l2 :
  traffic_inv (plane_world (mkPlane p (l1 ++ (s, x) :: l2))) ->
  rtc traffic_step (plane_world (mkPlane p (l1 ++ (s, x) :: l2))) (plane_world (mkPlane (drop_context x p) (l1 ++ l2))).
Proof.
  intros [Hn _ _ _]. unfold plane_world in *; simpl in *. rewrite admissions_middle in Hn. rewrite !admissions_middle. simpl in *.
  unfold drop_context, release_traffic_admission. destruct (traffic_admission x); [|apply rtc_refl].
  apply release_runs. lia.
Qed.

(** Each step of the plane is a run of the traffic relation. *)
Lemma plane_step_runs a b :
  plane_step a b -> traffic_inv (plane_world a) -> rtc traffic_step (plane_world a) (plane_world b).
Proof.
  intros Hs Hinv. destruct Hs as [write k s p l Hl out|s n x x' p p' l1 l2 Hc|s x p l1 l2|p l|p p' l Hp].
  - destruct (request_filter_traffic write k s new_ctx p eq_refl) as [Hx Ht]. fold out in Hx, Ht.
    unfold plane_world. simpl. rewrite Hx, Ht. apply try_admit_runs.
    destruct Hinv as [Hn _ _ _]. unfold plane_world in Hn. simpl in Hn. pose proof (admissions_le l). lia.
  - by eapply plane_callback_runs.
  - by apply plane_drop_runs.
  - unfold plane_world. simpl. eapply rtc_l; [apply tr_stop_accepting|]. apply rtc_once.
    exact (tr_acknowledge (mkTrafficWorld (mkTraffic false _ _) 0 0 _ 0 false) eq_refl).
  - unfold plane_world. simpl. rewrite Hp. apply rtc_refl.
Qed.

Lemma plane_runs a b :
  rtc plane_step a b -> rtc traffic_step traffic_initial (plane_world a) -> rtc traffic_step (plane_world a) (plane_world b).
Proof.
  induction 1 as [a|a b c Hs _ IH]; intros Ha; [apply rtc_refl|].
  assert (Hab : rtc traffic_step (plane_world a) (plane_world b)) by (apply plane_step_runs; [done|by apply traffic_reachable_inv]).
  etrans; [exact Hab|]. apply IH. by etrans.
Qed.

Lemma plane_reachable_runs a : plane_reachable a -> rtc traffic_step traffic_initial (plane_world a).
Proof.
  intros (p & Hp & Hr).
  assert (Hw : plane_world (mkPlane p []) = traffic_initial) by (unfold plane_world; simpl; by rewrite Hp).
  rewrite <- Hw. apply (plane_runs _ _ Hr). rewrite Hw. apply rtc_refl.
Qed.

(** ** Theorem *)

(** C16: concurrent requests refine the traffic relation.  Whatever the callbacks of
    the requests, their interleaving and the points at which contexts are dropped,
    the shared count is exactly the number of live contexts that carry an
    admission, no release is one too many, and each run of the data plane is a run
    of the relation the shutdown is proved over: once accepts have stopped and the
    count is zero, no context carries an admission ever again. *)
Theorem concurrent_requests_refine_traffic a b :
  plane_reachable a -> rtc plane_step a b ->
  rtc traffic_step traffic_initial (plane_world a) /\ rtc traffic_step (plane_world a) (plane_world b) /\
  traffic_active (traffic (plane_proxy b)) = Z.of_nat (admissions (plane_requests b)) /\
  (accepts_stopped (traffic (plane_proxy a)) = true -> drained (traffic (plane_proxy a)) = true ->
   Forall (fun r => traffic_admission r.2 = false) (plane_requests b)).
Proof.
  intros Ha%plane_reachable_runs Hr. pose proof (plane_runs _ _ Hr Ha) as Hab.
  assert (Hb : traffic_inv (plane_world b)) by (apply traffic_reachable_inv; by etrans).
  assert (Hn : traffic_active (traffic (plane_proxy b)) = Z.of_nat (admissions (plane_requests b)))
    by (destruct Hb as [Hn _ _ _]; unfold plane_world in Hn; simpl in Hn; lia).
  split_and!; [done..|]. intros Hs Hd. apply traffic_reachable_inv in Ha as [Hc _ _ Hst].
  destruct (stopped_path _ _ Hab (Hst Hs)) as [_ Hle]. unfold plane_world in *; simpl in *.
  apply Z.eqb_eq in Hd. apply admissions_none. lia.
Qed.
End DataPlane.

(** ** An example *)

(** Two requests for [/a/x]; the second is dropped while the first one uploads, the
    listeners stop, and the first one ends. *)
#[local] Existing Instance sample_retry.

Definition second_filtered :=
  request_filter sent sample_tick (sample_session "/a/x") new_ctx sample_filtered.1.2.

Definition first_uploaded :=
  default (new_ctx, sample_proxy Traffic_new)
    (request_body_filter sample_tick (Some "chunk") sample_filtered.1.1.2 second_filtered.1.2).

Definition second_dropped := drop_context second_filtered.1.1.2 first_uploaded.2.

Definition accepts_ended := set_traffic (acknowledge_accepts_stopped (traffic second_dropped)) second_dropped.

Definition first_logged :=
  default (new_ctx, sample_proxy Traffic_new)
    (logging sample_tick (mkSession (H := SimpleHttp.headers) (H1 := SimpleHttp.uris) ("/a/x" : @Uri SimpleHttp.uris)
       [("host", "public.example"); ("accept", "a"); ("accept", "b")] false false (Some "10.0.0.9") (Some 80)
       (Some 200) false) false first_uploaded.1 accepts_ended).

Definition both : Plane :=
  mkPlane second_filtered.1.2 [(sample_session "/a/x", second_filtered.1.1.2); (sample_session "/a/x", sample_filtered.1.1.2)].

Definition finished : Plane := mkPlane first_logged.2 [(sample_session "/a/x", first_logged.1)].

Lemma both_reached : rtc plane_step (mkPlane (sample_proxy Traffic_new) []) both.
Proof.
  eapply rtc_l; [refine (pl_request sent sample_tick (sample_session "/a/x") (sample_proxy Traffic_new) [] _); reflexivity|].
  apply rtc_once. refine (pl_request sent sample_tick (sample_session "/a/x") sample_filtered.1.2 [(sample_session "/a/x", sample_filtered.1.1.2)] _).
  reflexivity.
Qed.

Lemma finished_reached : rtc plane_step both finished.
Proof.
  eapply rtc_l; [refine (pl_callback (sample_session "/a/x") _ sample_filtered.1.1.2 first_uploaded.1 second_filtered.1.2
    first_uploaded.2 [(sample_session "/a/x", second_filtered.1.1.2)] [] _);
    refine (cb_request_body _ _ _ sample_tick (Some "chunk") _ _ _); apply some_default; vm_compute; reflexivity|].
  eapply rtc_l; [exact (pl_drop (sample_session "/a/x") second_filtered.1.1.2 first_uploaded.2 [] _)|].
  eapply rtc_l; [exact (pl_acknowledge second_dropped _)|].
  apply rtc_once. refine (pl_callback (sample_session "/a/x") _ first_uploaded.1 first_logged.1 accepts_ended first_logged.2 [] [] _).
  refine (cb_logging _ _ _ sample_tick false (Some 200) _ _ _). apply some_default. vm_compute. reflexivity.
Qed.

Lemma concurrent_requests_refine_traffic_witness :
  admissions (plane_requests both) = 2%nat /\ traffic_active (traffic (plane_proxy both)) = 2 /\
  traffic_admission first_logged.1 = false.
Proof.
  split; [vm_compute; reflexivity|]. split.
  - destruct (concurrent_requests_refine_traffic (mkPlane (sample_proxy Traffic_new) []) both) as (_ & _ & Hn & _);
      [exists (sample_proxy Traffic_new); split; [reflexivity|apply rtc_refl]|exact both_reached|].
    rewrite Hn. vm_compute. reflexivity.
  - destruct (concurrent_requests_refine_traffic finished finished) as (_ & _ & _ & Hf);
      [exists (sample_proxy Traffic_new); split; [reflexivity|etrans; [exact both_reached|exact finished_reached]]|apply rtc_refl|].
    assert (Hs : accepts_stopped (traffic (plane_proxy finished)) = true) by (vm_compute; reflexivity).
    assert (Hd : drained (traffic (plane_proxy finished)) = true) by (vm_compute; reflexivity).
    exact (proj1 (proj1 (Forall_cons _ _ _) (Hf Hs Hd))).
Defined.
