(* ===== verification/Backends.v ===== *)
(** * The Redis backend as a [Store] (src/store/redis.rs, src/store/mod.rs)

    [impl Store for RedisStore]: the operations of [Redis] behind the class the
    registry is written against.  Whatever the network does to each command and
    whichever deadlines expire, the contract of [Store] holds as long as this
    process is the hash's only client, so every theorem about the registry, the
    management API and the data plane that is proved for a [StoreContract] is one
    about a proxy whose routes live in Redis.  (What other clients can do to an
    operation is in [Redis].) *)

From S2P Require Import Prelude RustStr Route RouteTable Store Redis Tracker Registry RegistryConc.

Module RedisBackend.
Section Backend.
Context `{RecordLib} {W : Type}.

(** ** What an operation meets *)

(** The fates of the commands of one pass of a loop, and which of its deadlines
    have expired. *)
Record Pass : Type := mkPass {
  watch_late : bool; watch_fate : Fate;
  get_late : bool; get_fate : Fate;
  write_late : bool; write_fate : Fate
}.

(** The fates of one operation's commands: connecting, the one question outside a
    loop ([HGETALL], [PING]), the one write outside a loop ([HSET]), the passes. *)
Record Weather : Type := mkWeather {
  connecting : Fate; asking : Fate; setting : Fate; passes : list Pass
}.

(** Nothing reaches the server. *)
Definition outage : Weather := mkWeather NotSent NotSent NotSent [].

(** The server and the weather of the operations to come. *)
Record RedisBacked : Type := mkBacked { wire : Wire; forecast : list Weather }.

Definition weather (s : RedisBacked) : Weather := hd outage (forecast s).

Definition turn (f : Fate) : Turn := mkTurn None f.

(** The floor reads the registry as it is during the call. *)
Definition round (w : W) (p : Pass) : Round :=
  mkRound (watch_late p) (turn (watch_fate p)) (get_late p) (turn (get_fate p))
    (write_late p) (turn (write_fate p)) w.

Definition advance {A} (out : result A StoreError * Wire) (s : RedisBacked) : result A StoreError * RedisBacked :=
  (out.1, mkBacked out.2 (tl (forecast s))).

(** ** The instance *)

Definition redis_backed_snapshot (s : RedisBacked) : result (gmap RouteKey RouteData) StoreError :=
  (redis_snapshot (turn (connecting (weather s))) (turn (asking (weather s))) (wire s)).1.

Definition redis_backed_add (utc_now : DateTime) (key : RouteKey) (target : string) (extra : gmap string Value)
    (floor : ActivityFloor W) (w : W) (s : RedisBacked) : result RouteData StoreError * RedisBacked :=
  advance (redis_add utc_now key target extra floor (turn (connecting (weather s)))
             (round w <$> passes (weather s)) (wire s)) s.

Definition redis_backed_put (key : RouteKey) (data : RouteData) (s : RedisBacked) : result unit StoreError * RedisBacked :=
  advance (redis_put key data (turn (connecting (weather s))) (turn (asking (weather s)))
             (turn (setting (weather s))) (wire s)) s.

Definition redis_backed_put_preserving (key : RouteKey) (data : RouteData) (floor : ActivityFloor W)
    (w : W) (s : RedisBacked) : result RouteData StoreError * RedisBacked :=
  advance (redis_put_preserving_activity key data floor (turn (connecting (weather s)))
             (round w <$> passes (weather s)) (wire s)) s.

(** The loop of an activity update reads no floor. *)
Definition floorless (p : Pass) : Round (W := unit) :=
  mkRound (watch_late p) (turn (watch_fate p)) (get_late p) (turn (get_fate p))
    (write_late p) (turn (write_fate p)) tt.

Definition redis_backed_update (key : RouteKey) (at_ : DateTime) (s : RedisBacked) : result unit StoreError * RedisBacked :=
  advance (redis_update_activity key at_ (turn (connecting (weather s)))
             (floorless <$> passes (weather s)) (wire s)) s.

Definition redis_backed_delete (key : RouteKey) (s : RedisBacked) : result (option RouteData) StoreError * RedisBacked :=
  advance (redis_delete key (turn (connecting (weather s))) (floorless <$> passes (weather s)) (wire s)) s.

#[global] Instance redis_backed_store : Store DateTime W RedisBacked := {
  snapshot := redis_backed_snapshot;
  add := redis_backed_add;
  put := redis_backed_put;
  put_preserving_activity := redis_backed_put_preserving;
  store_update_activity := redis_backed_update;
  delete_route := redis_backed_delete
}.

(** ** The contract *)

(** The records the hash holds; a field that is no record is absent. *)
Definition records (h : Hash) : gmap RouteKey RouteData := kmap mkRouteKey (omap record_of h).

Definition persisted (s : RedisBacked) : gmap RouteKey RouteData := records (hash (wire s)).

#[local] Instance key_inj : Inj (=) (=) mkRouteKey.
Proof. by intros ?? [= ->]. Qed.

Lemma records_hold h : holds h (records h).
Proof.
  intros [s]. unfold records. rewrite (lookup_kmap mkRouteKey), lookup_omap. simpl. done.
Qed.

Lemma holds_records h m : holds h m -> m = records h.
Proof. intros Hm. apply map_eq. intros key. by rewrite <- (Hm key), (records_hold h key). Qed.

Lemma rounds_alone w ps : Forall round_alone (round w <$> ps).
Proof. apply Forall_forall. by intros ? (? & -> & ?)%list_elem_of_fmap. Qed.

Lemma floorless_alone ps : Forall round_alone (floorless <$> ps).
Proof. apply Forall_forall. by intros ? (? & -> & ?)%list_elem_of_fmap. Qed.

Lemma round_worlds w (ps : list Pass) (r : Round (W := W)) : r ∈ round w <$> ps -> round_world r = w.
Proof. by intros (? & -> & ?)%list_elem_of_fmap. Qed.

(** A refining operation is one step of the contract on the records. *)
Lemma advance_step {R} (q : Prop) floor c (reply : R -> StoreReply) out s :
  refines q (fun r => atomic floor c (reply r)) (wire s) out -> q ->
  store_step floor (persisted s) c (result_map reply (advance out s).1) (persisted (advance out s).2).
Proof.
  intros Href Hq.
  destruct (refines_store_step q floor c reply _ out _ Href Hq (records_hold _)) as (m' & Hm' & Hstep).
  apply holds_records in Hm' as ->. done.
Qed.

(** A replacement commits against the floor the call was given. *)
Lemma replaced_atomic key d0 (floor : ActivityFloor W) w ps d h h' :
  replaced key d0 floor (round w <$> ps) d h h' ->
  static_part d = static_part d0 /\ above_floor (current floor w) (last_activity d) /\
  touches key h h' /\ forall m, holds h m -> holds h' (<[key := d]> m).
Proof. intros (Hst & _ & (r & Hr%round_worlds & Hfl) & Hto & Hh). by rewrite Hr in Hfl. Qed.

(** Each operation as one commit, or none. *)
Definition quiet (s : RedisBacked) (rounds : list (Round (W := W))) : Prop :=
  alone (turn (connecting (weather s))) /\ Forall round_alone rounds.

Lemma rounds_quiet s w : quiet s (round w <$> passes (weather s)).
Proof. split; [done|apply rounds_alone]. Qed.

Lemma redis_backed_add_refines `{!RecordLaws} utc_now key target extra (floor : ActivityFloor W) w s :
  reserved_free extra ->
  refines (quiet s (round w <$> passes (weather s)))
    (fun d => atomic (current floor w) (CallAdd key target extra) (ReplyRecord d)) (wire s)
    (redis_add utc_now key target extra floor (turn (connecting (weather s))) (round w <$> passes (weather s)) (wire s)).
Proof.
  intros Hfree. eapply refines_weaken; [done| |by apply (atomic_replace_refines "add" key floor _ _ (mkRouteData target utc_now extra))].
  intros d h h' ([= Ht He] & Hfl & Hto & Hh)%replaced_atomic. split; [done|].
  intros m Hm. exists (<[key := d]> m). split; [by apply Hh|]. by constructor.
Qed.

Lemma redis_backed_put_preserving_refines `{!RecordLaws} key data (floor : ActivityFloor W) w s :
  reserved_free (extra data) ->
  refines (quiet s (round w <$> passes (weather s)))
    (fun d => atomic (current floor w) (CallPutPreserving key data) (ReplyRecord d)) (wire s)
    (redis_put_preserving_activity key data floor (turn (connecting (weather s))) (round w <$> passes (weather s)) (wire s)).
Proof.
  intros Hfree. eapply refines_weaken; [done| |by apply (atomic_replace_refines "put" key floor _ _ data)].
  intros d h h' (Hst & Hfl & Hto & Hh)%replaced_atomic. split; [done|].
  intros m Hm. exists (<[key := d]> m). split; [by apply Hh|]. by constructor.
Qed.

#[global] Instance redis_backed_contract `{!RecordLaws} : StoreContract DateTime W RedisBacked.
Proof.
  refine (Build_StoreContract DateTime W RedisBacked redis_backed_store persisted _ _ _ _ _ _).
  - intros s. simpl. unfold redis_backed_snapshot. destruct (redis_snapshot _ _ (wire s)) as [[m|e] w'] eqn:Hs; [|done].
    pose proof (redis_snapshot_quiet _ _ _ _ _ (eq_refl : alone (turn _)) (eq_refl : alone (turn _)) Hs) as Hh.
    apply redis_snapshot_holds in Hs as [Hm _]. rewrite Hh in Hm. by apply holds_records.
  - intros now key t' e f w s [_ Hfree]. eapply advance_step; [by apply redis_backed_add_refines|apply rounds_quiet].
  - intros key d s [_ Hfree].
    by apply (advance_step _ None (CallPut key d) (fun _ => ReplyUnit) _ s (redis_put_refines key d _ _ _ _ Hfree)).
  - intros key data f w s [_ Hfree]. eapply advance_step; [by apply redis_backed_put_preserving_refines|apply rounds_quiet].
  - intros key at_ s _. eapply (advance_step _ None (CallUpdateActivity key at_) (fun _ => ReplyUnit)); [apply redis_update_refines|].
    split; [done|apply floorless_alone].
  - intros key s _. eapply (advance_step _ None (CallDelete key) ReplyDeleted); [apply redis_delete_refines|].
    split; [done|apply floorless_alone].
Defined.

(** ** A hash that can be loaded *)

(** Every field is a key and every text a record: what [snapshot] insists on. *)
Definition readable (h : Hash) : Prop :=
  map_Forall (fun field s => starts_with_char slash field = true /\ is_Some (record_of s)) h.

Lemma touches_readable key h h' : rooted key -> touches key h h' -> readable h -> readable h'.
Proof.
  intros Hkey [Hother Hown] Hh field s Hf. destruct (decide (field = as_str key)) as [->|Hne].
  - destruct (Hown s Hf) as [Hs|Hs]; [by apply Hh|done].
  - apply Hh. by rewrite <- Hother.
Qed.

Lemma refines_readable {R} (q : Prop) floor c (reply : R -> StoreReply) w out :
  refines q (fun r => atomic floor c (reply r)) w out -> q -> rooted (call_key c) ->
  readable (hash w) -> readable (hash out.2).
Proof.
  intros (h & h' & Hq & _ & Hres) Hquiet Hkey Hh. destruct (Hq Hquiet) as [-> <-].
  destruct out.1 as [r|e]; [|destruct Hres as [->|[_ [r Hres]]]; [done|]];
    by eapply touches_readable; [done|apply Hres|].
Qed.

Lemma decode_key_rooted field : starts_with_char slash field = true -> exists key, decode_key field = Ok key.
Proof. intros Hf. unfold decode_key. rewrite Hf. by eexists. Qed.

Lemma decode_records_readable l m :
  Forall (fun kv => starts_with_char slash kv.1 = true /\ is_Some (record_of kv.2)) l ->
  exists m', decode_records l m = Ok m'.
Proof.
  intros Hl. revert m. induction Hl as [|[field s] l [Hf [d Hs]] _ IH]; intros m; [by eexists|]. simpl in *.
  destruct (decode_key_rooted field Hf) as [key ->]. simpl.
  unfold decode. unfold record_of in Hs. rewrite Hs. simpl. apply IH.
Qed.

(** A reachable server with a readable hash loads. *)
Lemma readable_loads s :
  readable (hash (wire s)) -> connecting (weather s) = Served -> asking (weather s) = Served ->
  exists m, redis_backed_snapshot s = Ok m.
Proof.
  intros Hh Hc Ha. unfold redis_backed_snapshot, redis_snapshot, take_connection, query, turn, interfere. rewrite Hc, Ha. simpl.
  destruct (decode_records_readable (map_to_list (hash (wire s))) ∅) as [m Hm].
  { apply Forall_forall. intros [field text] Hin%elem_of_map_to_list. exact (Hh _ _ Hin). }
  exists m. destruct (connected (wire s)); simpl; by rewrite Hm.
Qed.

End Backend.

(** Every mutation of the registry keeps the hash readable, whatever happens to it. *)
Lemma readable_invariant `{RecordLib} `{!RecordLaws} :
  Simulation.backend_invariant (Env := DateTime) (fun s => readable (hash (wire s))).
Proof.
  split.
  - intros env key t' e f w s [Hk Hfree] Hs. eapply refines_readable; [by apply redis_backed_add_refines|apply rounds_quiet|done|done].
  - intros key d f w s [Hk Hfree] Hs. eapply refines_readable; [by apply redis_backed_put_preserving_refines|apply rounds_quiet|done|done].
  - intros key at_ s Hk Hs.
    eapply (refines_readable _ None (CallUpdateActivity key at_) (fun _ => ReplyUnit)); [apply redis_update_refines| |done|done].
    split; [done|apply floorless_alone].
  - intros key s Hk Hs. eapply (refines_readable _ None (CallDelete key) ReplyDeleted); [apply redis_delete_refines| |done|done].
    split; [done|apply floorless_alone].
Qed.

(** Another process on the same hash: nothing is left of the first but the hash. *)
Definition restarted (weathers : list Weather) (s : RedisBacked) : RedisBacked :=
  mkBacked (mkWire (hash (wire s)) None false []) weathers.
End RedisBackend.
