(* ===== verification/EndToEnd.v ===== *)
(** * From the management API to the data plane (src/api.rs, src/route_table.rs, src/proxy.rs)

    The management API and the proxy hold the same [RouteRegistry].  Here a request
    to the one is followed by a public request to the other: what a creation and a
    deletion change is exactly which requests are forwarded where. *)

From S2P Require Import Prelude RustStr Route RouteTable Store Redis Tracker Registry RegistryConc Backends.
From S2P Require Import Metrics Activity Percent Http Upstream Config Errors Lifecycle Api Proxy.

Section EndToEnd.
Context `{HeaderLib} `{UrlLib} `{UriLib} `{ApiLib} `{F64} `{RetryLib}.
Context {Env St : Type} `{StoreContract Env View St}.
Import Simulation.
Set Default Proof Using "Type*".

(** ** The shared registry *)

(** The proxy whose registry is the one the API edits. *)
Definition sharing (a : ApiState (St := St)) (p : ChpProxy (St := St)) : ChpProxy (St := St) :=
  set_px_registry (api_registry a) p.

(** The key a management request names; a creation cleans it once more. *)
Definition named_key (req : ApiRequest (Env := Env)) : option RouteKey :=
  match match_path (uri_path (uri req)) with
  | RootRoutes => Some (route_key "/")
  | OneRoute => ok (route_key_from_uri (uri req) (match method req with POST => 2 | _ => 1 end))
  | NoRoute => None
  end.

Definition requested_target (req : ApiRequest (Env := Env)) : option string :=
  body ← req_body req; value ← ok (json_from_slice body); fst <$> take_target value.

(** The path a public request is looked up under. *)
Definition request_path (p : ChpProxy (St := St)) (s : Session) (decoded : string) : string :=
  lookup_path (options p) (set_original (req_uri s) (header_get HOST (req_headers s)) new_ctx) decoded.

(** ** What the two successful answers mean for the registry *)

Lemma post_route_created key (req : ApiRequest (Env := Env)) (a : ApiState (St := St)) :
  status (post_route key req a).1 = 201 ->
  exists t o, requested_target req = Some t /\ reserved_free o /\
    perform attached (req_env req) (MAdd key t o) (api_registry a) = (Ok tt, api_registry (post_route key req a).2).
Proof.
  unfold post_route, requested_target.
  destruct (req_body req) as [body|]; [|done]. simpl.
  destruct (json_from_slice body) as [value|]; [|done]. simpl.
  destruct (authorized a (headers req)); [|done]. destruct (registry_unavailable a); [done|]. cbn [negb].
  destruct (take_target value) as [[t o]|] eqn:Ht; [|done].
  destruct (registry_add attached (req_env req) key t o (api_registry a)) as [[[]|e] r'] eqn:Hadd.
  - intros _. exists t, o. split; [done|]. split; [by eapply take_target_reserved_free|done].
  - unfold mutation_failure. by destruct (_ || _).
Qed.

Lemma delete_route_deleted key (req : ApiRequest (Env := Env)) (a : ApiState (St := St)) :
  status (delete_route_handler key req a).1 = 204 ->
  exists d, registry_delete (Env := Env) attached key (api_registry a)
    = (Ok (Some d), api_registry (delete_route_handler key req a).2).
Proof.
  unfold delete_route_handler.
  destruct (authorized a (headers req)); [|done]. destruct (registry_unavailable a); [done|]. cbn [negb].
  destruct (registry_delete attached key (api_registry a)) as [[[d|]|e] r'] eqn:Hdel; [|done|].
  - intros _. by exists d.
  - unfold mutation_failure. by destruct (_ || _).
Qed.

(** Reading answers are neither. *)
Lemma reading_status (req : ApiRequest (Env := Env)) (a : ApiState (St := St)) code :
  code = 201 \/ code = 204 ->
  status (get_all_routes req a).1 <> code /\ status (get_one_route req a).1 <> code /\
  (forall e, status (route_path_error_response e) <> code).
Proof.
  intros Hc. split_and!.
  - unfold get_all_routes. destruct (authorized _ _); [|by destruct Hc; subst]. destruct (registry_unavailable a); [by destruct Hc; subst|].
    destruct (inactive_since _); by destruct Hc; subst.
  - unfold get_one_route. destruct (authorized _ _); [|by destruct Hc; subst]. destruct (registry_unavailable a); [by destruct Hc; subst|].
    cbn [negb]. destruct (route_key_from_uri _ _) as [key|[]]; [destruct (get key _)|..]; by destruct Hc; subst.
  - intros []; by destruct Hc; subst.
Qed.

Lemma post_route_status key (req : ApiRequest (Env := Env)) (a : ApiState (St := St)) : status (post_route key req a).1 <> 204.
Proof.
  unfold post_route, mutation_failure. destruct (req_body req); [|done]. destruct (json_from_slice _); [|done].
  destruct (authorized _ _); [|done]. destruct (registry_unavailable a); [done|]. cbn [negb].
  destruct (take_target _) as [[t o]|]; [|done]. destruct (registry_add _ _ _ _ _ _) as [[|e] r']; [done|]. by destruct (_ || _).
Qed.

Lemma delete_route_status key (req : ApiRequest (Env := Env)) (a : ApiState (St := St)) : status (delete_route_handler key req a).1 <> 201.
Proof.
  unfold delete_route_handler, mutation_failure. destruct (authorized _ _); [|done]. destruct (registry_unavailable a); [done|].
  cbn [negb]. destruct (registry_delete _ _ _) as [[[d|]|e] r']; [done|done|]. by destruct (_ || _).
Qed.

Lemma router_registry (req : ApiRequest (Env := Env)) (a : ApiState (St := St)) :
  status (router req a).1 = status (dispatch req a).1 /\ api_registry (router req a).2 = api_registry (dispatch req a).2.
Proof. unfold router. by destruct (dispatch req a). Qed.

Lemma created_adds (req : ApiRequest (Env := Env)) (a : ApiState (St := St)) :
  status (router req a).1 = 201 ->
  exists key t o, named_key req = Some key /\ requested_target req = Some t /\ reserved_free o /\
    perform attached (req_env req) (MAdd key t o) (api_registry a) = (Ok tt, api_registry (router req a).2).
Proof.
  destruct (router_registry req a) as [-> ->]. unfold dispatch, named_key.
  destruct (reading_status req a 201) as (Hall & Hone & Herr); [by left|].
  destruct (match_path _), (method req); try done; simpl; try (by intros ?%delete_route_status).
  - intros (t & o & Ht & Hf & Hp)%post_route_created. by exists (route_key "/"), t, o.
  - unfold post_one_route. destruct (route_key_from_uri _ _) as [key|e]; [|by intros ?%Herr].
    intros (t & o & Ht & Hf & Hp)%post_route_created. by exists key, t, o.
  - unfold delete_one_route. destruct (route_key_from_uri _ _) as [key|e]; [by intros ?%delete_route_status|by intros ?%Herr].
Qed.

Lemma deleted_removes (req : ApiRequest (Env := Env)) (a : ApiState (St := St)) :
  status (router req a).1 = 204 ->
  exists key d, named_key req = Some key /\
    registry_delete (Env := Env) attached key (api_registry a) = (Ok (Some d), api_registry (router req a).2).
Proof.
  destruct (router_registry req a) as [-> ->]. unfold dispatch, named_key.
  destruct (reading_status req a 204) as (Hall & Hone & Herr); [by right|].
  destruct (match_path _), (method req); try done; simpl; try (by intros ?%post_route_status).
  - intros (d & Hp)%delete_route_deleted. by exists (route_key "/"), d.
  - unfold post_one_route. destruct (route_key_from_uri _ _) as [key|e]; [by intros ?%post_route_status|by intros ?%Herr].
  - unfold delete_one_route. destruct (route_key_from_uri _ _) as [key|e]; [|by intros ?%Herr].
    intros (d & Hp)%delete_route_deleted. by exists key, d.
Qed.

(** Every key a request names is normalized. *)
Lemma route_key_rooted value : rooted (route_key value).
Proof. apply normalize_slash. Qed.

Lemma named_key_rooted (req : ApiRequest (Env := Env)) key : named_key req = Some key -> rooted key.
Proof.
  unfold named_key. destruct (match_path _); [intros [= <-]; apply route_key_rooted| |done].
  unfold route_key_from_uri. destruct (whatwg_normalized_pathname _) as [pathname|]; [|done]. cbn [ok_or].
  destruct (strip_prefix "/api/routes" pathname) as [raw|]; [|done]. destruct (percent_decode raw) as [decoded|]; [|done].
  intros [= <-]. unfold clean_key. destruct (method req); simpl; apply route_key_rooted.
Qed.

(** ** What a public request sees of the registry *)

(** The public request is one the proxy looks up: it is admitted, its path
    decodes, and it is not the health check. *)
Definition looked_up (p : ChpProxy (St := St)) (s : Session) (decoded : string) : Prop :=
  accepting (traffic p) = true /\ percent_decode (uri_path (req_uri s)) = Some decoded /\
  raw_path_and_query (req_uri s) <> HEALTH_PATH.

(** What came of [request_filter]: the answer, the context and what was sent. *)
Definition outcome (write : Output -> result unit Error) (k : Tick) (s : Session) (p : ChpProxy (St := St)) :
    result bool Error * RequestContext * list Output :=
  ((request_filter write k s new_ctx p).1.1, (request_filter write k s new_ctx p).2).

Lemma outcome_spec write k s (p : ChpProxy (St := St)) decoded :
  looked_up p s decoded -> seal (reg_mutations (registry p)) = Open ->
  let x := set_original (req_uri s) (header_get HOST (req_headers s)) (set_admission true new_ctx) in
  let original := raw_path_and_query (req_uri s) in
  let fail := (Err (internal_error x).1, (internal_error x).2, []) in
  outcome write k s p =
    match resolve (reg_snapshot (registry p)) (request_path p s decoded) with
    | None => (send write (SendErrorPage 404 original), set_class RouteMiss x, [SendErrorPage 404 original])
    | Some m =>
        match url_parse (target (rm_data m)) with
        | Err _ => fail
        | Ok url =>
            match target_parse url with
            | Err _ => fail
            | Ok t => (Ok false, set_route (mkUpstreamRoute (rm_key m) t) (set_key (rm_key m) x), [])
            end
        end
    end.
Proof.
  intros (Ha & Hd & Hh) Hopen x original fail. unfold outcome, request_filter, try_admit. rewrite Ha. simpl.
  unfold consistency_status, is_indeterminate. simpl. rewrite Hopen. rewrite !bool_decide_eq_false_2 by done.
  apply String.eqb_neq in Hh. simpl. fold x. rewrite Hh. unfold route_for_request. rewrite Hd.
  unfold registry_resolve, is_indeterminate. simpl. rewrite Hopen, bool_decide_eq_false_2 by done.
  change (lookup_path _ x decoded) with (request_path p s decoded).
  destruct (resolve _ _) as [m|]; [|done]. destruct (url_parse _) as [url|]; [|done]. by destruct (target_parse url).
Qed.

(** Two registries that resolve the request's path alike treat it alike. *)
Lemma outcome_same write k s (a a' : ApiState (St := St)) (p : ChpProxy (St := St)) decoded :
  looked_up p s decoded -> seal (reg_mutations (api_registry a)) = Open -> seal (reg_mutations (api_registry a')) = Open ->
  resolve (reg_snapshot (api_registry a')) (request_path p s decoded)
    = resolve (reg_snapshot (api_registry a)) (request_path p s decoded) ->
  outcome write k s (sharing a' p) = outcome write k s (sharing a p).
Proof.
  intros Hl Ho Ho' Heq. rewrite (outcome_spec write k s (sharing a p) decoded), (outcome_spec write k s (sharing a' p) decoded) by done.
  change (request_path (sharing a' p) s decoded) with (request_path p s decoded).
  change (request_path (sharing a p) s decoded) with (request_path p s decoded). simpl. by rewrite Heq.
Qed.

(** ** Theorems *)

(** C2: management requests take effect on the data plane, and only where they
    say.  After a creation was answered with 201, a public request whose path
    the named key matches, and no published key matches deeper, is forwarded to
    the target of the body; after a deletion was answered with 204 no request is
    forwarded under that key; and a request whose path the named key does not
    match is treated as before, to the last byte that is sent. *)
Theorem management_reaches_the_data_plane req (a : ApiState (St := St)) (p : ChpProxy (St := St)) s decoded write k :
  snapshot_wf (reg_snapshot (api_registry a)) -> looked_up p s decoded ->
  let before := outcome write k s (sharing a p) in
  let after := outcome write k s (sharing (router req a).2 p) in
  let path := request_path p s decoded in
  (status (router req a).1 = 201 ->
   exists key t, named_key req = Some key /\ requested_target req = Some t /\
     (covers (routes (reg_snapshot (api_registry a))) key path ->
      forall url tgt, url_parse t = Ok url -> target_parse url = Ok tgt ->
      exists x, after = (Ok false, x, []) /\ upstream_route x = Some (mkUpstreamRoute key tgt)) /\
     (~ key_segments key `prefix_of` segments path -> after = before)) /\
  (status (router req a).1 = 204 ->
   exists key, named_key req = Some key /\
     (forall route, upstream_route after.1.2 = Some route -> ur_key route <> key) /\
     (~ key_segments key `prefix_of` segments path -> after = before)).
Proof.
  intros [Hwf Hsn] Hl before after path. split.
  - intros (key & t & o & Hk & Ht & Hf & Hp)%created_adds. pose proof (named_key_rooted _ _ Hk) as Hr.
    apply add_publishes in Hp as (d & Hd & _ & _ & Hs & _ & Ho & Ho'); [|done|done].
    exists key, t. split_and!; [done|done| |].
    + intros Hc url tgt Hu Hg. eexists. unfold after. rewrite (outcome_spec write k s _ decoded) by done.
      change (request_path (sharing _ p) s decoded) with path. simpl.
      rewrite Hs, resolve_covered by done. simpl. rewrite Hd, Hu, Hg. by split.
    + intros Hn. apply (outcome_same _ _ _ _ _ _ decoded); [done..|]. rewrite Hs, resolve_replace_other by done. by rewrite Hsn.
  - intros (key & d & Hk & Hp)%deleted_removes. pose proof (named_key_rooted _ _ Hk) as Hr.
    apply delete_publishes in Hp as (Hs & _ & _ & Ho & Ho'); [|done].
    exists key. split_and!; [done| |].
    + intros route. unfold after. rewrite (outcome_spec write k s _ decoded) by done.
      change (request_path (sharing _ p) s decoded) with path. simpl. rewrite Hs.
      pose proof (resolve_best (remove key (routes (reg_snapshot (api_registry a)))) path (remove_wf _ _ Hwf)) as Hb.
      destruct (resolve _ path) as [m|]; [|done]. destruct (url_parse _) as [url|]; [|done].
      destruct (target_parse url) as [tgt|]; [|done]. simpl. intros [= <-] Heq. simpl in Heq. destruct Hb as [Hb _]. simpl in Hb.
      rewrite Heq, lookup_delete_eq in Hb. done.
    + intros Hn. apply (outcome_same _ _ _ _ _ _ decoded); [done..|]. rewrite Hs, resolve_remove_other by done. by rewrite Hsn.
Qed.

(** Creating a route that was not published and deleting it again is invisible:
    the published routes and their order are the ones of before, so every public
    request is treated as before. *)
Theorem create_then_delete_is_invisible create remove (a : ApiState (St := St)) key :
  snapshot_wf (reg_snapshot (api_registry a)) -> get key (view (api_registry a)) = None ->
  named_key create = Some key -> named_key remove = Some key ->
  status (router create a).1 = 201 ->
  let a' := (router remove (router create a).2).2 in
  status (router remove (router create a).2).1 = 204 ->
  reg_snapshot (api_registry a') = reg_snapshot (api_registry a) /\
  forall write k (p : ChpProxy (St := St)) s decoded, looked_up p s decoded ->
    outcome write k s (sharing a' p) = outcome write k s (sharing a p).
Proof.
  intros [Hwf Hsn] Hnone Hkc Hkr Hc a' Hd.
  pose proof (named_key_rooted _ _ Hkc) as Hroot. apply created_adds in Hc as (key1 & t & o & Hk1 & _ & Hf & Hp).
  apply deleted_removes in Hd as (key2 & d2 & Hk2 & Hp2). rewrite Hkc in Hk1. rewrite Hkr in Hk2. simplify_eq.
  apply add_publishes in Hp as (d & _ & _ & _ & Hs & _ & Ho & _); [|done|done].
  apply delete_publishes in Hp2 as (Hs2 & _ & _ & _ & Ho2); [|done].
  assert (Hsame : reg_snapshot (api_registry a') = reg_snapshot (api_registry a)).
  { unfold a'. rewrite Hs2, Hs. simpl. rewrite remove_replace; [by symmetry|done|].
    unfold get, is_indeterminate in Hnone. simpl in Hnone. rewrite Ho in Hnone. exact Hnone. }
  split; [exact Hsame|]. intros write k p s decoded Hl. apply (outcome_same _ _ _ _ _ _ decoded); [done..|]. by rewrite Hsame.
Qed.

(** *** What a management request does to the backend *)

(** The three things a handler can do: nothing, one addition, one deletion; the
    answer tells whether it succeeded. *)
Definition effect_of (req : ApiRequest (Env := Env)) (a : ApiState (St := St)) (key : option RouteKey)
    (out : Response * ApiState (St := St)) : Prop :=
  let st := status out.1 in
  let r' := api_registry out.2 in
  (r' = api_registry a /\ st <> 201 /\ st <> 204) \/
  (exists k t o, key = Some k /\ requested_target req = Some t /\ reserved_free o /\ st <> 204 /\
     r' = (perform attached (req_env req) (MAdd k t o) (api_registry a)).2 /\
     (st = 201 <-> (perform attached (req_env req) (MAdd k t o) (api_registry a)).1 = Ok tt)) \/
  (exists k, key = Some k /\ st <> 201 /\
     r' = (registry_delete (Env := Env) attached k (api_registry a)).2 /\
     (st = 204 <-> exists d, (registry_delete (Env := Env) attached k (api_registry a)).1 = Ok (Some d))).

Lemma post_route_effect key (req : ApiRequest (Env := Env)) (a : ApiState (St := St)) :
  effect_of req a (Some key) (post_route key req a).
Proof.
  unfold post_route, effect_of, requested_target.
  destruct (req_body req) as [body|]; [|by left]. simpl.
  destruct (json_from_slice body) as [value|]; [|by left]. simpl.
  destruct (authorized a (headers req)); [|by left]. destruct (registry_unavailable a); [by left|]. cbn [negb].
  destruct (take_target value) as [[t o]|] eqn:Ht; [|by left]. right; left. exists key, t, o.
  unfold perform. cbn [operation_of owned]. unfold registry_add, mutation_failure.
  destruct (run_mutation attached Add _ (api_registry a)) as [[[]|e] r'].
  - split_and!; try done. by eapply take_target_reserved_free.
  - destruct (_ || _); (split_and!; [done|done|by eapply take_target_reserved_free|done..]).
Qed.

Lemma delete_route_effect key (req : ApiRequest (Env := Env)) (a : ApiState (St := St)) :
  effect_of req a (Some key) (delete_route_handler key req a).
Proof.
  unfold delete_route_handler, effect_of, mutation_failure.
  destruct (authorized a (headers req)); [|by left]. destruct (registry_unavailable a); [by left|]. cbn [negb].
  right; right. exists key. destruct (registry_delete attached key (api_registry a)) as [[[d|]|e] r'].
  - split_and!; try done. split; [by exists d|done].
  - split_and!; try done. split; [done|]. by intros [].
  - destruct (_ || _); (split_and!; [done..|]; split; [done|by intros []]).
Qed.

Lemma reading_registry (req : ApiRequest (Env := Env)) (a : ApiState (St := St)) :
  api_registry (get_all_routes req a).2 = api_registry a /\ api_registry (get_one_route req a).2 = api_registry a.
Proof.
  unfold get_all_routes, get_one_route. destruct (authorized _ _); [|done]. destruct (registry_unavailable a); [done|].
  cbn [negb]. split; [by destruct (inactive_since _)|]. destruct (route_key_from_uri _ _); [|done]. by destruct (get _ _).
Qed.

Lemma router_effect (req : ApiRequest (Env := Env)) (a : ApiState (St := St)) :
  effect_of req a (named_key req) (router req a).
Proof.
  assert (Hd : effect_of req a (named_key req) (dispatch req a)).
  2: { unfold router, effect_of in *. by destruct (dispatch req a). }
  destruct (reading_status req a 201) as (Hall & Hone & Herr); [by left|].
  destruct (reading_status req a 204) as (Hall' & Hone' & Herr'); [by right|].
  unfold dispatch, named_key.
  destruct (match_path _), (method req); try (by left); try apply post_route_effect; try apply delete_route_effect.
  - left. split_and!; [|done|done]. apply reading_registry.
  - left. split_and!; [|done|done]. apply reading_registry.
  - unfold post_one_route. destruct (route_key_from_uri _ _) as [key|e]; [apply post_route_effect|left; split_and!; [done|apply Herr|apply Herr']].
  - unfold delete_one_route. destruct (route_key_from_uri _ _) as [key|e]; [apply delete_route_effect|left; split_and!; [done|apply Herr|apply Herr']].
Qed.

(** What the backend holds after a request, by the answer the client got. *)
Lemma management_commits (req : ApiRequest (Env := Env)) (a : ApiState (St := St)) :
  let st := status (router req a).1 in
  let r' := api_registry (router req a).2 in
  let before := contents (reg_store (api_registry a)) in
  let after := contents (reg_store r') in
  (st = 201 -> exists key t d, named_key req = Some key /\ requested_target req = Some t /\ target d = t /\
     reserved_free (extra d) /\ get key (view r') = Some d /\ after = <[key := d]> before) /\
  (st = 204 -> exists key, named_key req = Some key /\ is_Some (before !! key) /\ after = delete key before) /\
  (st <> 201 -> st <> 204 -> after = before \/ is_indeterminate (reg_mutations r') = true).
Proof.
  intros st r' before after. subst st r' before after. split_and!.
  - intros (key & t & o & Hk & Ht & Hf & Hp)%created_adds. pose proof (named_key_rooted _ _ Hk) as Hr.
    apply add_publishes in Hp as (d & Hd & Hx & _ & Hs & Hc & Ho & Ho'); [|done|done].
    exists key, t, d. split_and!; [done|done|done|by rewrite Hx| |done].
    unfold get, is_indeterminate. simpl. rewrite Ho'. simpl. rewrite Hs. apply lookup_insert_eq.
  - intros (key & d & Hk & Hp)%deleted_removes. pose proof (named_key_rooted _ _ Hk) as Hr.
    apply delete_publishes in Hp as (_ & Hd & Hc & _); [|done]. exists key. split_and!; [done|by eexists|done].
  - intros H201 H204. destruct (router_effect req a) as [(-> & _)|[Hadd|Hdel]]; [by left|..].
    + destruct Hadd as (key & t & o & Hk & Ht & Hf & _ & -> & Hst). pose proof (named_key_rooted _ _ Hk) as Hr.
      destruct (perform attached (req_env req) (MAdd key t o) (api_registry a)) as [[[]|e] r1] eqn:Hp; [by destruct H201; apply Hst|].
      apply perform_error in Hp as (_ & Hseal & Hsame); [|done].
      unfold is_indeterminate. simpl. rewrite Hseal. destruct (is_indeterminate_error e); [by right|left; by apply Hsame].
    + destruct Hdel as (key & Hk & _ & -> & Hst). pose proof (named_key_rooted _ _ Hk) as Hr.
      pose proof (perform_delete attached (req_env req) key (api_registry a)) as Hp.
      destruct (registry_delete attached key (api_registry a)) as [[[d|]|e] r1] eqn:Hdel.
      * exfalso. apply H204, Hst. by exists d.
      * apply delete_publishes in Hdel as (_ & Hd & Hc & _); [|done]. left. simpl. rewrite Hc. by apply delete_id.
      * apply perform_error in Hp as (_ & Hseal & Hsame); [|done].
        unfold is_indeterminate. simpl in Hseal, Hsame |- *. rewrite Hseal. destruct (is_indeterminate_error e); [by right|left; by apply Hsame].
Qed.

(** An invariant of the backend holds through every request. *)
Lemma router_keeps P (req : ApiRequest (Env := Env)) (a : ApiState (St := St)) :
  backend_invariant (Env := Env) P -> P (reg_store (api_registry a)) -> P (reg_store (api_registry (router req a).2)).
Proof.
  intros Hinv HP. destruct (router_effect req a) as [(-> & _)|[Hadd|Hdel]]; [done|..].
  - destruct Hadd as (key & t & o & Hk & _ & Hf & _ & -> & _). apply perform_keeps; [done| |done].
    split; [by eapply named_key_rooted|done].
  - destruct Hdel as (key & Hk & _ & -> & _).
    pose proof (perform_keeps P attached (req_env req) (MDelete key) (api_registry a) Hinv (named_key_rooted _ _ Hk) HP) as Hd.
    by rewrite perform_delete in Hd.
Qed.

End EndToEnd.

(** ** With the routes in Redis *)

Section RedisRestart.
Context `{HeaderLib} `{UrlLib} `{UriLib} `{ApiLib} `{F64} `{RecordLib} `{!RecordLaws}.
Import RedisBackend.

(** C4: what the API acknowledges survives a restart.  The routes are kept in
    Redis, and the network may do anything to the commands of a management
    request.  A process that starts afterwards on the same hash, with the server
    reachable, always loads, and serves exactly what the answer promised: after
    201 the created record (its target, its metadata and the stamp it was
    committed with) and every other key as before, after 204 every key but the
    deleted one, and after any other answer what was there before, unless the
    first process closed its registry as indeterminate.  The next request finds
    a loadable hash again. *)
Theorem redis_routes_survive_a_restart (req : ApiRequest (Env := DateTime)) (a : ApiState (St := RedisBacked)) weathers :
  let before := reg_store (api_registry a) in
  let r' := api_registry (router req a).2 in
  let st := status (router req a).1 in
  readable (hash (wire before)) ->
  connecting (hd outage weathers) = Served -> asking (hd outage weathers) = Served ->
  readable (hash (wire (reg_store r'))) /\
  exists r, load (restarted weathers (reg_store r')) = Ok r /\
    (st = 201 -> exists key target_ d, named_key req = Some key /\ requested_target req = Some target_ /\
       target d = target_ /\ reserved_free (extra d) /\ get key (view r') = Some d /\
       all (view r) = <[key := d]> (persisted before)) /\
    (st = 204 -> exists key, named_key req = Some key /\ is_Some (persisted before !! key) /\
       all (view r) = delete key (persisted before)) /\
    (st <> 201 -> st <> 204 ->
       all (view r) = persisted before \/ is_indeterminate (reg_mutations r') = true).
Proof.
  intros before r' st Hread Hc Ha.
  assert (Hread' : readable (hash (wire (reg_store r')))).
  { apply (router_keeps (fun s => readable (hash (wire s)))); [apply readable_invariant|done]. }
  split; [done|].
  destruct (readable_loads (restarted weathers (reg_store r')) Hread' Hc Ha) as [m Hm].
  exists (mkRegistry (restarted weathers (reg_store r')) (from_routes m) tracker_default).
  assert (Hall : m = persisted (reg_store r')).
  { pose proof (snapshot_contract (Env := DateTime) (W := View) (restarted weathers (reg_store r'))) as Hs.
    simpl in Hs. by rewrite Hm in Hs. }
  split; [unfold load; simpl; by rewrite Hm|]. change (all (view _)) with m. rewrite Hall.
  exact (management_commits req a).
Qed.

End RedisRestart.

(** ** Examples *)

#[local] Existing Instance sample_api_lib.
#[local] Existing Instance sample_retry.

Definition creating := sample_request POST [].
Definition deleting := sample_request DELETE [].
Definition created := (router creating (sample_state None)).2.

Lemma sample_wf : snapshot_wf (reg_snapshot (api_registry (sample_state None))).
Proof. apply from_ordered_routes_wf, from_sorted_wf. Qed.

Lemma sample_looked_up : looked_up (sample_proxy Traffic_new) (sample_session "/b/x") "/b/x".
Proof. split_and!; [reflexivity|vm_compute; reflexivity|]. by apply String.eqb_neq. Qed.

(** The only key published before, [/a], is no deeper than [/b]. *)
Lemma sample_covers : covers (routes (reg_snapshot (api_registry (sample_state None)))) (normalize "/b") "/b/x".
Proof.
  split; [exists ["x"]; vm_compute; reflexivity|]. intros k [d Hk] _.
  change (({[normalize "/a" := mkRouteData "http://a" 5 ∅]} : gmap RouteKey RouteData) !! k = Some d) in Hk.
  apply lookup_singleton_Some in Hk as [Hk _].
  subst k. vm_compute. lia.
Qed.

(** After the creation of [/b], a request for [/b/x] goes to its target. *)
Lemma management_reaches_the_data_plane_witness :
  status (router creating (sample_state None)).1 = 201 /\
  exists x tgt, outcome sent sample_tick (sample_session "/b/x") (sharing created (sample_proxy Traffic_new)) = (Ok false, x, []) /\
    upstream_route x = Some (mkUpstreamRoute (normalize "/b") tgt).
Proof.
  assert (Hs : status (router creating (sample_state None)).1 = 201) by (vm_compute; reflexivity). split; [exact Hs|].
  destruct (management_reaches_the_data_plane creating (sample_state None) (sample_proxy Traffic_new)
    (sample_session "/b/x") "/b/x" sent sample_tick sample_wf sample_looked_up) as [Hc _].
  destruct (Hc Hs) as (key & t & Hk & Ht & Hf & _).
  assert (Hk' : named_key creating = Some (normalize "/b")) by (vm_compute; reflexivity).
  assert (Ht' : requested_target creating = Some "http://b") by (vm_compute; reflexivity).
  rewrite Hk' in Hk. rewrite Ht' in Ht. injection Hk as <-. injection Ht as <-.
  destruct (url_parse "http://b") as [url|] eqn:Hu; [|vm_compute in Hu; discriminate].
  destruct (target_parse url) as [tgt|] eqn:Hg; [|vm_compute in Hu; injection Hu as <-; vm_compute in Hg; discriminate].
  destruct (Hf sample_covers url tgt eq_refl Hg) as (x & Hx & Hr). exists x, tgt. split; [exact Hx|exact Hr].
Defined.

Lemma create_then_delete_is_invisible_witness :
  reg_snapshot (api_registry (router deleting created).2) = reg_snapshot (api_registry (sample_state None)).
Proof.
  refine (proj1 (create_then_delete_is_invisible creating deleting (sample_state None) (normalize "/b")
    sample_wf _ _ _ _ _)); vm_compute; reflexivity.
Defined.

(** A creation over Redis, then a restart. *)
Definition fair : RedisBackend.Weather :=
  RedisBackend.mkWeather Served Served Served [RedisBackend.mkPass false Served false Served false Served].

Definition redis_state : ApiState (St := RedisBackend.RedisBacked) :=
  ApiState_new (mkRegistry (RedisBackend.mkBacked (mkWire ∅ None false []) [fair]) (from_routes ∅) tracker_default) None Metrics_new.

Definition redis_creating : @ApiRequest SimpleHttp.headers SimpleHttp.uris DateTime :=
  mkApiRequest POST "/api/routes/b" None [] (Some "{target: http://b}") 7 0.

Lemma redis_routes_survive_a_restart_witness :
  exists r d, load (RedisBackend.restarted [fair] (reg_store (api_registry (router redis_creating redis_state).2))) = Ok r /\
    target d = "http://b" /\ all (view r) = {[normalize "/b" := d]}.
Proof.
  assert (Hs : status (router redis_creating redis_state).1 = 201) by (vm_compute; reflexivity).
  destruct (redis_routes_survive_a_restart redis_creating redis_state [fair] (map_Forall_empty _) eq_refl eq_refl)
    as (_ & r & Hload & Hcreated & _).
  destruct (Hcreated Hs) as (key & t & d & Hk & Ht & Hd & _ & _ & Hall).
  assert (Hk' : named_key redis_creating = Some (normalize "/b")) by (vm_compute; reflexivity).
  assert (Ht' : requested_target redis_creating = Some "http://b") by (vm_compute; reflexivity).
  rewrite Hk' in Hk. rewrite Ht' in Ht. injection Hk as <-. injection Ht as <-.
  exists r, d. split; [exact Hload|]. split; [exact Hd|exact Hall].
Defined.
