(* ===== verification/SidecarBackend.v ===== *)
(** * The sidecar backend as a [Store] (src/store/sidecar.rs, src/store/mod.rs)

    [impl Store for SidecarStore]: the operations of [Sidecar] behind the class the
    registry is written against.  Against any server of the documented protocol to
    which nobody else writes, the contract of [Store] holds whatever the network
    loses, so the theorems about the registry and the management API hold for a
    proxy whose routes live in a sidecar. *)

From S2P Require Import Prelude RustStr Route RouteTable Store Http Sidecar Tracker Registry RegistryConc.
From S2P Require Import Metrics Percent Config Api EndToEnd.

Section Backend.
Context `{HeaderLib} `{UrlLib} `{SidecarLib} {World : Type} `{!SidecarPeer World} {W : Type}.

(** A connected store, whose base URL has passed [validate_base_url], and its peer. *)
Record SidecarBacked : Type := mkSidecarBacked {
  connection : SidecarStore;
  peer : World;
  base_is_root : Sidecar.rooted connection
}.

Definition with_peer (w : World) (s : SidecarBacked) : SidecarBacked :=
  mkSidecarBacked (connection s) w (base_is_root s).

Definition proceed {A} (out : result A StoreError * World) (s : SidecarBacked) : result A StoreError * SidecarBacked :=
  (out.1, with_peer out.2 s).

(** ** The instance *)

Definition sidecar_backed_snapshot (s : SidecarBacked) : result (gmap RouteKey RouteData) StoreError :=
  (sidecar_snapshot (connection s) (peer s)).1.

(** The floor reads the registry as it is during the call. *)
Definition sidecar_backed_add (utc_now : DateTime) (key : RouteKey) (target : string) (extra : gmap string Value)
    (floor : ActivityFloor W) (w : W) (s : SidecarBacked) : result RouteData StoreError * SidecarBacked :=
  proceed (sidecar_add (connection s) utc_now key target extra (fixed (current floor w)) (peer s)) s.

Definition sidecar_backed_put (key : RouteKey) (data : RouteData) (s : SidecarBacked) :
    result unit StoreError * SidecarBacked :=
  proceed (sidecar_put (connection s) key data (peer s)) s.

Definition sidecar_backed_put_preserving (key : RouteKey) (data : RouteData) (floor : ActivityFloor W) (w : W)
    (s : SidecarBacked) : result RouteData StoreError * SidecarBacked :=
  proceed (sidecar_put_preserving_activity (connection s) key data (fixed (current floor w)) (peer s)) s.

Definition sidecar_backed_update (key : RouteKey) (at_ : DateTime) (s : SidecarBacked) :
    result unit StoreError * SidecarBacked :=
  proceed (sidecar_update_activity (connection s) key at_ (peer s)) s.

Definition sidecar_backed_delete (key : RouteKey) (s : SidecarBacked) :
    result (option RouteData) StoreError * SidecarBacked :=
  proceed (sidecar_delete (connection s) key (peer s)) s.

#[global] Instance sidecar_backed_store : Store DateTime W SidecarBacked := {
  snapshot := sidecar_backed_snapshot;
  add := sidecar_backed_add;
  put := sidecar_backed_put;
  put_preserving_activity := sidecar_backed_put_preserving;
  store_update_activity := sidecar_backed_update;
  delete_route := sidecar_backed_delete
}.

(** ** The contract *)

Lemma proceed_step {R} floor c (reply : R -> StoreReply) out s :
  refines (fun r m m' => commits floor m c (reply r) m') (peer s) out -> alone ->
  store_step floor (persisted (peer s)) c (result_map reply (proceed out s).1) (persisted (peer (proceed out s).2)).
Proof. exact (call_refines_store_step reply floor c (peer s) out). Qed.

Definition sidecar_backed_contract `{!SidecarLaws} `{!UrlJoinLaws} `{!SidecarProtocol World} (Halone : alone) :
  StoreContract DateTime W SidecarBacked.
Proof.
  refine (Build_StoreContract DateTime W SidecarBacked sidecar_backed_store (fun s => persisted (peer s)) _ _ _ _ _ _).
  - intros s. simpl. unfold sidecar_backed_snapshot.
    destruct (sidecar_snapshot _ (peer s)) as [[m|e] w'] eqn:Hs; [|done].
    apply snapshot_spec in Hs as [[_ Hsame] Hm]; [|apply base_is_root]. by rewrite Hm, Hsame.
  - intros now key t e f w s [Hk _]. apply proceed_step; [|done].
    eapply call_refines_weaken; [|apply sidecar_add_refines; [apply base_is_root|exact Hk]].
    by intros d m m' (w1 & req & _ & Hc).
  - intros key d s [Hk _]. apply (proceed_step None (CallPut key d) (fun _ => ReplyUnit)); [|done].
    by apply sidecar_put_refines; [apply base_is_root|].
  - intros key d f w s [Hk _]. apply proceed_step; [|done].
    eapply call_refines_weaken; [|apply sidecar_put_preserving_refines; [apply base_is_root|exact Hk]].
    by intros d' m m' (w1 & req & _ & Hc).
  - intros key at_ s Hk. apply (proceed_step None (CallUpdateActivity key at_) (fun _ => ReplyUnit)); [|done].
    by apply update_refines; [apply base_is_root|].
  - intros key s Hk. apply (proceed_step None (CallDelete key) ReplyDeleted); [|done].
    by apply delete_refines; [apply base_is_root|].
Defined.

End Backend.

(** ** The management API over a sidecar *)

Section Management.
Context `{HeaderLib} `{UrlLib} `{UriLib} `{ApiLib} `{F64}.
Context `{SidecarLib} {World : Type} `{!SidecarPeer World}.

(** What the API acknowledged is what the sidecar holds: after 201 the created
    record and every other key as before, after 204 every key but the deleted one,
    and after any other answer what it held before, unless the registry was closed
    as indeterminate. *)
Theorem sidecar_holds_what_was_acknowledged `{!SidecarLaws} `{!UrlJoinLaws} `{!SidecarProtocol World}
    (req : ApiRequest (Env := DateTime)) (a : ApiState (St := SidecarBacked (World := World))) :
  alone (World := World) ->
  let st := status (router req a).1 in
  let r' := api_registry (router req a).2 in
  let before := persisted (peer (reg_store (api_registry a))) in
  let after := persisted (peer (reg_store r')) in
  (st = 201 -> exists key t d, named_key req = Some key /\ requested_target req = Some t /\ target d = t /\
     reserved_free (extra d) /\ get key (view r') = Some d /\ after = <[key := d]> before) /\
  (st = 204 -> exists key, named_key req = Some key /\ is_Some (before !! key) /\ after = delete key before) /\
  (st <> 201 -> st <> 204 -> after = before \/ is_indeterminate (reg_mutations r') = true).
Proof. intros Halone. pose (contract := sidecar_backed_contract (W := View) Halone). exact (management_commits req a). Qed.

End Management.
