(* ===== verification/Legacy.v ===== *)
(** * Helpers kept from an earlier proxy (src/utils.rs, src/redis_utils.rs, src/mgmt_api.rs)

    Three files that no module of the crate declares: the two-segment prefix of a
    request path, a Redis connection, and a router that answers at the root.  What
    they log is a list of lines. *)

From S2P Require Import Prelude RustStr Http Proxy.

(** [pingora::Error::explain]: the type and the text. *)
Record Explained : Type := mkExplained { explained_type : ErrorType; explained_text : string }.

Section Utils.
Context `{UriLib}.

(** How [{:?}] writes a result and a list of segments. *)
Variable result_debug : result string Explained -> string.
Variable strings_debug : list string -> string.

Definition log_and_return_err (e : result string Explained) : result string Explained * list string :=
  (e, ["An error occurred: " +:+ result_debug e]).

Definition parse_prefix (uri : Uri) : result string Explained * list string :=
  let prefixes := (filter (fun ie => (0 < ie.1)%nat) (imap pair (split slash (uri_path uri)))).*2 in
  let line := strings_debug prefixes in
  match prefixes with
  | first :: second :: _ => (Ok ("/" +:+ first +:+ "/" +:+ second), [line])
  | _ =>
      let (e, lines) := log_and_return_err
        (Err (mkExplained (HTTPStatus 400) ("Prefixes too short: " +:+ strings_debug prefixes))) in
      (e, line :: lines)
  end.

(** The enumerated filter drops the piece before the first slash. *)
Lemma enumerated_from n (l : list string) :
  (filter (fun ie => (0 < ie.1)%nat) (imap (fun i x => ((S n + i)%nat, x)) l)).*2 = l.
Proof.
  revert n. induction l as [|x l IH]; intros n; [done|]. rewrite imap_cons, filter_cons_True by (simpl; lia).
  rewrite fmap_cons. f_equal. rewrite <- (IH (S n)) at 2. do 2 f_equal. apply imap_ext. intros i y _. simpl. f_equal. lia.
Qed.

Lemma enumerated_tail (l : list string) : (filter (fun ie => (0 < ie.1)%nat) (imap pair l)).*2 = tail l.
Proof.
  destruct l as [|x l]; [done|]. rewrite imap_cons, filter_cons_False by (simpl; lia). exact (enumerated_from 0 l).
Qed.

(** The prefix is the first two segments, and a path without two slashes is a 400. *)
Theorem parse_prefix_is_two_segments uri host first rest :
  uri_path uri = host +:+ String slash (first +:+ rest) ->
  contains_char slash host = false -> contains_char slash first = false ->
  (rest = "" -> exists text, (parse_prefix uri).1 = Err (mkExplained (HTTPStatus 400) text)) /\
  (forall second more, rest = String slash (second +:+ more) -> contains_char slash second = false ->
   more = "" \/ starts_with_char slash more = true ->
   (parse_prefix uri).1 = Ok ("/" +:+ first +:+ "/" +:+ second)).
Proof.
  intros Hp Hh Hf. unfold parse_prefix. rewrite enumerated_tail, Hp, (split_app _ _ _ Hh). simpl. split.
  - intros ->. rewrite str_app_nil_r, (split_plain _ _ Hf). by eexists.
  - intros second more -> Hs Hm. rewrite (split_app _ _ _ Hf).
    destruct more as [|c more]; [by rewrite str_app_nil_r, (split_plain _ _ Hs)|].
    destruct Hm as [[=]|Hc]. simpl in Hc. apply ascii_eqb_true in Hc as ->. by rewrite (split_app _ _ _ Hs).
Qed.
End Utils.

Section RedisUtils.

(** The crate [redis]: opening a client and connecting, each with its error's text. *)
Context {Client Connection : Type}.
Variable client_open : string -> result Client string.
Variable get_connection : Client -> result Connection string.

(** How [{:?}] writes the result, and [option_env!] at compile time. *)
Variable result_debug : result string Explained -> string.
Variable compiled_endpoint : option string.

Definition REDIS_ENDPOINT : string := default "redis://127.0.0.1:8091" compiled_endpoint.

Definition init_redis_connection : result Connection Explained * list string :=
  match client_open REDIS_ENDPOINT with
  | Err e => (Err (mkExplained (HTTPStatus 400) ("Open redis client failed: " +:+ e)), [])
  | Ok client =>
      let lines := ["Connect to redis succeed!"; "Endpoint: " +:+ REDIS_ENDPOINT] in
      match get_connection client with
      | Ok connection => (Ok connection, lines)
      | Err e =>
          let error := mkExplained (HTTPStatus 400) ("Connect to redis failed: " +:+ e) in
          (Err error, lines ++ (log_and_return_err result_debug (Err error)).2)
      end
  end.

(** Success is logged exactly when the client opens, whether or not it then
    connects, and every failure is a 400. *)
Theorem redis_success_is_logged_early :
  ("Connect to redis succeed!" ∈ init_redis_connection.2 <-> exists client, client_open REDIS_ENDPOINT = Ok client) /\
  (forall error, init_redis_connection.1 = Err error -> explained_type error = HTTPStatus 400).
Proof.
  unfold init_redis_connection. destruct (client_open REDIS_ENDPOINT) as [client|e]; simpl.
  - split; [split; [by eexists|]; intros _|]; destruct (get_connection client); simpl; try (by intros ? [= <-]); try done;
      apply elem_of_cons; by left.
  - split; [|by intros ? [= <-]]. split; [by intros ?%elem_of_nil|by intros [? [=]]].
Qed.

End RedisUtils.

Section MgmtApi.

(** The crate [axum] and [tokio]: a router by its routes, and binding a listener. *)
Context {Listener BindError : Type}.
Variable tcp_bind : string -> result Listener BindError.

(** A router answers the methods and paths it has. *)
Abbreviation Router := (list (string * string * string)) (only parsing).

(** [get_app]: [APP] is initialized by the first call and shared by all others. *)
Definition get_app (APP : option Router) : Router * option Router :=
  match APP with
  | Some app => (app, APP)
  | None => let app := [("GET", "/", "Hello, World!")] in (app, Some app)
  end.

(** [get_listener]: [unwrap] panics when binding fails. *)
Definition get_listener : option Listener := ok (tcp_bind "0.0.0.0:8171").

Fixpoint get_app_calls (n : nat) (APP : option Router) : list Router * option Router :=
  match n with
  | O => ([], APP)
  | S n => let (app, APP) := get_app APP in let (apps, APP) := get_app_calls n APP in (app :: apps, APP)
  end.

(** However often it is called, every caller gets the router of the first call. *)
Theorem every_caller_gets_the_same_app n APP : Forall (eq (get_app APP).1) (get_app_calls n APP).1.
Proof.
  assert (Hgo : forall app n, Forall (eq app) (get_app_calls n (Some app)).1).
  { intros app. induction n0 as [|m IH]; [constructor|]. cbn [get_app_calls get_app].
    destruct (get_app_calls m (Some app)) as [apps cell]. by constructor. }
  destruct n as [|n]; [constructor|]. cbn [get_app_calls].
  assert (Hs : (get_app APP).2 = Some (get_app APP).1) by (by destruct APP).
  destruct (get_app APP) as [app cell]. cbn [fst snd] in *. subst cell. specialize (Hgo app n).
  destruct (get_app_calls n (Some app)) as [apps cell]. by constructor.
Qed.

End MgmtApi.
