(* ===== verification/FileSystem.v ===== *)
(** * The file system the process works against

    An inode store with directories as maps, the descriptor-relative calls the
    source makes through [rustix] and [std::fs], and the small error-and-state
    monad its functions run in.  Before every call other processes may have
    changed the file system ([foreign]) and the call may fail ([fault]); a ghost
    log records what this process renamed, removed and re-moded.  Name
    resolution of whole paths, the allocation of inodes, the effective user and
    the umask belong to the platform and are parameters. *)

From S2P Require Import Prelude RustStr.

(** ** Paths, as [std::path::Path::components] shows them *)

Inductive Component : Type := RootDir | CurDir | ParentDir | Normal (name : string).

Abbreviation Path := (list Component) (only parsing).

#[export] Instance Component_eq_dec : EqDecision Component.
Proof. solve_decision. Defined.

#[export] Instance Component_countable : Countable Component.
Proof.
  refine (inj_countable' (fun c => match c with RootDir => inl 0%Z | CurDir => inl 1%Z | ParentDir => inl 2%Z | Normal n => inr n end)
    (fun e => match e with inl 0%Z => RootDir | inl 1%Z => CurDir | inl _ => ParentDir | inr n => Normal n end) _).
  by intros [].
Defined.

Definition file_name (p : Path) : option string :=
  match last p with Some (Normal n) => Some n | _ => None end.

(** [Path::parent]: [None] for a root or an empty path; of a bare name it is
    the empty path. *)
Definition parent (p : Path) : option Path :=
  match last p with
  | Some (Normal _ | CurDir | ParentDir) => Some (removelast p)
  | Some RootDir | None => None
  end.

Definition path_join (p : Path) (name : string) : Path := p ++ [Normal name].

(** [Path::components]: repeated separators and inner [.] disappear. *)
Definition path_component (part : string) : Path :=
  if is_empty part || bool_decide (part = ".") then []
  else if bool_decide (part = "..") then [ParentDir] else [Normal part].

Definition components_of (s : string) : Path :=
  let parts := split slash s in
  if starts_with_char slash s then RootDir :: flat_map path_component parts
  else match parts with
       | "." :: rest => CurDir :: flat_map path_component rest
       | _ => flat_map path_component parts
       end.

(** The canonical path with these names. *)
Definition absolute (names : list string) : Path := RootDir :: map Normal names.

(** ** Inodes *)

Record FileIdentity : Type := mkIdentity { device : Z; inode : Z }.

#[export] Instance FileIdentity_eq_dec : EqDecision FileIdentity.
Proof. solve_decision. Defined.

#[export] Instance FileIdentity_countable : Countable FileIdentity.
Proof.
  refine (inj_countable' (fun i => (device i, inode i)) (fun p => mkIdentity p.1 p.2) _). by intros [].
Defined.

(** What [fgetxattr] of an ACL attribute answers. *)
Inductive Xattr : Type := XPresent | XRange | XNoData | XOther.

Record Node : Type := mkNode {
  st_mode : Z;                            (** with the type bits *)
  st_uid : Z;
  acl_access : Xattr;
  acl_default : Xattr;
  entries : gmap string FileIdentity;     (** of a directory *)
  link_to : option FileIdentity           (** where a symbolic link leads *)
}.

#[export] Instance Xattr_eq_dec : EqDecision Xattr.
Proof. solve_decision. Defined.

#[export] Instance Node_eq_dec : EqDecision Node.
Proof. solve_decision. Defined.

Definition S_IFMT : Z := 61440.           (** 0o170000 *)
Definition S_IFDIR : Z := 16384.          (** 0o040000 *)
Definition S_IFSOCK : Z := 49152.         (** 0o140000 *)
Definition S_IFREG : Z := 32768.          (** 0o100000 *)
Definition S_ISVTX : Z := 512.            (** 0o1000 *)
Definition perm_bits : Z := 4095.         (** 0o7777 *)

Definition is_dir_mode (mode : Z) : bool := Z.land mode S_IFMT =? S_IFDIR.
Definition is_file_mode (mode : Z) : bool := Z.land mode S_IFMT =? S_IFREG.
Definition is_socket_mode (mode : Z) : bool := Z.land mode S_IFMT =? S_IFSOCK.

Record Fs : Type := mkFs { nodes : gmap FileIdentity Node; root : FileIdentity }.

Definition set_entries (es : gmap string FileIdentity) (n : Node) : Node :=
  mkNode (st_mode n) (st_uid n) (acl_access n) (acl_default n) es (link_to n).

Definition set_mode (mode : Z) (n : Node) : Node :=
  mkNode mode (st_uid n) (acl_access n) (acl_default n) (entries n) (link_to n).

Definition set_node (i : FileIdentity) (n : Node) (f : Fs) : Fs := mkFs (<[i := n]> (nodes f)) (root f).

(** ** Errors *)

Inductive Errno : Type := EEXIST | ENOENT | ENOTDIR | EISDIR | ENOTEMPTY | EBADF | ELOOP | EOTHER (code : Z).

Inductive ErrorKind : Type := AlreadyExists | NotFound | InvalidInput | Unsupported | AddrNotAvailable | Other.

Inductive IoError : Type :=
| OsError (e : Errno)
| CustomError (k : ErrorKind) (text : string).

(** [io::Error::kind]. *)
Definition error_kind (e : IoError) : ErrorKind :=
  match e with
  | OsError EEXIST => AlreadyExists
  | OsError ENOENT => NotFound
  | OsError _ => Other
  | CustomError k _ => k
  end.

Definition other (text : string) : IoError := CustomError Other text.

(** ** The process and its surroundings *)

(** What happens just before one call: others change the file system, and the
    call itself may be made to fail. *)
Record FsTurn : Type := mkFsTurn { foreign : Fs -> Fs; fault : option Errno }.

(** The effects of this process on names and modes. *)
Inductive Action : Type :=
| Created (dir : FileIdentity) (name : string) (i : FileIdentity)
| Moved (dir : FileIdentity) (name : string) (dir' : FileIdentity) (name' : string) (i : FileIdentity)
| Unlinked (dir : FileIdentity) (name : string) (i : FileIdentity)
| DirRemoved (dir : FileIdentity) (name : string) (i : FileIdentity)
| ModeSet (i : FileIdentity) (mode : Z).

Record Os : Type := mkOs {
  fs : Fs;
  turns : list FsTurn;
  entropy : list (option string);       (** what [rand_bytes] answers *)
  actions : list Action                 (** newest first *)
}.

Class Platform : Type := {
  euid : Z;                                         (** [geteuid()] *)
  umask : Z;
  realpath : Fs -> Path -> result (list string) Errno;      (** [fs::canonicalize] *)
  lstat : Fs -> Path -> result (FileIdentity * Node) Errno;  (** [fs::symlink_metadata] *)
  open_path : Fs -> list string -> result FileIdentity Errno; (** a canonical directory path *)
  st_size : Fs -> FileIdentity -> Z;                        (** as [fstat] reports it *)
  fresh_identity : Fs -> FileIdentity
}.

(** POSIX: an empty path does not resolve, the root does, and a new inode is
    none of the existing ones. *)
Class PlatformLaws `{Platform} : Prop := {
  realpath_empty f : realpath f [] = Err ENOENT;
  open_path_root f : open_path f [] = Ok (root f);
  fresh_identity_new f : nodes f !! fresh_identity f = None
}.

(** ** Calls on the file system alone *)

Section Calls.
Context `{Platform}.

Definition directory_entries (f : Fs) (d : FileIdentity) : result (gmap string FileIdentity) Errno :=
  match nodes f !! d with
  | Some n => if is_dir_mode (st_mode n) then Ok (entries n) else Err ENOTDIR
  | None => Err EBADF
  end.

Definition lookup_at (f : Fs) (d : FileIdentity) (name : string) : result FileIdentity Errno :=
  let? es := directory_entries f d in ok_or (es !! name) ENOENT.

(** [fstat] of an open descriptor. *)
Definition fstat_call (f : Fs) (i : FileIdentity) : result Node Errno := ok_or (nodes f !! i) EBADF.

(** [fstatat] with [SYMLINK_NOFOLLOW]. *)
Definition stat_call (f : Fs) (d : FileIdentity) (name : string) : result (FileIdentity * Node) Errno :=
  let? i := lookup_at f d name in
  let? n := ok_or (nodes f !! i) ENOENT in
  Ok (i, n).

(** [openat] with [DIRECTORY | NOFOLLOW]. *)
Definition open_dir_call (f : Fs) (d : FileIdentity) (name : string) : result FileIdentity Errno :=
  let? (i, n) := stat_call f d name in
  if is_dir_mode (st_mode n) then Ok i else Err (if is_some (link_to n) then ELOOP else ENOTDIR).

(** [openat] with [NOFOLLOW] alone. *)
Definition open_file_call (f : Fs) (d : FileIdentity) (name : string) : result FileIdentity Errno :=
  let? (i, n) := stat_call f d name in
  if is_some (link_to n) then Err ELOOP else Ok i.

(** A new entry [name] of [d] for the new node [n]. *)
Definition add_entry (f : Fs) (d : FileIdentity) (name : string) (n : Node) : result (FileIdentity * Fs) Errno :=
  match nodes f !! d with
  | None => Err EBADF
  | Some parent =>
      if negb (is_dir_mode (st_mode parent)) then Err ENOTDIR
      else if is_some (entries parent !! name) then Err EEXIST
      else
        let i := fresh_identity f in
        Ok (i, set_node d (set_entries (<[name := i]> (entries parent)) parent) (set_node i n f))
  end.

(** A node as it is created below [parent]: the umask applies, and a default ACL
    is inherited. *)
Definition new_node (f : Fs) (d : FileIdentity) (type mode : Z) : Node :=
  let acl := match nodes f !! d with Some p => acl_default p | None => XNoData end in
  mkNode (Z.lor type (Z.land mode (Z.lnot umask))) euid acl
    (if type =? S_IFDIR then acl else XNoData) ∅ None.

Definition mkdir_call (f : Fs) (d : FileIdentity) (name : string) (mode : Z) : result (FileIdentity * Fs) Errno :=
  add_entry f d name (new_node f d S_IFDIR mode).

(** [openat] with [CREATE | EXCL]. *)
Definition create_call (f : Fs) (d : FileIdentity) (name : string) (mode : Z) : result (FileIdentity * Fs) Errno :=
  add_entry f d name (new_node f d S_IFREG mode).

(** [bind] of a Unix socket address. *)
Definition bind_call (f : Fs) (d : FileIdentity) (name : string) : result (FileIdentity * Fs) Errno :=
  add_entry f d name (new_node f d S_IFSOCK 511).

(** [fchmodat] without flags: it follows a symbolic link. *)
Definition chmod_call (f : Fs) (d : FileIdentity) (name : string) (mode : Z) : result (FileIdentity * Fs) Errno :=
  let? (i, n) := stat_call f d name in
  let i' := default i (link_to n) in
  let? n' := ok_or (nodes f !! i') ENOENT in
  Ok (i', set_node i' (set_mode (Z.lor (Z.land (st_mode n') S_IFMT) (Z.land mode perm_bits)) n') f).

Definition remove_entry_call (f : Fs) (d : FileIdentity) (name : string) : Fs :=
  match nodes f !! d with
  | Some p => set_node d (set_entries (delete name (entries p)) p) f
  | None => f
  end.

Definition unlink_call (f : Fs) (d : FileIdentity) (name : string) : result (FileIdentity * Fs) Errno :=
  let? (i, n) := stat_call f d name in
  if is_dir_mode (st_mode n) then Err EISDIR else Ok (i, remove_entry_call f d name).

(** [unlinkat] with [REMOVEDIR]: only an empty directory. *)
Definition rmdir_call (f : Fs) (d : FileIdentity) (name : string) : result (FileIdentity * Fs) Errno :=
  let? (i, n) := stat_call f d name in
  if negb (is_dir_mode (st_mode n)) then Err ENOTDIR
  else if bool_decide (entries n = ∅) then Ok (i, remove_entry_call f d name) else Err ENOTEMPTY.

(** [renameat2] with [NOREPLACE]. *)
Definition rename_call (f : Fs) (d : FileIdentity) (name : string) (d' : FileIdentity) (name' : string) :
    result (FileIdentity * Fs) Errno :=
  let? i := lookup_at f d name in
  let? es := directory_entries f d' in
  if is_some (es !! name') then Err EEXIST
  else
    let f := remove_entry_call f d name in
    match nodes f !! d' with
    | Some p => Ok (i, set_node d' (set_entries (<[name' := i]> (entries p)) p) f)
    | None => Err EBADF
    end.

(** ** The monad *)

Definition Io (A : Type) : Type := Os -> result A IoError * Os.

Definition ret {A} (a : A) : Io A := fun o => (Ok a, o).
Definition throw {A} (e : IoError) : Io A := fun o => (Err e, o).
Definition bind {A B} (m : Io A) (k : A -> Io B) : Io B :=
  fun o => match m o with (Ok a, o) => k a o | (Err e, o) => (Err e, o) end.

(** The result as a value. *)
Definition attempt {A} (m : Io A) : Io (result A IoError) := fun o => let (r, o) := m o in (Ok r, o).

(** [m] under a guard whose drop runs [cleanup] when [m] leaves with an error
    (the guard is disarmed when it does not). *)
Definition guarded {A} (m : Io A) (cleanup : Io unit) : Io A :=
  fun o => match m o with
           | (Ok a, o) => (Ok a, o)
           | (Err e, o) => (Err e, (cleanup o).2)
           end.

(** A drop that runs however [m] ends. *)
Definition finally {A} (m : Io A) (cleanup : Io unit) : Io A :=
  fun o => let (r, o) := m o in (r, (cleanup o).2).

Definition require (b : bool) (text : string) : Io unit := if b then ret tt else throw (other text).

(** The state in which the next call runs, after what others did. *)
Definition disturbed (o : Os) : Os :=
  match turns o with
  | t :: rest => mkOs (foreign t (fs o)) rest (entropy o) (actions o)
  | [] => o
  end.

Definition next_fault (o : Os) : option Errno := match turns o with t :: _ => fault t | [] => None end.

(** A call that only looks. *)
Definition look {A} (call : Fs -> result A Errno) : Io A := fun o =>
  let o' := disturbed o in
  match next_fault o with
  | Some e => (Err (OsError e), o')
  | None => (map_err OsError (call (fs o')), o')
  end.

(** A call that changes the file system, logged. *)
Definition change (call : Fs -> result (FileIdentity * Fs) Errno) (log : FileIdentity -> Action) : Io FileIdentity := fun o =>
  let o' := disturbed o in
  match next_fault o with
  | Some e => (Err (OsError e), o')
  | None =>
      match call (fs o') with
      | Ok (i, f) => (Ok i, mkOs f (turns o') (entropy o') (log i :: actions o'))
      | Err e => (Err (OsError e), o')
      end
  end.

Definition fstat (i : FileIdentity) : Io Node := look (fun f => fstat_call f i).
Definition statat (d : FileIdentity) (name : string) : Io (FileIdentity * Node) := look (fun f => stat_call f d name).
Definition open_directory_root : Io FileIdentity := look (fun f => open_path f []).
Definition open_directory (names : list string) : Io FileIdentity := look (fun f => open_path f names).
Definition open_directory_at (d : FileIdentity) (name : string) : Io FileIdentity := look (fun f => open_dir_call f d name).
Definition canonicalize (p : Path) : Io (list string) := look (fun f => realpath f p).
Definition symlink_metadata (p : Path) : Io (FileIdentity * Node) := look (fun f => lstat f p).
(** [File::try_clone]: another descriptor of the same inode. *)
Definition try_clone (i : FileIdentity) : Io FileIdentity := look (fun _ => Ok i).
Definition mkdirat (d : FileIdentity) (name : string) (mode : Z) : Io FileIdentity :=
  change (fun f => mkdir_call f d name mode) (Created d name).
Definition createat (d : FileIdentity) (name : string) (mode : Z) : Io FileIdentity :=
  change (fun f => create_call f d name mode) (Created d name).
Definition bindat (d : FileIdentity) (name : string) : Io FileIdentity :=
  change (fun f => bind_call f d name) (Created d name).
Definition chmodat (d : FileIdentity) (name : string) (mode : Z) : Io FileIdentity :=
  change (fun f => chmod_call f d name mode) (fun i => ModeSet i mode).
Definition unlinkat (d : FileIdentity) (name : string) : Io FileIdentity :=
  change (fun f => unlink_call f d name) (Unlinked d name).
Definition rmdirat (d : FileIdentity) (name : string) : Io FileIdentity :=
  change (fun f => rmdir_call f d name) (DirRemoved d name).
Definition renameat_noreplace (d : FileIdentity) (name : string) (d' : FileIdentity) (name' : string) : Io FileIdentity :=
  change (fun f => rename_call f d name d' name') (Moved d name d' name').

(** [rand_bytes] of [n] bytes. *)
Definition rand_bytes (n : nat) : Io (option string) := fun o =>
  match entropy o with
  | b :: rest => (Ok (take_bytes n <$> b), mkOs (fs o) (turns o) rest (actions o))
  | [] => (Ok None, o)
  end.

End Calls.

Declare Scope io_scope.
Delimit Scope io_scope with io.
Open Scope io_scope.

Notation "'let*' x := e 'in' k" := (bind e (fun x => k))
  (at level 10, x pattern at level 0, e at level 150, k at level 200,
   format "'[hv' 'let*'  x  :=  e  'in'  '/' k ']'") : io_scope.
Notation "'do*' e 'in' k" := (bind e (fun _ => k))
  (at level 10, e at level 150, k at level 200, format "'[hv' 'do*'  e  'in'  '/' k ']'") : io_scope.

(** ** Reasoning about calls *)

(** Inversion of calls that returned. *)
Section Inversion.
Context `{Platform}.

Lemma bind_ok {A B} (m : Io A) (k : A -> Io B) o b o' :
  bind m k o = (Ok b, o') -> exists a o1, m o = (Ok a, o1) /\ k a o1 = (Ok b, o').
Proof. unfold bind. destruct (m o) as [[a|e] o1]; [eauto|done]. Qed.

Lemma attempt_ok {A} (m : Io A) o r o' : attempt m o = (Ok r, o') -> m o = (r, o').
Proof. unfold attempt. destruct (m o). by intros [= <- <-]. Qed.

Lemma guarded_ok {A} (m : Io A) c o a o' : guarded m c o = (Ok a, o') -> m o = (Ok a, o').
Proof. unfold guarded. by destruct (m o) as [[]]. Qed.

Lemma require_ok b text o u o' : require b text o = (Ok u, o') -> b = true /\ o' = o.
Proof. unfold require. destruct b; by intros [= ? <-]. Qed.

Lemma ret_ok {A} (a : A) o b o' : ret a o = (Ok b, o') -> b = a /\ o' = o.
Proof. by intros [= -> ->]. Qed.

Lemma look_ok {A} (call : Fs -> result A Errno) o a o' :
  look call o = (Ok a, o') -> o' = disturbed o /\ call (fs o') = Ok a.
Proof.
  unfold look. destruct (next_fault o); [done|]. destruct (call _) eqn:Hc; simpl; [|done]. by intros [= <- <-].
Qed.

Lemma change_ok call log o i o' :
  change call log o = (Ok i, o') ->
  exists f, call (fs (disturbed o)) = Ok (i, f) /\
    o' = mkOs f (turns (disturbed o)) (entropy (disturbed o)) (log i :: actions (disturbed o)).
Proof.
  unfold change. destruct (next_fault o); [done|]. destruct (call _) as [[j f]|] eqn:Hc; [|done].
  intros [= <- <-]. eauto.
Qed.

(** A call that failed changed nothing. *)
Lemma change_err call log o e o' : change call log o = (Err e, o') -> o' = disturbed o.
Proof.
  unfold change. destruct (next_fault o); [by intros [= _ <-]|]. destruct (call _) as [[]|]; by intros [= _ <-].
Qed.

Lemma disturbed_actions o : actions (disturbed o) = actions o.
Proof. unfold disturbed. by destruct (turns o). Qed.

(** *** What a computation logs, and that it only uses up turns *)

Definition framed {A} (allowed : Action -> Prop) (m : Io A) : Prop :=
  forall o, (exists l, actions (m o).2 = l ++ actions o /\ Forall allowed l) /\
            (exists k, turns (m o).2 = drop k (turns o)).

Lemma framed_disturbed (allowed : Action -> Prop) o :
  (exists l, actions (disturbed o) = l ++ actions o /\ Forall allowed l) /\
  (exists k, turns (disturbed o) = drop k (turns o)).
Proof.
  split; [exists []; by rewrite disturbed_actions|]. unfold disturbed. destruct (turns o) eqn:Ht.
  - exists 0%nat. by rewrite Ht.
  - by exists 1%nat.
Qed.

Lemma framed_ret {A} allowed (a : A) : framed allowed (ret a).
Proof. intros o. split; [by exists []|by exists 0%nat]. Qed.

Lemma framed_throw {A} allowed e : framed allowed (throw (A := A) e).
Proof. intros o. split; [by exists []|by exists 0%nat]. Qed.

Lemma framed_trans (allowed : Action -> Prop) (o o1 o2 : Os) :
  ((exists l, actions o1 = l ++ actions o /\ Forall allowed l) /\ (exists k, turns o1 = drop k (turns o))) ->
  ((exists l, actions o2 = l ++ actions o1 /\ Forall allowed l) /\ (exists k, turns o2 = drop k (turns o1))) ->
  (exists l, actions o2 = l ++ actions o /\ Forall allowed l) /\ (exists k, turns o2 = drop k (turns o)).
Proof.
  intros [(l1 & -> & H1) (k1 & ->)] [(l2 & -> & H2) (k2 & ->)]. split.
  - exists (l2 ++ l1). rewrite app_assoc. split; [done|]. by apply Forall_app.
  - exists (k1 + k2)%nat. by rewrite drop_drop.
Qed.

Lemma framed_bind {A B} allowed (m : Io A) (k : A -> Io B) :
  framed allowed m -> (forall a, framed allowed (k a)) -> framed allowed (bind m k).
Proof.
  intros Hm Hk o. specialize (Hm o). unfold bind. destruct (m o) as [[a|e] o1]; [|done].
  simpl in Hm. by apply (framed_trans allowed o o1), Hk.
Qed.

Lemma framed_attempt {A} allowed (m : Io A) : framed allowed m -> framed allowed (attempt m).
Proof. intros Hm o. specialize (Hm o). unfold attempt. by destruct (m o). Qed.

Lemma framed_guarded {A} allowed (m : Io A) c : framed allowed m -> framed allowed c -> framed allowed (guarded m c).
Proof.
  intros Hm Hc o. specialize (Hm o). unfold guarded. destruct (m o) as [[a|e] o1]; [done|].
  simpl in *. by apply (framed_trans allowed o o1), Hc.
Qed.

Lemma framed_finally {A} allowed (m : Io A) c : framed allowed m -> framed allowed c -> framed allowed (finally m c).
Proof.
  intros Hm Hc o. specialize (Hm o). unfold finally. destruct (m o) as [r o1]. simpl in *.
  by apply (framed_trans allowed o o1), Hc.
Qed.

Lemma framed_require allowed b text : framed allowed (require b text).
Proof. unfold require. destruct b; [apply framed_ret|apply framed_throw]. Qed.

Lemma framed_look {A} allowed (call : Fs -> result A Errno) : framed allowed (look call).
Proof. intros o. unfold look. destruct (next_fault o); apply framed_disturbed. Qed.

Lemma framed_change (allowed : Action -> Prop) call log :
  (forall i, allowed (log i)) -> framed allowed (change call log).
Proof.
  intros Hlog o. unfold change. destruct (framed_disturbed allowed o) as [(l & Hl & Hall) Ht].
  destruct (next_fault o); [by split; [exists l|]|]. destruct (call _) as [[i f]|]; simpl; (split; [|done]); [|by exists l].
  exists (log i :: l). rewrite Hl. split; [done|]. by constructor.
Qed.

Lemma framed_rand allowed n : framed allowed (rand_bytes n).
Proof. intros o. unfold rand_bytes. destruct (entropy o); (split; [by exists []|by exists 0%nat]). Qed.

Lemma framed_weaken {A} (P Q : Action -> Prop) (m : Io A) : (forall a, P a -> Q a) -> framed P m -> framed Q m.
Proof.
  intros HPQ Hm o. destruct (Hm o) as [(l & Hl & Hall) Ht]. split; [|done]. exists l. split; [done|].
  eapply Forall_impl; eauto.
Qed.

(** *** Computations during which only others act *)

Definition after_others : relation Os := rtc (fun o o' => o' = disturbed o).

Definition waits {A} (m : Io A) : Prop := forall o, after_others o (m o).2.

Lemma waits_ret {A} (a : A) : waits (ret a).
Proof. intros o. apply rtc_refl. Qed.

Lemma waits_throw {A} e : waits (throw (A := A) e).
Proof. intros o. apply rtc_refl. Qed.

Lemma waits_look {A} (call : Fs -> result A Errno) : waits (look call).
Proof. intros o. unfold look. destruct (next_fault o); by apply rtc_once. Qed.

Lemma waits_require b text : waits (require b text).
Proof. unfold require. destruct b; [apply waits_ret|apply waits_throw]. Qed.

Lemma waits_bind {A B} (m : Io A) (k : A -> Io B) : waits m -> (forall a, waits (k a)) -> waits (bind m k).
Proof.
  intros Hm Hk o. specialize (Hm o). unfold bind. destruct (m o) as [[a|e] o1]; simpl in *; [|done].
  etrans; [exact Hm|apply Hk].
Qed.

Lemma waits_run {A} (m : Io A) o r o' : waits m -> m o = (r, o') -> after_others o o'.
Proof. intros Hm Hr. specialize (Hm o). by rewrite Hr in Hm. Qed.

(** A moment of the run from [o] to [o']. *)
Definition moment (o o' : Os) (f : Fs) : Prop := exists o1, after_others o o1 /\ after_others o1 o' /\ fs o1 = f.

Lemma moment_weaken o o1 o2 o3 f : after_others o o1 -> after_others o2 o3 -> moment o1 o2 f -> moment o o3 f.
Proof. intros Hb He (x & Hx & Hy & Hf). exists x. split; [by etrans|]. split; [by etrans|done]. Qed.

Lemma moment_disturbed o o' : after_others (disturbed o) o' -> moment o o' (fs (disturbed o)).
Proof. intros Hx. exists (disturbed o). split; [by apply rtc_once|done]. Qed.

(** *** Running calls in a file system at rest *)

(** Nobody else acts and no call fails for reasons of its own: a turn is where
    others act and where a fault is injected, and there is none. *)
Definition quiet (o : Os) : Prop := turns o = [].

Lemma look_quiet {A} (call : Fs -> result A Errno) o : quiet o -> look call o = (map_err OsError (call (fs o)), o).
Proof. intros Hq. unfold look, disturbed, next_fault. by rewrite Hq. Qed.

Lemma bind_run {A B} (m : Io A) (k : A -> Io B) o a o1 : m o = (Ok a, o1) -> bind m k o = k a o1.
Proof. unfold bind. by intros ->. Qed.

Lemma bind_attempt {A B} (m : Io A) (k : result A IoError -> Io B) o r o1 : m o = (r, o1) -> bind (attempt m) k o = k r o1.
Proof. intros Hm. apply bind_run. unfold attempt. by rewrite Hm. Qed.

Lemma bind_require {B} b text (k : unit -> Io B) o : b = true -> bind (require b text) k o = k tt o.
Proof. by intros ->. Qed.

Lemma look_run {A} (call : Fs -> result A Errno) o a : quiet o -> call (fs o) = Ok a -> look call o = (Ok a, o).
Proof. intros Hq Hc. rewrite look_quiet, Hc by done. done. Qed.

Lemma change_run call log o i f :
  quiet o -> call (fs o) = Ok (i, f) -> change call log o = (Ok i, mkOs f [] (entropy o) (log i :: actions o)).
Proof. intros Hq Hc. unfold change, disturbed, next_fault. rewrite Hq, Hc. by rewrite Hq. Qed.

Lemma guarded_run {A} (m : Io A) c o a o1 : m o = (Ok a, o1) -> guarded m c o = (Ok a, o1).
Proof. unfold guarded. by intros ->. Qed.

(** A computation that only looks, and when it returns what. *)
Definition decides {A} (m : Io A) (P : Fs -> A -> Prop) : Prop :=
  forall o, quiet o -> (m o).2 = o /\ forall a, (m o).1 = Ok a <-> P (fs o) a.

Lemma decides_ret {A} (a : A) : decides (ret a) (fun _ b => b = a).
Proof. intros o _. split; [done|]. intros b. simpl. split; congruence. Qed.

Lemma decides_look {A} (call : Fs -> result A Errno) : decides (look call) (fun f a => call f = Ok a).
Proof.
  intros o Hq. rewrite (look_quiet _ _ Hq). split; [done|]. intros a. simpl. destruct (call (fs o)); simpl; split; congruence.
Qed.

Lemma decides_require b text : decides (require b text) (fun _ _ => b = true).
Proof. intros o _. unfold require. destruct b; (split; [done|]); intros []; simpl; split; done. Qed.

Lemma decides_bind {A B} (m : Io A) (k : A -> Io B) P Q :
  decides m P -> (forall a, decides (k a) (Q a)) -> decides (bind m k) (fun f b => exists a, P f a /\ Q a f b).
Proof.
  intros Hm Hk o Hq. destruct (Hm o Hq) as [Ho HP]. unfold bind. destruct (m o) as [[a|e] o1]; simpl in *; subst o1.
  - destruct (Hk a o Hq) as [Ho HQ]. split; [done|]. intros b. rewrite HQ. split.
    + intros Hb. exists a. split; [by apply HP|done].
    + intros (a' & Ha & Hb). apply HP in Ha. by injection Ha as ->.
  - split; [done|]. intros b. split; [done|]. intros (a & Ha & _). by apply HP in Ha.
Qed.

Lemma decides_equiv {A} (m : Io A) P Q : (forall f a, P f a <-> Q f a) -> decides m P -> decides m Q.
Proof. intros HPQ Hm o Hq. destruct (Hm o Hq) as [? HP]. split; [done|]. intros a. by rewrite HP. Qed.

Lemma decides_run {A} (m : Io A) P o a : decides m P -> quiet o -> P (fs o) a -> m o = (Ok a, o).
Proof. intros Hm Hq Ha. destruct (Hm o Hq) as [Ho HP]. apply HP in Ha. destruct (m o). simpl in *. by subst. Qed.

End Inversion.

Create HintDb framed discriminated.
#[export] Hint Resolve framed_ret framed_throw framed_require framed_look framed_rand : framed.

(** Peels a computation built from the combinators. *)
Ltac frame :=
  repeat first
    [ assumption | solve [auto with framed] | apply framed_ret | apply framed_throw | apply framed_require | apply framed_look | apply framed_rand
    | apply framed_bind; [|intros] | apply framed_attempt | apply framed_guarded | apply framed_finally
    | apply framed_change; intros; simpl; auto
    | match goal with |- framed _ (match ?x with _ => _ end) => destruct x end ].

Create HintDb waits discriminated.
#[export] Hint Resolve waits_ret waits_throw waits_require waits_look : waits.

Ltac wait :=
  repeat first
    [ solve [auto with waits] | apply waits_look | apply waits_bind; [|intros]
    | match goal with |- waits (match ?x with _ => _ end) => destruct x end ].

(** Inversion of a chain of calls that returned. *)
Ltac inv_io H :=
  repeat match type of H with
  | bind ?m ?k ?o = (Ok _, _) =>
      let a := fresh "a" in let o1 := fresh "o" in let E := fresh "E" in
      apply bind_ok in H as (a & o1 & E & H); cbv beta in H
  end.

(** The first call of a sequence, by [t]. *)
Ltac run t := erewrite bind_run by t; cbv beta iota.
Ltac run_require t := rewrite bind_require by t; cbv beta.

(** ** A platform to run examples on *)

(** User 1000 with umask 022, working in [/run]; paths resolve by walking the
    entries from the root. *)
Module SimplePlatform.

Fixpoint walk (f : Fs) (d : FileIdentity) (names : list string) : result FileIdentity Errno :=
  match names with
  | [] => Ok d
  | name :: names => let? i := lookup_at f d name in walk f i names
  end.

Fixpoint resolve_names (p : Path) (at_ : list string) : list string :=
  match p with
  | [] => at_
  | RootDir :: p => resolve_names p []
  | CurDir :: p => resolve_names p at_
  | ParentDir :: p => resolve_names p (removelast at_)
  | Normal name :: p => resolve_names p (at_ ++ [name])
  end.

Definition simple_realpath (f : Fs) (p : Path) : result (list string) Errno :=
  match p with
  | [] => Err ENOENT
  | _ => let names := resolve_names p ["run"] in let? _ := walk f (root f) names in Ok names
  end.

Definition simple_lstat (f : Fs) (p : Path) : result (FileIdentity * Node) Errno :=
  let? names := simple_realpath f p in
  let? i := walk f (root f) names in
  let? n := ok_or (nodes f !! i) ENOENT in
  Ok (i, n).

Definition highest (f : Fs) : Z := foldr (fun p m => Z.max (inode p.1) m) 0 (map_to_list (nodes f)).

#[export] Instance platform : Platform := {
  euid := 1000; umask := 18; realpath := simple_realpath; lstat := simple_lstat;
  open_path f names := walk f (root f) names; st_size _ i := 100 * inode i;
  fresh_identity f := mkIdentity 1 (highest f + 1)
}.

Lemma highest_bound f i n : nodes f !! i = Some n -> inode i <= highest f.
Proof.
  intros Hi%elem_of_map_to_list. unfold highest. induction (map_to_list (nodes f)) as [|p l IH]; [by apply elem_of_nil in Hi|].
  simpl. apply elem_of_cons in Hi as [<-|Hi]; simpl; [lia|]. specialize (IH Hi). lia.
Qed.

#[export] Instance platform_laws : PlatformLaws.
Proof.
  split; [done|done|]. intros f. destruct (nodes f !! _) as [n|] eqn:Hn; [|done]. apply highest_bound in Hn. simpl in Hn. lia.
Qed.

Definition slash_id : FileIdentity := mkIdentity 1 1.
Definition run_id : FileIdentity := mkIdentity 1 2.
Definition intruder_id : FileIdentity := mkIdentity 1 3.

(** [/run], which belongs to the user, with an unrelated file in it. *)
Definition slash_node : Node := mkNode (S_IFDIR + 493) 0 XNoData XNoData {["run" := run_id]} None.
Definition run_node : Node := mkNode (S_IFDIR + 493) 1000 XNoData XNoData {["other" := intruder_id]} None.
Definition intruder_node : Node := mkNode (S_IFREG + 420) 1000 XNoData XNoData ∅ None.

Definition start_fs : Fs :=
  mkFs (<[slash_id := slash_node]> (<[run_id := run_node]> (<[intruder_id := intruder_node]> ∅))) slash_id.

Definition start (ts : list FsTurn) : Os :=
  mkOs start_fs ts [Some "abcdefghijklmnop"; Some "qrstuvwxyzabcdef"; Some "0123456789abcdef"] [].

End SimplePlatform.
