(* ===== verification/PathOwnership.v ===== *)
(** * Ownership of public paths (src/path_ownership.rs, [PidFileGuard] of
      src/shutdown.rs)

    A public entry (a PID file, a Unix socket) is owned by its inode, never by
    its name: cleanup moves whatever the name holds into a private directory,
    removes it only when it is the owned inode, and otherwise moves it back.
    Parent directories are anchored by descriptors whose chain of ancestors is
    authenticated.  Every function runs against other processes that change the
    file system between any two calls ([FileSystem]); the parts for Windows and
    Apple systems are not modelled. *)

From S2P Require Import Prelude RustStr Percent FileSystem.

Definition QUARANTINE_ATTEMPTS : nat := 8.
Definition PRIVATE_CANDIDATE_NAME : string := "candidate".

(** ** Boundaries *)

Record BoundaryComponent : Type := mkComponent {
  comp_identity : FileIdentity;
  comp_name : option string;
  owner : Z;
  rename_authority : Z
}.

Record AuthenticatedBoundary : Type := mkBoundary {
  canonical_path : list string;
  components : list BoundaryComponent
}.

Record BoundaryAuthority : Type := mkAuthority { auth_owner : Z; auth_rename : Z }.

Section Ownership.
Context `{Platform}.

(** [FileIdentity::from_file]: the metadata of an open descriptor. *)
Definition from_file (file : FileIdentity) : Io FileIdentity :=
  do* fstat file in ret file.

Definition boundary_mode_is_safe (mode owner effective_uid : Z) : bool :=
  ((owner =? effective_uid) || (owner =? 0))
  && ((Z.land mode 18 =? 0) || negb (Z.land mode S_ISVTX =? 0)).

(** [posix_acl_xattr_error_is_definitively_absent] and the loop body around it. *)
Definition authenticate_xattr (directory : FileIdentity) (field : Node -> Xattr) : Io unit :=
  let* x := look (fun f => let? n := fstat_call f directory in Ok (field n)) in
  match x with
  | XPresent | XRange => throw (other "boundary directory has a POSIX ACL")
  | XNoData => ret tt
  | XOther => throw (OsError (EOTHER 95))
  end.

Definition authenticate_directory_acl (directory : FileIdentity) : Io unit :=
  do* authenticate_xattr directory acl_access in
  authenticate_xattr directory acl_default.

Definition authenticate_boundary_directory (directory : FileIdentity) : Io BoundaryAuthority :=
  let* metadata := fstat directory in
  let mode := st_mode metadata in
  do* require (is_dir_mode mode && boundary_mode_is_safe mode (st_uid metadata) euid)
        "boundary directory owner or rename authority is unsafe" in
  do* authenticate_directory_acl directory in
  ret (mkAuthority (st_uid metadata) (Z.land mode (Z.lor S_ISVTX 18))).

Definition authenticate_child_identity (parent : FileIdentity) (name : string) (identity : FileIdentity) : Io unit :=
  let* (i, n) := statat parent name in
  require (is_dir_mode (st_mode n) && bool_decide (i = identity)) "boundary path component identity changed".

(** The loop of [capture] over the names of the canonical path. *)
Fixpoint capture_loop (names : list string) (directory : FileIdentity) (components : list BoundaryComponent) :
    Io (list BoundaryComponent * FileIdentity) :=
  match names with
  | [] => ret (components, directory)
  | name :: names =>
      let* child := open_directory_at directory name in
      let* authority := authenticate_boundary_directory child in
      let* identity := from_file child in
      do* authenticate_child_identity directory name identity in
      capture_loop names child
        (components ++ [mkComponent identity (Some name) (auth_owner authority) (auth_rename authority)])
  end.

Definition capture (path : Path) : Io (AuthenticatedBoundary * FileIdentity) :=
  let* canonical := canonicalize path in
  let* directory := open_directory_root in
  let* authority := authenticate_boundary_directory directory in
  let* identity := from_file directory in
  let* (components, directory) := capture_loop canonical directory
    [mkComponent identity None (auth_owner authority) (auth_rename authority)] in
  ret (mkBoundary canonical components, directory).

(** The check of one directory against its component. *)
Definition authenticate_component (directory : FileIdentity) (component : BoundaryComponent) (text : string) : Io unit :=
  let* authority := authenticate_boundary_directory directory in
  let* identity := from_file directory in
  require (bool_decide (identity = comp_identity component) && (auth_owner authority =? owner component)
           && (auth_rename authority =? rename_authority component)) text.

Definition changed_text : string := "boundary component identity or authority changed".

(** The loop of [authenticate_prefix], from the index after the root on; a
    component without a name would be a panic. *)
Fixpoint prefix_loop (components : list BoundaryComponent) (directory : FileIdentity) : Io FileIdentity :=
  match components with
  | [] => ret directory
  | component :: components =>
      match comp_name component with
      | None => throw (other "non-root component name")
      | Some name =>
          let* child := open_directory_at directory name in
          do* authenticate_child_identity directory name (comp_identity component) in
          do* authenticate_component child component changed_text in
          prefix_loop components child
      end
  end.

Definition authenticate_prefix (b : AuthenticatedBoundary) (count : nat) : Io FileIdentity :=
  let* directory := open_directory_root in
  match take count (components b) with
  | [] => ret directory
  | component :: rest =>
      do* authenticate_component directory component changed_text in
      prefix_loop rest directory
  end.

Definition authenticate (b : AuthenticatedBoundary) : Io unit :=
  do* authenticate_prefix b (length (components b)) in ret tt.

Definition authenticate_ancestors (b : AuthenticatedBoundary) : Io unit :=
  do* authenticate_prefix b (length (components b) - 1) in ret tt.

(** [directory_identity] and [authenticate_retained] expect a root component. *)
Definition directory_identity (b : AuthenticatedBoundary) : option FileIdentity :=
  comp_identity <$> last (components b).

Definition authenticate_retained (b : AuthenticatedBoundary) (directory : FileIdentity) : Io unit :=
  match last (components b) with
  | None => throw (other "authenticated boundary has root")
  | Some expected =>
      authenticate_component directory expected "retained boundary descriptor identity or authority changed"
  end.

Definition authenticate_retained_with_ancestors (b : AuthenticatedBoundary) (directory : FileIdentity) : Io unit :=
  do* authenticate_ancestors b in authenticate_retained b directory.

Definition with_child (b : AuthenticatedBoundary) (name : string) (directory identity : FileIdentity) :
    Io AuthenticatedBoundary :=
  let* authority := authenticate_boundary_directory directory in
  let* i := from_file directory in
  do* require (bool_decide (i = identity)) "boundary child descriptor identity changed" in
  ret (mkBoundary (canonical_path b ++ [name])
         (components b ++ [mkComponent identity (Some name) (auth_owner authority) (auth_rename authority)])).

(** ** Private directories *)

(** [hex_suffix]: two lowercase digits per byte. *)
Definition lower_hex_digit (nibble : Z) : ascii := chr (if nibble <? 10 then 48 + nibble else 97 + nibble - 10).

Fixpoint hex_suffix (bytes : string) : string :=
  match bytes with
  | EmptyString => EmptyString
  | String b rest =>
      String (lower_hex_digit (Z.shiftr (code b) 4)) (String (lower_hex_digit (Z.land (code b) 15)) (hex_suffix rest))
  end.

Definition random_private_name : Io string :=
  let* random := rand_bytes 16 in
  match random with
  | Some bytes => ret (".chp-cleanup-" +:+ hex_suffix bytes)
  | None => throw (other "could not generate a private cleanup name")
  end.

Definition random_stage_name : Io string :=
  let* random := rand_bytes 10 in
  match random with
  | Some bytes => ret (".chp-stage-" +:+ hex_suffix bytes)
  | None => throw (other "could not generate a private publication name")
  end.

(** [Drop for PrivateNamespaceGuard], while armed. *)
Definition drop_namespace_guard (parent : FileIdentity) (boundary : AuthenticatedBoundary) (name : string)
    (identity : FileIdentity) : Io unit :=
  let* retained := attempt (authenticate_retained boundary parent) in
  match retained with
  | Err _ => ret tt
  | Ok _ =>
      let* stat := attempt (statat parent name) in
      match stat with
      | Ok (i, _) =>
          if bool_decide (i = identity) then do* attempt (rmdirat parent name) in ret tt else ret tt
      | Err _ => ret tt
      end
  end.

(** A directory of the process alone, as far as its provisional check goes. *)
Definition provisional_private (n : Node) : bool :=
  is_dir_mode (st_mode n) && (st_uid n =? euid) && (Z.land (Z.land (st_mode n) perm_bits) (Z.lnot 448) =? 0).

(** Exactly mode 0700. *)
Definition normalized_private (n : Node) : bool :=
  is_dir_mode (st_mode n) && (st_uid n =? euid) && (Z.land (st_mode n) perm_bits =? 448).

(** [Drop for ProvisionalPrivateDirectoryGuard], while armed. *)
Definition drop_provisional_guard (parent : FileIdentity) (boundary : AuthenticatedBoundary) (name : string) : Io unit :=
  let* retained := attempt (authenticate_retained boundary parent) in
  match retained with
  | Err _ => ret tt
  | Ok _ =>
      let* stat := attempt (statat parent name) in
      match stat with
      | Ok (_, n) => if provisional_private n then do* attempt (rmdirat parent name) in ret tt else ret tt
      | Err _ => ret tt
      end
  end.

Inductive PrivateDirectoryCreationStage : Type := StageOpen | StageInitialStat | StageChmod | StageIdentity.

(** The part of [create_authenticated_private_directory] under the identity
    guard; [inject] is its [fault] argument. *)
Definition normalize_private_directory (parent : FileIdentity) (name : string) (identity : FileIdentity)
    (inject : PrivateDirectoryCreationStage -> Io unit) : Io (FileIdentity * FileIdentity) :=
  do* inject StageInitialStat in
  do* inject StageChmod in
  do* chmodat parent name 448 in
  let* (i, n) := statat parent name in
  do* require (bool_decide (i = identity) && normalized_private n)
        "private directory failed normalized identity authentication" in
  do* inject StageIdentity in
  let* directory := open_directory_at parent name in
  let* opened := fstat directory in
  do* require (bool_decide (directory = identity) && normalized_private opened)
        "opened private directory failed identity authentication" in
  do* authenticate_directory_acl directory in
  ret (directory, identity).

Definition create_authenticated_private_directory (parent : FileIdentity) (boundary : AuthenticatedBoundary)
    (name : string) (preserve_on_open_fault : bool) (inject : PrivateDirectoryCreationStage -> Io unit) :
    Io (FileIdentity * FileIdentity) :=
  do* mkdirat parent name 448 in
  let drop_provisional := drop_provisional_guard parent boundary name in
  do* guarded (inject StageOpen) (if preserve_on_open_fault then ret tt else drop_provisional) in
  let* identity := guarded
    (let* (i, initial) := statat parent name in
     do* require (provisional_private initial)
           "private directory failed provisional type, owner, or mode authentication" in
     ret i) drop_provisional in
  guarded (normalize_private_directory parent name identity inject)
    (drop_namespace_guard parent boundary name identity).

Record AnchoredDirectory : Type := mkAnchored {
  anchor : FileIdentity;
  anchor_path : list string;
  anchor_boundary : AuthenticatedBoundary
}.

Record PrivateDirectory : Type := mkPrivate {
  pd_parent : FileIdentity;
  pd_parent_path : list string;
  pd_parent_boundary : AuthenticatedBoundary;
  pd_name : string;
  pd_directory : FileIdentity;
  pd_identity : FileIdentity;
  pd_active : bool
}.

Definition capture_anchor (parent : Path) : Io AnchoredDirectory :=
  let* (boundary, directory) := capture parent in
  ret (mkAnchored directory (canonical_path boundary) boundary).

Fixpoint create_private_loop (a : AnchoredDirectory) (inject : PrivateDirectoryCreationStage -> Io unit)
    (attempts : nat) : Io PrivateDirectory :=
  match attempts with
  | O => throw (CustomError AlreadyExists "could not reserve a private publication directory")
  | S attempts =>
      let* name := random_stage_name in
      let* made := attempt (create_authenticated_private_directory (anchor a) (anchor_boundary a) name false inject) in
      match made with
      | Ok (directory, private_identity) =>
          let* parent := guarded (try_clone (anchor a))
            (drop_namespace_guard (anchor a) (anchor_boundary a) name private_identity) in
          ret (mkPrivate parent (anchor_path a) (anchor_boundary a) name directory private_identity true)
      | Err e =>
          match error_kind e with
          | AlreadyExists => create_private_loop a inject attempts
          | _ => throw e
          end
      end
  end.

(** Of the four stages the publication hook sees two. *)
Definition publication_stages (inject : PrivateDirectoryCreationStage -> Io unit)
    (stage : PrivateDirectoryCreationStage) : Io unit :=
  match stage with
  | StageOpen | StageIdentity => inject stage
  | StageInitialStat | StageChmod => ret tt
  end.

Definition create_private_directory_with_fault (a : AnchoredDirectory)
    (inject : PrivateDirectoryCreationStage -> Io unit) : Io PrivateDirectory :=
  do* authenticate_retained_with_ancestors (anchor_boundary a) (anchor a) in
  create_private_loop a (publication_stages inject) QUARANTINE_ATTEMPTS.

Definition create_private_directory (a : AnchoredDirectory) : Io PrivateDirectory :=
  create_private_directory_with_fault a (fun _ => ret tt).

(** [Drop for PrivateDirectory]. *)
Definition drop_private_directory (d : PrivateDirectory) : Io unit :=
  if negb (pd_active d) then ret tt
  else
    let* retained := attempt (authenticate_retained (pd_parent_boundary d) (pd_parent d)) in
    match retained with
    | Err _ => ret tt
    | Ok _ =>
        let* stat := attempt (statat (pd_parent d) (pd_name d)) in
        match stat with
        | Ok (i, n) =>
            if bool_decide (i = pd_identity d) && is_dir_mode (st_mode n)
            then do* attempt (rmdirat (pd_parent d) (pd_name d)) in ret tt else ret tt
        | Err _ => ret tt
        end
    end.

(** [stable_directory_path]: on Linux the path of the descriptor; it is the
    inode that later calls resolve to. *)
Definition stable_directory_path (directory : FileIdentity) : FileIdentity := directory.

Definition stable_path (d : PrivateDirectory) : Io FileIdentity :=
  do* authenticate_retained_with_ancestors (pd_parent_boundary d) (pd_parent d) in
  let path := stable_directory_path (pd_directory d) in
  do* authenticate_retained_with_ancestors (pd_parent_boundary d) (pd_parent d) in
  ret path.

(** ** Owned entries *)

Record OwnedPath : Type := mkOwned {
  public_path : Path;
  owned_identity : FileIdentity;
  active : bool;
  directory : FileIdentity;
  directory_path : list string;
  public_name : string;
  boundary : AuthenticatedBoundary
}.

Definition set_active (b : bool) (o : OwnedPath) : OwnedPath :=
  mkOwned (public_path o) (owned_identity o) b (directory o) (directory_path o) (public_name o) (boundary o).

Definition own_entry (d : PrivateDirectory) (name : string) : Io OwnedPath :=
  let* (i, _) := statat (pd_directory d) name in
  let* directory := try_clone (pd_directory d) in
  let* boundary := with_child (pd_parent_boundary d) (pd_name d) (pd_directory d) (pd_identity d) in
  let path := pd_parent_path d ++ [pd_name d] in
  ret (mkOwned (absolute (path ++ [name])) i true directory path name boundary).

Definition remove_entry (d : PrivateDirectory) (name : string) : Io unit :=
  do* attempt (unlinkat (pd_directory d) name) in ret tt.

Definition verify_owned_socket (o : OwnedPath) (mode : option Z) : Io unit :=
  let* (i, n) := statat (directory o) (public_name o) in
  require (bool_decide (i = owned_identity o) && is_socket_mode (st_mode n)
           && is_none_or (fun mode => Z.land (st_mode n) 511 =? mode) mode)
    "owned Unix socket identity changed".

Definition prepare_socket (d : PrivateDirectory) (o : OwnedPath) (mode : Z) (after_verify : Io unit) : Io unit :=
  let* i := from_file (directory o) in
  do* require (bool_decide (i = pd_identity d)) "socket is not owned by the private publication directory" in
  do* verify_owned_socket o None in
  do* after_verify in
  do* chmodat (directory o) (public_name o) mode in
  verify_owned_socket o (Some mode).

(** The parent a path is captured under. *)
Definition parent_or_dot (path : Path) : Path := default [CurDir] (parent path).

Definition create_new_file (path : Path) : Io (FileIdentity * OwnedPath) :=
  match file_name path with
  | None => throw (CustomError InvalidInput "owned path has no file name")
  | Some name =>
      let* (boundary, directory) := capture (parent_or_dot path) in
      do* authenticate_retained_with_ancestors boundary directory in
      let* file := createat directory name 438 in
      let* i := from_file file in
      ret (file, mkOwned path i true directory (canonical_path boundary) name boundary)
  end.

Definition stable_entry_path (o : OwnedPath) : Io (FileIdentity * string) :=
  do* authenticate_retained_with_ancestors (boundary o) (directory o) in
  let path := (stable_directory_path (directory o), public_name o) in
  do* authenticate_retained_with_ancestors (boundary o) (directory o) in
  ret path.

Definition configured_entry_matches (o : OwnedPath) : Io bool :=
  let* authenticated := attempt (authenticate (boundary o)) in
  match authenticated with
  | Err _ => ret false
  | Ok _ =>
      let* reopened_path := canonicalize (parent_or_dot (public_path o)) in
      let* reopened := open_directory reopened_path in
      let* i := from_file reopened in
      if negb (bool_decide (Some i = directory_identity (boundary o))) then ret false
      else
        let* i := from_file reopened in
        let* own := from_file (directory o) in
        if negb (bool_decide (i = own)) then ret false
        else
          let* (entry, _) := statat reopened (public_name o) in
          ret (bool_decide (entry = owned_identity o))
  end.

Definition publish_into (o : OwnedPath) (destination : AnchoredDirectory) (path : Path) (name : string) : Io OwnedPath :=
  do* authenticate_retained_with_ancestors (anchor_boundary destination) (anchor destination) in
  let* directory' := try_clone (anchor destination) in
  do* renameat_noreplace (directory o) (public_name o) (anchor destination) name in
  ret (mkOwned path (owned_identity o) (active o) directory' (anchor_path destination) name (anchor_boundary destination)).

(** ** Cleanup *)

Record UnixQuarantine : Type := mkQuarantine {
  q_name : string;
  q_directory : FileIdentity;
  q_identity : FileIdentity
}.

Fixpoint quarantine_loop (o : OwnedPath) (inject : PrivateDirectoryCreationStage -> Io unit)
    (before_rename : Io unit) (attempts : nat) : Io (option UnixQuarantine) :=
  match attempts with
  | O => throw (CustomError AlreadyExists "could not reserve a private cleanup quarantine")
  | S attempts =>
      let* name := random_private_name in
      let* made := attempt (create_authenticated_private_directory (directory o) (boundary o) name true inject) in
      match made with
      | Ok (private_directory, private_identity) =>
          let drop_guard := drop_namespace_guard (directory o) (boundary o) name private_identity in
          do* guarded before_rename drop_guard in
          let* result := attempt (renameat_noreplace (directory o) (public_name o) private_directory PRIVATE_CANDIDATE_NAME) in
          match result with
          | Ok _ => ret (Some (mkQuarantine name private_directory private_identity))
          | Err e =>
              do* drop_guard in
              match error_kind e with NotFound => ret None | _ => throw e end
          end
      | Err e =>
          match error_kind e with
          | AlreadyExists => quarantine_loop o inject before_rename attempts
          | _ => throw e
          end
      end
  end.

Definition quarantine_entry_with_fault (o : OwnedPath) (inject : PrivateDirectoryCreationStage -> Io unit)
    (before_rename : Io unit) : Io (option UnixQuarantine) :=
  do* authenticate_retained (boundary o) (directory o) in
  quarantine_loop o inject before_rename QUARANTINE_ATTEMPTS.

Definition quarantine_entry (o : OwnedPath) : Io (option UnixQuarantine) :=
  quarantine_entry_with_fault o (fun _ => ret tt) (ret tt).

Definition quarantine_matches (o : OwnedPath) (q : UnixQuarantine) : Io bool :=
  let* stat := attempt (statat (q_directory q) PRIVATE_CANDIDATE_NAME) in
  match stat with
  | Ok (i, _) => ret (bool_decide (i = owned_identity o))
  | Err _ => ret false
  end.

Definition remove_private_directory (o : OwnedPath) (q : UnixQuarantine) : Io unit :=
  let* (i, _) := statat (directory o) (q_name q) in
  do* require (bool_decide (i = q_identity q)) "private cleanup namespace was replaced; preserving replacement" in
  do* rmdirat (directory o) (q_name q) in ret tt.

Definition remove_quarantine (o : OwnedPath) (q : UnixQuarantine) : Io unit :=
  do* unlinkat (q_directory q) PRIVATE_CANDIDATE_NAME in
  remove_private_directory o q.

Definition restore_quarantine (o : OwnedPath) (q : UnixQuarantine) : Io unit :=
  do* renameat_noreplace (q_directory q) PRIVATE_CANDIDATE_NAME (directory o) (public_name o) in
  remove_private_directory o q.

(** [cleanup_with_hooks]: the path of a quarantine left behind, and the owner,
    inactive from now on.  The hooks are steps of the surroundings. *)
Definition cleanup_with_hooks (before_quarantine after_verify before_restore : Io unit) (o : OwnedPath) :
    Io (option (list string) * OwnedPath) :=
  if negb (active o) then ret (None, o)
  else
    let o := set_active false o in
    do* before_quarantine in
    let* quarantined := attempt (quarantine_entry o) in
    match quarantined with
    | Err _ | Ok None => ret (None, o)
    | Ok (Some q) =>
        let quarantine_path := directory_path o ++ [q_name q; PRIVATE_CANDIDATE_NAME] in
        let* matches := quarantine_matches o q in
        if matches : bool then
          do* after_verify in
          let* removed := attempt (remove_quarantine o q) in
          match removed with
          | Ok _ => ret (None, o)
          | Err _ => ret (Some quarantine_path, o)
          end
        else
          do* before_restore in
          let* restored := attempt (restore_quarantine o q) in
          match restored with
          | Ok _ => ret (None, o)
          | Err _ => ret (Some quarantine_path, o)
          end
    end.

Definition cleanup : OwnedPath -> Io (option (list string) * OwnedPath) :=
  cleanup_with_hooks (ret tt) (ret tt) (ret tt).

(** ** The PID file ([PidFileGuard] of shutdown.rs) *)

Record PidFileGuard : Type := mkPidFile { pid_owned : OwnedPath; pid_file : FileIdentity }.

Inductive PidFileError : Type := PidCreate (e : IoError) | PidWrite (e : IoError).

(** A write or a [sync_data] on an open file. *)
Definition write_file (file : FileIdentity) : Io unit := do* look (fun f => fstat_call f file) in ret tt.

(** The guard's drop: the path owner goes first, while the file is still open. *)
Definition drop_pid_file (g : PidFileGuard) : Io unit := do* cleanup (pid_owned g) in ret tt.

(** [acquire]: when writing fails the guard is dropped. *)
Definition acquire (path : Path) (o : Os) : result PidFileGuard PidFileError * Os :=
  match create_new_file path o with
  | (Err e, o) => (Err (PidCreate e), o)
  | (Ok (file, owned), o) =>
      let g := mkPidFile owned file in
      match guarded (do* write_file file in write_file file) (drop_pid_file g) o with
      | (Ok _, o) => (Ok g, o)
      | (Err e, o) => (Err (PidWrite e), o)
      end
  end.

(** ** What the process may do to names *)

(** Only this process changes a directory that belongs to it with mode 0700. *)
Definition respects_private (t : FsTurn) : Prop :=
  forall f i n, nodes f !! i = Some n -> normalized_private n = true -> nodes (foreign t f) !! i = Some n.

Definition calm (o : Os) : Prop := Forall respects_private (turns o).

Definition private_at (f : Fs) (i : FileIdentity) (n : Node) : Prop :=
  nodes f !! i = Some n /\ normalized_private n = true.

(** Actions that move and unlink nothing. *)
Definition unmoving (a : Action) : Prop :=
  match a with Moved _ _ _ _ _ | Unlinked _ _ _ => False | _ => True end.

Lemma calm_framed {A} P (m : Io A) o : framed P m -> calm o -> calm (m o).2.
Proof. intros Hm Ho. destruct (Hm o) as [_ (k & Hk)]. unfold calm. rewrite Hk. by apply Forall_drop. Qed.

Lemma calm_after {A} P (m : Io A) o r o' : framed P m -> calm o -> m o = (r, o') -> calm o'.
Proof. intros Hm Ho Hr. apply (calm_framed P m o) in Ho; [|done]. by rewrite Hr in Ho. Qed.

Lemma calm_disturbed o : calm o -> calm (disturbed o).
Proof. unfold calm, disturbed. destruct (turns o) eqn:Ht; simpl; [by rewrite Ht|]. by intros [_ ?]%Forall_cons. Qed.

Lemma disturbed_private o i n : calm o -> private_at (fs o) i n -> private_at (fs (disturbed o)) i n.
Proof.
  unfold calm, disturbed. destruct (turns o); [done|]. intros [Ht _]%Forall_cons [Hn Hp]. split; [by apply Ht|done].
Qed.

(** The log grew by actions that satisfy [P]. *)
Definition trail (P : Action -> Prop) (o o' : Os) : Prop :=
  exists l, actions o' = l ++ actions o /\ Forall P l.






(** *** Frames *)

Lemma framed_acl P d : framed P (authenticate_directory_acl d).
Proof. unfold authenticate_directory_acl, authenticate_xattr. frame. Qed.

Lemma framed_boundary P d : framed P (authenticate_boundary_directory d).
Proof. unfold authenticate_boundary_directory, fstat. pose proof (framed_acl P d). frame. Qed.

Lemma framed_component P d c t : framed P (authenticate_component d c t).
Proof. unfold authenticate_component, from_file, fstat. pose proof (framed_boundary P d). frame. Qed.

Lemma framed_retained P b d : framed P (authenticate_retained b d).
Proof. unfold authenticate_retained. destruct (last _); [apply framed_component|apply framed_throw]. Qed.

Lemma framed_prefix_loop P cs d : framed P (prefix_loop cs d).
Proof.
  revert d. induction cs as [|c cs IH]; intros d; cbn [prefix_loop]; [apply framed_ret|].
  destruct (comp_name c); [|apply framed_throw]. unfold open_directory_at, authenticate_child_identity, statat.
  apply framed_bind; [apply framed_look|]. intros child. apply framed_bind; [frame|]. intros _.
  apply framed_bind; [apply framed_component|]. intros _. apply IH.
Qed.

Lemma framed_ancestors P b d : framed P (authenticate_retained_with_ancestors b d).
Proof.
  unfold authenticate_retained_with_ancestors, authenticate_ancestors, authenticate_prefix, open_directory_root.
  apply framed_bind; [|intros _; apply framed_retained]. apply framed_bind; [|intros; apply framed_ret].
  apply framed_bind; [apply framed_look|]. intros r. destruct (take _ _) as [|c cs]; [apply framed_ret|].
  apply framed_bind; [apply framed_component|]. intros _. apply framed_prefix_loop.
Qed.

Lemma framed_drop_namespace d b name i : framed unmoving (drop_namespace_guard d b name i).
Proof. unfold drop_namespace_guard, statat, rmdirat. pose proof (framed_retained unmoving b d). frame. Qed.

Lemma framed_drop_provisional d b name : framed unmoving (drop_provisional_guard d b name).
Proof. unfold drop_provisional_guard, statat, rmdirat. pose proof (framed_retained unmoving b d). frame. Qed.

Lemma framed_create d b name p : framed unmoving (create_authenticated_private_directory d b name p (fun _ => ret tt)).
Proof.
  unfold create_authenticated_private_directory, normalize_private_directory, mkdirat, statat, chmodat, open_directory_at, fstat.
  pose proof (framed_drop_provisional d b name). pose proof (framed_drop_namespace d b name).
  pose proof (framed_acl unmoving). frame.
Qed.

#[local] Hint Resolve framed_acl framed_boundary framed_component framed_retained framed_ancestors
  framed_drop_namespace framed_drop_provisional framed_create : framed.


Lemma framed_random_stage P : framed P random_stage_name.
Proof. unfold random_stage_name. frame. Qed.

Lemma framed_capture_loop P names d cs : framed P (capture_loop names d cs).
Proof.
  revert d cs. induction names as [|name names IH]; intros d cs; cbn [capture_loop]; [apply framed_ret|].
  unfold open_directory_at, from_file, authenticate_child_identity, fstat, statat. frame.
Qed.

Lemma framed_capture_anchor P path : framed P (capture_anchor path).
Proof.
  unfold capture_anchor, capture, canonicalize, open_directory_root, from_file, fstat.
  pose proof (framed_capture_loop P). frame.
Qed.

Lemma waits_component d c t : waits (authenticate_component d c t).
Proof.
  unfold authenticate_component, authenticate_boundary_directory, authenticate_directory_acl, authenticate_xattr, from_file, fstat.
  wait.
Qed.

Lemma waits_ancestors b d : waits (authenticate_retained_with_ancestors b d).
Proof.
  unfold authenticate_retained_with_ancestors, authenticate_ancestors, authenticate_prefix, open_directory_root.
  apply waits_bind; [apply waits_bind; [apply waits_bind; [apply waits_look|]|intros; apply waits_ret]|].
  - intros r. destruct (take _ _) as [|c cs]; [apply waits_ret|]. apply waits_bind; [apply waits_component|]. intros _. revert r.
    induction cs as [|c1 cs IH]; intros r; cbn [prefix_loop]; [apply waits_ret|]. destruct (comp_name c1); [|apply waits_throw].
    apply waits_bind; [apply waits_look|]. intros child. apply waits_bind; [unfold authenticate_child_identity, statat; wait|].
    intros _. apply waits_bind; [apply waits_component|]. intros _. apply IH.
  - intros _. unfold authenticate_retained. destruct (last _); [apply waits_component|apply waits_throw].
Qed.

(** *** Private directories *)

(** One attribute, read from a private directory. *)
Lemma xattr_ok d field o u o' n :
  calm o -> private_at (fs o) d n -> authenticate_xattr d field o = (Ok u, o') ->
  private_at (fs o') d n /\ calm o' /\ field n = XNoData.
Proof.
  intros Hc Hp Ha. unfold authenticate_xattr in Ha. apply bind_ok in Ha as (x & o1 & Hx & Ha).
  apply look_ok in Hx as [-> Hx]. destruct (disturbed_private o d n Hc Hp) as [Hn Hpr].
  unfold fstat_call in Hx. rewrite Hn in Hx. injection Hx as <-. destruct (field n); try done.
  apply ret_ok in Ha as [_ ->]. split_and!; try done. by apply calm_disturbed.
Qed.

Lemma acl_ok d o u o' n :
  calm o -> private_at (fs o) d n -> authenticate_directory_acl d o = (Ok u, o') ->
  private_at (fs o') d n /\ calm o' /\ acl_access n = XNoData /\ acl_default n = XNoData.
Proof.
  intros Hc Hp Ha. unfold authenticate_directory_acl in Ha. apply bind_ok in Ha as (x & o1 & Hx & Ha).
  apply (xattr_ok _ _ _ _ _ n) in Hx as (Hp1 & Hc1 & Hacc); [|done|done].
  apply (xattr_ok _ _ _ _ _ n) in Ha as (Hp2 & Hc2 & Hdef); [|done|done]. done.
Qed.

(** A created private directory belongs to the process alone, with mode 0700 and
    without ACLs, whatever others did meanwhile. *)
Lemma create_private_ok d b name preserve o i j o' :
  calm o -> create_authenticated_private_directory d b name preserve (fun _ => ret tt) o = (Ok (i, j), o') ->
  i = j /\ calm o' /\ exists n, private_at (fs o') i n /\ acl_access n = XNoData /\ acl_default n = XNoData.
Proof.
  intros Hc Hok. unfold create_authenticated_private_directory in Hok.
  apply bind_ok in Hok as (x1 & o1 & H1 & Hok). apply bind_ok in Hok as (x2 & o2 & H2 & Hok).
  apply bind_ok in Hok as (k & o3 & H3 & Hok). apply guarded_ok in Hok.
  assert (Hc3 : calm o3).
  { eapply (calm_after unmoving); [|eapply (calm_after unmoving); [|eapply (calm_after unmoving); [|exact Hc|exact H1]|exact H2]|exact H3].
    - unfold statat. frame.
    - frame.
    - apply framed_change. done. }
  unfold normalize_private_directory in Hok.
  apply bind_ok in Hok as (? & o4 & [_ ->]%ret_ok & Hok). apply bind_ok in Hok as (? & o5 & [_ ->]%ret_ok & Hok).
  apply bind_ok in Hok as (x6 & o6 & H6 & Hok).
  assert (Hc6 : calm o6) by (eapply (calm_after unmoving); [|exact Hc3|exact H6]; by apply framed_change).
  apply bind_ok in Hok as ([k' nk] & o7 & H7 & Hok). apply look_ok in H7 as [-> _].
  apply bind_ok in Hok as (? & o8 & [_ ->]%require_ok & Hok). apply bind_ok in Hok as (? & o9 & [_ ->]%ret_ok & Hok).
  apply bind_ok in Hok as (dir & o10 & H10 & Hok). apply look_ok in H10 as [-> _].
  apply bind_ok in Hok as (opened & o11 & H11 & Hok). apply look_ok in H11 as [-> H11].
  apply bind_ok in Hok as (? & o12 & [Hreq ->]%require_ok & Hok). apply bind_ok in Hok as (? & o13 & Hacl & Hok).
  apply ret_ok in Hok as [[= -> ->] ->]. apply andb_true_iff in Hreq as [->%bool_decide_eq_true Hpr].
  unfold fstat_call in H11. apply ok_or_Ok in H11. split; [done|].
  apply (acl_ok _ _ _ _ opened) in Hacl as (Hp & Hc' & Hacc & Hdef); [eauto| |done].
  by repeat apply calm_disturbed.
Qed.

(** *** The quarantine *)

Lemma set_entries_private es n : normalized_private (set_entries es n) = normalized_private n.
Proof. done. Qed.



(** The directory [i] was made and opened under [name] in [d] between [o] and [o']. *)
Definition made_under (d : FileIdentity) (name : string) (i : FileIdentity) (o o' : Os) : Prop :=
  (exists k l, actions o' = l ++ actions o /\ Created d name k ∈ l) /\
  exists o1, trail unmoving o o1 /\ trail unmoving o1 o' /\ open_dir_call (fs o1) d name = Ok i.



(** What a quarantine attempt leaves: the moved entry in a private directory made
    under the quarantine's name, or nothing moved at all. *)
Definition quarantined (p : OwnedPath) (o : Os) (out : result (option UnixQuarantine) IoError * Os) : Prop :=
  match out.1 with
  | Ok (Some q) => exists i o1 n, (trail unmoving o o1 /\ made_under (directory p) (q_name q) (q_directory q) o o1) /\
      actions out.2 = Moved (directory p) (public_name p) (q_directory q) PRIVATE_CANDIDATE_NAME i :: actions o1 /\
      calm out.2 /\ private_at (fs out.2) (q_directory q) n /\ entries n !! PRIVATE_CANDIDATE_NAME = Some i
  | _ => trail unmoving o out.2
  end.




(** *** Cleanup *)










(** *** Publication directories *)

Lemma create_private_loop_ok a attempts o d o' :
  calm o -> create_private_loop a (publication_stages (fun _ => ret tt)) attempts o = (Ok d, o') ->
  pd_directory d = pd_identity d /\ calm o' /\
  exists n, private_at (fs o') (pd_directory d) n /\ acl_access n = XNoData /\ acl_default n = XNoData.
Proof.
  assert (Hstages : forall st, publication_stages (fun _ => ret tt) st = ret tt) by by intros [].
  revert o. induction attempts as [|attempts IH]; intros o Hc Hok; [done|]. cbn [create_private_loop] in Hok.
  apply bind_ok in Hok as (name & o1 & Hname & Hok).
  assert (Hc1 : calm o1) by (by eapply (calm_after unmoving); [apply framed_random_stage|exact Hc|exact Hname]).
  apply bind_ok in Hok as (made & o2 & Hmade%attempt_ok & Hok).
  assert (Heq : create_authenticated_private_directory (anchor a) (anchor_boundary a) name false (publication_stages (fun _ => ret tt)) o1
    = create_authenticated_private_directory (anchor a) (anchor_boundary a) name false (fun _ => ret tt) o1).
  { unfold create_authenticated_private_directory, normalize_private_directory. by rewrite !Hstages. }
  rewrite Heq in Hmade. destruct made as [[dir i]|e].
  - apply create_private_ok in Hmade as (-> & Hc2 & n & Hp & Hacl); [|done].
    apply bind_ok in Hok as (parent & o3 & Hcl%guarded_ok & Hok). apply look_ok in Hcl as [-> _].
    apply ret_ok in Hok as [-> ->]. split; [done|]. split; [by apply calm_disturbed|]. exists n.
    split; [by apply disturbed_private|done].
  - assert (Hc2 : calm o2) by (by eapply (calm_after unmoving); [apply framed_create|exact Hc1|exact Hmade]).
    destruct (error_kind e); try done. by apply (IH o2).
Qed.

Lemma create_private_directory_ok a o d o' :
  calm o -> create_private_directory a o = (Ok d, o') ->
  pd_directory d = pd_identity d /\ calm o' /\
  exists n, private_at (fs o') (pd_directory d) n /\ acl_access n = XNoData /\ acl_default n = XNoData.
Proof.
  intros Hc Hok. unfold create_private_directory, create_private_directory_with_fault in Hok.
  apply bind_ok in Hok as (u & o1 & Hau & Hok). eapply create_private_loop_ok; [|exact Hok].
  by eapply (calm_after unmoving); [apply framed_ancestors|exact Hc|exact Hau].
Qed.

(** ** Authentication in a file system at rest *)

(** A directory fit for a boundary. *)
Definition safe_directory (n : Node) : Prop :=
  is_dir_mode (st_mode n) = true /\ boundary_mode_is_safe (st_mode n) (st_uid n) euid = true /\
  acl_access n = XNoData /\ acl_default n = XNoData.

Lemma decides_xattr d field : decides (authenticate_xattr d field) (fun f _ => exists n, nodes f !! d = Some n /\ field n = XNoData).
Proof.
  unfold authenticate_xattr.
  eapply decides_equiv; [|apply (decides_bind _ _ (fun f x => (let? n := fstat_call f d in Ok (field n)) = Ok x) (fun x _ _ => x = XNoData)); [apply decides_look|]].
  2: { intros x o _. destruct x; (split; [done|]); intros []; split; done. }
  intros f u. simpl. unfold fstat_call. split.
  - intros (x & Hx & ->). destruct (nodes f !! d) as [n|]; [|done]. injection Hx as Hx. eauto.
  - intros (n & -> & Hn). exists XNoData. simpl. by rewrite Hn.
Qed.

Lemma decides_boundary d :
  decides (authenticate_boundary_directory d) (fun f a => exists n, nodes f !! d = Some n /\ safe_directory n /\
    a = mkAuthority (st_uid n) (Z.land (st_mode n) (Z.lor S_ISVTX 18))).
Proof.
  unfold authenticate_boundary_directory, authenticate_directory_acl. eapply decides_equiv.
  2: { apply decides_bind; [apply decides_look|]. intros n. apply decides_bind; [apply decides_require|]. intros ?.
       apply decides_bind; [apply decides_bind; [apply decides_xattr|intros ?; apply decides_xattr]|]. intros ?. apply decides_ret. }
  intros f a. simpl. unfold fstat_call. split.
  - intros (n & Hn%ok_or_Ok & u & Hreq & u' & (_ & (n1 & Hn1 & H1) & n2 & Hn2 & H2) & ->).
    rewrite Hn in Hn1, Hn2. simplify_eq. apply andb_true_iff in Hreq as [? ?]. exists n1. by split_and!.
  - intros (n & Hn & (Hd & Hs & Ha & Hdef) & ->). exists n. rewrite Hn. split; [done|]. exists tt. rewrite Hd, Hs. split; [done|].
    exists tt. split; [|done]. exists tt. by split; exists n.
Qed.

(** A directory that is still what a component recorded. *)
Definition component_holds (f : Fs) (c : BoundaryComponent) (i : FileIdentity) : Prop :=
  i = comp_identity c /\ exists n, nodes f !! i = Some n /\ safe_directory n /\
    st_uid n = owner c /\ Z.land (st_mode n) (Z.lor S_ISVTX 18) = rename_authority c.

Lemma decides_component d c text : decides (authenticate_component d c text) (fun f _ => component_holds f c d).
Proof.
  unfold authenticate_component, from_file. eapply decides_equiv.
  2: { apply decides_bind; [apply decides_boundary|]. intros a. apply decides_bind; [apply decides_bind; [apply decides_look|]|].
       - intros ?. apply decides_ret.
       - intros i. apply decides_require. }
  intros f u. simpl. unfold component_holds. split.
  - intros (a & (n & Hn & Hs & ->) & i & (_ & _ & ->) & Hreq). simpl in Hreq. bool_simp.
    match goal with Hx : bool_decide _ = true |- _ => apply bool_decide_eq_true in Hx end. split; [done|]. exists n. by split_and!.
  - intros (-> & n & Hn & Hs & Ho & Hr). eexists. split; [by exists n|]. exists (comp_identity c). split.
    + exists n. unfold fstat_call. by rewrite Hn.
    + simpl. rewrite Ho, Hr, !Z.eqb_refl, bool_decide_true by done. done.
Qed.

(** The directories along recorded components, from [d] to [d']. *)
Fixpoint chain_from (f : Fs) (d : FileIdentity) (cs : list BoundaryComponent) (d' : FileIdentity) : Prop :=
  match cs with
  | [] => d' = d
  | c :: cs => exists name child, comp_name c = Some name /\ lookup_at f d name = Ok child /\
      component_holds f c child /\ chain_from f child cs d'
  end.

(** The recorded path, from the root down. *)
Definition chain (f : Fs) (cs : list BoundaryComponent) (d : FileIdentity) : Prop :=
  match cs with
  | [] => d = root f
  | c :: cs => component_holds f c (root f) /\ chain_from f (root f) cs d
  end.

Lemma open_dir_lookup f d name i :
  open_dir_call f d name = Ok i <-> lookup_at f d name = Ok i /\ exists n, nodes f !! i = Some n /\ is_dir_mode (st_mode n) = true.
Proof.
  unfold open_dir_call, stat_call. destruct (lookup_at f d name) as [j|]; [|split; [done|by intros [? _]]].
  destruct (nodes f !! j) as [n|] eqn:Hn; simpl.
  - destruct (is_dir_mode (st_mode n)) eqn:Hd.
    + split; [intros [= <-]; eauto|by intros [[= <-] _]].
    + split; [done|]. intros [[= <-] (n' & Hn' & ?)]. congruence.
  - split; [done|]. intros [[= <-] (n' & Hn' & ?)]. congruence.
Qed.

Lemma decides_child_identity d name i :
  decides (authenticate_child_identity d name i) (fun f _ => lookup_at f d name = Ok i /\
    exists n, nodes f !! i = Some n /\ is_dir_mode (st_mode n) = true).
Proof.
  unfold authenticate_child_identity. eapply decides_equiv; [|apply (decides_bind _ _ (fun f p => stat_call f d name = Ok p)
    (fun p _ _ => is_dir_mode (st_mode p.2) && bool_decide (p.1 = i) = true)); [apply decides_look|]].
  2: { intros [j n]. apply decides_require. }
  intros f u. simpl. unfold stat_call. split.
  - intros ([j n] & Hs & Hb). destruct (lookup_at f d name) as [k|]; [|done]. destruct (nodes f !! k) as [m|] eqn:Hm; [|done].
    simpl in Hs. simplify_eq. simpl in Hb. apply andb_true_iff in Hb as [? Hb]. apply bool_decide_eq_true in Hb as ->. eauto.
  - intros [-> (n & Hn & Hd)]. exists (i, n). simpl. rewrite Hn, Hd, bool_decide_true by done. done.
Qed.

Lemma decides_prefix_loop cs d : decides (prefix_loop cs d) (fun f d' => chain_from f d cs d').
Proof.
  revert d. induction cs as [|c cs IH]; intros d; cbn [prefix_loop chain_from]; [apply decides_ret|].
  destruct (comp_name c) as [name|].
  2: { intros o _. split; [done|]. intros a. simpl. split; [done|]. by intros (? & ? & ? & _). }
  eapply decides_equiv.
  2: { apply decides_bind; [apply decides_look|]. intros child. apply decides_bind; [apply decides_child_identity|]. intros ?.
       apply decides_bind; [apply decides_component|]. intros ?. apply IH. }
  intros f d'. simpl. split.
  - intros (child & Ho & _ & _ & _ & Hc & Hch). apply open_dir_lookup in Ho as [Hl _]. by exists name, child.
  - intros (? & child & [= <-] & Hl & Hc & Hch). exists child. pose proof Hc as (-> & n & Hn & (Hd & _) & _).
    rewrite open_dir_lookup. split; [by split; [done|exists n]|]. exists tt. split; [by split; [done|exists n]|]. by exists tt.
Qed.

Lemma decides_prefix `{!PlatformLaws} b count :
  decides (authenticate_prefix b count) (fun f d => chain f (take count (components b)) d).
Proof.
  unfold authenticate_prefix, open_directory_root. eapply decides_equiv.
  2: { apply (decides_bind _ _ (fun f r => open_path f [] = Ok r) (fun r f d => match take count (components b) with
         | [] => d = r | c :: cs => component_holds f c r /\ chain_from f r cs d end)); [apply decides_look|].
       intros r. destruct (take count (components b)) as [|c cs]; [apply decides_ret|].
       eapply decides_equiv; [|apply decides_bind; [apply decides_component|intros ?; apply decides_prefix_loop]].
       intros f d. simpl. split; [by intros (_ & ?)|]. intros ?. by exists tt. }
  intros f d. simpl. rewrite open_path_root. unfold chain. split; [by intros (r & [= <-] & ?)|]. by exists (root f).
Qed.

Lemma decides_from_file d : decides (from_file d) (fun f i => i = d /\ is_Some (nodes f !! d)).
Proof.
  unfold from_file. eapply decides_equiv; [|apply decides_bind; [apply decides_look|intros ?; apply decides_ret]].
  intros f i. simpl. unfold fstat_call. split.
  - intros (n & Hn%ok_or_Ok & ->). eauto.
  - intros [-> [n Hn]]. exists n. by rewrite Hn.
Qed.

Lemma decides_capture_loop names d cs0 :
  decides (capture_loop names d cs0) (fun f out => exists cs, out.1 = cs0 ++ cs /\ chain_from f d cs out.2 /\
    map comp_name cs = map Some names).
Proof.
  revert d cs0. induction names as [|name names IH]; intros d cs0; cbn [capture_loop].
  - eapply decides_equiv; [|apply decides_ret]. intros f [cs d']. simpl. split.
    + intros [= -> ->]. exists []. by rewrite app_nil_r.
    + intros ([|] & -> & Hd & Hn); [|done]. simpl in Hd. by rewrite Hd, app_nil_r.
  - eapply decides_equiv.
    2: { apply decides_bind; [apply decides_look|]. intros child. apply decides_bind; [apply decides_boundary|]. intros a.
         apply decides_bind; [apply decides_from_file|]. intros i. apply decides_bind; [apply decides_child_identity|].
         intros ?. apply IH. }
    intros f [cs d']. simpl. split.
    + intros (child & Ho & a & (n & Hn & Hs & ->) & i & [-> _] & _ & _ & cs' & -> & Hch & Hnames).
      apply open_dir_lookup in Ho as [Hl _]. eexists (_ :: cs'). rewrite <- app_assoc. split; [done|]. simpl. rewrite Hnames.
      split; [|done]. exists name, child. split_and!; try done. split; [done|]. by exists n.
    + intros ([|c cs'] & -> & Hch & Hnames); [done|]. simpl in Hch, Hnames. injection Hnames as Hname Hnames.
      destruct Hch as (name' & child & Hname' & Hl & (Hi & n & Hn & Hs & Ho & Hr) & Hch).
      rewrite Hname in Hname'. injection Hname' as <-.
      assert (Hd : is_dir_mode (st_mode n) = true) by apply Hs.
      exists child. split; [apply open_dir_lookup; by split; [|exists n]|]. eexists. split; [by exists n|]. exists child.
      split; [by split; [|exists n]|]. exists tt. split; [by split; [|exists n]|]. exists cs'. split; [|done].
      rewrite <- app_assoc. simpl. rewrite Hi, Ho, Hr, <- Hname. by destruct c.
Qed.

(** What a captured boundary says of the file system. *)
Definition boundary_of (f : Fs) (path : Path) (b : AuthenticatedBoundary) (d : FileIdentity) : Prop :=
  realpath f path = Ok (canonical_path b) /\
  map comp_name (components b) = None :: map Some (canonical_path b) /\
  chain f (components b) d.

Lemma decides_capture `{!PlatformLaws} path : decides (capture path) (fun f out => boundary_of f path out.1 out.2).
Proof.
  unfold capture. eapply decides_equiv.
  2: { apply decides_bind; [apply decides_look|]. intros names. apply decides_bind; [apply decides_look|]. intros r.
       apply decides_bind; [apply decides_boundary|]. intros a. apply decides_bind; [apply decides_from_file|]. intros i.
       eapply (decides_bind _ _ _ (fun p _ out => out = (mkBoundary names p.1, p.2))); [apply decides_capture_loop|].
       intros [cs d]. apply decides_ret. }
  intros f [[names cs] d]. unfold boundary_of. simpl. setoid_rewrite open_path_root. split.
  - intros (names' & Hp & r & [= <-] & a & (n & Hn & Hs & ->) & i & [-> _] & [cs' d'] & (cs1 & Hcs & Hch & Hnames) & [= -> -> ->]).
    simpl in Hcs, Hch. subst cs'. simpl. rewrite Hnames. split_and!; try done. split; [done|]. by exists n.
  - intros (Hp & Hnames & Hch). destruct cs as [|c cs]; [done|]. simpl in *. injection Hnames as Hname Hnames.
    destruct Hch as [(Hi & n & Hn & Hs & Ho & Hr) Hch]. exists names. split; [done|]. exists (root f). split; [done|].
    eexists. split; [by exists n|]. exists (root f). split; [by split; [|exists n]|]. exists (c :: cs, d). simpl.
    split; [|done]. exists cs. split; [|done]. rewrite Ho, Hr, Hi, <- Hname. by destruct c.
Qed.

Lemma chain_last f cs c d : chain f (cs ++ [c]) d -> component_holds f c d.
Proof.
  destruct cs as [|c0 cs]; simpl; [by intros [? ->]|]. intros [_ Hch]. revert Hch. generalize (root f).
  induction cs as [|c1 cs IH]; intros d0; simpl.
  - by intros (name & child & _ & _ & Hc & ->).
  - intros (name & child & _ & _ & _ & Hch). by apply (IH child).
Qed.

(** *** Authentication while others act *)

(** The directory [i] was found safe, with this owner and rename authority, by
    three observations at times [now]. *)
Definition found_safe (now : Fs -> Prop) (i : FileIdentity) (uid authority : Z) : Prop :=
  (exists f n, now f /\ nodes f !! i = Some n /\ is_dir_mode (st_mode n) = true /\
     boundary_mode_is_safe (st_mode n) (st_uid n) euid = true /\
     st_uid n = uid /\ Z.land (st_mode n) (Z.lor S_ISVTX 18) = authority) /\
  (exists f n, now f /\ nodes f !! i = Some n /\ acl_access n = XNoData) /\
  (exists f n, now f /\ nodes f !! i = Some n /\ acl_default n = XNoData).

(** A way down recorded components between two states: each directory was opened
    by its name in the one before it; after that, with others free to act in
    between, the name was seen to lead to it still; and it is the recorded inode,
    found safe with the recorded owner and authority. *)
Inductive walked : Os -> FileIdentity -> list BoundaryComponent -> FileIdentity -> Os -> Prop :=
| walked_nil o d : walked o d [] d o
| walked_cons o o1 o2 o3 o' d c cs name child d' :
    after_others o o1 -> comp_name c = Some name -> open_dir_call (fs o1) d name = Ok child ->
    after_others (disturbed o1) o2 -> lookup_at (fs o2) d name = Ok child -> after_others o2 o3 ->
    child = comp_identity c -> found_safe (moment o1 o3) child (owner c) (rename_authority c) ->
    walked o3 child cs d' o' -> walked o d (c :: cs) d' o'.

(** The same from the root. *)
Definition walked_down (o : Os) (cs : list BoundaryComponent) (d : FileIdentity) (o' : Os) : Prop :=
  exists o1 o2, after_others o o1 /\ after_others o1 o2 /\
    match cs with
    | [] => d = root (fs o1) /\ o' = o1
    | c :: cs => root (fs o1) = comp_identity c /\
        found_safe (moment o1 o2) (root (fs o1)) (owner c) (rename_authority c) /\ walked o2 (root (fs o1)) cs d o'
    end.

Lemma found_safe_mono (P Q : Fs -> Prop) i u a : (forall f, P f -> Q f) -> found_safe P i u a -> found_safe Q i u a.
Proof. intros HPQ [(f & n & Hf & Hr) [(f' & n' & Hf' & Hr') (f'' & n'' & Hf'' & Hr'')]]. split_and!; eauto 10. Qed.

Lemma others_act o : after_others o (disturbed o).
Proof. by apply rtc_once. Qed.

Lemma others_shift o o' : after_others o o' -> after_others (disturbed o) (disturbed o').
Proof. induction 1 as [|x y z -> _ IH]; [apply rtc_refl|]. eapply rtc_l; [done|exact IH]. Qed.

Lemma xattr_seen d field o u o' :
  authenticate_xattr d field o = (Ok u, o') -> o' = disturbed o /\ exists n, nodes (fs o') !! d = Some n /\ field n = XNoData.
Proof.
  unfold authenticate_xattr. intros (x & o1 & Hl & Hx)%bind_ok. apply look_ok in Hl as [-> Hf]. unfold fstat_call in Hf.
  destruct (nodes (fs (disturbed o)) !! d) as [n|] eqn:Hn; [|done]. injection Hf as Hf.
  destruct x; try done. apply ret_ok in Hx as [_ ->]. eauto.
Qed.

Lemma boundary_seen d o a o' :
  authenticate_boundary_directory d o = (Ok a, o') ->
  after_others o o' /\ found_safe (moment o o') d (auth_owner a) (auth_rename a).
Proof.
  intros Hok. unfold authenticate_boundary_directory, authenticate_directory_acl in Hok.
  apply bind_ok in Hok as (n & o1 & Hf & Hok). apply look_ok in Hf as [-> Hn%ok_or_Ok].
  apply bind_ok in Hok as (? & o2 & [Hs ->]%require_ok & Hok). apply andb_true_iff in Hs as [Hd Hs].
  apply bind_ok in Hok as (? & o3 & Hacl & Hok). apply ret_ok in Hok as [-> ->].
  apply bind_ok in Hacl as (? & o4 & (-> & n1 & Hn1 & Hx)%xattr_seen & (-> & n2 & Hn2 & Hy)%xattr_seen).
  pose proof (others_act o). pose proof (others_act (disturbed o)). pose proof (others_act (disturbed (disturbed o))).
  split; [do 2 (etrans; [done|]); done|]. split_and!.
  - eexists _, n. split; [apply moment_disturbed; by etrans|done].
  - eexists _, n1. split; [|done]. eexists. split; [by etrans|]. by split.
  - eexists _, n2. split; [|done]. eexists. split; [do 2 (etrans; [done|]); done|]. by split; [apply rtc_refl|].
Qed.

Lemma from_file_seen d o i o' : from_file d o = (Ok i, o') -> i = d /\ o' = disturbed o.
Proof. unfold from_file. intros (n & o1 & Hl & Hr)%bind_ok. apply look_ok in Hl as [-> _]. by apply ret_ok in Hr as [-> ->]. Qed.

Lemma component_seen d c text o u o' :
  authenticate_component d c text o = (Ok u, o') ->
  after_others o o' /\ d = comp_identity c /\ found_safe (moment o o') d (owner c) (rename_authority c).
Proof.
  intros Hok. unfold authenticate_component in Hok. apply bind_ok in Hok as (a & o1 & [Ha Hs]%boundary_seen & Hok).
  apply bind_ok in Hok as (i & o2 & [-> ->]%from_file_seen & [Hreq ->]%require_ok).
  rewrite !andb_true_iff in Hreq. destruct Hreq as [[Hi%bool_decide_eq_true Ho%Z.eqb_eq] Hr%Z.eqb_eq].
  pose proof (others_act o1). split; [by etrans|]. split; [done|]. rewrite <- Ho, <- Hr.
  eapply found_safe_mono; [|exact Hs]. intros f. by apply moment_weaken; [apply rtc_refl|].
Qed.

Lemma child_seen d name i o u o' :
  authenticate_child_identity d name i o = (Ok u, o') -> o' = disturbed o /\ lookup_at (fs o') d name = Ok i.
Proof.
  unfold authenticate_child_identity. intros ([j n] & o1 & Hl & Hq)%bind_ok. apply look_ok in Hl as [-> Hs].
  apply require_ok in Hq as [Hreq ->]. split; [done|].
  apply andb_true_iff in Hreq as [_ ->%bool_decide_eq_true]. unfold stat_call in Hs.
  destruct (lookup_at _ _ _) as [k|]; [|done]. destruct (nodes _ !! k); [|done]. by injection Hs as ->.
Qed.

Lemma prefix_walked cs d o d' o' : prefix_loop cs d o = (Ok d', o') -> walked o d cs d' o'.
Proof.
  revert d o. induction cs as [|c cs IH]; intros d o Hok; cbn [prefix_loop] in Hok.
  { apply ret_ok in Hok as [-> ->]. constructor. }
  destruct (comp_name c) as [name|] eqn:Hname; [|done].
  apply bind_ok in Hok as (child & o1 & [-> Hopen]%look_ok & Hok). apply bind_ok in Hok as (? & o2 & [-> Hlook]%child_seen & Hok).
  apply bind_ok in Hok as (? & o3 & (Ha & Hi & Hs)%component_seen & Hok).
  pose proof (others_act o). pose proof (others_act (disturbed o)).
  eapply (walked_cons o (disturbed o) (disturbed (disturbed o)) o3); [done|done|exact Hopen|apply rtc_refl|by rewrite Hi|done|done| |by apply IH].
  eapply found_safe_mono; [|exact Hs]. intros f. by apply moment_weaken; [|apply rtc_refl].
Qed.

Lemma capture_walked names d cs0 o out o' :
  capture_loop names d cs0 o = (Ok out, o') ->
  exists cs, out.1 = cs0 ++ cs /\ map comp_name cs = map Some names /\ walked o d cs out.2 o'.
Proof.
  revert d cs0 o. induction names as [|name names IH]; intros d cs0 o Hok; cbn [capture_loop] in Hok.
  { apply ret_ok in Hok as [-> ->]. exists []. rewrite app_nil_r. split_and!; [done|done|constructor]. }
  apply bind_ok in Hok as (child & o1 & [-> Hopen]%look_ok & Hok). apply bind_ok in Hok as (a & o2 & [Ha Hs]%boundary_seen & Hok).
  apply bind_ok in Hok as (i & o3 & [-> ->]%from_file_seen & Hok). apply bind_ok in Hok as (? & o4 & [-> Hlook]%child_seen & Hok).
  apply IH in Hok as (cs & Hcs & Hnames & Hw). rewrite <- app_assoc in Hcs. eexists. split; [exact Hcs|]. simpl. rewrite Hnames.
  split; [done|]. pose proof (others_act o). pose proof (others_act o2). pose proof (others_act (disturbed o2)).
  eapply (walked_cons o (disturbed o) (disturbed (disturbed o2)) (disturbed (disturbed o2))); [done|done|exact Hopen| |exact Hlook|apply rtc_refl|done| |exact Hw].
  - etrans; [by apply others_shift|done].
  - eapply found_safe_mono; [|exact Hs]. intros f. apply moment_weaken; [apply rtc_refl|by etrans].
Qed.

Lemma prefix_walked_down `{!PlatformLaws} b count o d o' :
  authenticate_prefix b count o = (Ok d, o') -> walked_down o (take count (components b)) d o'.
Proof.
  unfold authenticate_prefix, open_directory_root. intros (r & o1 & Hl & Hok)%bind_ok. apply look_ok in Hl as [-> Hr].
  rewrite open_path_root in Hr. injection Hr as <-. exists (disturbed o). destruct (take count (components b)) as [|c cs].
  - apply ret_ok in Hok as [-> ->]. exists (disturbed o). split_and!; [apply others_act|apply rtc_refl|done|done].
  - apply bind_ok in Hok as (? & o2 & (Ha & Hi & Hs)%component_seen & Hok%prefix_walked). exists o2.
    split_and!; [apply others_act|done|done|done|done].
Qed.

(** What [capture] saw: the canonical path of the name, and then each directory of it. *)
Definition captured (o : Os) (path : Path) (b : AuthenticatedBoundary) (d : FileIdentity) (o' : Os) : Prop :=
  exists o1, after_others o o1 /\ realpath (fs o1) path = Ok (canonical_path b) /\
    map comp_name (components b) = None :: map Some (canonical_path b) /\ walked_down o1 (components b) d o'.

Lemma capture_seen `{!PlatformLaws} path o b d o' : capture path o = (Ok (b, d), o') -> captured o path b d o'.
Proof.
  unfold capture, canonicalize, open_directory_root. intros (names & o1 & Hl & Hok)%bind_ok. apply look_ok in Hl as [-> Hp].
  apply bind_ok in Hok as (r & o2 & Hl & Hok). apply look_ok in Hl as [-> Hr]. rewrite open_path_root in Hr. injection Hr as <-.
  apply bind_ok in Hok as (a & o3 & [Ha Hs]%boundary_seen & Hok). apply bind_ok in Hok as (i & o4 & [-> ->]%from_file_seen & Hok).
  apply bind_ok in Hok as ([cs d'] & o5 & (cs' & Hcs & Hnames & Hw)%capture_walked & Hok). apply ret_ok in Hok as [[= -> ->] ->].
  simpl in Hcs, Hw. subst cs. exists (disturbed o). split; [apply others_act|]. simpl. rewrite Hnames. split_and!; [done|done|].
  exists (disturbed (disturbed o)), (disturbed o3). pose proof (others_act o3).
  split_and!; [apply others_act|by etrans|done| |done].
  eapply found_safe_mono; [|exact Hs]. intros f. by apply moment_weaken; [apply rtc_refl|].
Qed.

(** C25: whatever other processes do and whichever calls fail meanwhile, when
    anchoring a directory succeeds, or checking a recorded path again, then at
    moments of that very call each directory on the way from the root was opened
    by its name in the one before, the name was seen to lead to it again after
    that, and it belonged to the process or to root, could not be renamed in by
    others and carried no ACL, all as recorded.  In a file system at rest, where
    nobody else acts and no call fails, both succeed exactly when that is so, and
    neither changes anything. *)
Theorem boundary_authentication_is_exact `{!PlatformLaws} path b o :
  (forall b' d, (capture path o).1 = Ok (b', d) -> captured o path b' d (capture path o).2) /\
  ((authenticate b o).1 = Ok tt -> exists d, walked_down o (components b) d (authenticate b o).2) /\
  (quiet o ->
     (capture path o).2 = o /\ (authenticate b o).2 = o /\
     (forall b' d, (capture path o).1 = Ok (b', d) <-> boundary_of (fs o) path b' d) /\
     ((authenticate b o).1 = Ok tt <-> exists d, chain (fs o) (components b) d) /\
     (forall d, (capture path o).1 = Ok (b, d) -> (authenticate b o).1 = Ok tt /\ (authenticate_retained b d o).1 = Ok tt)).
Proof.
  split_and!.
  { intros b' d Hok. apply capture_seen. by rewrite <- Hok, <- surjective_pairing. }
  { intros Hok. destruct (authenticate b o) as [r o'] eqn:Ha. simpl in Hok. subst r. unfold authenticate in Ha.
    apply bind_ok in Ha as (d & o1 & Hd%prefix_walked_down & Ha). apply ret_ok in Ha as [_ ->].
    rewrite firstn_all in Hd. by exists d. }
  intros Hq. destruct (decides_capture path o Hq) as [Hc2 Hc].
  assert (Ha : decides (authenticate b) (fun f _ => exists d, chain f (components b) d)).
  { unfold authenticate. eapply decides_equiv; [|apply decides_bind; [apply decides_prefix|intros d; apply decides_ret]].
    intros f []. simpl. rewrite firstn_all. split; [intros (d & ? & _); eauto|intros [d ?]; exists d; by split]. }
  destruct (Ha o Hq) as [Ha2 Ha1]. split_and!; [done|done|intros b' d; apply (Hc (b', d))|apply (Ha1 tt)|].
  intros d Hd. apply Hc in Hd as (Hp & Hn & Hch). simpl in Hn, Hch. split; [apply Ha1; by exists d|]. unfold authenticate_retained.
  destruct (exists_last (l := components b)) as (cs & c & Hcs); [by intros Hnil; rewrite Hnil in Hn|].
  rewrite Hcs in Hch. rewrite Hcs, last_snoc.
  apply (decides_component d c _ o Hq). by eapply chain_last.
Qed.

(** A configured path that is a bare file name has the empty path as its
    parent, not the current directory, and the empty path never resolves: such
    a path is refused before anything is created, whatever the state of the
    file system. *)
Theorem bare_names_are_refused `{!PlatformLaws} name o :
  (exists e, (create_new_file [Normal name] o).1 = Err e /\ actions (create_new_file [Normal name] o).2 = actions o) /\
  (quiet o -> acquire [Normal name] o = (Err (PidCreate (OsError ENOENT)), o)).
Proof.
  assert (Hf : create_new_file [Normal name] o =
    (Err (match next_fault o with Some e => OsError e | None => OsError ENOENT end), disturbed o)).
  { unfold create_new_file, parent_or_dot, capture, canonicalize. cbn [file_name parent last removelast default].
    unfold bind at 1, bind at 1, look. rewrite realpath_empty. by destruct (next_fault o). }
  split.
  - eexists. rewrite Hf. split; [done|]. apply disturbed_actions.
  - intros Hq. unfold acquire. rewrite Hf. unfold next_fault, disturbed. by rewrite Hq.
Qed.

(** ** Cleanup in a file system at rest *)

(** A private directory as the process makes it. *)
Definition private_node : Node := mkNode (Z.lor S_IFDIR 448) euid XNoData XNoData ∅ None.

Lemma normalized_private_node es : normalized_private (set_entries es private_node) = true.
Proof. unfold normalized_private. simpl. by rewrite Z.eqb_refl. Qed.

Lemma masked_mode x : Z.land (Z.lor S_IFDIR (Z.land 448 x)) S_IFMT = S_IFDIR /\
  Z.land (Z.land (Z.lor S_IFDIR (Z.land 448 x)) perm_bits) (Z.lnot 448) = 0.
Proof.
  rewrite (Z.land_comm 448 x). split.
  - rewrite Z.land_lor_distr_l, <- Z.land_assoc. by rewrite Z.land_0_r.
  - rewrite !Z.land_lor_distr_l, <- !Z.land_assoc. by rewrite Z.land_0_r.
Qed.

(** The file system [f] whose directory [d] holds [es], with one more private
    directory [j] that holds [ej]. *)
Definition shape (f : Fs) (d : FileIdentity) (nd : Node) (j : FileIdentity) (es ej : gmap string FileIdentity) : Fs :=
  mkFs (<[j := set_entries ej private_node]> (<[d := set_entries es nd]> (nodes f))) (root f).

Lemma stat_known f d nd name i n :
  nodes f !! d = Some nd -> is_dir_mode (st_mode nd) = true -> entries nd !! name = Some i -> nodes f !! i = Some n ->
  stat_call f d name = Ok (i, n).
Proof. intros Hd Hm He Hn. unfold stat_call, lookup_at, directory_entries. rewrite Hd, Hm. simpl. rewrite He. simpl. by rewrite Hn. Qed.

(** Normalisation of a directory [j] just made, of mode [m0]. *)
Lemma normalize_quiet d q j o nd m0 :
  quiet o -> d <> j -> nodes (fs o) !! d = Some nd -> is_dir_mode (st_mode nd) = true -> entries nd !! q = Some j ->
  nodes (fs o) !! j = Some (mkNode m0 euid XNoData XNoData ∅ None) -> Z.land m0 S_IFMT = S_IFDIR ->
  normalize_private_directory d q j (fun _ => ret tt) o =
    (Ok (j, j), mkOs (set_node j private_node (fs o)) [] (entropy o) (ModeSet j 448 :: actions o)).
Proof.
  intros Hq Hne Hd Hm He Hj Hm0. set (f2 := set_node j private_node (fs o)).
  assert (Hj2 : nodes f2 !! j = Some private_node) by (unfold f2; simpl; by rewrite lookup_insert_eq).
  assert (Hs2 : stat_call f2 d q = Ok (j, private_node)).
  { apply (stat_known f2 d nd); try done. unfold f2. simpl. by rewrite lookup_insert_ne. }
  assert (Hl2 : open_dir_call f2 d q = Ok j).
  { unfold open_dir_call. by rewrite Hs2. }
  assert (Hf2 : fstat_call f2 j = Ok private_node) by (unfold fstat_call; by rewrite Hj2).
  unfold normalize_private_directory. do 2 run done.
  erewrite (bind_run (chmodat _ _ _)).
  2: { apply change_run; [done|]. unfold chmod_call. erewrite stat_known by done. simpl. rewrite Hj. simpl. by rewrite Hm0. }
  change (set_node j _ (fs o)) with f2. set (o2 := mkOs f2 _ _ _).
  assert (Hq2 : quiet o2) by done.
  run ltac:(by apply look_run). run_require ltac:(rewrite bool_decide_true by done; apply (normalized_private_node ∅)). run done.
  run ltac:(by apply look_run). run ltac:(by apply look_run).
  run_require ltac:(rewrite bool_decide_true by done; apply (normalized_private_node ∅)).
  erewrite (bind_run (authenticate_directory_acl j)); [done|].
  unfold authenticate_directory_acl.
  run ltac:(eapply (decides_run _ _ _ tt); [apply decides_xattr|done|]; by exists private_node).
  eapply (decides_run _ _ _ tt); [apply decides_xattr|done|]. by exists private_node.
Qed.

Lemma create_private_quiet `{!PlatformLaws} d b q preserve o nd :
  quiet o -> nodes (fs o) !! d = Some nd -> is_dir_mode (st_mode nd) = true -> acl_default nd = XNoData ->
  entries nd !! q = None ->
  exists o' j, create_authenticated_private_directory d b q preserve (fun _ => ret tt) o = (Ok (j, j), o') /\
    quiet o' /\ entropy o' = entropy o /\ nodes (fs o) !! j = None /\
    fs o' = shape (fs o) d nd j (<[q := j]> (entries nd)) ∅.
Proof.
  intros Hq Hd Hm Hacl Hnew. set (j := fresh_identity (fs o)). pose proof (fresh_identity_new (fs o)) as Hj. fold j in Hj.
  assert (Hjd : d <> j) by congruence. destruct (masked_mode (Z.lnot umask)) as [Hifmt Hperm].
  set (m0 := Z.lor S_IFDIR (Z.land 448 (Z.lnot umask))) in *. set (n0 := mkNode m0 euid XNoData XNoData ∅ None).
  set (nd' := set_entries (<[q := j]> (entries nd)) nd). set (f1 := set_node d nd' (set_node j n0 (fs o))).
  assert (Hd1 : nodes f1 !! d = Some nd') by (simpl; by rewrite lookup_insert_eq).
  assert (Hj1 : nodes f1 !! j = Some n0) by (simpl; by rewrite lookup_insert_ne, lookup_insert_eq).
  assert (He1 : entries nd' !! q = Some j) by (simpl; by rewrite lookup_insert_eq).
  assert (Hmk : mkdir_call (fs o) d q 448 = Ok (j, f1)).
  { unfold mkdir_call, add_entry, new_node. rewrite Hd, Hm, Hnew, Hacl. done. }
  eexists _, j. split; [|split; [|split; [|split]]].
  - unfold create_authenticated_private_directory. run ltac:(by apply change_run).
    run ltac:(by apply guarded_run). erewrite bind_run.
    2: { apply guarded_run. run ltac:(apply look_run; [done|]; by eapply (stat_known f1)).
         run_require ltac:(unfold provisional_private, is_dir_mode; cbn [st_mode st_uid n0]; by rewrite Hifmt, Hperm, !Z.eqb_refl).
         done. }
    by apply guarded_run, (normalize_quiet d q j _ nd' m0).
  - done.
  - done.
  - done.
  - unfold f1, set_node, shape. cbn [fs nodes root]. f_equal.
    rewrite (insert_insert_ne (nodes (fs o)) d j) by done. by rewrite insert_insert_eq.
Qed.

(** *** The states of a cleanup *)

Section Shape.
#[local] Set Default Proof Using "All".
Context (f : Fs) (d j : FileIdentity) (nd : Node).
Context (Hd : nodes f !! d = Some nd) (Hdir : is_dir_mode (st_mode nd) = true) (Hj : nodes f !! j = None).

Abbreviation sh := (shape f d nd j).

Lemma shape_ne : d <> j.
Proof. congruence. Qed.

Lemma shape_d es ej : nodes (sh es ej) !! d = Some (set_entries es nd).
Proof. simpl. rewrite lookup_insert_ne by (apply not_eq_sym, shape_ne). by rewrite lookup_insert_eq. Qed.

Lemma shape_j es ej : nodes (sh es ej) !! j = Some (set_entries ej private_node).
Proof. simpl. by rewrite lookup_insert_eq. Qed.

Lemma shape_other es ej k n : nodes f !! k = Some n -> k <> d -> nodes (sh es ej) !! k = Some n.
Proof. intros Hk Hne. simpl. rewrite lookup_insert_ne by congruence. by rewrite lookup_insert_ne. Qed.

Lemma shape_set_d es ej es' : set_node d (set_entries es' nd) (sh es ej) = sh es' ej.
Proof.
  unfold set_node, shape. cbn [nodes root]. f_equal.
  rewrite (insert_insert_ne (<[d := set_entries es nd]> (nodes f)) d j) by apply shape_ne. by rewrite insert_insert_eq.
Qed.

Lemma shape_set_j es ej ej' : set_node j (set_entries ej' private_node) (sh es ej) = sh es ej'.
Proof. unfold set_node, shape. cbn [nodes root]. f_equal. by rewrite insert_insert_eq. Qed.

Lemma shape_remove_d es ej name : remove_entry_call (sh es ej) d name = sh (delete name es) ej.
Proof. unfold remove_entry_call. rewrite shape_d. apply shape_set_d. Qed.

Lemma shape_remove_j es ej name : remove_entry_call (sh es ej) j name = sh es (delete name ej).
Proof. unfold remove_entry_call. rewrite shape_j. apply shape_set_j. Qed.

Lemma shape_lookup_d es ej name : lookup_at (sh es ej) d name = ok_or (es !! name) ENOENT.
Proof. unfold lookup_at, directory_entries. rewrite shape_d. simpl. by rewrite Hdir. Qed.

Lemma shape_lookup_j es ej name : lookup_at (sh es ej) j name = ok_or (ej !! name) ENOENT.
Proof. unfold lookup_at, directory_entries. rewrite shape_j. done. Qed.

Lemma shape_stat_q es ej q : es !! q = Some j -> stat_call (sh es ej) d q = Ok (j, set_entries ej private_node).
Proof. intros Hq. unfold stat_call. rewrite shape_lookup_d, Hq. cbn [ok_or]. rewrite shape_j. done. Qed.

(** Moving the entry into the private directory, and back. *)
Lemma shape_move_in es name cand i : es !! name = Some i -> rename_call (sh es ∅) d name j cand = Ok (i, sh (delete name es) {[cand := i]}).
Proof.
  intros Hn. unfold rename_call. rewrite shape_lookup_d, Hn. unfold directory_entries. rewrite shape_j. cbn [ok_or].
  rewrite shape_remove_d, shape_j. by rewrite shape_set_j.
Qed.

Lemma shape_move_back es name cand i : es !! name = None -> rename_call (sh es {[cand := i]}) j cand d name = Ok (i, sh (<[name := i]> es) ∅).
Proof.
  intros Hn. unfold rename_call. rewrite shape_lookup_j, lookup_singleton_eq. unfold directory_entries. rewrite shape_d. cbn [ok_or st_mode set_entries entries].
  rewrite Hdir, Hn. cbn [is_some]. rewrite shape_remove_j, shape_d, delete_singleton_eq.
  do 2 f_equal. apply shape_set_d.
Qed.

Lemma shape_unlink es cand i n : nodes f !! i = Some n -> is_dir_mode (st_mode n) = false ->
  unlink_call (sh es {[cand := i]}) j cand = Ok (i, sh es ∅).
Proof.
  intros Hi Hn. unfold unlink_call, stat_call. rewrite shape_lookup_j, lookup_singleton_eq. cbn [ok_or].
  rewrite (shape_other _ _ i n) by congruence. simpl. rewrite Hn, shape_remove_j. by rewrite delete_singleton_eq.
Qed.

Lemma shape_rmdir es q : es !! q = Some j -> rmdir_call (sh es ∅) d q = Ok (j, sh (delete q es) ∅).
Proof. intros Hq. unfold rmdir_call. rewrite shape_stat_q by done. simpl. by rewrite shape_remove_d. Qed.

End Shape.

(** The directory of an owned path is still the one its boundary recorded. *)
Definition settled (f : Fs) (p : OwnedPath) (nd : Node) : Prop :=
  nodes f !! directory p = Some nd /\
  exists c, last (components (boundary p)) = Some c /\ component_holds f c (directory p).

Lemma settled_safe f p nd : settled f p nd -> is_dir_mode (st_mode nd) = true /\ acl_default nd = XNoData.
Proof.
  intros (Hd & c & _ & _ & n & Hn & Hs & _). rewrite Hd in Hn. injection Hn as <-. split; apply Hs.
Qed.

Lemma retained_run f p nd es o :
  settled f p nd -> quiet o -> nodes (fs o) !! directory p = Some (set_entries es nd) ->
  authenticate_retained (boundary p) (directory p) o = (Ok tt, o).
Proof.
  intros (Hd & c & Hl & Hi & n & Hn & Hs & Ho & Hr) Hq Hnow. rewrite Hd in Hn. injection Hn as <-.
  unfold authenticate_retained. rewrite Hl. eapply (decides_run _ _ _ tt); [apply decides_component|done|].
  split; [done|]. by exists (set_entries es nd).
Qed.

(** The name the next quarantine directory gets. *)
Definition cleanup_name (bytes : string) : string := ".chp-cleanup-" +:+ hex_suffix (take_bytes 16 bytes).

Lemma rmdir_quiet `{!PlatformLaws} p q j f nd es o :
  settled f p nd -> nodes f !! j = None -> quiet o -> fs o = shape f (directory p) nd j es ∅ -> es !! q = Some j ->
  exists o', rmdirat (directory p) q o = (Ok j, o') /\ quiet o' /\ entropy o' = entropy o /\
    fs o' = shape f (directory p) nd j (delete q es) ∅.
Proof.
  intros Hset Hj Hq Hf He. destruct (settled_safe _ _ _ Hset) as [Hm _]. destruct Hset as [Hd _].
  eexists. split; [apply change_run; [done|]; rewrite Hf; by apply shape_rmdir|done].
Qed.

(** The entry goes into the quarantine; when there is none, nothing stays behind. *)
Lemma quarantine_quiet `{!PlatformLaws} p o nd bytes rest :
  quiet o -> settled (fs o) p nd -> entropy o = Some bytes :: rest ->
  entries nd !! cleanup_name bytes = None -> cleanup_name bytes <> public_name p ->
  exists j o', nodes (fs o) !! j = None /\ quiet o' /\ entropy o' = rest /\
    match entries nd !! public_name p with
    | Some i => quarantine_entry p o = (Ok (Some (mkQuarantine (cleanup_name bytes) j j)), o') /\
        fs o' = shape (fs o) (directory p) nd j (delete (public_name p) (<[cleanup_name bytes := j]> (entries nd)))
                  {[PRIVATE_CANDIDATE_NAME := i]}
    | None => quarantine_entry p o = (Ok None, o') /\ fs o' = shape (fs o) (directory p) nd j (entries nd) ∅
    end.
Proof.
  intros Hq Hset Hent Hfree Hne. destruct (settled_safe _ _ _ Hset) as [Hm Hacl]. pose proof Hset as [Hd _].
  set (q := cleanup_name bytes) in *. set (o1 := mkOs (fs o) (turns o) rest (actions o)).
  assert (Hname : random_private_name o = (Ok q, o1)).
  { unfold random_private_name, bind, rand_bytes. rewrite Hent. done. }
  destruct (create_private_quiet (directory p) (boundary p) q true o1 nd) as (o2 & j & Hmade & Hq2 & He2 & Hj & Hf2); try done.
  cbn [fs entropy o1] in Hj, He2, Hf2. set (es := <[q := j]> (entries nd)) in *.
  assert (Hlook : es !! public_name p = entries nd !! public_name p) by (unfold es; by rewrite lookup_insert_ne).
  assert (Hstart : forall k : unit -> Io (option UnixQuarantine), bind (authenticate_retained (boundary p) (directory p)) k o = k tt o).
  { intros k. apply bind_run. eapply (retained_run _ _ _ (entries nd)); [done|done|]. rewrite Hd. by destruct nd. }
  unfold quarantine_entry, quarantine_entry_with_fault. rewrite Hstart. unfold QUARANTINE_ATTEMPTS. cbn [quarantine_loop].
  rewrite (bind_run _ _ _ _ _ Hname), (bind_attempt _ _ _ _ _ Hmade). cbv beta iota.
  destruct (entries nd !! public_name p) as [i|] eqn:He.
  - exists j. eexists (mkOs _ [] _ _). split; [done|]. split; [done|]. split; [exact He2|].
    split; [run ltac:(by apply guarded_run); erewrite bind_attempt by (apply change_run; [done|]; rewrite Hf2; by apply shape_move_in); done|done].
  - assert (Hren : renameat_noreplace (directory p) (public_name p) j PRIVATE_CANDIDATE_NAME o2 = (Err (OsError ENOENT), o2)).
    { unfold renameat_noreplace, change, disturbed, next_fault. rewrite Hq2, Hf2. unfold rename_call.
      rewrite shape_lookup_d by done. by rewrite Hlook. }
    destruct (rmdir_quiet p q j (fs o) nd es o2) as (o3 & Hrm & Hq3 & He3 & Hf3); try done; [unfold es; by rewrite lookup_insert_eq|].
    exists j, o3. split; [done|]. split; [done|]. split; [by rewrite He3|]. run ltac:(by apply guarded_run). rewrite (bind_attempt _ _ _ _ _ Hren). cbv beta iota. split.
    + erewrite bind_run; [done|]. unfold drop_namespace_guard. erewrite bind_attempt.
      2: { eapply (retained_run _ _ _ es); [done|done|]. rewrite Hf2. by apply shape_d. }
      cbv beta iota. erewrite bind_attempt.
      2: { apply look_run; [done|]. rewrite Hf2. apply shape_stat_q; [done..|]. unfold es. by rewrite lookup_insert_eq. }
      cbv beta iota. rewrite bool_decide_true by done. by rewrite (bind_attempt _ _ _ _ _ Hrm).
    + rewrite Hf3. unfold es. by rewrite delete_insert_id.
Qed.

Lemma remove_private_quiet `{!PlatformLaws} p q j f nd es o :
  settled f p nd -> nodes f !! j = None -> quiet o -> fs o = shape f (directory p) nd j es ∅ -> es !! q = Some j ->
  exists o', remove_private_directory p (mkQuarantine q j j) o = (Ok tt, o') /\ quiet o' /\ entropy o' = entropy o /\
    fs o' = shape f (directory p) nd j (delete q es) ∅.
Proof.
  intros Hset Hj Hq Hf He. destruct (rmdir_quiet p q j f nd es o) as (o' & Hrm & Hq' & He' & Hf'); try done.
  exists o'. split; [|done]. destruct (settled_safe _ _ _ Hset) as [Hm _]. destruct Hset as [Hd _].
  unfold remove_private_directory. cbn [q_name q_identity].
  run ltac:(apply look_run; [done|]; rewrite Hf; by apply shape_stat_q).
  run_require ltac:(by rewrite bool_decide_true). by rewrite (bind_run _ _ _ _ _ Hrm).
Qed.

(** What the directory of [p] holds after a cleanup. *)
Definition cleaned (p : OwnedPath) (es : gmap string FileIdentity) : gmap string FileIdentity :=
  if bool_decide (es !! public_name p = Some (owned_identity p)) then delete (public_name p) es else es.

Section CleanupQuiet.
Context `{!PlatformLaws} (p : OwnedPath) (q : string) (f : Fs) (nd ni : Node) (j : FileIdentity).
Context (Hset : settled f p nd) (Hj : nodes f !! j = None).
Context (Hni : nodes f !! owned_identity p = Some ni) (Hfile : is_dir_mode (st_mode ni) = false).
#[local] Set Default Proof Using "All".

Abbreviation sh := (shape f (directory p) nd j).

Lemma matches_quiet o es i :
  quiet o -> fs o = sh es {[PRIVATE_CANDIDATE_NAME := i]} ->
  quarantine_matches p (mkQuarantine q j j) o = (Ok (bool_decide (i = owned_identity p)), o).
Proof.
  intros Hq Hf. destruct (settled_safe _ _ _ Hset) as [Hm _]. destruct Hset as [Hd _].
  unfold quarantine_matches, statat. cbn [q_directory]. erewrite bind_attempt by by apply look_quiet. rewrite Hf. unfold stat_call.
  rewrite shape_lookup_j by done. rewrite lookup_singleton_eq. cbn [ok_or]. destruct (decide (i = owned_identity p)) as [->|Hi].
  - rewrite (shape_other _ _ _ _ Hd Hm Hj _ _ _ ni) by congruence. done.
  - rewrite bool_decide_false by done. destruct (nodes _ !! i); simpl; [by rewrite bool_decide_false|done].
Qed.

Lemma remove_quiet o es :
  quiet o -> fs o = sh es {[PRIVATE_CANDIDATE_NAME := owned_identity p]} -> es !! q = Some j ->
  exists o', remove_quarantine p (mkQuarantine q j j) o = (Ok tt, o') /\ quiet o' /\ entropy o' = entropy o /\ fs o' = sh (delete q es) ∅.
Proof.
  intros Hq Hf He. destruct (settled_safe _ _ _ Hset) as [Hm _]. pose proof Hset as [Hd _].
  set (o2 := mkOs (sh es ∅) [] (entropy o) (Unlinked j PRIVATE_CANDIDATE_NAME (owned_identity p) :: actions o)).
  destruct (remove_private_quiet p q j f nd es o2) as (o3 & Hrm & Hq3 & He3 & Hf3); try done. exists o3. split; [|done].
  unfold remove_quarantine. erewrite (bind_run _ _ _ _ o2); [done|]. apply change_run; [done|]. rewrite Hf.
  by apply (shape_unlink _ _ _ _ Hd Hm Hj _ _ _ ni).
Qed.

Lemma restore_quiet o es i :
  quiet o -> fs o = sh es {[PRIVATE_CANDIDATE_NAME := i]} -> es !! q = Some j -> es !! public_name p = None -> q <> public_name p ->
  exists o', restore_quarantine p (mkQuarantine q j j) o = (Ok tt, o') /\ quiet o' /\ entropy o' = entropy o /\
    fs o' = sh (delete q (<[public_name p := i]> es)) ∅.
Proof.
  intros Hq Hf He Hnone Hne. destruct (settled_safe _ _ _ Hset) as [Hm _]. pose proof Hset as [Hd _].
  set (o2 := mkOs (sh (<[public_name p := i]> es) ∅) [] (entropy o)
    (Moved j PRIVATE_CANDIDATE_NAME (directory p) (public_name p) i :: actions o)).
  destruct (remove_private_quiet p q j f nd (<[public_name p := i]> es) o2) as (o3 & Hrm & Hq3 & He3 & Hf3); try done.
  { by rewrite lookup_insert_ne. }
  exists o3. split; [|done]. unfold restore_quarantine. erewrite (bind_run _ _ _ _ o2); [done|]. apply change_run; [done|]. rewrite Hf.
  by apply shape_move_back.
Qed.

End CleanupQuiet.

Lemma cleanup_quiet `{!PlatformLaws} p o nd bytes rest :
  quiet o -> active p = true -> settled (fs o) p nd -> entropy o = Some bytes :: rest ->
  entries nd !! cleanup_name bytes = None -> cleanup_name bytes <> public_name p ->
  (exists n, nodes (fs o) !! owned_identity p = Some n /\ is_dir_mode (st_mode n) = false) ->
  exists j o', cleanup p o = (Ok (None, set_active false p), o') /\ quiet o' /\ entropy o' = rest /\ nodes (fs o) !! j = None /\
    fs o' = shape (fs o) (directory p) nd j (cleaned p (entries nd)) ∅.
Proof.
  intros Hq Ha Hset Hent Hfree Hne (ni & Hni & Hfile). set (p1 := set_active false p).
  destruct (quarantine_quiet p1 o nd bytes rest) as (j & o1 & Hj & Hq1 & He1 & Hqu); try done.
  unfold cleanup, cleanup_with_hooks. rewrite Ha. cbn [negb]. fold p1. unfold cleaned.
  change (public_name p1) with (public_name p) in Hqu. change (directory p1) with (directory p) in Hqu.
  destruct (entries nd !! public_name p) as [i|] eqn:He; destruct Hqu as [Hqu Hf1].
  2: { exists j, o1. split; [|split; [done|split; [done|split; [done|by rewrite bool_decide_false]]]]. run done. by rewrite (bind_attempt _ _ _ _ _ Hqu). }
  set (q := cleanup_name bytes) in *. set (es := delete (public_name p) (<[q := j]> (entries nd))) in *.
  assert (Hesq : es !! q = Some j) by (unfold es; rewrite lookup_delete_ne by done; by rewrite lookup_insert_eq).
  pose proof (matches_quiet p1 q (fs o) nd ni j Hset Hj Hni Hfile o1 es i Hq1 Hf1) as Hmatch.
  change (owned_identity p1) with (owned_identity p) in Hmatch. destruct (decide (i = owned_identity p)) as [->|Hi].
  - destruct (remove_quiet p1 q (fs o) nd ni j Hset Hj Hni Hfile o1 es) as (o3 & Hrm & Hq3 & He3 & Hf3); try done.
    exists j, o3. split; [|split; [done|split; [by rewrite He3|split; [done|]]]].
    + run done. rewrite (bind_attempt _ _ _ _ _ Hqu). cbv beta iota zeta. rewrite (bind_run _ _ _ _ _ Hmatch).
      rewrite bool_decide_true by done. run done. by rewrite (bind_attempt _ _ _ _ _ Hrm).
    + rewrite Hf3, bool_decide_true by done. unfold es. rewrite delete_delete. by rewrite delete_insert_id.
  - destruct (restore_quiet p1 q (fs o) nd ni j Hset Hj Hni Hfile o1 es i) as (o3 & Hrm & Hq3 & He3 & Hf3); try done.
    { unfold es. apply lookup_delete_eq. }
    exists j, o3. split; [|split; [done|split; [by rewrite He3|split; [done|]]]].
    + run done. rewrite (bind_attempt _ _ _ _ _ Hqu). cbv beta iota zeta. rewrite (bind_run _ _ _ _ _ Hmatch).
      rewrite bool_decide_false by done. run done. by rewrite (bind_attempt _ _ _ _ _ Hrm).
    + rewrite Hf3, bool_decide_false by congruence. unfold es. change (public_name p1) with (public_name p).
      rewrite insert_delete_eq, (insert_id (<[q := j]> _)) by (by rewrite lookup_insert_ne). by rewrite delete_insert_id.
Qed.

(** *** The PID file *)

Lemma chain_init f cs c d : chain f (cs ++ [c]) d -> exists d', chain f cs d'.
Proof.
  destruct cs as [|c0 cs]; simpl; [by exists (root f)|]. intros [Hc Hch].
  enough (exists d', chain_from f (root f) cs d') as [d' ?] by (by exists d'). revert Hch. generalize (root f).
  induction cs as [|c1 cs IH]; intros d0; simpl; [by exists d0|].
  intros (name & child & Hn & Hl & Hh & Hch). destruct (IH child Hch) as [d' Hd']. by exists d', name, child.
Qed.

Lemma boundary_last f path b d : boundary_of f path b d -> exists cs c, components b = cs ++ [c].
Proof.
  intros (_ & Hn & _). destruct (exists_last (l := components b)) as (cs & c & Hcs); [|by exists cs, c].
  intros Hnil. by rewrite Hnil in Hn.
Qed.

Lemma ancestors_run `{!PlatformLaws} b d o cs c :
  quiet o -> components b = cs ++ [c] -> chain (fs o) (components b) d -> authenticate_retained_with_ancestors b d o = (Ok tt, o).
Proof.
  intros Hq Hcs Hch. rewrite Hcs in Hch.
  destruct (chain_init _ _ _ _ Hch) as [d' Hd']. apply chain_last in Hch.
  unfold authenticate_retained_with_ancestors, authenticate_ancestors, authenticate_retained. rewrite Hcs, last_snoc, length_app.
  replace (length cs + length [c] - 1)%nat with (length cs) by (simpl; lia). erewrite (bind_run _ _ _ tt o).
  - eapply (decides_run _ _ _ tt); [apply decides_component|done|done].
  - erewrite bind_run; [done|]. eapply (decides_run _ _ _ d'); [apply decides_prefix|done|]. by rewrite Hcs, take_app_length.
Qed.

(** The file system with the new file [i] under [name] of [d]. *)
Definition with_file (f : Fs) (d : FileIdentity) (nd : Node) (name : string) (i : FileIdentity) : Fs :=
  set_node d (set_entries (<[name := i]> (entries nd)) nd) (set_node i (new_node f d S_IFREG 438) f).

Definition pid_guard (path : Path) (b : AuthenticatedBoundary) (d : FileIdentity) (name : string) (i : FileIdentity) : PidFileGuard :=
  mkPidFile (mkOwned path i true d (canonical_path b) name b) i.

Lemma acquire_quiet `{!PlatformLaws} path name b d nd o :
  quiet o -> file_name path = Some name -> boundary_of (fs o) (parent_or_dot path) b d -> nodes (fs o) !! d = Some nd ->
  is_dir_mode (st_mode nd) = true ->
  let i := fresh_identity (fs o) in
  acquire path o =
    match entries nd !! name with
    | Some _ => (Err (PidCreate (OsError EEXIST)), o)
    | None => (Ok (pid_guard path b d name i), mkOs (with_file (fs o) d nd name i) [] (entropy o) (Created d name i :: actions o))
    end.
Proof.
  intros Hq Hn Hb Hd Hm i. pose proof (fresh_identity_new (fs o)) as Hi. fold i in Hi. unfold acquire, create_new_file.
  rewrite Hn, (bind_run _ _ _ (b, d) o) by (eapply decides_run; [apply decides_capture|done|done]).
  cbv beta iota. rewrite (bind_run _ _ _ tt o) by (destruct (boundary_last _ _ _ _ Hb) as (? & ? & ?); by eapply ancestors_run; [| |apply Hb]).
  unfold bind at 1, createat, change, disturbed, next_fault.
  rewrite Hq. unfold create_call, add_entry. rewrite Hd, Hm. cbn [negb]. destruct (entries nd !! name) as [k|] eqn:He; [done|].
  cbn [is_some]. fold i. change (set_node d _ (set_node i _ (fs o))) with (with_file (fs o) d nd name i). rewrite Hq.
  set (o1 := mkOs _ _ _ _). assert (Hfile : fstat_call (fs o1) i = Ok (new_node (fs o) d S_IFREG 438)).
  { unfold fstat_call, o1, with_file. simpl. rewrite lookup_insert_ne by congruence. by rewrite lookup_insert_eq. }
  unfold from_file. erewrite bind_run by (erewrite bind_run by (by apply look_run); done).
  assert (Hw : write_file i o1 = (Ok tt, o1)) by (unfold write_file; by erewrite bind_run by (by apply look_run)).
  unfold ret at 1, guarded. by rewrite (bind_run _ _ _ _ _ Hw), Hw.
Qed.

(** What acquiring and dropping the guard do, one right after the other. *)
Lemma pid_file_bracket `{!PlatformLaws} path name b d nd o bytes rest :
  quiet o -> file_name path = Some name -> boundary_of (fs o) (parent_or_dot path) b d -> nodes (fs o) !! d = Some nd ->
  entropy o = Some bytes :: rest -> entries nd !! cleanup_name bytes = None -> cleanup_name bytes <> name ->
  match entries nd !! name with
  | Some _ => acquire path o = (Err (PidCreate (OsError EEXIST)), o)
  | None => exists g o1 o2, acquire path o = (Ok g, o1) /\
      lookup_at (fs o1) d name = Ok (pid_file g) /\ nodes (fs o) !! pid_file g = None /\
      drop_pid_file g o1 = (Ok tt, o2) /\ forall k n, nodes (fs o) !! k = Some n -> nodes (fs o2) !! k = Some n
  end.
Proof.
  intros Hq Hn Hb Hd Hent Hfree Hne. destruct (boundary_last _ _ _ _ Hb) as (cs & c & Hcs).
  pose proof Hb as (_ & _ & Hch). rewrite Hcs in Hch. apply chain_last in Hch as (Hi & n & Hnode & Hs & Ho & Hr).
  rewrite Hd in Hnode. injection Hnode as <-. pose proof Hs as (Hm & _).
  pose proof (acquire_quiet path name b d nd o Hq Hn Hb Hd Hm) as Hacq. cbv zeta in Hacq.
  destruct (entries nd !! name) as [k|] eqn:He; [done|]. set (i := fresh_identity (fs o)) in *.
  pose proof (fresh_identity_new (fs o)) as Hfresh. fold i in Hfresh. set (o1 := mkOs _ _ _ _) in Hacq.
  set (nd1 := set_entries (<[name := i]> (entries nd)) nd).
  assert (Hd1 : nodes (fs o1) !! d = Some nd1) by (simpl; by rewrite lookup_insert_eq).
  assert (Hset : settled (fs o1) (pid_owned (pid_guard path b d name i)) nd1).
  { split; [done|]. exists c. simpl. rewrite Hcs, last_snoc. split; [done|]. split; [done|]. by exists nd1. }
  destruct (cleanup_quiet (pid_owned (pid_guard path b d name i)) o1 nd1 bytes rest) as (j & o2 & Hclean & _ & _ & Hj & Hf2); try done.
  { simpl. by rewrite lookup_insert_ne. }
  { exists (new_node (fs o) d S_IFREG 438). simpl. rewrite lookup_insert_ne by congruence. rewrite lookup_insert_eq. split; [done|].
    unfold is_dir_mode. rewrite (Z.land_comm 438), Z.land_lor_distr_l, <- Z.land_assoc. by rewrite Z.land_0_r. }
  exists (pid_guard path b d name i), o1, o2. split; [done|]. split_and!.
  - unfold lookup_at, directory_entries. rewrite Hd1. simpl. rewrite Hm. by rewrite lookup_insert_eq.
  - done.
  - unfold drop_pid_file. by rewrite (bind_run _ _ _ _ _ Hclean).
  - intros k n Hk. rewrite Hf2. unfold cleaned. simpl public_name. simpl owned_identity. simpl directory. rewrite bool_decide_true by (simpl; by rewrite lookup_insert_eq).
    unfold nd1 at 2. cbn [entries set_entries]. rewrite delete_insert_id by done. destruct (decide (k = d)) as [->|Hkd].
    + rewrite shape_d by done. rewrite Hd in Hk. injection Hk as <-. by destruct nd.
    + apply shape_other; [done..| |done]. simpl. rewrite lookup_insert_ne by done. by rewrite lookup_insert_ne by congruence.
Qed.

(** In a file system at rest, a process that takes its PID
    file creates it where the name was free, refuses with the name untouched
    where it was not, and on exit leaves every inode that was there before,
    the directory included, exactly as it was. *)
Theorem pid_file_round_trip `{!PlatformLaws} path name b d nd o bytes rest :
  quiet o -> file_name path = Some name -> boundary_of (fs o) (parent_or_dot path) b d -> nodes (fs o) !! d = Some nd ->
  entropy o = Some bytes :: rest -> entries nd !! cleanup_name bytes = None -> cleanup_name bytes <> name ->
  match entries nd !! name with
  | Some _ => acquire path o = (Err (PidCreate (OsError EEXIST)), o)
  | None => exists g o1 o2, acquire path o = (Ok g, o1) /\
      lookup_at (fs o1) d name = Ok (pid_file g) /\ nodes (fs o) !! pid_file g = None /\
      drop_pid_file g o1 = (Ok tt, o2) /\ forall k n, nodes (fs o) !! k = Some n -> nodes (fs o2) !! k = Some n
  end.
Proof. apply pid_file_bracket. Qed.

End Ownership.

(** ** Witnesses *)

Module OwnershipExamples.
Import SimplePlatform.

Definition pid_path : Path := components_of "/run/proxy.pid".

Definition slash_component : BoundaryComponent := mkComponent slash_id None 0 0.
Definition run_component : BoundaryComponent := mkComponent run_id (Some "run") 1000 0.
Definition run_boundary : AuthenticatedBoundary := mkBoundary ["run"] [slash_component; run_component].

Lemma run_is_captured : boundary_of start_fs (parent_or_dot pid_path) run_boundary run_id.
Proof.
  split; [reflexivity|]. split; [reflexivity|]. split.
  - split; [done|]. exists slash_node. split_and!; done.
  - exists "run", run_id. split_and!; try done. split; [done|]. exists run_node. split_and!; done.
Qed.

Lemma bare_names_are_refused_witness :
  quiet (start []) /\ acquire [Normal "proxy.pid"] (start []) = (Err (PidCreate (OsError ENOENT)), start []).
Proof. split; [done|]. by apply (bare_names_are_refused "proxy.pid" (start [])). Defined.

Lemma pid_file_round_trip_witness :
  exists g o1 o2, acquire pid_path (start []) = (Ok g, o1) /\ lookup_at (fs o1) run_id "proxy.pid" = Ok (pid_file g) /\
    nodes start_fs !! pid_file g = None /\ drop_pid_file g o1 = (Ok tt, o2) /\
    forall k n, nodes start_fs !! k = Some n -> nodes (fs o2) !! k = Some n.
Proof.
  apply (pid_file_round_trip pid_path "proxy.pid" run_boundary run_id run_node (start []) "abcdefghijklmnop"
           [Some "qrstuvwxyzabcdef"; Some "0123456789abcdef"]); [done|reflexivity|apply run_is_captured|done|done|reflexivity|discriminate].
Defined.

(** Another process that puts its own file under the PID file's name. *)
Definition usurp (f : Fs) : Fs :=
  match nodes f !! run_id with
  | Some n => if normalized_private n then f else set_node run_id (set_entries (<["proxy.pid" := intruder_id]> (entries n)) n) f
  | None => f
  end.


(** At rest, and while that process acts. *)
Lemma boundary_authentication_is_exact_witness :
  (quiet (start []) /\ (authenticate run_boundary (start [])).1 = Ok tt) /\
  (exists d, walked_down (start [mkFsTurn usurp None]) (components run_boundary) d
     (authenticate run_boundary (start [mkFsTurn usurp None])).2).
Proof.
  split; [split; [done|]|].
  - apply (proj2 (proj2 (boundary_authentication_is_exact pid_path run_boundary (start []))) eq_refl).
    exists run_id. apply run_is_captured.
  - apply (boundary_authentication_is_exact pid_path run_boundary (start [mkFsTurn usurp None])). by vm_compute.
Defined.



End OwnershipExamples.
