(* ===== verification/Portable.v ===== *)
(** * Path ownership where there are no Unix descriptors (src/path_ownership.rs, the [cfg]s for other targets)

    On a system that is not Unix an owned path is a path and the identity of a
    file, every operation names whole paths, and quarantine is a rename to a random
    sibling.  [fs::rename] of the standard library replaces an existing
    destination, on Windows too; the comment above [rename_noreplace] says
    otherwise, and what follows from it is shown here beside what holds as long as
    nobody creates the public path meanwhile.  On targets that are neither, nothing
    is ever renamed.  The Apple variants of the descriptor checks are at the end. *)

From S2P Require Import Prelude RustStr FileSystem PathOwnership.

(** ** Files by path *)

Module NonUnix.

Inductive Family : Type := Windows | Bare.

(** What the system reports of a file; files themselves are numbers. *)
Record Metadata : Type := mkMetadata { volume_serial_number : option Z; file_index : option Z; len : Z }.

Abbreviation Names := (gmap (list Component) Z) (only parsing).

(** What happens before one call: others change names, and the call may fail. *)
Record PathTurn : Type := mkPathTurn { others : Names -> Names; refusal : option IoError }.

Record Disk : Type := mkDisk {
  names : Names;
  path_turns : list PathTurn;
  random : list (option string);            (** what [rand_bytes] answers *)
  lost : list (list Component * Z)          (** entries this process removed or overwrote, newest first *)
}.

Definition next_turn (d : Disk) : option IoError * Disk :=
  match path_turns d with
  | [] => (None, d)
  | t :: rest => (refusal t, mkDisk (others t (names d)) rest (random d) (lost d))
  end.

(** A call that changes names: the new names and what they no longer reach. *)
Definition call (f : Names -> result (Names * list (list Component * Z)) IoError) (d : Disk) : result unit IoError * Disk :=
  let (refused, d) := next_turn d in
  match refused with
  | Some e => (Err e, d)
  | None =>
      match f (names d) with
      | Ok (m, gone) => (Ok tt, mkDisk m (path_turns d) (random d) (gone ++ lost d))
      | Err e => (Err e, d)
      end
  end.

Definition option_entry (path : list Component) (z : option Z) : list (list Component * Z) :=
  match z with Some z => [(path, z)] | None => [] end.

(** [fs::rename]: it replaces the destination if that exists. *)
Definition rename (source destination : list Component) : Disk -> result unit IoError * Disk :=
  call (fun m =>
    match m !! source with
    | None => Err (OsError ENOENT)
    | Some z =>
        let m := delete source m in
        Ok (<[destination := z]> m, option_entry destination (m !! destination))
    end).

Definition remove_file (path : list Component) : Disk -> result unit IoError * Disk :=
  call (fun m => match m !! path with None => Err (OsError ENOENT) | Some z => Ok (delete path m, [(path, z)]) end).

Section Ownership.
Variable family : Family.
Variable metadata : Z -> Metadata.

(** ** Identities *)

Inductive Identity : Type :=
| WindowsIdentity (volume index : option Z)
| BareIdentity (length : Z).

Definition from_metadata (m : Metadata) : Identity :=
  match family with
  | Windows => WindowsIdentity (volume_serial_number m) (file_index m)
  | Bare => BareIdentity (len m)
  end.

Definition matches (a b : Identity) : bool :=
  match a, b with
  | WindowsIdentity v i, WindowsIdentity v' i' =>
      is_some v && is_some i && bool_decide (v = v') && bool_decide (i = i')
  | _, _ => false
  end.

(** [matches_path]: a path without metadata matches nothing. *)
Definition matches_path (a : Identity) (path : list Component) (d : Disk) : bool * Disk :=
  let (refused, d) := next_turn d in
  match refused, names d !! path with
  | None, Some z => (matches a (from_metadata (metadata z)), d)
  | _, _ => (false, d)
  end.

Definition rename_noreplace (source destination : list Component) (d : Disk) : result unit IoError * Disk :=
  match family with
  | Windows => rename source destination d
  | Bare => (Err (CustomError Unsupported "atomic no-replace rename is unavailable on this platform"), d)
  end.

(** ** Owned paths *)

Record OwnedPath : Type := mkOwnedPath { public_path : list Component; identity : Identity; active : bool }.

(** [create_new_file]: [open] with [create_new], then the identity of the handle. *)
Definition create_new_file (path : list Component) (fresh : Z) (d : Disk) : result (Z * OwnedPath) IoError * Disk :=
  match call (fun m => if is_some (m !! path) then Err (OsError EEXIST) else Ok (<[path := fresh]> m, [])) d with
  | (Err e, d) => (Err e, d)
  | (Ok _, d) => (Ok (fresh, mkOwnedPath path (from_metadata (metadata fresh)) true), d)
  end.

(** [format!(".chp-cleanup-{}", ..)]. *)
Definition private_name (suffix : string) : string := ".chp-cleanup-" +:+ suffix.
Arguments private_name : simpl never.

Definition random_private_name (d : Disk) : result string IoError * Disk :=
  match random d with
  | Some bytes :: rest => (Ok (private_name (hex_suffix bytes)), mkDisk (names d) (path_turns d) rest (lost d))
  | None :: rest =>
      (Err (other "could not generate a private cleanup name"), mkDisk (names d) (path_turns d) rest (lost d))
  | [] => (Err (other "could not generate a private cleanup name"), d)
  end.

Definition sibling (path : list Component) (name : string) : list Component :=
  path_join (default [CurDir] (parent path)) name.

Fixpoint quarantine_loop (attempts : nat) (o : OwnedPath) (d : Disk) : result (option string) IoError * Disk :=
  match attempts with
  | O => (Err (CustomError AlreadyExists "could not reserve a private cleanup quarantine"), d)
  | S attempts =>
      match random_private_name d with
      | (Err e, d) => (Err e, d)
      | (Ok private_name, d) =>
          match rename_noreplace (public_path o) (sibling (public_path o) private_name) d with
          | (Ok _, d) => (Ok (Some private_name), d)
          | (Err e, d) =>
              match error_kind e with
              | NotFound => (Ok None, d)
              | AlreadyExists => quarantine_loop attempts o d
              | _ => (Err e, d)
              end
          end
      end
  end.

Definition quarantine_entry : OwnedPath -> Disk -> result (option string) IoError * Disk := quarantine_loop QUARANTINE_ATTEMPTS.

(** [cleanup]: the path of a quarantine left behind, and the owner, inactive from now on. *)
Definition cleanup (o : OwnedPath) (d : Disk) : option (list Component) * OwnedPath * Disk :=
  if negb (active o) then (None, o, d)
  else
    let o := mkOwnedPath (public_path o) (identity o) false in
    match quarantine_entry o d with
    | (Err _, d) | (Ok None, d) => (None, o, d)
    | (Ok (Some quarantine), d) =>
        let quarantine_path := sibling (public_path o) quarantine in
        let (same, d) := matches_path (identity o) quarantine_path d in
        let (result, d) := if same : bool then remove_file quarantine_path d
                           else rename_noreplace quarantine_path (public_path o) d in
        match result with
        | Ok _ => (None, o, d)
        | Err _ => (Some quarantine_path, o, d)
        end
    end.


(** ** What cleanup may lose *)

(** Others leave the private siblings of the path alone (their names are random),
    and do not create the public path while it is missing. *)
Definition gentle (o : OwnedPath) (t : PathTurn) : Prop :=
  (forall m name, others t m !! sibling (public_path o) (private_name name)
     = m !! sibling (public_path o) (private_name name)) /\
  (forall m, m !! public_path o = None -> others t m !! public_path o = None).

Definition surroundings (o : OwnedPath) (d : Disk) : Prop := Forall (gentle o) (path_turns d).

Definition private_free (o : OwnedPath) (d : Disk) : Prop :=
  forall name, names d !! sibling (public_path o) (private_name name) = None.

Lemma next_turn_spec o d :
  surroundings o d ->
  let d' := (next_turn d).2 in
  surroundings o d' /\ lost d' = lost d /\
  (forall name, names d' !! sibling (public_path o) (private_name name)
     = names d !! sibling (public_path o) (private_name name)) /\
  (names d !! public_path o = None -> names d' !! public_path o = None).
Proof.
  unfold surroundings, next_turn. destruct d as [m [|t rest] rnd l]; simpl; [done|].
  intros [[Hp Hc] Hrest]%Forall_cons. simpl. split; [exact Hrest|]. split; [done|]. split; [intros name; apply Hp|exact (Hc m)].
Qed.

(** The two outcomes of a call, relative to the state others left. *)
Lemma call_spec f d r d' :
  call f d = (r, d') ->
  (exists e, r = Err e /\ d' = (next_turn d).2) \/
  (exists m gone, r = Ok tt /\ f (names (next_turn d).2) = Ok (m, gone) /\
     d' = mkDisk m (path_turns (next_turn d).2) (random (next_turn d).2) (gone ++ lost (next_turn d).2)).
Proof.
  unfold call. destruct (next_turn d) as [[e|] d1]; simpl; [intros [= <- <-]; left; by eexists|].
  destruct (f (names d1)) as [[m gone]|e]; intros [= <- <-]; [right; by exists m, gone|left; by eexists].
Qed.

Lemma rename_spec source destination d r d' :
  rename source destination d = (r, d') ->
  let d1 := (next_turn d).2 in
  (exists e, r = Err e /\ d' = d1) \/
  (exists z, r = Ok tt /\ names d1 !! source = Some z /\
     d' = mkDisk (<[destination := z]> (delete source (names d1))) (path_turns d1) (random d1)
            (option_entry destination (delete source (names d1) !! destination) ++ lost d1)).
Proof.
  intros [?|(m & gone & -> & Hf & ->)]%call_spec; [by left|]. right. simpl.
  destruct (names (next_turn d).2 !! source) as [z|]; [|done]. injection Hf as <- <-. by exists z.
Qed.

Lemma random_private_name_spec d r d' :
  random_private_name d = (r, d') ->
  names d' = names d /\ path_turns d' = path_turns d /\ lost d' = lost d /\
  (forall name, r = Ok name -> exists suffix, name = private_name suffix).
Proof.
  unfold random_private_name. destruct (random d) as [|[bytes|] rest]; intros [= <- <-]; split_and!; try done.
  intros name [= <-]. by eexists.
Qed.

(** Quarantine loses nothing, and leaves the public path missing. *)
Lemma path_quarantine_loop_spec attempts o d r d' :
  surroundings o d -> private_free o d -> quarantine_loop attempts o d = (r, d') ->
  surroundings o d' /\ lost d' = lost d /\
  (forall name, r = Ok (Some name) ->
     names d' !! public_path o = None /\ exists suffix, name = private_name suffix).
Proof.
  revert d. induction attempts as [|attempts IH]; intros d Hs Hf; [by intros [= <- <-]|]. cbn [quarantine_loop].
  destruct (random_private_name d) as [rn d1] eqn:Hr. apply random_private_name_spec in Hr as (Hn & Ht & Hl & Hname).
  assert (Hs1 : surroundings o d1) by (unfold surroundings; by rewrite Ht).
  assert (Hf1 : private_free o d1) by (intros name; rewrite Hn; apply Hf).
  destruct rn as [name|e]; [|by intros [= <- <-]]. destruct (Hname name eq_refl) as [suffix ->].
  unfold rename_noreplace. destruct family.
  - destruct (rename _ _ d1) as [rr d2] eqn:Hren. apply rename_spec in Hren. cbn zeta in Hren.
    destruct (next_turn_spec o d1 Hs1) as (Hs2 & Hl2 & Hp2 & _).
    assert (Hf2 : private_free o (next_turn d1).2) by (intros n; rewrite Hp2; apply Hf1).
    destruct Hren as [(e & -> & ->)|(z & -> & Hz & ->)].
    + destruct (error_kind e); try (intros [= <- <-]; split_and!; [done|congruence|done]).
      intros Hq. destruct (IH _ Hs2 Hf2 Hq) as (? & Hlq & ?). split_and!; [done|congruence|done].
    + intros [= <- <-]. simpl. assert (Hd : delete (public_path o) (names (next_turn d1).2)
        !! sibling (public_path o) (private_name suffix) = None).
      { apply lookup_delete_None. right. apply Hf2. }
      rewrite Hd. simpl. split_and!; [done|congruence|]. intros name [= <-]. split; [|by eexists].
      assert (Hne : sibling (public_path o) (private_name suffix) <> public_path o).
      { intros Heq. pose proof (Hf2 suffix) as Hx. rewrite Heq, Hz in Hx. done. }
      by rewrite lookup_insert_ne, lookup_delete_eq.
  - simpl. by intros [= <- <-].
Qed.

#[local] Ltac loses_nothing := exists []; split_and!; [simpl; congruence|simpl; lia|by constructor].

(** What one cleanup loses. *)
Lemma cleanup_loss o d r o' d' :
  surroundings o d -> private_free o d -> cleanup o d = (r, o', d') ->
  exists l, lost d' = l ++ lost d /\ (length l <= 1)%nat /\
    Forall (fun e => matches (identity o) (from_metadata (metadata e.2)) = true) l.
Proof.
  intros Hs Hf. unfold cleanup. destruct (active o); simpl; [|intros [= _ _ <-]; loses_nothing].
  set (o1 := mkOwnedPath _ _ false). destruct (quarantine_entry o1 d) as [q d1] eqn:Hq.
  destruct (path_quarantine_loop_spec _ o1 d q d1 Hs Hf Hq) as (Hs1 & Hl1 & Hout).
  destruct q as [[name|]|e]; [|intros [= _ _ <-]; loses_nothing|intros [= _ _ <-]; loses_nothing].
  destruct (Hout name eq_refl) as [Hnone [suffix ->]].
  destruct (matches_path (identity o) (sibling (public_path o) (private_name suffix)) d1) as [same d2] eqn:Hm.
  destruct (next_turn_spec o1 d1 Hs1) as (Hs2 & Hl2 & Hp2 & Hnone2).
  assert (Hd2 : d2 = (next_turn d1).2 /\ (same = true -> exists z,
    names d2 !! sibling (public_path o) (private_name suffix) = Some z /\ matches (identity o) (from_metadata (metadata z)) = true)).
  { unfold matches_path in Hm. destruct (next_turn d1) as [[e|] dx]; simpl; [by injection Hm as <- <-|].
    destruct (names dx !! _) as [z|] eqn:Hz; injection Hm as <- <-; split; try done. intros Hx. by exists z. }
  destruct Hd2 as [-> Hsame]. destruct (next_turn_spec o1 _ Hs2) as (_ & Hl3 & Hp3 & Hnone3). destruct same.
  - destruct (Hsame eq_refl) as (z & Hz & Hmz). destruct (remove_file _ _) as [rr d3] eqn:Hrm.
    apply call_spec in Hrm as [(e & -> & ->)|(m & gone & -> & Hrf & ->)].
    + intros [= _ _ <-]. loses_nothing.
    + intros [= _ _ <-]. change (sibling (public_path o) (private_name suffix)) with
        (sibling (public_path o1) (private_name suffix)) in Hrf, Hz. rewrite Hp3, Hz in Hrf. injection Hrf as <- <-.
      exists [(sibling (public_path o1) (private_name suffix), z)]. simpl. split_and!; [congruence|lia|]. by constructor.
  - unfold rename_noreplace. destruct family; [|intros [= _ _ <-]; loses_nothing].
    destruct (rename _ _ _) as [rr d3] eqn:Hren. apply rename_spec in Hren. cbn zeta in Hren.
    destruct Hren as [(e & -> & ->)|(z & -> & Hz & ->)]; intros [= _ _ <-]; [loses_nothing|].
    change (public_path o1) with (public_path o) in Hnone3, Hnone2. simpl.
    rewrite (proj2 (lookup_delete_None _ _ _)) by (right; auto). loses_nothing.
Qed.

(** Where renames are unavailable, cleanup leaves every name to the others. *)
Lemma bare_cleanup_changes_nothing o d r o' d' :
  family = Bare -> cleanup o d = (r, o', d') -> r = None /\ names d' = names d /\ lost d' = lost d.
Proof.
  intros Hb. unfold cleanup, quarantine_entry, QUARANTINE_ATTEMPTS. destruct (active o); simpl; [|by intros [= <- _ <-]].
  destruct (random_private_name d) as [[name|e] d1] eqn:Hr; apply random_private_name_spec in Hr as (Hn & _ & Hl & _);
    [|by intros [= <- _ <-]].
  unfold rename_noreplace. rewrite Hb. simpl. by intros [= <- _ <-].
Qed.

End Ownership.

(** *** A run that loses a newcomer's file *)

(** Files by their number; the process owns 1 under [/run/proxy.pid]. *)
Definition numbered (z : Z) : Metadata := mkMetadata (Some 7) (Some z) 0.

Definition pid_path : list Component := [RootDir; Normal "run"; Normal "proxy.pid"].

Definition pid_owner : OwnedPath := mkOwnedPath pid_path (from_metadata Windows (numbered 1)) true.

(** Someone puts file 2 in its place before the cleanup, and someone else creates
    the path (file 3) while the cleanup holds file 2 in quarantine. *)
Definition restarting : Disk :=
  mkDisk {[pid_path := 1]}
    [mkPathTurn (fun m => <[pid_path := 2]> m) None; mkPathTurn (fun m => m) None; mkPathTurn (fun m => <[pid_path := 3]> m) None]
    [Some "abcdefghijklmnop"] [].

Definition restarted := cleanup Windows numbered pid_owner restarting.

Lemma pid_path_is_public name : sibling pid_path (private_name name) <> pid_path.
Proof. by vm_compute. Qed.

(** ** Theorem *)

(** C38: without descriptors, cleanup is safe only while the public path stays
    missing.  As long as others leave its random quarantine names alone and do not
    create the public path while it is missing, one cleanup loses at most one
    entry, and only a file with the identity it owns.  Without the second
    condition, on Windows it can overwrite a file it does not own and report
    success: putting a foreign file back uses [fs::rename], which replaces what has
    been created under the public path meanwhile. *)
Theorem path_cleanup_needs_the_path_to_stay_missing :
  (forall family metadata o d r o' d', surroundings o d -> private_free o d -> cleanup family metadata o d = (r, o', d') ->
     exists l, lost d' = l ++ lost d /\ (length l <= 1)%nat /\
       Forall (fun e => matches (identity o) (from_metadata family (metadata e.2)) = true) l) /\
  (exists metadata o d o' d' z,
     Forall (fun t => forall m name, others t m !! sibling (public_path o) (private_name name)
       = m !! sibling (public_path o) (private_name name)) (path_turns d) /\
     private_free o d /\ cleanup Windows metadata o d = (None, o', d') /\
     lost d' = (public_path o, z) :: lost d /\ matches (identity o) (from_metadata Windows (metadata z)) = false).
Proof.
  split; [intros; by eapply cleanup_loss|].
  exists numbered, pid_owner, restarting, restarted.1.2, restarted.2, 3. split_and!.
  - repeat constructor; intros m name; simpl; rewrite ?lookup_insert_ne by (apply not_eq_sym, pid_path_is_public); done.
  - intros name. simpl. apply lookup_singleton_ne. apply not_eq_sym, pid_path_is_public.
  - vm_compute. reflexivity.
  - vm_compute. reflexivity.
  - vm_compute. reflexivity.
Qed.

End NonUnix.

(** ** Apple targets *)

Module Apple.

Definition EINVAL : Z := 22.
Definition ENOENT : Z := 2.
Definition ENOATTR : Z := 93.

(** What the ACL calls answer: the handle or [errno], the first entry's result with
    its [errno], and the [errno] of a failed [acl_free]. *)
Record AclAnswers : Type := mkAclAnswers {
  acl_get_fd_np : result unit Z;
  acl_get_entry : Z;
  entry_errno : Z;
  acl_free : result unit Z
}.

Definition apple_acl_error_is_definitively_absent (error : Z) : bool := (error =? ENOENT) || (error =? ENOATTR).

Definition authenticate_directory_acl (a : AclAnswers) : result unit IoError :=
  match acl_get_fd_np a with
  | Err error => if apple_acl_error_is_definitively_absent error then Ok tt else Err (OsError (EOTHER error))
  | Ok _ =>
      let result := acl_get_entry a in
      let entry_error := if result =? -1 then Some (entry_errno a) else None in
      match acl_free a with
      | Err error => Err (OsError (EOTHER error))
      | Ok _ =>
          if result =? 0 then Err (other "boundary directory has an extended ACL")
          else if result =? -1 then
            match entry_error with
            | Some error => if error =? EINVAL then Ok tt else Err (OsError (EOTHER error))
            | None => Err (other "acl_get_entry failure captured errno")
            end
          else Err (other "acl_get_entry returned an invalid result")
      end
  end.

(** A directory is accepted only when it has no ACL, or an empty one that was read
    and freed; any other answer fails. *)
Theorem apple_acl_fails_closed a :
  authenticate_directory_acl a = Ok tt <->
  (exists e, acl_get_fd_np a = Err e /\ (e = ENOENT \/ e = ENOATTR)) \/
  (acl_get_fd_np a = Ok tt /\ acl_free a = Ok tt /\ acl_get_entry a = -1 /\ entry_errno a = EINVAL).
Proof.
  unfold authenticate_directory_acl, apple_acl_error_is_definitively_absent.
  destruct (acl_get_fd_np a) as [[]|e].
  - destruct (acl_free a) as [[]|e']; [|split; [done|naive_solver]].
    destruct (Z.eqb_spec (acl_get_entry a) 0) as [->|]; [split; [done|naive_solver]|].
    destruct (Z.eqb_spec (acl_get_entry a) (-1)) as [->|]; [|split; [done|naive_solver]].
    destruct (Z.eqb_spec (entry_errno a) EINVAL); split; try done; naive_solver.
  - destruct (Z.eqb_spec e ENOENT), (Z.eqb_spec e ENOATTR); simpl; split; try done; naive_solver.
Qed.

(** [stable_directory_path]: the bytes before the first NUL of the buffer that
    [F_GETPATH] filled. *)
Fixpoint from_c_string (buffer : string) : string :=
  match buffer with
  | EmptyString => EmptyString
  | String c rest => if Ascii.eqb c (chr 0) then EmptyString else String c (from_c_string rest)
  end.

Definition stable_directory_path (get_path : result string Z) : result string IoError :=
  match get_path with
  | Err error => Err (OsError (EOTHER error))
  | Ok buffer => Ok (from_c_string buffer)
  end.

End Apple.

(** ** Other Unix targets *)

Module OtherUnix.

Definition unverifiable_directory_acl : result unit IoError :=
  Err (CustomError Unsupported "boundary ACL authority cannot be verified on this Unix target").

Definition unresolvable_directory_path : result string IoError :=
  Err (CustomError Unsupported "stable path resolution from a directory descriptor is unavailable on this Unix target").

Definition unavailable_rename : result unit IoError :=
  Err (CustomError Unsupported "atomic descriptor-relative no-replace rename is unavailable on this platform").

End OtherUnix.
