(* ===== verification/Publication.v ===== *)
(** * Publication of Unix sockets (the Unix listeners of src/api_server.rs)

    A socket is bound inside a private staging directory, given its mode there,
    and only then renamed to its public name, never over anything.  Whatever
    fails on the way, the staged socket and the directory are removed again. *)

From S2P Require Import Prelude RustStr Config FileSystem PathOwnership.

Inductive ListenerError : Type :=
| IncompleteTlsIdentity
| InvalidTls (what : string)
| TcpBind (e : IoError)
| UnixBind (e : IoError)
| UnixUnsupported
| PublicUnsupported.

Section Publication.
Context `{Platform}.

Definition unix_bind {A} (m : Io A) (o : Os) : result A ListenerError * Os :=
  let (r, o) := m o in (map_err UnixBind r, o).

(** *** Path checks *)

Definition ensure_socket_path_available (path : Path) : Os -> result unit ListenerError * Os :=
  unix_bind
    (let* found := attempt (symlink_metadata path) in
     match found with
     | Err e => match error_kind e with NotFound => ret tt | _ => throw e end
     | Ok _ => throw (CustomError AlreadyExists "Unix socket path already exists")
     end).

(** The loop of [ensure_listener_paths_distinct]. *)
Fixpoint distinct_loop (listeners : list ListenerConfig) (paths : gset (list string)) : Io unit :=
  match listeners with
  | [] => ret tt
  | ListenTcp _ :: listeners => distinct_loop listeners paths
  | ListenUnix path :: listeners =>
      let path := components_of path in
      match file_name path with
      | None => throw (CustomError InvalidInput "Unix socket path has no file name")
      | Some name =>
          let* canonical_parent := canonicalize (parent_or_dot path) in
          let identity := canonical_parent ++ [name] in
          if bool_decide (identity ∈ paths)
          then throw (CustomError AlreadyExists "Unix listener paths alias each other")
          else distinct_loop listeners ({[identity]} ∪ paths)
      end
  end.

Definition ensure_listener_paths_distinct (listeners : list ListenerConfig) : Os -> result unit ListenerError * Os :=
  unix_bind (distinct_loop listeners ∅).

(** *** Binding *)

Definition staged_name : string := "s".

(** A call on the socket itself. *)
Definition socket_call : Io unit := look (fun _ => Ok tt).

(** [Drop for OwnedPath]. *)
Definition drop_owned (o : OwnedPath) : Io unit := do* cleanup o in ret tt.

(** From the ownership of the staged entry on; the owner is dropped on an error. *)
Definition prepare_and_publish (anchor : AnchoredDirectory) (staging : PrivateDirectory) (owner : OwnedPath)
    (path : Path) (public_name : string) (before_chmod : Io unit) : Io OwnedPath :=
  guarded
    (do* socket_call in                                   (* listen(1024) *)
     do* socket_call in                                   (* set_nonblocking(true) *)
     do* prepare_socket staging owner 432 before_chmod in (* 0o660 *)
     publish_into owner anchor path public_name)
    (drop_owned owner).

Definition bind_staged (anchor : AnchoredDirectory) (staging : PrivateDirectory) (path : Path) (public_name : string)
    (before_chmod : Io unit) : Io OwnedPath :=
  let* staged_directory := stable_path staging in
  do* socket_call in                                      (* Socket::new *)
  do* bindat staged_directory staged_name in
  let* owned := attempt (own_entry staging staged_name) in
  match owned with
  | Ok owner => prepare_and_publish anchor staging owner path public_name before_chmod
  | Err e => do* remove_entry staging staged_name in throw e
  end.

(** [bind_unix_socket_with_stage_hook]: the staging directory is dropped at the
    end however it ends. *)
Definition bind_unix_socket_with_stage_hook (path : Path) (after_parent_capture_before_bind before_chmod : Io unit) :
    Os -> result OwnedPath ListenerError * Os :=
  unix_bind
    match file_name path with
    | None => throw (CustomError InvalidInput "Unix socket path has no file name")
    | Some public_name =>
        let* anchor := capture_anchor (parent_or_dot path) in
        do* after_parent_capture_before_bind in
        let* staging := create_private_directory anchor in
        finally (bind_staged anchor staging path public_name before_chmod) (drop_private_directory staging)
    end.

Definition bind_unix_socket (path : Path) : Os -> result OwnedPath ListenerError * Os :=
  bind_unix_socket_with_stage_hook path (ret tt) (ret tt).

(** ** Path checks *)

(** The identities of the Unix listeners in [f]. *)
Definition identity_of (f : Fs) (path : string) : result (list string) IoError :=
  match file_name (components_of path) with
  | None => Err (CustomError InvalidInput "Unix socket path has no file name")
  | Some name =>
      let? parent := map_err OsError (realpath f (parent_or_dot (components_of path))) in
      Ok (parent ++ [name])
  end.

Definition unix_paths (listeners : list ListenerConfig) : list string :=
  omap (fun l => match l with ListenUnix p => Some p | ListenTcp _ => None end) listeners.

Lemma distinct_loop_spec listeners seen o :
  quiet o ->
  (distinct_loop listeners seen o).2 = o /\
  ((distinct_loop listeners seen o).1 = Ok tt <->
   exists ids, collect (identity_of (fs o)) (unix_paths listeners) = Ok ids /\ NoDup ids /\ forall x, x ∈ ids -> x ∉ seen).
Proof.
  intros Hq. revert seen. induction listeners as [|[a|path] ls IH]; intros seen; cbn [distinct_loop].
  - split; [done|]. split; [|done]. intros _. exists []. split; [done|]. split; [apply NoDup_nil_2|]. by intros ? ?%elem_of_nil.
  - apply IH.
  - unfold unix_paths in *. cbn [omap list_omap collect]. unfold identity_of at 1.
    destruct (file_name (components_of path)) as [name|]; [|split; [done|]; split; [done|]; by intros (? & ? & _)].
    unfold bind, canonicalize. rewrite look_quiet by done. destruct (realpath _ _) as [parent|e]; cbn [map_err];
      [|split; [done|]; split; [done|]; by intros (? & ? & _)].
    case_bool_decide as Hin.
    + split; [done|]. split; [done|]. intros (ids & Hids & Hnd & Hseen).
      destruct (collect _ _) as [rest|]; [|done]. injection Hids as <-. destruct (Hseen (parent ++ [name])); [set_solver|done].
    + destruct (IH ({[parent ++ [name]]} ∪ seen)) as [H2 Hiff]. split; [done|]. rewrite Hiff. split.
      * intros (ids & Hids & Hnd & Hs). rewrite Hids. eexists. split; [done|]. split; [|set_solver].
        apply NoDup_cons. split; [set_solver|done].
      * destruct (collect _ _) as [rest|]; [|by intros (? & ? & _)]. intros (ids & [= <-] & [Hn Hnd]%NoDup_cons & Hs).
        exists rest. split; [done|]. split; [done|]. set_solver.
Qed.

(** Startup accepts a set of listeners exactly when every Unix path has a
    file name and a parent directory that resolves, and no two of them name the
    same entry of the same directory; the check changes nothing. *)
Theorem listener_paths_are_distinct listeners o :
  quiet o ->
  (ensure_listener_paths_distinct listeners o).2 = o /\
  ((ensure_listener_paths_distinct listeners o).1 = Ok tt <->
   exists ids, collect (identity_of (fs o)) (unix_paths listeners) = Ok ids /\ NoDup ids).
Proof.
  intros Hq. unfold ensure_listener_paths_distinct, unix_bind. destruct (distinct_loop_spec listeners ∅ o Hq) as [H2 Hiff].
  destruct (distinct_loop listeners ∅ o) as [r o1]. simpl in *. subst o1. split; [done|].
  split.
  - intros Hr. destruct r as [[]|]; [|done]. destruct (proj1 Hiff eq_refl) as (ids & ? & ? & _). by exists ids.
  - intros (ids & Hids & Hnd). rewrite (proj2 Hiff); [done|]. exists ids. split_and!; [done|done|set_solver].
Qed.

(** ** Publication in a file system at rest *)

(** Nodes keep what they are and only gain entries. *)
Definition grows (f f' : Fs) : Prop :=
  root f' = root f /\
  forall k n, nodes f !! k = Some n -> exists es, nodes f' !! k = Some (set_entries es n) /\ entries n ⊆ es.

Lemma component_grows f f' c k : grows f f' -> component_holds f c k -> component_holds f' c k.
Proof. intros [_ Hg] (Hi & n & Hn & Hrest). split; [done|]. destruct (Hg k n Hn) as (es & He & _). by exists (set_entries es n). Qed.

Lemma lookup_grows f f' d name i : grows f f' -> lookup_at f d name = Ok i -> lookup_at f' d name = Ok i.
Proof.
  intros [_ Hg]. unfold lookup_at, directory_entries. destruct (nodes f !! d) as [n|] eqn:Hd; [|done].
  destruct (Hg d n Hd) as (es & -> & Hsub). simpl. destruct (is_dir_mode (st_mode n)); [|done].
  intros Hl%ok_or_Ok. by rewrite (lookup_weaken _ _ _ _ Hl Hsub).
Qed.

Lemma chain_grows f f' cs d : grows f f' -> chain f cs d -> chain f' cs d.
Proof.
  intros Hg. destruct cs as [|c cs]; simpl; rewrite (proj1 Hg); [done|]. intros [Hc Hch]. split; [by eapply component_grows|].
  revert Hch. generalize (root f). induction cs as [|c1 cs IH]; intros d0; simpl; [done|].
  intros (name & child & Hn & Hl & Hh & Hch). exists name, child. split_and!; [done|by eapply lookup_grows|by eapply component_grows|by apply IH].
Qed.

(** The name of the next staging directory. *)
Definition stage_name (bytes : string) : string := ".chp-stage-" +:+ hex_suffix (take_bytes 10 bytes).

(** The socket's inode, as bound and as published. *)
Definition bound_socket : Node := mkNode (Z.lor S_IFSOCK (Z.land 511 (Z.lnot umask))) euid XNoData XNoData ∅ None.
Definition published_socket : Node := mkNode (Z.lor S_IFSOCK 432) euid XNoData XNoData ∅ None.

Lemma bound_mode x : Z.land (Z.lor S_IFSOCK (Z.land 511 x)) S_IFMT = S_IFSOCK.
Proof. rewrite (Z.land_comm 511 x), Z.land_lor_distr_l, <- Z.land_assoc. by rewrite Z.land_0_r. Qed.

Section Quiet.
Context `{!PlatformLaws} (f : Fs) (b : AuthenticatedBoundary) (d : FileIdentity) (nd : Node).
Context (cs : list BoundaryComponent) (c : BoundaryComponent).
Context (Hcs : components b = cs ++ [c]) (Hch : chain f (components b) d) (Hd : nodes f !! d = Some nd).
#[local] Set Default Proof Using "All".

Definition the_anchor : AnchoredDirectory := mkAnchored d (canonical_path b) b.
Definition the_staging (st : string) (j : FileIdentity) : PrivateDirectory := mkPrivate d (canonical_path b) b st j j true.

Lemma anchor_node : is_dir_mode (st_mode nd) = true /\ acl_default nd = XNoData /\ component_holds f c d.
Proof.
  pose proof Hch as Hc. rewrite Hcs in Hc. apply chain_last in Hc. pose proof Hc as (_ & n & Hn & (Hm & _ & _ & Ha) & _).
  rewrite Hd in Hn. by injection Hn as <-.
Qed.

Lemma shape_grows i s j es ej :
  nodes f !! i = None -> nodes f !! j = None -> entries nd ⊆ es -> grows f (shape (set_node i s f) d nd j es ej).
Proof.
  intros Hi Hj Hes. split; [done|]. intros k n Hk. destruct (decide (k = d)) as [->|Hkd].
  - rewrite Hd in Hk. injection Hk as <-. exists es. split; [|done]. simpl. rewrite lookup_insert_ne by congruence. by rewrite lookup_insert_eq.
  - exists (entries n). split; [|done]. simpl. rewrite !lookup_insert_ne by congruence. rewrite Hk. by destruct n.
Qed.

Lemma staging_grows j es ej : nodes f !! j = None -> entries nd ⊆ es -> grows f (shape f d nd j es ej).
Proof.
  intros Hj Hes. destruct anchor_node as (Hm & _). split; [done|]. intros k n Hk. destruct (decide (k = d)) as [->|Hkd].
  - rewrite Hd in Hk. injection Hk as <-. exists es. split; [by apply shape_d|done].
  - exists (entries n). split; [|done]. rewrite (shape_other _ _ _ _ Hd Hm Hj _ _ k n) by done. by destruct n.
Qed.

Lemma ancestors_grown o : quiet o -> grows f (fs o) -> authenticate_retained_with_ancestors b d o = (Ok tt, o).
Proof. intros Hq Hg. eapply ancestors_run; [done|done|]. by eapply chain_grows. Qed.

Lemma stage_quiet o bytes rest :
  quiet o -> fs o = f -> entropy o = Some bytes :: rest -> entries nd !! stage_name bytes = None ->
  exists j o', create_private_directory the_anchor o = (Ok (the_staging (stage_name bytes) j), o') /\
    quiet o' /\ entropy o' = rest /\ nodes f !! j = None /\ fs o' = shape f d nd j (<[stage_name bytes := j]> (entries nd)) ∅.
Proof.
  intros Hq Hf Hent Hfree. destruct anchor_node as (Hm & Hacl & _). set (o1 := mkOs (fs o) (turns o) rest (actions o)).
  assert (Hname : random_stage_name o = (Ok (stage_name bytes), o1)).
  { unfold random_stage_name, bind, rand_bytes. by rewrite Hent. }
  destruct (create_private_quiet d b (stage_name bytes) false o1 nd) as (o2 & j & Hmade & Hq2 & He2 & Hj & Hf2); try done;
    [by rewrite <- Hd, <- Hf|]. cbn [fs o1] in Hj, Hf2. rewrite Hf in Hj, Hf2.
  exists j, o2. split; [|done]. unfold create_private_directory, create_private_directory_with_fault.
  run ltac:(apply ancestors_grown; [done|]; rewrite Hf; split; [done|]; intros k n Hk; exists (entries n); split; [by destruct n|done]).
  unfold QUARANTINE_ATTEMPTS. cbn [create_private_loop]. run ltac:(exact Hname).
  erewrite bind_attempt by exact Hmade. cbv beta iota. run ltac:(apply guarded_run, look_run; done). done.
Qed.

(** *** The staged socket *)

Definition child_component (st : string) (j : FileIdentity) : BoundaryComponent := mkComponent j (Some st) euid 0.

Definition the_owner (st : string) (j i : FileIdentity) : OwnedPath :=
  mkOwned (absolute ((canonical_path b ++ [st]) ++ [staged_name])) i true j (canonical_path b ++ [st]) staged_name
    (mkBoundary (canonical_path b ++ [st]) (components b ++ [child_component st j])).

Lemma private_is_safe es : safe_directory (set_entries es private_node).
Proof. unfold safe_directory, boundary_mode_is_safe. simpl. by rewrite Z.eqb_refl. Qed.

(** The state with the socket [i] of inode [s] staged. *)
Definition staged (i : FileIdentity) (s : Node) (j : FileIdentity) (es : gmap string FileIdentity) : Fs :=
  shape (set_node i s f) d nd j es {[staged_name := i]}.

Section Staged.
Context (i j : FileIdentity) (Hi : nodes f !! i = None) (Hj : nodes f !! j = None) (Hij : i <> j).

Lemma staged_d s : nodes (set_node i s f) !! d = Some nd.
Proof. simpl. by rewrite lookup_insert_ne by congruence. Qed.

Lemma staged_j s : nodes (set_node i s f) !! j = None.
Proof. simpl. by rewrite lookup_insert_ne. Qed.

Lemma staged_private s es : nodes (staged i s j es) !! j = Some (set_entries {[staged_name := i]} private_node).
Proof. unfold staged. by apply shape_j; [apply staged_d|apply anchor_node|apply staged_j]. Qed.

Lemma staged_inode s es ej : nodes (shape (set_node i s f) d nd j es ej) !! i = Some s.
Proof.
  apply shape_other; [apply staged_d|apply anchor_node|apply staged_j| |congruence]. simpl. by rewrite lookup_insert_eq.
Qed.

Lemma staged_stat s es : stat_call (staged i s j es) j staged_name = Ok (i, s).
Proof. eapply stat_known; [apply staged_private|done|done|apply staged_inode]. Qed.

Lemma own_quiet o st es :
  quiet o -> fs o = staged i bound_socket j es -> own_entry (the_staging st j) staged_name o = (Ok (the_owner st j i), o).
Proof.
  intros Hq Hf. unfold own_entry. run ltac:(apply look_run; [done|]; rewrite Hf; apply staged_stat).
  run ltac:(by apply look_run). unfold with_child. erewrite bind_run.
  2: { run ltac:(eapply decides_run; [apply decides_boundary|done|]; rewrite Hf; exists (set_entries {[staged_name := i]} private_node);
         split; [apply staged_private|split; [apply private_is_safe|done]]).
       run ltac:(eapply decides_run; [apply decides_from_file|done|]; rewrite Hf; split; [done|]; by rewrite staged_private).
       run_require ltac:(by rewrite bool_decide_true). done. }
  done.
Qed.

Lemma prepare_quiet o st es :
  quiet o -> fs o = staged i bound_socket j es ->
  exists o', prepare_socket (the_staging st j) (the_owner st j i) 432 (ret tt) o = (Ok tt, o') /\
    quiet o' /\ entropy o' = entropy o /\ fs o' = staged i published_socket j es.
Proof.
  intros Hq Hf. unfold prepare_socket, verify_owned_socket. cbn [directory public_name owned_identity the_owner].
  set (o2 := mkOs (staged i published_socket j es) [] (entropy o) (ModeSet i 432 :: actions o)). exists o2. split; [|done].
  run ltac:(eapply decides_run; [apply decides_from_file|done|]; rewrite Hf; split; [done|]; by rewrite staged_private).
  run_require ltac:(by rewrite bool_decide_true). erewrite bind_run.
  2: { run ltac:(apply look_run; [done|]; rewrite Hf; apply staged_stat). unfold is_socket_mode, bound_socket. cbn [st_mode].
       by rewrite bool_decide_true, bound_mode by done. }
  run done. rewrite (bind_run _ _ _ i o2).
  2: { apply change_run; [done|]. rewrite Hf. unfold chmod_call. rewrite staged_stat. cbn [link_to bound_socket default].
       unfold staged at 1. rewrite staged_inode. cbn [ok_or st_mode bound_socket]. rewrite bound_mode. do 2 f_equal.
       unfold staged, shape, set_node. cbn [nodes root]. f_equal.
       rewrite (insert_insert_ne _ i j), (insert_insert_ne _ i d) by congruence. by rewrite insert_insert_eq. }
  run ltac:(apply look_run; [done|]; apply staged_stat). by rewrite bool_decide_true by done.
Qed.

End Staged.

Lemma bind_quiet o j es :
  quiet o -> nodes f !! j = None -> fs o = shape f d nd j es ∅ ->
  exists i o', nodes f !! i = None /\ i <> j /\ bindat j staged_name o = (Ok i, o') /\
    quiet o' /\ entropy o' = entropy o /\ fs o' = staged i bound_socket j es.
Proof.
  intros Hq Hj Hf. destruct anchor_node as (Hm & _). set (i := fresh_identity (fs o)).
  pose proof (fresh_identity_new (fs o)) as Hi. fold i in Hi. rewrite Hf in Hi. simpl in Hi.
  apply lookup_insert_None in Hi as [Hi Hji]. apply lookup_insert_None in Hi as [Hi Hdi].
  exists i, (mkOs (staged i bound_socket j es) [] (entropy o) (Created j staged_name i :: actions o)).
  split_and!; try done. apply change_run; [done|]. unfold bind_call, add_entry, new_node. fold i. rewrite Hf.
  rewrite (shape_j _ _ _ _ Hd Hm Hj). cbn. do 2 f_equal. unfold staged, shape, set_node. cbn [nodes root]. f_equal.
  rewrite (insert_insert_ne _ i j), (insert_insert_ne _ i d) by done. by rewrite insert_insert_eq.
Qed.

Lemma retained_quiet o es :
  quiet o -> nodes (fs o) !! d = Some (set_entries es nd) -> authenticate_retained b d o = (Ok tt, o).
Proof.
  intros Hq Hn. destruct anchor_node as (_ & _ & Hi & n & Hdn & Hs & Ho & Hr). rewrite Hd in Hdn. injection Hdn as <-.
  unfold authenticate_retained. rewrite Hcs, last_snoc. eapply (decides_run _ _ _ tt); [apply decides_component|done|].
  split; [done|]. by exists (set_entries es nd).
Qed.

Lemma drop_staging_quiet o st j es n :
  quiet o -> nodes (fs o) !! d = Some (set_entries es nd) -> es !! st = Some j -> nodes (fs o) !! j = Some n ->
  is_dir_mode (st_mode n) = true -> entries n = ∅ ->
  exists o', (drop_private_directory (the_staging st j) o).2 = o' /\ quiet o' /\ entropy o' = entropy o /\
    fs o' = set_node d (set_entries (delete st es) nd) (fs o).
Proof.
  intros Hq Hn Hst Hj Hdir Hempty. destruct anchor_node as (Hm & _).
  assert (Hstat : stat_call (fs o) d st = Ok (j, n)) by (by eapply stat_known).
  unfold drop_private_directory. cbn [pd_active pd_parent pd_parent_boundary pd_name pd_identity the_staging negb].
  erewrite bind_attempt by (by eapply retained_quiet). cbv beta iota. erewrite bind_attempt by (by apply look_run). cbv beta iota.
  rewrite bool_decide_true, Hdir by done. cbn [andb]. erewrite bind_attempt.
  2: { apply change_run; [done|]. unfold rmdir_call. rewrite Hstat, Hdir, bool_decide_true by done. done. }
  cbn. eexists. split; [done|]. cbn [quiet turns entropy fs]. split; [done|]. split; [done|]. unfold remove_entry_call. by rewrite Hn.
Qed.

(** The steps up to the bound and owned socket. *)
Lemma bind_staged_quiet o1 o2 i j st es path name :
  quiet o1 -> nodes f !! i = None -> nodes f !! j = None -> i <> j -> entries nd ⊆ es -> fs o1 = shape f d nd j es ∅ ->
  bindat j staged_name o1 = (Ok i, o2) -> quiet o2 -> fs o2 = staged i bound_socket j es ->
  bind_staged the_anchor (the_staging st j) path name (ret tt) o1
    = prepare_and_publish the_anchor (the_staging st j) (the_owner st j i) path name (ret tt) o2.
Proof.
  intros Hq1 Hi Hj Hij Hes Hf1 Hbind Hq2 Hf2. unfold bind_staged.
  assert (Hanc : authenticate_retained_with_ancestors b d o1 = (Ok tt, o1)).
  { apply ancestors_grown; [done|]. rewrite Hf1. by apply staging_grows. }
  rewrite (bind_run _ _ _ j o1).
  2: { unfold stable_path. cbn [pd_parent pd_parent_boundary the_staging]. rewrite (bind_run _ _ _ _ _ Hanc). cbv beta zeta.
       by rewrite (bind_run _ _ _ _ _ Hanc). }
  run ltac:(by apply look_run). rewrite (bind_run _ _ _ _ _ Hbind).
  by erewrite bind_attempt by (by apply (own_quiet i j Hi Hj Hij o2 st es)).
Qed.

Section Publish.
Context (i j : FileIdentity) (Hi : nodes f !! i = None) (Hj : nodes f !! j = None) (Hij : i <> j) (st : string).
Context (es : gmap string FileIdentity) (Hes : entries nd ⊆ es) (path : Path) (name : string).

Lemma publish_quiet o :
  quiet o -> fs o = staged i published_socket j es ->
  match es !! name with
  | None => exists o', publish_into (the_owner st j i) the_anchor path name o
        = (Ok (mkOwned path i true d (canonical_path b) name b), o') /\ quiet o' /\ entropy o' = entropy o /\
      fs o' = shape (set_node i published_socket f) d nd j (<[name := i]> es) ∅
  | Some _ => publish_into (the_owner st j i) the_anchor path name o = (Err (OsError EEXIST), o)
  end.
Proof.
  intros Hq Hf. destruct anchor_node as (Hm & _). pose proof (staged_d i j Hi Hj Hij published_socket) as Hd1.
  pose proof (staged_j i j Hi Hj Hij published_socket) as Hj1. unfold publish_into. cbn [anchor anchor_boundary the_anchor].
  assert (Hanc : authenticate_retained_with_ancestors b d o = (Ok tt, o)).
  { apply ancestors_grown; [done|]. rewrite Hf. by apply shape_grows. }
  destruct (es !! name) as [k|] eqn:Hname.
  - rewrite (bind_run _ _ _ _ _ Hanc). run ltac:(by apply look_run). unfold bind, renameat_noreplace, change, disturbed, next_fault.
    rewrite Hq, Hf. unfold rename_call, staged. cbn [directory public_name the_owner].
    rewrite shape_lookup_j by done. rewrite lookup_singleton_eq. cbn [ok_or]. unfold directory_entries.
    rewrite shape_d by done. cbn [st_mode set_entries entries]. by rewrite Hm, Hname.
  - eexists (mkOs _ [] _ _). split; [|split; [done|split]].
    + rewrite (bind_run _ _ _ _ _ Hanc). run ltac:(by apply look_run). erewrite bind_run by
        (apply change_run; [done|]; rewrite Hf; by apply shape_move_back). done.
    + done.
    + done.
Qed.

(** What is left of a publication that failed: the empty staging directory. *)
Definition undone (rest : list (option string)) (o' : Os) : Prop :=
  quiet o' /\ entropy o' = rest /\ nodes (fs o') !! d = Some (set_entries es nd) /\ nodes (fs o') !! j = Some private_node /\
  root (fs o') = root f /\
  forall k n, nodes f !! k = Some n -> k <> d -> nodes (fs o') !! k = Some n.

Lemma owner_settled s o : fs o = staged i s j es -> settled (fs o) (the_owner st j i) (set_entries {[staged_name := i]} private_node).
Proof.
  intros Hf. rewrite Hf. split; [by apply staged_private|]. exists (child_component st j). split; [apply last_snoc|].
  split; [done|]. eexists. split; [by apply staged_private|]. split; [apply private_is_safe|done].
Qed.

Lemma drop_owner_quiet o bytes rest :
  quiet o -> fs o = staged i published_socket j es -> entropy o = Some bytes :: rest ->
  undone rest (drop_owned (the_owner st j i) o).2.
Proof.
  intros Hq Hf Hent. destruct anchor_node as (Hm & _). pose proof (staged_d i j Hi Hj Hij published_socket) as Hd1.
  pose proof (staged_j i j Hi Hj Hij published_socket) as Hj1.
  destruct (cleanup_quiet (the_owner st j i) o (set_entries {[staged_name := i]} private_node) bytes rest)
    as (j2 & o' & Hcl & Hq' & He' & Hj2 & Hf'); try done.
  { by eapply owner_settled. }
  { exists published_socket. split; [|done]. rewrite Hf. by apply staged_inode. }
  unfold drop_owned. rewrite (bind_run _ _ _ _ _ Hcl). cbn [ret snd]. rewrite Hf in Hj2, Hf'.
  assert (Hcleaned : cleaned (the_owner st j i) {[staged_name := i]} = ∅).
  { unfold cleaned. rewrite bool_decide_true by done. apply delete_singleton_eq. }
  cbn [entries set_entries] in Hf'. rewrite Hcleaned in Hf'.
  assert (Hkeep : forall k n, k <> j -> nodes (staged i published_socket j es) !! k = Some n -> nodes (fs o') !! k = Some n).
  { intros k n Hk Hn. rewrite Hf'. by apply (shape_other _ _ _ _ (staged_private i j Hi Hj Hij published_socket es) eq_refl Hj2). }
  split; [done|]. split; [done|]. split_and!.
  - apply Hkeep; [congruence|]. by apply shape_d.
  - rewrite Hf'. apply (shape_d _ _ _ _ (staged_private i j Hi Hj Hij published_socket es) eq_refl Hj2).
  - by rewrite Hf'.
  - intros k n Hk Hkd. apply Hkeep; [congruence|]. apply shape_other; [done..| |done]. simpl. by rewrite lookup_insert_ne by congruence.
Qed.

Lemma prepare_and_publish_quiet o bytes rest :
  quiet o -> fs o = staged i bound_socket j es -> entropy o = Some bytes :: rest ->
  match es !! name with
  | None => exists o', prepare_and_publish the_anchor (the_staging st j) (the_owner st j i) path name (ret tt) o
        = (Ok (mkOwned path i true d (canonical_path b) name b), o') /\ quiet o' /\ entropy o' = Some bytes :: rest /\
      fs o' = shape (set_node i published_socket f) d nd j (<[name := i]> es) ∅
  | Some _ => exists o', prepare_and_publish the_anchor (the_staging st j) (the_owner st j i) path name (ret tt) o
        = (Err (OsError EEXIST), o') /\ undone rest o'
  end.
Proof.
  intros Hq Hf Hent. destruct (prepare_quiet i j Hi Hj Hij o st es Hq Hf) as (o2 & Hprep & Hq2 & Hent2 & Hf2).
  pose proof (publish_quiet o2 Hq2 Hf2) as Hpub. unfold prepare_and_publish, guarded.
  do 2 run ltac:(by apply look_run). rewrite (bind_run _ _ _ _ _ Hprep). destruct (es !! name) as [k|].
  - eexists. rewrite Hpub. split; [done|]. eapply drop_owner_quiet; [done|done|]. by rewrite Hent2.
  - destruct Hpub as (o' & -> & Hq' & He' & Hf'). exists o'. split_and!; [done|done| |done]. by rewrite He', Hent2.
Qed.

End Publish.

End Quiet.

(** Binding, in full: the owner, and the file system and the entropy it leaves. *)
Lemma publication_quiet `{!PlatformLaws} path name b d nd o b1 b2 rest :
  quiet o -> file_name path = Some name -> boundary_of (fs o) (parent_or_dot path) b d -> nodes (fs o) !! d = Some nd ->
  entropy o = Some b1 :: Some b2 :: rest -> entries nd !! stage_name b1 = None -> stage_name b1 <> name ->
  exists o', quiet o' /\
  match entries nd !! name with
  | None => exists i, bind_unix_socket path o = (Ok (mkOwned path i true d (canonical_path b) name b), o') /\ entropy o' = Some b2 :: rest /\
      root (fs o') = root (fs o) /\ nodes (fs o) !! i = None /\ nodes (fs o') !! i = Some published_socket /\
      nodes (fs o') !! d = Some (set_entries (<[name := i]> (entries nd)) nd) /\
      forall k n, k <> d -> nodes (fs o) !! k = Some n -> nodes (fs o') !! k = Some n
  | Some _ => bind_unix_socket path o = (Err (UnixBind (OsError EEXIST)), o') /\ entropy o' = rest /\
      root (fs o') = root (fs o) /\ forall k n, nodes (fs o) !! k = Some n -> nodes (fs o') !! k = Some n
  end.
Proof.
  intros Hq Hn Hb Hd Hent Hfree Hne. destruct (boundary_last _ _ _ _ Hb) as (cs & c & Hcs). pose proof Hb as (_ & _ & Hch).
  destruct (anchor_node (fs o) b d nd cs c Hcs Hch Hd) as (Hm & _).
  destruct (stage_quiet (fs o) b d nd cs c Hcs Hch Hd o b1 _ Hq eq_refl Hent Hfree) as (j & o1 & Hst & Hq1 & Hent1 & Hj & Hf1).
  set (st := stage_name b1) in *. set (es := <[st := j]> (entries nd)) in *.
  assert (Hsub : entries nd ⊆ es) by (by apply insert_subseteq).
  assert (Hesst : es !! st = Some j) by (unfold es; by rewrite lookup_insert_eq).
  assert (Hesname : es !! name = entries nd !! name) by (unfold es; by rewrite lookup_insert_ne).
  destruct (bind_quiet (fs o) b d nd cs c Hcs Hch Hd o1 j es Hq1 Hj Hf1) as (i & o2 & Hi & Hij & Hbind & Hq2 & Hent2 & Hf2).
  pose proof (prepare_and_publish_quiet (fs o) b d nd cs c Hcs Hch Hd i j Hi Hj Hij st es Hsub path name o2 b2 rest Hq2 Hf2) as Hpp.
  pose proof (bind_staged_quiet (fs o) b d nd cs c Hcs Hch Hd o1 o2 i j st es path name Hq1 Hi Hj Hij Hsub Hf1 Hbind Hq2 Hf2) as Hbs.
  assert (Hall : bind_unix_socket path o = unix_bind (finally (bind_staged (the_anchor b d) (the_staging b d st j) path name (ret tt))
    (drop_private_directory (the_staging b d st j))) o1).
  { unfold bind_unix_socket, bind_unix_socket_with_stage_hook, unix_bind. rewrite Hn. unfold capture_anchor.
    rewrite (bind_run _ _ _ (the_anchor b d) o); [|by rewrite (bind_run _ _ _ (b, d) o) by (by eapply decides_run; [apply decides_capture| |])].
    run done. by rewrite (bind_run _ _ _ _ _ Hst). }
  rewrite Hall. unfold unix_bind, finally. rewrite Hbs, Hesname in *. specialize (Hpp ltac:(by rewrite Hent2)).
  destruct (entries nd !! name) as [k|] eqn:Hname.
  - destruct Hpp as (o3 & -> & Hq3 & He3 & Hd3 & Hj3 & Hr3 & Hrest).
    destruct (drop_staging_quiet (fs o) b d nd cs c Hcs Hch Hd o3 st j es private_node) as (o4 & <- & Hq4 & He4 & Hf4); try done.
    eexists. split; [exact Hq4|]. split; [done|]. split; [by rewrite He4|]. split; [by rewrite Hf4|]. intros k' n Hk. rewrite Hf4. simpl.
    destruct (decide (k' = d)) as [->|Hkd]; [|by rewrite lookup_insert_ne by done; apply Hrest].
    rewrite lookup_insert_eq, Hd in *. injection Hk as <-. unfold es. rewrite delete_insert_id by done. by destruct nd.
  - destruct Hpp as (o3 & -> & Hq3 & He3 & Hf3).
    pose proof (staged_d (fs o) b d nd cs c Hcs Hch Hd i j Hi Hj Hij published_socket) as Hd1.
    pose proof (staged_j (fs o) b d nd cs c Hcs Hch Hd i j Hi Hj Hij published_socket) as Hj1.
    destruct (drop_staging_quiet (fs o) b d nd cs c Hcs Hch Hd o3 st j (<[name := i]> es) private_node) as (o4 & <- & Hq4 & He4 & Hf4);
      [done|by rewrite Hf3; apply shape_d|by rewrite lookup_insert_ne|by rewrite Hf3; apply (shape_j _ _ _ _ Hd1 Hm Hj1)|done|done|].
    eexists. split; [exact Hq4|]. exists i. split; [done|]. split; [by rewrite He4|]. rewrite Hf4, Hf3, (shape_set_d _ _ _ _ Hd1 Hm Hj1), delete_insert_ne by done. unfold es. rewrite delete_insert_id by done.
    split_and!; [done|done|by apply (staged_inode (fs o) b d nd cs c)|by apply shape_d|]. intros k n Hkd Hk.
    apply shape_other; [done..| |done]. simpl. by rewrite lookup_insert_ne by congruence.
Qed.

(** In a file system at rest, binding a Unix socket puts at
    the configured name, and nowhere else, a new socket that has mode 0660 from
    the moment it is there; where the name is taken it fails and leaves every
    inode, the directory included, as it was. *)
Theorem unix_socket_publication `{!PlatformLaws} path name b d nd o b1 b2 rest :
  quiet o -> file_name path = Some name -> boundary_of (fs o) (parent_or_dot path) b d -> nodes (fs o) !! d = Some nd ->
  entropy o = Some b1 :: Some b2 :: rest -> entries nd !! stage_name b1 = None -> stage_name b1 <> name ->
  match entries nd !! name with
  | None => exists ow o', bind_unix_socket path o = (Ok ow, o') /\
      nodes (fs o) !! owned_identity ow = None /\ nodes (fs o') !! owned_identity ow = Some published_socket /\
      nodes (fs o') !! d = Some (set_entries (<[name := owned_identity ow]> (entries nd)) nd) /\
      forall k n, k <> d -> nodes (fs o) !! k = Some n -> nodes (fs o') !! k = Some n
  | Some _ => exists o', bind_unix_socket path o = (Err (UnixBind (OsError EEXIST)), o') /\
      forall k n, nodes (fs o) !! k = Some n -> nodes (fs o') !! k = Some n
  end.
Proof.
  intros Hq Hn Hb Hd Hent Hfree Hne. destruct (publication_quiet path name b d nd o b1 b2 rest) as (o' & _ & Hp); try done.
  destruct (entries nd !! name) as [k|].
  - destruct Hp as (Hbind & _ & _ & Hrest). by exists o'.
  - destruct Hp as (i & Hbind & _ & _ & Hi & Hs & Hdir & Hrest). eexists _, o'. split; [exact Hbind|]. done.
Qed.

(** ** Publication while others change the file system *)




















End Publication.

(** ** Witnesses *)

Module PublicationExamples.
Import SimplePlatform OwnershipExamples.

Definition socket_path : Path := components_of "/run/proxy.sock".

Lemma listener_paths_are_distinct_witness :
  quiet (start []) /\
  (ensure_listener_paths_distinct [ListenUnix "/run/a"; ListenTcp "127.0.0.1:8000"; ListenUnix "/run/./b"] (start [])).1 = Ok tt.
Proof.
  split; [done|]. apply (listener_paths_are_distinct _ (start []) eq_refl). eexists. split; [reflexivity|]. by apply (bool_decide_unpack _).
Defined.

Lemma unix_socket_publication_witness :
  exists ow o', bind_unix_socket socket_path (start []) = (Ok ow, o') /\
    nodes start_fs !! owned_identity ow = None /\ nodes (fs o') !! owned_identity ow = Some published_socket /\
    nodes (fs o') !! run_id = Some (set_entries (<["proxy.sock" := owned_identity ow]> (entries run_node)) run_node) /\
    forall k n, k <> run_id -> nodes start_fs !! k = Some n -> nodes (fs o') !! k = Some n.
Proof.
  apply (unix_socket_publication socket_path "proxy.sock" run_boundary run_id run_node (start []) "abcdefghijklmnop" "qrstuvwxyzabcdef"
           [Some "0123456789abcdef"]); [done|reflexivity|apply run_is_captured|done|done|reflexivity|discriminate].
Defined.





End PublicationExamples.
