(* ===== verification/PublicService.v ===== *)
(** * The public listener's service (src/api_server.rs)

    [PreboundPublicService] hands a listening descriptor bound at startup to
    Pingora and watches over its service future.  Pingora itself is not modelled:
    what its future answers to each poll is a script.  What is modelled is
    everything around it: the guards and the order in which they are dropped on
    every way out, cancellation included, the descriptor that is handed over, and
    the readiness, failure and shutdown signals. *)

From S2P Require Import Prelude RustStr Lifecycle FileSystem.

(** ** Descriptors *)

(** An open descriptor: the inode behind it and what [getsockname] answers. *)
Record Descriptor : Type := mkDescriptor {
  fd_device : Z;
  fd_inode : Z;
  sockname : result string Errno
}.

Definition ENOTSOCK : Errno := EOTHER 88.

Abbreviation FdTable := (gmap Z Descriptor) (only parsing).

#[export] Instance Errno_eq_dec : EqDecision Errno.
Proof. solve_decision. Defined.

Definition socket_address_identity (fds : FdTable) (fd : Z) : result (option string) Errno :=
  match fds !! fd with
  | None => Err EBADF
  | Some d =>
      match sockname d with
      | Ok bytes => Ok (Some bytes)
      | Err e => if bool_decide (e = ENOTSOCK) then Ok None else Err e
      end
  end.

Record RawFdHandoffGuard : Type := mkHandoff {
  h_fd : Z;
  h_device : Z;
  h_inode : Z;
  socket_address : option string;
  armed : bool
}.

Definition handoff_new (fds : FdTable) (fd : Z) : result RawFdHandoffGuard Errno :=
  match fds !! fd with
  | None => Err EBADF
  | Some stat =>
      let? address := socket_address_identity fds fd in
      Ok (mkHandoff fd (fd_device stat) (fd_inode stat) address false)
  end.

Definition arm (g : RawFdHandoffGuard) : RawFdHandoffGuard :=
  mkHandoff (h_fd g) (h_device g) (h_inode g) (socket_address g) true.
Definition disarm (g : RawFdHandoffGuard) : RawFdHandoffGuard :=
  mkHandoff (h_fd g) (h_device g) (h_inode g) (socket_address g) false.

(** The descriptor is still the one the guard recorded. *)
Definition handoff_matches (g : RawFdHandoffGuard) (fds : FdTable) : bool :=
  match fds !! h_fd g with
  | None => false
  | Some stat =>
      (fd_device stat =? h_device g) && (fd_inode stat =? h_inode g)
      && bool_decide (ok (socket_address_identity fds (h_fd g)) = Some (socket_address g))
  end.

(** ** The service's surroundings *)

Inductive PublicEvent : Type :=
| FutureDropped
| ShutdownSignalled
| HandoffDropped (closed : bool)
| SocketUnlinked
| AcceptsStopped
| ReadyNotified
| ReadyWithheld
| StartupFailed.

Record Public : Type := mkPublic {
  pub_fds : gmap Z Descriptor;
  future_owns : option Z;          (** the descriptor Pingora's listener owns *)
  traffic : TrafficLifecycle;
  ready : bool;
  startup_failed : bool;
  sigterms : nat;
  downstream : bool;               (** the shutdown value the service's endpoints see *)
  relaying : bool;
  log : list PublicEvent           (** oldest first *)
}.

Definition note (e : PublicEvent) (w : Public) : Public :=
  mkPublic (pub_fds w) (future_owns w) (traffic w) (ready w) (startup_failed w) (sigterms w) (downstream w) (relaying w) (log w ++ [e]).

Definition set_fds (fds : FdTable) (w : Public) : Public :=
  mkPublic fds (future_owns w) (traffic w) (ready w) (startup_failed w) (sigterms w) (downstream w) (relaying w) (log w).

Definition set_owner (o : option Z) (w : Public) : Public :=
  mkPublic (pub_fds w) o (traffic w) (ready w) (startup_failed w) (sigterms w) (downstream w) (relaying w) (log w).

Definition close_fd (fd : Z) (w : Public) : Public := set_fds (delete fd (pub_fds w)) w.

(** [Drop for PublicExitGuard]. *)
Definition drop_exit_guard (w : Public) : Public :=
  note AcceptsStopped
    (mkPublic (pub_fds w) (future_owns w) (acknowledge_accepts_stopped (traffic w)) (ready w) (startup_failed w) (sigterms w)
       (downstream w) (relaying w) (log w)).

(** [FailClosedReadyNotifier]: [true] while it holds the notifier. *)
Definition notify_ready (held : bool) (w : Public) : bool * Public :=
  if held then
    (false, note ReadyNotified (mkPublic (pub_fds w) (future_owns w) (traffic w) true (startup_failed w) (sigterms w)
       (downstream w) (relaying w) (log w)))
  else (false, w).

(** Its drop forgets the notifier, which would signal readiness when dropped. *)
Definition drop_notifier (held : bool) (w : Public) : Public := if held then note ReadyWithheld w else w.

(** [Drop for PublicServiceShutdownGuard]. *)
Definition drop_shutdown_guard (w : Public) : Public :=
  note ShutdownSignalled
    (mkPublic (pub_fds w) (future_owns w) (traffic w) (ready w) (startup_failed w) (sigterms w) true false (log w)).

(** Dropping Pingora's future closes the listener it built. *)
Definition drop_future (w : Public) : Public :=
  note FutureDropped (match future_owns w with Some fd => set_owner None (close_fd fd w) | None => w end).

(** [Drop for RawFdHandoffGuard]. *)
Definition drop_handoff (g : RawFdHandoffGuard) (w : Public) : Public :=
  let close := armed g && handoff_matches g (pub_fds w) in
  note (HandoffDropped close) (if close then close_fd (h_fd g) w else w).

(** [Drop for UnixSocketCleanup]: the path owner goes first, then the pin. *)
Definition drop_cleanup (cleanup : option Z) (w : Public) : Public :=
  match cleanup with Some pin => close_fd pin (note SocketUnlinked w) | None => w end.

Definition drop_public_listener_resources (cleanup : option Z) (g : RawFdHandoffGuard) (w : Public) : Public :=
  drop_handoff g (drop_cleanup cleanup w).

Definition signal_startup_failure (w : Public) : Public :=
  note StartupFailed
    (mkPublic (pub_fds w) (future_owns w) (traffic w) (ready w) true (S (sigterms w)) (downstream w) (relaying w) (log w)).

(** ** The shutdown bridge *)

(** [bridge_public_shutdown] starts with the upstream value; its relay forwards
    [true], and a closed upstream counts as [true]. *)
Definition bridge_public_shutdown (upstream : bool) (w : Public) : Public :=
  mkPublic (pub_fds w) (future_owns w) (traffic w) (ready w) (startup_failed w) (sigterms w) upstream true (log w).

Inductive Upstream : Type := UpChanged (value : bool) | UpClosed.

(** One turn of the relay task. *)
Definition relay_turn (u : Upstream) (w : Public) : Public :=
  if negb (relaying w) then w
  else
    match u with
    | UpChanged false => w
    | UpChanged true | UpClosed =>
        mkPublic (pub_fds w) (future_owns w) (traffic w) (ready w) (startup_failed w) (sigterms w) true false (log w)
    end.

(** ** The service future *)

Inductive PollOutcome : Type := PollPending | PollDone | PollPanicked.

(** How Pingora's future behaves: its polls with the private table locked and
    after its release, whether that second poll built a listener from the
    descriptor, and how the future ends once awaited. *)
Record Script : Type := mkScript {
  first_poll : PollOutcome;
  second_poll : PollOutcome;
  adopts : bool;
  final_panic : bool
}.

(** What the service relies on: with its descriptor table free, Pingora's future
    builds its listeners before it waits for anything. *)
Definition builds_before_waiting (s : Script) : Prop :=
  first_poll s = PollPending -> second_poll s = PollPending -> adopts s = true.

Inductive PublicServiceOutcome : Type := FailedBeforeReady | PanickedAfterReady | Exited.

#[export] Instance PublicServiceOutcome_eq_dec : EqDecision PublicServiceOutcome.
Proof. solve_decision. Defined.

(** [PublicServiceFutureState::finish]. *)
Definition finish (g : RawFdHandoffGuard) (w : Public) : RawFdHandoffGuard * Public := (g, drop_shutdown_guard (drop_future w)).

(** [Drop for PublicServiceFutureState]. *)
Definition drop_state (g : RawFdHandoffGuard) (w : Public) : Public := drop_handoff g (drop_shutdown_guard (drop_future w)).

(** The first await: [None] when the future is pending after both polls. *)
Definition first_turn (s : Script) (g : RawFdHandoffGuard) (w : Public) : option PollOutcome * RawFdHandoffGuard * Public :=
  match first_poll s with
  | PollDone | PollPanicked => (Some (first_poll s), g, w)
  | PollPending =>
      let w := if adopts s then set_owner (Some (h_fd g)) w else w in
      (match second_poll s with PollPending => None | p => Some p end, disarm g, w)
  end.

(** [run_public_service_future] with a handoff guard; [None] when it is cancelled
    while the future is awaited. *)
Definition run_public_service_future (s : Script) (g : RawFdHandoffGuard) (verify_ready : result bool IoError)
    (cancelled : bool) (w : Public) : option (PublicServiceOutcome * RawFdHandoffGuard) * Public :=
  let '(first, g, w) := first_turn s g w in
  let failed w := (* the notifier and the exit guard go after the state *)
    let (g, w) := finish g w in
    (Some (FailedBeforeReady, g), drop_exit_guard (drop_notifier true w)) in
  match first with
  | Some _ => failed w
  | None =>
      match verify_ready with
      | Ok true =>
          let (held, w) := notify_ready true w in
          if cancelled then (None, drop_exit_guard (drop_notifier held (drop_state g w)))
          else
            let (g, w) := finish g w in
            (Some (if final_panic s then PanickedAfterReady else Exited, g), drop_exit_guard (drop_notifier held w))
      | _ => failed w
      end
  end.

(** ** The service *)

(** A bound public listener: its descriptor, and for a Unix socket the pin that
    outlives the unlink. *)
Record PublicListenerReservation : Type := mkReservation { res_fd : Z; res_pin : option Z }.

(** The fields of the reservation drop in declaration order. *)
Definition drop_reservation (r : PublicListenerReservation) (w : Public) : Public := close_fd (res_fd r) (drop_cleanup (res_pin r) w).

(** Where the task may be cancelled. *)
Inductive Cancel : Type := NotCancelled | AtTableLock | WhileServing.

#[export] Instance Cancel_eq_dec : EqDecision Cancel.
Proof. solve_decision. Defined.

(** What surrounds one run of [start_service]. *)
Record Start : Type := mkStart {
  table_given : bool;                                    (** [fds] is [Some] *)
  upstream_value : bool;                                 (** the shutdown watch when the service starts *)
  service_present : bool;
  reservation : option PublicListenerReservation;
  resolved : result unit IoError;                        (** [into_parts] *)
  script : Script;
  verify : result bool IoError;                          (** [configured_entry_matches] *)
  cancel : Cancel;
  shutdown_observed : bool                               (** the watch when the future has ended *)
}.

(** [PublicListenerReservation::into_parts]: only a Unix reservation resolves a
    path; on an error the socket is dropped before the cleanup. *)
Definition into_parts (s : Start) (r : PublicListenerReservation) (w : Public) : result unit IoError * Public :=
  match res_pin r with
  | None => (Ok tt, w)
  | Some _ => match resolved s with
              | Ok _ => (Ok tt, w)
              | Err e => (Err e, drop_cleanup (res_pin r) (close_fd (res_fd r) w))
              end
  end.

(** The last part of [start_service], from the transfer of the descriptor on. *)
Definition serve_transferred (s : Start) (r : PublicListenerReservation) (handoff : RawFdHandoffGuard) (w : Public) : Public :=
  let w := bridge_public_shutdown (upstream_value s) w in
  let verify_ready := match res_pin r with Some _ => verify s | None => Ok true end in
  match run_public_service_future (script s) (arm handoff) verify_ready (bool_decide (cancel s = WhileServing)) w with
  | (None, w) => drop_exit_guard (drop_cleanup (res_pin r) w)
  | (Some (outcome, handoff), w) =>
      let w := if bool_decide (outcome <> Exited) || negb (shutdown_observed s) then signal_startup_failure w else w in
      drop_exit_guard (drop_public_listener_resources (res_pin r) handoff w)
  end.

Definition start_service (s : Start) (w : Public) : Public :=
  let leave w := drop_exit_guard (drop_notifier true w) in
  let drop_taken w := match reservation s with Some r => drop_reservation r w | None => w end in
  if negb (table_given s) then leave (drop_taken (signal_startup_failure w))
  else
    match service_present s, reservation s with
    | true, Some r =>
        match into_parts s r w with
        | (Err _, w) => leave (signal_startup_failure w)
        | (Ok _, w) =>
            match handoff_new (pub_fds w) (res_fd r) with
            | Err _ => leave (drop_cleanup (res_pin r) (close_fd (res_fd r) (signal_startup_failure w)))
            | Ok handoff =>
                if bool_decide (cancel s = AtTableLock)
                then leave (drop_cleanup (res_pin r) (close_fd (res_fd r) (drop_handoff handoff w)))
                else serve_transferred s r handoff w
            end
        end
    | _, _ => leave (signal_startup_failure (drop_taken w))
    end.

(** ** What every run guarantees *)

(** Pingora built a listener from the reserved descriptor and waits for
    connections, and the listener's public path still leads to the socket. *)
Definition serves (s : Start) (w : Public) : bool :=
  table_given s && service_present s
  && match reservation s with
     | Some r =>
         match res_pin r with Some _ => is_ok (resolved s) && match verify s with Ok b => b | Err _ => false end | None => true end
         && is_ok (handoff_new (pub_fds w) (res_fd r))
     | None => false
     end
  && bool_decide (cancel s <> AtTableLock)
  && match first_poll (script s), second_poll (script s) with PollPending, PollPending => adopts (script s) | _, _ => false end.

(** The task was dropped by the runtime, which happens during shutdown only. *)
Definition was_cancelled (s : Start) (w : Public) : bool :=
  table_given s && service_present s
  && match reservation s with
     | Some r => (is_none (res_pin r) || is_ok (resolved s)) && is_ok (handoff_new (pub_fds w) (res_fd r))
     | None => false
     end
  && (bool_decide (cancel s = AtTableLock) || bool_decide (cancel s = WhileServing) && serves s w).

(** *** Signals *)

Definition signals (w : Public) : TrafficLifecycle * bool * bool * nat := (traffic w, ready w, startup_failed w, sigterms w).

Lemma signals_cleanup c w : signals (drop_cleanup c w) = signals w.
Proof. by destruct c. Qed.

Lemma signals_future w : signals (drop_future w) = signals w.
Proof. unfold drop_future. by destruct (future_owns w). Qed.

Lemma signals_handoff g w : signals (drop_handoff g w) = signals w.
Proof. unfold drop_handoff. by destruct (_ && _). Qed.

Lemma signals_reservation r w : signals (drop_reservation r w) = signals w.
Proof. apply signals_cleanup. Qed.

Lemma signals_notifier held w : signals (drop_notifier held w) = signals w.
Proof. by destruct held. Qed.

(** What the exit guard and a startup failure do to them. *)
Definition exited (x : TrafficLifecycle * bool * bool * nat) := (acknowledge_accepts_stopped x.1.1.1, x.1.1.2, x.1.2, x.2).
Definition failed (x : TrafficLifecycle * bool * bool * nat) := (x.1.1.1, x.1.1.2, true, S x.2).

Lemma signals_exit w : signals (drop_exit_guard w) = exited (signals w).
Proof. done. Qed.

Lemma signals_failure w : signals (signal_startup_failure w) = failed (signals w).
Proof. done. Qed.

(** The listener was built and its readiness verified. *)
Definition built (s : Script) (v : result bool IoError) : bool :=
  match first_poll s, second_poll s with PollPending, PollPending => true | _, _ => false end
  && match v with Ok b => b | Err _ => false end.

Lemma signals_first s g w : signals (first_turn s g w).2 = signals w.
Proof. unfold first_turn. destruct (first_poll s); [|done|done]. simpl. by destruct (adopts s). Qed.

Lemma first_turn_built s g w v :
  built s v = is_none (first_turn s g w).1.1 && match v with Ok b => b | Err _ => false end.
Proof. unfold built, first_turn. by destruct (first_poll s), (second_poll s). Qed.

Lemma signals_run s g v cancelled w :
  let out := run_public_service_future s g v cancelled w in
  signals out.2 = (let '(t, r, f, n) := exited (signals w) in (t, r || built s v, f, n)) /\
  fst <$> out.1 = if built s v then if cancelled then None else Some (if final_panic s then PanickedAfterReady else Exited)
                  else Some FailedBeforeReady.
Proof.
  cbv zeta. unfold run_public_service_future. pose proof (signals_first s g w) as Hs. rewrite (first_turn_built s g w v).
  destruct (first_turn s g w) as [[first g'] w1]. cbn [fst snd] in *. rewrite <- Hs. clear Hs.
  assert (Hf : forall r, signals (drop_exit_guard (drop_notifier r (drop_shutdown_guard (drop_future w1)))) = exited (signals w1)).
  { intros r. rewrite signals_exit, signals_notifier. change (signals (drop_shutdown_guard ?x)) with (signals x). by rewrite signals_future. }
  destruct first as [p|]; cbn [is_none is_some negb andb].
  { unfold finish. cbn [fst snd]. rewrite Hf. split; [|done]. simpl. by rewrite orb_false_r. }
  destruct v as [[]|e]; [|unfold finish; cbn [fst snd]; rewrite Hf; split; [|done]; simpl; by rewrite orb_false_r..].
  cbn [notify_ready]. unfold finish. destruct cancelled; cbn [fst snd]; (split; [|done]).
  - rewrite signals_exit, signals_notifier. unfold drop_state. rewrite signals_handoff.
    change (signals (drop_shutdown_guard ?x)) with (signals x). rewrite signals_future. simpl. by rewrite orb_true_r.
  - rewrite signals_exit, signals_notifier. change (signals (drop_shutdown_guard ?x)) with (signals x). rewrite signals_future. simpl.
    by rewrite orb_true_r.
Qed.

Lemma signals_transferred s r g w :
  let v := match res_pin r with Some _ => verify s | None => Ok true end in
  let b := built (script s) v in
  let ordered := b && (bool_decide (cancel s = WhileServing) || negb (final_panic (script s)) && shutdown_observed s) in
  signals (serve_transferred s r g w) =
    (let '(t, rd, f, n) := exited (signals w) in (t, rd || b, f || negb ordered, (n + if ordered then 0 else 1)%nat)).
Proof.
  cbv zeta. unfold serve_transferred. set (v := match res_pin r with Some _ => verify s | None => Ok true end).
  destruct (signals_run (script s) (arm g) v (bool_decide (cancel s = WhileServing)) (bridge_public_shutdown (upstream_value s) w))
    as [Hsig Hout]. change (signals (bridge_public_shutdown _ w)) with (signals w) in Hsig.
  destruct (run_public_service_future _ _ _ _ _) as [[[outcome g']|] w1]; cbn [fst snd fmap option_fmap option_map] in *.
  - unfold drop_public_listener_resources. rewrite signals_exit, signals_handoff, signals_cleanup.
    assert (Hif : forall c : bool, signals (if c then signal_startup_failure w1 else w1)
      = if c then failed (signals w1) else signals w1) by by intros []. rewrite Hif, Hsig. clear Hif Hsig.
    destruct (built (script s) v); [destruct (bool_decide (cancel s = WhileServing)); [done|]|]; injection Hout as ->.
    + destruct (final_panic (script s)), (shutdown_observed s); unfold exited, failed; simpl;
        rewrite ?Nat.add_0_r, ?orb_false_r, ?orb_true_r, ?Nat.add_1_r; done.
    + unfold exited, failed. simpl. by rewrite !orb_false_r, orb_true_r, Nat.add_1_r.
  - destruct (built (script s) v); [|done]. destruct (bool_decide (cancel s = WhileServing)); [|done].
    rewrite signals_exit, signals_cleanup, Hsig. unfold exited. simpl. by rewrite Nat.add_0_r, orb_false_r.
Qed.

(** C14: however a run of the public listener's service ends, in failure, in a
    panic, by cancellation or in order, public traffic is no longer admitted and
    that is acknowledged to the shutdown coordinator; as Pingora builds its
    listener before it waits, readiness is announced exactly when the listener was
    built and its path still leads to the socket;
    and every end that is neither cancellation nor an orderly exit during
    shutdown marks the process as failed and asks it to terminate. *)
Theorem public_service_fails_closed s w :
  builds_before_waiting (script s) -> ready w = false -> startup_failed w = false ->
  let w' := start_service s w in
  accepts_stopped (traffic w') = true /\ accepting (traffic w') = false /\ traffic_active (traffic w') = traffic_active (traffic w) /\
  ready w' = serves s w /\
  startup_failed w' = negb (was_cancelled s w || serves s w && negb (final_panic (script s)) && shutdown_observed s) /\
  sigterms w' = (sigterms w + (if startup_failed w' then 1 else 0))%nat.
Proof.
  intros Hbuild Hr Hf. cbv zeta. assert (Hsig : signals w = (traffic w, false, false, sigterms w)) by (unfold signals; by rewrite Hr, Hf).
  enough (signals (start_service s w) = (acknowledge_accepts_stopped (traffic w), serves s w,
    negb (was_cancelled s w || serves s w && negb (final_panic (script s)) && shutdown_observed s),
    (sigterms w + if negb (was_cancelled s w || serves s w && negb (final_panic (script s)) && shutdown_observed s) then 1 else 0)%nat)) as Hout.
  { unfold signals in Hout. injection Hout as -> -> -> ->. done. }
  assert (Hleave : forall w1, signals (drop_exit_guard (drop_notifier true w1)) = exited (signals w1)) by done.
  unfold start_service, serves, was_cancelled, serves.
  destruct (table_given s); cbn [negb andb orb].
  2: { rewrite Hleave. destruct (reservation s) as [r|]; rewrite ?signals_reservation, signals_failure, Hsig; unfold failed, exited; simpl;
       by rewrite Nat.add_1_r. }
  destruct (service_present s); cbn [negb andb orb].
  2: { rewrite Hleave, signals_failure. destruct (reservation s) as [r|]; rewrite ?signals_reservation, Hsig; unfold failed, exited; simpl;
       by rewrite Nat.add_1_r. }
  destruct (reservation s) as [r|]; [|rewrite Hleave, signals_failure, Hsig; unfold failed, exited; simpl; by rewrite Nat.add_1_r].
  assert (Hparts : into_parts s r w = (Ok tt, w) /\ (is_none (res_pin r) || is_ok (resolved s)) = true \/
    exists e w1, into_parts s r w = (Err e, w1) /\ signals w1 = signals w /\ is_some (res_pin r) = true /\ is_ok (resolved s) = false).
  { unfold into_parts. destruct (res_pin r) as [pin|]; [|by left]. destruct (resolved s) as [[]|e]; [by left|]. right. by eexists _, _. }
  destruct Hparts as [[-> Hok]|(e & w1 & -> & Hw1 & Hpin & Hres)].
  2: { rewrite Hleave, signals_failure, Hw1, Hsig, Hres. destruct (res_pin r); [|done]. unfold failed, exited. simpl. by rewrite Nat.add_1_r. }
  destruct (handoff_new (pub_fds w) (res_fd r)) as [g|e]; rewrite ?andb_false_r, ?andb_true_r; cbn [is_ok andb orb negb].
  2: { rewrite Hleave, signals_cleanup. change (signals (close_fd ?x ?y)) with (signals y). rewrite signals_failure, Hsig.
       unfold failed, exited. simpl. by rewrite Nat.add_1_r. }
  rewrite Hok. cbn [andb]. case_bool_decide as Hc.
  - rewrite Hleave, signals_cleanup. change (signals (close_fd ?x ?y)) with (signals y). rewrite signals_handoff, Hsig.
    rewrite (bool_decide_false (cancel s <> AtTableLock)), ?andb_false_r by (by intros []). unfold exited. simpl. by rewrite Nat.add_0_r.
  - rewrite signals_transferred, Hsig. rewrite (bool_decide_true (cancel s <> AtTableLock)) by done.
    unfold built, exited. unfold builds_before_waiting in Hbuild. destruct (res_pin r) as [pin|]; [destruct (resolved s) as [[]|]; [|done]|];
      destruct (first_poll (script s)), (second_poll (script s)); rewrite ?Hbuild by done; destruct (bool_decide (cancel s = WhileServing)), (final_panic (script s)), (shutdown_observed s);
      simpl; try done; destruct (verify s) as [[]|]; done.
Qed.

(** *** Descriptors *)

Definition fd_view (w : Public) : FdTable * option Z := (pub_fds w, future_owns w).

Definition unpinned (pin : option Z) (fds : FdTable) : FdTable := match pin with Some p => delete p fds | None => fds end.

Lemma fds_cleanup pin w : fd_view (drop_cleanup pin w) = (unpinned pin (pub_fds w), future_owns w).
Proof. by destruct pin. Qed.

Lemma fds_future w : fd_view (drop_future w) = (match future_owns w with Some fd => delete fd (pub_fds w) | None => pub_fds w end, None).
Proof. unfold drop_future, fd_view. destruct (future_owns w) eqn:Ho; simpl; by rewrite ?Ho. Qed.

Lemma fds_handoff g w :
  fd_view (drop_handoff g w) = (if armed g && handoff_matches g (pub_fds w) then delete (h_fd g) (pub_fds w) else pub_fds w, future_owns w).
Proof. unfold drop_handoff, fd_view. by destruct (_ && _). Qed.

Lemma fds_of w fds o : fd_view w = (fds, o) -> pub_fds w = fds /\ future_owns w = o.
Proof. by intros [= -> ->]. Qed.

(** A guard still matches the descriptor it was made for. *)
Lemma handoff_new_matches fds fds' fd g :
  handoff_new fds fd = Ok g -> fds' !! fd = fds !! fd -> h_fd g = fd /\ armed g = false /\ handoff_matches (arm g) fds' = true.
Proof.
  unfold handoff_new. destruct (fds !! fd) as [d|] eqn:Hd; [|done]. destruct (socket_address_identity fds fd) as [a|] eqn:Ha; [|done].
  intros [= <-] Heq. split; [done|]. split; [done|]. unfold handoff_matches. cbn [h_fd arm h_device h_inode socket_address].
  rewrite Heq, !Z.eqb_refl. unfold socket_address_identity in *. rewrite Hd in Ha. rewrite Heq, Ha. by rewrite bool_decide_true.
Qed.

(** The second poll ran, but Pingora built no listener from the descriptor. *)
Definition abandoned (s : Start) : bool :=
  match first_poll (script s) with PollPending => negb (adopts (script s)) | _ => false end.

Lemma run_fds s g v cancelled w :
  future_owns w = None -> armed g = true ->
  let out := run_public_service_future s g v cancelled w in
  let passed := match first_poll s with PollPending => true | _ => false end in
  fd_view out.2 = (if passed && adopts s then delete (h_fd g) (pub_fds w) else pub_fds w, None) /\
  match out.1 with Some (_, g') => g' = if passed then disarm g else g | None => passed = true end.
Proof.
  intros Ho Hg. cbv zeta. unfold run_public_service_future, first_turn, finish, drop_state.
  assert (Hend : forall held w1, fd_view (drop_exit_guard (drop_notifier held (drop_shutdown_guard (drop_future w1)))) = fd_view (drop_future w1)).
  { by intros [] ?. }
  assert (Hend' : forall held g1 w1, armed g1 = false ->
    fd_view (drop_exit_guard (drop_notifier held (drop_handoff g1 (drop_shutdown_guard (drop_future w1))))) = fd_view (drop_future w1)).
  { intros [] g1 w1 Hg1; unfold drop_handoff; by rewrite Hg1. }
  destruct (first_poll s), (adopts s), (second_poll s), v as [[]|], cancelled; cbn [andb notify_ready fst snd];
    rewrite ?Hend, ?Hend' by done; rewrite fds_future; cbn; rewrite ?Ho; done.
Qed.

Lemma transferred_fds s r g w :
  handoff_new (pub_fds w) (res_fd r) = Ok g -> future_owns w = None -> res_pin r <> Some (res_fd r) ->
  exists fds, fd_view (serve_transferred s r g w) = (fds, None) /\
    (fds = unpinned (res_pin r) (delete (res_fd r) (pub_fds w)) \/ abandoned s = true /\ fds = unpinned (res_pin r) (pub_fds w)).
Proof.
  intros Hg Ho Hpin. unfold serve_transferred, abandoned. set (w0 := bridge_public_shutdown _ w).
  set (v := match res_pin r with Some _ => verify s | None => Ok true end).
  destruct (run_fds (script s) (arm g) v (bool_decide (cancel s = WhileServing)) w0 Ho eq_refl) as [Hv Hg'].
  pose proof (handoff_new_matches _ (unpinned (res_pin r) (pub_fds w)) _ _ Hg) as Hm.
  destruct Hm as (Hfd & Har & Hm); [destruct (res_pin r) as [p|]; [simpl; rewrite lookup_delete_ne by congruence|]; done|].
  destruct (run_public_service_future _ _ _ _ w0) as [[[outcome g']|] w1]; cbn [fst snd] in *.
  - rewrite Hg'. clear Hg'. set (w2 := if _ : bool then signal_startup_failure w1 else w1).
    assert (fd_view w2 = fd_view w1) as Hw2 by (unfold w2; by destruct (_ || _)).
    unfold drop_public_listener_resources. change (fd_view (drop_exit_guard ?x)) with (fd_view x). rewrite fds_handoff.
    pose proof (fds_cleanup (res_pin r) w2) as [-> ->]%fds_of. rewrite Hv in Hw2. apply fds_of in Hw2 as [-> ->].
    cbn [arm h_fd]. rewrite Hfd. change (pub_fds w0) with (pub_fds w).
    destruct (first_poll (script s)) eqn:Hp; cbn [andb disarm arm armed h_fd].
    + destruct (adopts (script s)) eqn:Had; eexists; (split; [done|]); [by left|by right].
    + cbn [negb]. change (mkHandoff _ _ _ _ true) with (arm g). rewrite Hm. eexists. split; [done|]. left. rewrite Hfd.
      destruct (res_pin r); [apply delete_delete|done].
    + change (mkHandoff _ _ _ _ true) with (arm g). rewrite Hm. eexists. split; [done|]. left. rewrite Hfd.
      destruct (res_pin r); [apply delete_delete|done].
  - change (fd_view (drop_exit_guard ?x)) with (fd_view x). rewrite fds_cleanup. apply fds_of in Hv as [-> ->].
    cbn [arm h_fd]. rewrite Hfd. change (pub_fds w0) with (pub_fds w).
    destruct (first_poll (script s)); [|done..]. cbn [andb]. destruct (adopts (script s)); eexists; (split; [done|]); [by left|by right].
Qed.

(** The service closes the descriptor it was given and the pin on its
    inode, and no other descriptor of the process, on every way out: whether it
    never got to hand the descriptor over, Pingora's future ended before it took
    it, or Pingora's listener owned it.  Only a descriptor that Pingora was
    offered and did not take stays open. *)
Theorem public_service_releases_its_descriptors s r w :
  reservation s = Some r -> future_owns w = None -> is_Some (pub_fds w !! res_fd r) -> res_pin r <> Some (res_fd r) ->
  let w' := start_service s w in
  future_owns w' = None /\
  (pub_fds w' = unpinned (res_pin r) (delete (res_fd r) (pub_fds w)) \/
   abandoned s = true /\ pub_fds w' = unpinned (res_pin r) (pub_fds w)).
Proof.
  intros Hr Ho Hfd Hpin. cbv zeta.
  assert (Hcomm : forall fds, delete (res_fd r) (unpinned (res_pin r) fds) = unpinned (res_pin r) (delete (res_fd r) fds)).
  { intros fds. destruct (res_pin r); [apply delete_delete|done]. }
  assert (Hleave : forall w1, fd_view (drop_exit_guard (drop_notifier true w1)) = fd_view w1) by done.
  enough (exists fds, fd_view (start_service s w) = (fds, None) /\
    (fds = unpinned (res_pin r) (delete (res_fd r) (pub_fds w)) \/ abandoned s = true /\ fds = unpinned (res_pin r) (pub_fds w)))
    as (fds & [-> ->]%fds_of & Hfds) by done.
  assert (Hall : forall w1, fd_view w1 = (pub_fds w, None) ->
    fd_view (drop_reservation r w1) = (unpinned (res_pin r) (delete (res_fd r) (pub_fds w)), None) /\
    fd_view (drop_cleanup (res_pin r) (close_fd (res_fd r) w1)) = (unpinned (res_pin r) (delete (res_fd r) (pub_fds w)), None)).
  { intros w1 [Hf Hw1]%fds_of. unfold drop_reservation. split.
    - pose proof (fds_cleanup (res_pin r) w1) as [Hc1 Hc2]%fds_of. unfold close_fd, fd_view. simpl. by rewrite Hc1, Hc2, Hf, Hw1, Hcomm.
    - rewrite fds_cleanup. simpl. by rewrite Hf, Hw1. }
  assert (Hw : fd_view w = (pub_fds w, None)) by (unfold fd_view; by rewrite Ho).
  unfold start_service. rewrite Hr. destruct (table_given s); cbn [negb].
  2: { rewrite Hleave. eexists. split; [by apply Hall|by left]. }
  destruct (service_present s); [|eexists; split; [by apply (Hall w)|by left]].
  assert (Hparts : into_parts s r w = (Ok tt, w) \/ exists e, into_parts s r w = (Err e, drop_cleanup (res_pin r) (close_fd (res_fd r) w))).
  { unfold into_parts. destruct (res_pin r); [|by left]. destruct (resolved s) as [[]|e]; [by left|right; by exists e]. }
  destruct Hparts as [->|[e ->]]; [|eexists; split; [by apply (Hall w)|by left]].
  destruct (handoff_new (pub_fds w) (res_fd r)) as [g|e] eqn:Hg.
  - case_bool_decide; [|by apply transferred_fds]. rewrite Hleave. eexists. split; [apply Hall|by left]. rewrite fds_handoff.
    apply handoff_new_matches with (fds' := pub_fds w) in Hg as (_ & -> & _); [|done]. simpl. by rewrite Ho.
  - rewrite Hleave. eexists. split; [by apply Hall|by left].
Qed.

(** ** Witnesses *)

Module PublicServiceExamples.

Definition listening : Descriptor := mkDescriptor 8 77 (Ok "0.0.0.0:8000").
Definition idle : Public := mkPublic {[5 := listening; 6 := listening]} None Traffic_new false false 0 false false [].
Definition serving : Start :=
  mkStart true false true (Some (mkReservation 5 (Some 6))) (Ok tt) (mkScript PollPending PollPending true false) (Ok true) NotCancelled true.

Lemma public_service_fails_closed_witness :
  ready idle = false /\ startup_failed idle = false /\ ready (start_service serving idle) = true.
Proof.
  split; [done|]. split; [done|]. by destruct (public_service_fails_closed serving idle (fun _ _ => eq_refl) eq_refl eq_refl) as (_ & _ & _ & -> & _).
Defined.

Lemma public_service_releases_its_descriptors_witness :
  future_owns (start_service serving idle) = None /\
  (pub_fds (start_service serving idle) = unpinned (Some 6) (delete 5 (pub_fds idle)) \/
   abandoned serving = true /\ pub_fds (start_service serving idle) = unpinned (Some 6) (pub_fds idle)).
Proof. apply (public_service_releases_its_descriptors serving (mkReservation 5 (Some 6)) idle); [done|done|by eexists|done]. Defined.

End PublicServiceExamples.
