(* ===== verification/Listener.v ===== *)
(** * Management listeners, TLS and redirects (src/api_server.rs)

    [ApiServer] serves the management API, the metrics and the redirect listener:
    the handshake that stops its accept loop before shutdown goes on, the TLS
    accept loop with its bound on concurrent handshakes, the construction of the
    TLS acceptor from the configuration (OpenSSL itself is a parameter), and the
    redirect and metrics handlers. *)

From S2P Require Import Prelude RustStr Http Config Lifecycle Metrics FileSystem PathOwnership Publication.

(** ** Management accepts and shutdown *)

Module Management.

(** [wait_for_shutdown] returns when the watch holds [true] or its sender is gone. *)
Inductive Watch : Type := WatchValue (b : bool) | WatchClosed.

Definition shutdown_seen (w : Watch) : bool := match w with WatchValue b => b | WatchClosed => true end.

(** One poll of [ManagedListener::accept]; the select is biased to the stop branch. *)
Inductive Accept : Type := Handed (connection : Z) | Parked | Waiting.

Definition managed_accept (incoming : option Z) (m : ManagementLifecycle) : Accept * ManagementLifecycle :=
  if stop_requested m then (Parked, management_acknowledge m)
  else match incoming with
       | Some c => (Handed c, m)
       | None => (Waiting, m)
       end.

(** [ApiServer::shutdown_signal], by the point it has reached. *)
Inductive Signal : Type := SignalWaiting | SignalRequested | SignalDone.

Record Server : Type := mkServer {
  watch : Watch;
  management : option ManagementLifecycle;     (** only of the API listener *)
  signal : Signal;
  parked : bool;                               (** the accept loop waits for ever *)
  served : list Z                              (** connections handed to the router *)
}.

(** One poll of the shutdown future. *)
Definition signal_turn (s : Server) : Server :=
  match signal s with
  | SignalWaiting =>
      if shutdown_seen (watch s) then
        match management s with
        | Some m => mkServer (watch s) (Some (request_stop m)) SignalRequested (parked s) (served s)
        | None => mkServer (watch s) None SignalDone (parked s) (served s)
        end
      else s
  | SignalRequested =>
      if is_none_or management_accepts_stopped (management s)
      then mkServer (watch s) (management s) SignalDone (parked s) (served s) else s
  | SignalDone => s
  end.

(** One poll of the accept loop, with or without a connection to accept; axum
    stops polling it once the signal is done. *)
Definition accept_turn (incoming : option Z) (s : Server) : Server :=
  match signal s, parked s with
  | SignalDone, _ | _, true => s
  | _, false =>
      match management s with
      | Some m =>
          match managed_accept incoming m with
          | (Handed c, m) => mkServer (watch s) (Some m) (signal s) false (served s ++ [c])
          | (Parked, m) => mkServer (watch s) (Some m) (signal s) true (served s)
          | (Waiting, m) => mkServer (watch s) (Some m) (signal s) false (served s)
          end
      | None =>
          match incoming with
          | Some c => mkServer (watch s) None (signal s) false (served s ++ [c])
          | None => s
          end
      end
  end.

Inductive step : Server -> Server -> Prop :=
| step_watch w s : shutdown_seen (watch s) = true -> shutdown_seen w = true -> step s (mkServer w (management s) (signal s) (parked s) (served s))
| step_notify w s : shutdown_seen (watch s) = false -> step s (mkServer w (management s) (signal s) (parked s) (served s))
| step_signal s : step s (signal_turn s)
| step_accept incoming s : step s (accept_turn incoming s).

Definition start (managed : bool) : Server :=
  mkServer (WatchValue false) (if managed then Some Management_default else None) SignalWaiting false [].

(** [start_with_ready_notifier] takes the listener out of its mutex: the server it
    runs, whether it announced readiness, and what it left for a second start,
    which only logs. *)
Definition start_with_ready_notifier {L} (listener : option L) (managed : bool) : option (L * Server) * bool * option L :=
  match listener with
  | None => (None, false, None)
  | Some listener => (Some (listener, start managed), true, None)
  end.

(** [OwnedUnixListener::accept] over what the socket answers: a failure is logged
    and the loop goes on. *)
Fixpoint unix_accept {C} (answers : list (result C unit)) : option C :=
  match answers with
  | [] => None
  | Ok accepted :: _ => Some accepted
  | Err _ :: answers => unix_accept answers
  end.

Lemma unix_accept_first {C} (answers : list (result C unit)) c :
  unix_accept answers = Some c <-> exists n rest, answers = replicate n (Err tt) ++ Ok c :: rest.
Proof.
  split.
  - induction answers as [|[x|[]] answers IH]; simpl; [done| |].
    + intros [= ->]. by exists 0%nat, answers.
    + intros (n & rest & ->)%IH. by exists (S n), rest.
  - intros (n & rest & ->). by induction n.
Qed.

(** The accept loop is parked only by a stop request, and acknowledges it. *)
Definition inv (s : Server) : Prop :=
  match management s with
  | Some m =>
      (stop_requested m = true <-> signal s <> SignalWaiting) /\
      (management_accepts_stopped m = parked s) /\
      (parked s = true -> stop_requested m = true) /\
      (signal s = SignalDone -> parked s = true)
  | None => parked s = false /\ signal s <> SignalRequested
  end /\ (signal s <> SignalWaiting -> shutdown_seen (watch s) = true).

Lemma inv_start managed : inv (start managed).
Proof. destruct managed; (split; [|done]); simpl; [|done]. by split_and!. Qed.

Lemma inv_step s s' : step s s' -> inv s -> inv s'.
Proof.
  intros Hst [Hm Hw]. destruct Hst as [w s Hs Hw'|w s Hs|s|incoming s].
  - by split.
  - split; [done|]. intros Hx. apply Hw in Hx. congruence.
  - unfold signal_turn. destruct s as [w m sg p sv]; simpl in *. destruct sg; [|destruct m as [m|]|done].
    + destruct (shutdown_seen w) eqn:Hs; [|by split]. destruct m as [m|]; simpl in *; (split; [|done]); simpl.
      * destruct Hm as (Hr & Ha & Hp & Hd). split_and!; try done.
      * by destruct Hm.
    + destruct Hm as (Hr & Ha & Hp & Hd). simpl. destruct (management_accepts_stopped m) eqn:Hst;
        (split; [|intros _; by apply Hw]); simpl; rewrite Hst; [|by split_and!]. split_and!; try done.
      split; [done|]. intros _. by apply Hr.
    + by destruct Hm.
  - unfold accept_turn. destruct s as [w m sg p sv]; simpl in *. destruct m as [m|].
    + destruct Hm as (Hr & Ha & Hp & Hd). destruct p; [by destruct sg|]. unfold managed_accept.
      destruct sg; [|destruct (stop_requested m) eqn:Hreq|specialize (Hd eq_refl); done].
      * destruct (stop_requested m) eqn:Hreq; [by destruct (proj1 Hr eq_refl)|].
        destruct incoming; (split; [|done]); simpl; rewrite Hreq; split_and!; done.
      * split; [|done]. simpl. split_and!; try done.
      * assert (false = true) by by apply Hr. done.
    + destruct Hm as [-> Hx]. destruct sg; [|done|by split]. destruct incoming; by split.
Qed.

Lemma inv_reachable managed s : rtc step (start managed) s -> inv s.
Proof.
  intros Hr. apply (rtc_ind_r (R := step) (fun s => inv s) (start managed)); [apply inv_start| |done]. intros x y _ Hst Hx. by eapply inv_step.
Qed.

(** A server whose signal is done or whose loop is parked hands out nothing more. *)
Definition closed (s : Server) : Prop := parked s = true \/ signal s = SignalDone.

Lemma closed_step s s' : step s s' -> closed s -> closed s' /\ served s' = served s.
Proof.
  intros Hst Hc. destruct Hst as [w s _ _|w s _|s|incoming s]; [done|done|..].
  - unfold signal_turn, closed in *. destruct s as [w m sg p sv]; simpl in *.
    destruct sg; [destruct (shutdown_seen w), m|destruct (is_none_or _ m)|]; simpl; destruct Hc as [->|?]; eauto; done.
  - unfold accept_turn, closed in *. destruct s as [w m sg p sv]; simpl in *. destruct Hc as [->| ->]; [|by destruct p, m; simpl; eauto].
    destruct sg; simpl; eauto.
Qed.

Lemma closed_steps s s' : rtc step s s' -> closed s -> served s' = served s.
Proof.
  induction 1 as [s|s s1 s2 Hst _ IH]; [done|]. intros Hc. destruct (closed_step _ _ Hst Hc) as [Hc1 <-]. by apply IH.
Qed.

(** What is left to do once shutdown is seen. *)
Definition drain_turns (s : Server) : Server := signal_turn (accept_turn None (signal_turn s)).

(** C29: the API listener hands over to shutdown in order: its graceful-shutdown
    signal completes only after the accept loop has acknowledged the stop request,
    from the acknowledgement on no connection reaches the router any more, and
    once shutdown is seen a poll of the signal, one of the accept loop and one
    more of the signal are enough, whatever state the server was in. *)
Theorem management_accepts_stop_before_shutdown s :
  rtc step (start true) s ->
  (signal s = SignalDone -> is_some_and management_accepts_stopped (management s) = true) /\
  (is_some_and management_accepts_stopped (management s) = true -> forall s', rtc step s s' -> served s' = served s) /\
  (shutdown_seen (watch s) = true -> signal (drain_turns s) = SignalDone /\ served (drain_turns s) = served s).
Proof.
  intros Hr. pose proof (inv_reachable _ _ Hr) as [Hm Hw].
  assert (Hsome : exists m, management s = Some m).
  { apply (rtc_ind_r (R := step) (fun s => exists m, management s = Some m) (start true)); [by eexists| |done]. intros x y _ Hst [m Hx].
    destruct Hst as [w x _ _|w x _|x|incoming x]; [by exists m|by exists m| |].
    - unfold signal_turn. rewrite Hx. simpl. destruct (signal x); repeat case_match; eauto.
    - unfold accept_turn. rewrite Hx. destruct (managed_accept incoming m) as [[] ?]; destruct (signal x), (parked x); simpl; eauto. }
  destruct Hsome as [m Hmg]. rewrite Hmg in *. destruct Hm as (Hreq & Hack & Hpark & Hdone). simpl. split_and!.
  - intros Hs. rewrite Hack. by apply Hdone.
  - intros Ha s' Hs'. apply (closed_steps _ _ Hs'). left. by rewrite <- Hack.
  - intros Hseen. destruct s as [w m0 sg p sv]. simpl in *. subst m0.
    assert (Hst : sg <> SignalWaiting -> stop_requested m = true) by by intros; apply Hreq.
    assert (Hd : sg = SignalDone -> p = true) by done.
    unfold drain_turns, signal_turn, accept_turn, managed_accept.
    destruct sg, p; cbn; rewrite ?Hseen; cbn; rewrite ?Hack; cbn; rewrite ?Hst by done; cbn; rewrite ?Hack; try done.
Qed.

End Management.

(** ** The TLS accept loop *)

Module Tls.

Definition TLS_HANDSHAKE_TIMEOUT : Duration := from_secs 1.
Definition MAX_CONCURRENT_TLS_HANDSHAKES : nat := 64.

(** [tls_handshake] of a connection: whether OpenSSL could set up its state and
    the stream, and how long the client takes to be accepted or rejected. *)
Record Client : Type := mkClient {
  connection : Z;
  ssl_new : bool;
  stream_new : bool;
  handshake_needs : option Duration;
  handshake_ok : bool
}.

Definition tls_handshake (c : Client) : option Z * Duration :=
  if negb (ssl_new c) then (None, 0)
  else if negb (stream_new c) then (None, 0)
  else
    let (took, in_time) := Shutdown.timeout TLS_HANDSHAKE_TIMEOUT (handshake_needs c) in
    (if in_time && handshake_ok c then Some (connection c) else None, took).

(** [completed_tls_handshake]; [Err] is a task that died. *)
Definition completed_tls_handshake (completed : option (result (option Z) unit)) : option Z :=
  match completed with
  | Some (Ok accepted) => accepted
  | Some (Err _) => None
  | None => None
  end.

(** The listener's tasks, and what its loop can wake up to. *)
Record TlsTcpListener : Type := mkTlsListener { handshakes : list Client }.

Inductive TlsEvent : Type :=
| Incoming (c : Client)
| AcceptFailed
| Joined (task : nat) (died : bool).

(** One pass of the loop of [accept]: [None] when the event cannot wake it. *)
Definition accept_pass (e : TlsEvent) (l : TlsTcpListener) : option (option Z * TlsTcpListener) :=
  let full := (MAX_CONCURRENT_TLS_HANDSHAKES <=? length (handshakes l))%nat in
  match e with
  | Incoming c => if full then None else Some (None, mkTlsListener (handshakes l ++ [c]))
  | AcceptFailed => if full then None else Some (None, l)
  | Joined task died =>
      c ← handshakes l !! task;
      Some (completed_tls_handshake (Some (if died : bool then Err tt else Ok (tls_handshake c).1)),
            mkTlsListener (delete task (handshakes l)))
  end.

(** A run of events, and the connections it handed out. *)
Fixpoint accept_run (es : list TlsEvent) (l : TlsTcpListener) : option (list Z * TlsTcpListener) :=
  match es with
  | [] => Some ([], l)
  | e :: es =>
      '(out, l) ← accept_pass e l;
      '(outs, l) ← accept_run es l;
      Some (match out with Some c => c :: outs | None => outs end, l)
  end.

(** The clients a run accepted, and those whose task it joined. *)
Definition incoming_of (es : list TlsEvent) : list Client :=
  omap (fun e => match e with Incoming c => Some c | _ => None end) es.

Fixpoint joined_of (es : list TlsEvent) (l : TlsTcpListener) : list (Client * bool) :=
  match es with
  | [] => []
  | e :: es =>
      match accept_pass e l with
      | Some (_, l') =>
          match e with
          | Joined task died => match handshakes l !! task with Some c => (c, died) :: joined_of es l' | None => [] end
          | _ => joined_of es l'
          end
      | None => []
      end
  end.

(** A connection is established when OpenSSL could set it up, the client was
    accepted and not rejected, that took no more than a second, and the task that
    waited for it lived. *)
Definition established (p : Client * bool) : Prop :=
  ssl_new p.1 = true /\ stream_new p.1 = true /\ handshake_ok p.1 = true /\
  (exists took, handshake_needs p.1 = Some took /\ took <= from_secs 1) /\ p.2 = false.

#[global] Instance established_dec p : Decision (established p).
Proof.
  unfold established. repeat apply and_dec; try apply _.
  destruct (handshake_needs p.1) as [took|].
  - destruct (decide (took <= from_secs 1)); [left; by exists took|right; intros (? & [= <-] & ?); done].
  - right. by intros (? & ? & _).
Defined.

(** The connections handed out for the tasks joined. *)
Definition handed_out (joined : list (Client * bool)) : list Z :=
  map (fun p => connection p.1) (filter established joined).

Lemma tls_handshake_established c died :
  (if died : bool then None else (tls_handshake c).1) = if decide (established (c, died)) then Some (connection c) else None.
Proof.
  unfold tls_handshake, Shutdown.timeout, TLS_HANDSHAKE_TIMEOUT.
  destruct (decide (established (c, died))) as [(Hs & Hst & Hok & (took & Hn & Hle) & Hd)|Hno].
  - simpl in *. subst died. rewrite Hs, Hst, Hn, Hok. simpl. by rewrite (proj2 (Z.leb_le _ _) Hle).
  - destruct died; [done|]. destruct (ssl_new c) eqn:Hs, (stream_new c) eqn:Hst; try done. simpl.
    destruct (handshake_needs c) as [took|] eqn:Hn; [|done]. destruct (took <=? from_secs 1) eqn:Hle; [|done]. simpl.
    destruct (handshake_ok c) eqn:Hok; [|done]. destruct Hno. split_and!; try done. exists took. split; [done|]. by apply Z.leb_le.
Qed.

Lemma accept_run_spec es l outs l' :
  accept_run es l = Some (outs, l') -> (length (handshakes l) <= MAX_CONCURRENT_TLS_HANDSHAKES)%nat ->
  (length (handshakes l') <= MAX_CONCURRENT_TLS_HANDSHAKES)%nat /\
  handshakes l ++ incoming_of es ≡ₚ map fst (joined_of es l) ++ handshakes l' /\
  outs = handed_out (joined_of es l).
Proof.
  revert l outs. induction es as [|e es IH]; intros l outs; cbn [accept_run joined_of].
  { intros [= <- <-] Hl. split_and!; [done|by rewrite app_nil_r|done]. }
  destruct (accept_pass e l) as [[out l1]|] eqn:He; [|done]. simpl. destruct (accept_run es l1) as [[outs1 l2]|] eqn:Hr; [|done].
  simpl. intros [= <- <-] Hl. destruct e as [c| |task died]; unfold accept_pass in He; cbv zeta beta iota in He.
  - destruct (_ <=? _)%nat eqn:Hfull; [done|]. apply Nat.leb_gt in Hfull. injection He as <- <-.
    destruct (IH _ _ Hr) as (Hb & Hp & Ho); [simpl; rewrite length_app; simpl; lia|]. split_and!; [done| |done].
    rewrite <- Hp. simpl. by rewrite <- app_assoc.
  - destruct (_ <=? _)%nat; [done|]. injection He as <- <-. by apply IH in Hr as (? & ? & ?).
  - destruct (handshakes l !! task) as [c|] eqn:Hc; [|done]. simpl in He. injection He as <- <-.
    destruct (IH _ _ Hr) as (Hb & Hp & Ho); [simpl; rewrite length_delete by eauto; lia|]. split_and!; [done| |].
    + simpl. rewrite <- Hp. simpl. etrans; [apply Permutation_app_tail, (delete_Permutation _ _ _ Hc)|done].
    + unfold handed_out. rewrite filter_cons, Ho.
      pose proof (tls_handshake_established c died) as Hd.
      destruct died; simpl in Hd |- *; rewrite ?Hd; by destruct (decide (established _)).
Qed.

(** C30: the TLS listener never runs more than 64 handshakes at once; every
    connection it accepts is either still shaking hands or was finished exactly
    once; it hands out exactly those whose client was accepted within a second,
    in the order they finished; and while there is room no pending handshake
    keeps it from accepting. *)
Theorem tls_handshakes_are_bounded es outs l :
  accept_run es (mkTlsListener []) = Some (outs, l) ->
  (length (handshakes l) <= 64)%nat /\
  incoming_of es ≡ₚ map fst (joined_of es (mkTlsListener [])) ++ handshakes l /\
  outs = handed_out (joined_of es (mkTlsListener [])) /\
  ((length (handshakes l) < 64)%nat -> forall c, is_Some (accept_pass (Incoming c) l)).
Proof.
  intros Hr. destruct (accept_run_spec _ _ _ _ Hr) as (Hb & Hp & Ho); [simpl; unfold MAX_CONCURRENT_TLS_HANDSHAKES; lia|].
  split_and!; [done|done|done|].
  intros Hl c. unfold accept_pass. apply Nat.leb_gt in Hl. unfold MAX_CONCURRENT_TLS_HANDSHAKES. rewrite Hl. eauto.
Qed.

(** One client is accepted, one rejected, one keeps silent. *)
Lemma tls_handshakes_are_bounded_witness :
  let silent := mkClient 3 true true None true in
  let es := [Incoming (mkClient 1 true true (Some 5) true); Incoming (mkClient 2 true true (Some 5) false);
             Incoming silent; Joined 1 false; Joined 0 false] in
  accept_run es (mkTlsListener []) = Some ([1], mkTlsListener [silent]) /\
  handed_out (joined_of es (mkTlsListener [])) = [1].
Proof.
  intros silent es. split; [reflexivity|].
  symmetry. exact (proj1 (proj2 (proj2 (tls_handshakes_are_bounded es [1] (mkTlsListener [silent]) eq_refl)))).
Defined.

End Tls.

(** ** The TLS acceptor *)

Inductive SslVersion : Type := TLS1 | TLS1_1 | TLS1_2 | TLS1_3.

#[global] Instance ssl_version_eq_dec : EqDecision SslVersion.
Proof. solve_decision. Defined.

Definition version_rank (v : SslVersion) : nat :=
  match v with TLS1 => 0 | TLS1_1 => 1 | TLS1_2 => 2 | TLS1_3 => 3 end.

(** What [SslAcceptor::mozilla_intermediate_v5] sets before the program does:
    the [NO_TLS] options, the cipher list of TLS 1.2 and below, the cipher suites
    of TLS 1.3 and the DH parameters. *)
Record BasePolicy (Dh : Type) : Type := mkPolicy {
  no_versions : list SslVersion;
  base_ciphers : string;
  base_suites : list string;
  base_dh : Dh
}.
Arguments mkPolicy {Dh} _ _ _ _.
Arguments no_versions {Dh} _.
Arguments base_ciphers {Dh} _.
Arguments base_suites {Dh} _.
Arguments base_dh {Dh} _.

(** OpenSSL and the files it reads. *)
Class OpenSsl : Type := {
  PKey : Type;
  Chain : Type;
  Dh : Type;
  read_file : string -> option string;
  mozilla_intermediate_v5 : option (BasePolicy Dh);
  private_key_from_pem : string -> option string -> option PKey;
  usable_key : PKey -> bool;
  chain_file : string -> option Chain;
  ca_file : string -> bool;
  protocol_available : SslVersion -> bool;
  cipher_list : string -> bool;
  params_from_pem : string -> option Dh;
  usable_dh : Dh -> bool;
  key_matches : PKey -> Chain -> bool
}.

(** The intermediate policy of Mozilla's fifth version disables what is older than
    TLS 1.2. *)
Class OpenSslLaws `{OpenSsl} : Prop := {
  intermediate_versions p : mozilla_intermediate_v5 = Some p -> no_versions p = [TLS1; TLS1_1]
}.

(** How client certificates are verified: not at all, or with the two modes the
    source combines (a missing certificate fails; a callback accepts anything). *)
Inductive Verify : Type := VerifyNone | VerifyPeer (fail_if_no_peer_cert accept_all : bool).

Record Acceptor `{OpenSsl} : Type := mkAcceptor {
  acc_key : PKey;
  acc_chain : Chain;
  acc_ca : option string;
  acc_verify : Verify;
  acc_no_versions : list SslVersion;
  acc_min : option SslVersion;
  acc_max : option SslVersion;
  acc_ciphers : string;              (** TLS 1.2 and below *)
  acc_suites : list string;          (** TLS 1.3, out of reach of [set_cipher_list] *)
  acc_dh : Dh
}.

Definition protocol_version (protocol : string) : result SslVersion ListenerError :=
  if bool_decide (protocol = "TLSv1") || bool_decide (protocol = "TLSv1.0") then Ok TLS1
  else if bool_decide (protocol = "TLSv1_1") || bool_decide (protocol = "TLSv1.1") then Ok TLS1_1
  else if bool_decide (protocol = "TLSv1_2") || bool_decide (protocol = "TLSv1.2") then Ok TLS1_2
  else if bool_decide (protocol = "TLSv1_3") || bool_decide (protocol = "TLSv1.3") then Ok TLS1_3
  else Err (InvalidTls "unsupported protocol").

Section Acceptors.
Context `{OpenSsl}.

Definition load_private_key (path : string) (passphrase : option string) : result PKey ListenerError :=
  let? pem := ok_or (read_file path) (InvalidTls "private key") in
  ok_or (private_key_from_pem pem passphrase) (InvalidTls "private key").

(** An optional setting that must be accepted. *)
Definition set_optional {A B} (setting : option A) (set : A -> result B ListenerError) : result (option B) ListenerError :=
  match setting with
  | Some a => let? b := set a in Ok (Some b)
  | None => Ok None
  end.

Definition set_dh (path : string) : result Dh ListenerError :=
  let? pem := ok_or (read_file path) (InvalidTls "DH parameters") in
  let? dh := ok_or (params_from_pem pem) (InvalidTls "DH parameters") in
  guard? usable_dh dh else InvalidTls "DH parameters" in Ok dh.

Definition build_ssl_acceptor (tls : TlsConfig) : result Acceptor ListenerError :=
  let? cert := ok_or (tls_cert tls) IncompleteTlsIdentity in
  let? key := ok_or (tls_key tls) IncompleteTlsIdentity in
  let? base := ok_or mozilla_intermediate_v5 (InvalidTls "acceptor policy") in
  let? private_key := load_private_key key (key_passphrase tls) in
  guard? usable_key private_key else InvalidTls "private key" in
  let? chain := ok_or (chain_file cert) (InvalidTls "certificate chain") in
  let? ca := set_optional (tls_ca tls) (fun ca => guard? ca_file ca else InvalidTls "client CA" in Ok ca) in
  let verify := if request_cert tls then VerifyPeer (reject_unauthorized tls) (negb (reject_unauthorized tls)) else VerifyNone in
  let? version := set_optional (tls_protocol tls) (fun protocol =>
    let? version := protocol_version protocol in
    guard? protocol_available version else InvalidTls "protocol" in Ok version) in
  let? ciphers := set_optional (tls_ciphers tls) (fun ciphers =>
    guard? cipher_list ciphers else InvalidTls "cipher policy" in Ok ciphers) in
  let? dh := set_optional (tls_dhparam tls) set_dh in
  guard? key_matches private_key chain else InvalidTls "identity mismatch" in
  Ok (mkAcceptor _ private_key chain ca verify (no_versions base) version version
        (default (base_ciphers base) ciphers) (base_suites base) (default (base_dh base) dh)).

(** Whether a handshake admits a client, by its certificate (and whether that
    verifies), as OpenSSL documents the modes. *)
Definition admits (v : Verify) (certificate : option bool) : bool :=
  match v, certificate with
  | VerifyNone, _ => true
  | VerifyPeer fail _, None => negb fail
  | VerifyPeer _ accept_all, Some valid => accept_all || valid
  end.

(** The protocol versions a handshake can end with: between the bounds, and not
    switched off by an option. *)
Definition speaks (a : Acceptor) (v : SslVersion) : Prop :=
  (v ∉ acc_no_versions a) /\
  (forall lo, acc_min a = Some lo -> (version_rank lo <= version_rank v)%nat) /\
  (forall hi, acc_max a = Some hi -> (version_rank v <= version_rank hi)%nat).

(** The acceptor does what the configuration asks for: the configured identity,
    the clients it admits, the versions it speaks, and the ciphers of each. *)
Definition enforces (tls : TlsConfig) (a : Acceptor) : Prop :=
  (exists key cert, tls_key tls = Some key /\ tls_cert tls = Some cert /\
     load_private_key key (key_passphrase tls) = Ok (acc_key a) /\ chain_file cert = Some (acc_chain a) /\
     key_matches (acc_key a) (acc_chain a) = true) /\
  acc_ca a = tls_ca tls /\
  (forall certificate, admits (acc_verify a) certificate = true <->
     (request_cert tls = true -> reject_unauthorized tls = true -> certificate = Some true)) /\
  (forall v, speaks a v <->
     (v = TLS1_2 \/ v = TLS1_3) /\ forall p, tls_protocol tls = Some p -> protocol_version p = Ok v) /\
  (forall ciphers, tls_ciphers tls = Some ciphers -> acc_ciphers a = ciphers) /\
  (exists base, mozilla_intermediate_v5 = Some base /\ acc_suites a = base_suites base /\
     (tls_ciphers tls = None -> acc_ciphers a = base_ciphers base) /\
     match tls_dhparam tls with Some path => set_dh path = Ok (acc_dh a) | None => acc_dh a = base_dh base end).

Lemma set_optional_Ok {A B} (setting : option A) (set : A -> result B ListenerError) out :
  set_optional setting set = Ok out ->
  match setting with Some a => exists b, set a = Ok b /\ out = Some b | None => out = None end.
Proof. unfold set_optional. destruct setting as [a|]; [|by intros [= <-]]. destruct (set a) as [b|]; intros [= <-]. by exists b. Qed.

Lemma speaks_exactly a v0 v :
  acc_no_versions a = [TLS1; TLS1_1] -> acc_min a = v0 -> acc_max a = v0 ->
  speaks a v <-> (v = TLS1_2 \/ v = TLS1_3) /\ forall v1, v0 = Some v1 -> v1 = v.
Proof.
  intros Hno Hmin Hmax. unfold speaks. rewrite Hno, Hmin, Hmax, !elem_of_cons. split.
  - intros (Hn & Hlo & Hhi). split; [destruct v; auto; destruct Hn; auto|]. intros v1 Hv.
    specialize (Hlo _ Hv). specialize (Hhi _ Hv). destruct v, v1; simpl in *; (done || lia).
  - intros (Hv & Heq). split_and!.
    + by destruct Hv as [->| ->]; intros [?|[?|Hin]]; [..|inversion Hin| | |inversion Hin].
    + intros lo <-%Heq. done.
    + intros hi <-%Heq. done.
Qed.

Lemma build_ssl_acceptor_enforces `{!OpenSslLaws} tls a : build_ssl_acceptor tls = Ok a -> enforces tls a.
Proof.
  unfold build_ssl_acceptor. intros Hok. inv_ok Hok.
  repeat match goal with E : ok_or _ _ = Ok _ |- _ => apply ok_or_Ok in E end.
  repeat match goal with E : set_optional _ _ = Ok _ |- _ => apply set_optional_Ok in E end.
  rename r1 into base, r4 into ca, r5 into version, r6 into ciphers, r7 into dh.
  assert (Hca : ca = tls_ca tls).
  { destruct (tls_ca tls) as [x|]; [|done]. destruct E4 as (b & Hb & ->). inv_ok Hb. by injection Hb as ->. }
  assert (Hversion : match tls_protocol tls with
    Some p => exists v, protocol_version p = Ok v /\ version = Some v | None => version = None end).
  { destruct (tls_protocol tls) as [x|]; [|done]. destruct E5 as (b & Hb & ->). inv_ok Hb. injection Hb as ->. eauto. }
  assert (Hciphers : ciphers = tls_ciphers tls).
  { destruct (tls_ciphers tls) as [x|]; [|done]. destruct E6 as (b & Hb & ->). inv_ok Hb. by injection Hb as ->. }
  injection Hok as <-. unfold enforces. cbn [acc_key acc_chain acc_ca acc_verify acc_ciphers acc_suites acc_dh]. split_and!.
  - by exists r0, r.
  - done.
  - intros certificate. unfold admits.
    destruct (request_cert tls), (reject_unauthorized tls), certificate as [[]|]; simpl;
      split; intros; try done; by match goal with Hx : _ -> _ |- _ => specialize (Hx eq_refl eq_refl) end.
  - intros v. rewrite (speaks_exactly _ version) by (done || by apply intermediate_versions).
    destruct (tls_protocol tls) as [x|].
    + destruct Hversion as (v0 & Hx & ->). split; intros [Hv Hall]; (split; [done|]).
      * intros p [= <-]. rewrite Hx. f_equal. by apply Hall.
      * intros v1 [= <-]. specialize (Hall x eq_refl). congruence.
    + subst version. split; intros [Hv _]; (split; [done|]); done.
  - intros c Hc. by rewrite Hciphers, Hc.
  - exists base. split_and!; [done|done| |].
    + intros Hc. by rewrite Hciphers, Hc.
    + destruct (tls_dhparam tls); [|by subst]. by destruct E7 as (b & Hb & ->).
Qed.

End Acceptors.

(** ** Binding a listener *)

Section Binding.
Context `{Platform} `{OpenSsl}.

(** TCP belongs to the network: what resolving an address answers, and what the
    calls that make a listening socket do together (creating it, its options,
    [bind], [listen]: each fails with the same error). *)
Context (tcp_bind : string -> result unit IoError) (to_socket_addrs : string -> result (list string) IoError).

Inductive BoundListener : Type :=
| BoundTcp (address : string)
| BoundTls (address : string) (acceptor : Acceptor)
| BoundUnix (owner : OwnedPath).

(** [OwnedUnixListener::bind]: the owner is dropped when the descriptor cannot be
    duplicated or registered. *)
Definition owned_unix_bind (path : Path) (o : Os) : result OwnedPath ListenerError * Os :=
  match bind_unix_socket path o with
  | (Err e, o) => (Err e, o)
  | (Ok owner, o) => unix_bind (guarded (do* socket_call in do* socket_call in ret owner) (drop_owned owner)) o
  end.

(** [ApiServer::bind]. *)
Definition api_bind (listener : ListenerConfig) (tls : option TlsConfig) (o : Os) : result BoundListener ListenerError * Os :=
  match listener with
  | ListenTcp address =>
      (let? _ := map_err TcpBind (tcp_bind address) in
       match tls with
       | Some tls => let? acceptor := build_ssl_acceptor tls in Ok (BoundTls address acceptor)
       | None => Ok (BoundTcp address)
       end, o)
  | ListenUnix path =>
      match tls with
      | Some _ => (Err (InvalidTls "TLS is supported only on TCP listeners"), o)
      | None => let (r, o) := owned_unix_bind (components_of path) o in (result_map BoundUnix r, o)
      end
  end.

(** *** The public listener *)

Inductive Endpoint : Type :=
| EndpointTcp (address : string)
| EndpointTls (address : string) (acceptor : Acceptor)
| EndpointUds (path : string).

Inductive Reservation : Type :=
| ReservedTcp (key : string) (bound : string)
| ReservedUnix (owner : OwnedPath).

Definition resolved_address (address : string) : string :=
  if starts_with_char colon address then "0.0.0.0" +:+ address else address.

(** [PublicListenerReservation::bind]. *)
Definition reservation_bind (listener : ListenerConfig) (o : Os) : result Reservation ListenerError * Os :=
  match listener with
  | ListenTcp address =>
      (let? addresses := map_err TcpBind (to_socket_addrs (resolved_address address)) in
       match addresses with
       | [] => Err (TcpBind (CustomError AddrNotAvailable "listener address resolved to no addresses"))
       | resolved :: _ => let? _ := map_err TcpBind (tcp_bind resolved) in Ok (ReservedTcp address resolved)
       end, o)
  | ListenUnix path =>
      match bind_unix_socket (components_of path) o with
      | (Err e, o) => (Err e, o)
      | (Ok owner, o) =>
          let (r, o) := unix_bind (guarded (do* socket_call in ret owner) (drop_owned owner)) o in
          (result_map ReservedUnix r, o)
      end
  end.

(** [install_listener]: the endpoint added to Pingora's service. *)
Definition install_listener (listener : ListenerConfig) (tls : option TlsConfig) (o : Os) : result Endpoint ListenerError * Os :=
  match listener with
  | ListenTcp address =>
      (match tls with
       | Some tls => let? acceptor := build_ssl_acceptor tls in Ok (EndpointTls address acceptor)
       | None => Ok (EndpointTcp address)
       end, o)
  | ListenUnix path =>
      match tls with
      | Some _ => (Err (InvalidTls "TLS is supported only on TCP listeners"), o)
      | None =>
          match ensure_socket_path_available (components_of path) o with
          | (Err e, o) => (Err e, o)
          | (Ok _, o) =>
              (if utf8_valid path then Ok (EndpointUds path)
               else Err (UnixBind (CustomError InvalidInput "Unix socket path is not UTF-8")), o)
          end
      end
  end.

(** [PreboundPublicService::from_reservation]: a TCP endpoint is installed now, a
    Unix one when the service starts; an error drops the reservation. *)
Definition from_reservation (r : Reservation) (tls : option TlsConfig) (o : Os) : result (option Endpoint) ListenerError * Os :=
  match r with
  | ReservedTcp key _ => let (e, o) := install_listener (ListenTcp key) tls o in (result_map Some e, o)
  | ReservedUnix owner =>
      match tls with
      | Some _ => (Err (InvalidTls "TLS is supported only on TCP listeners"), (drop_owned owner o).2)
      | None => (Ok None, o)
      end
  end.

Definition prebound_new (listener : ListenerConfig) (tls : option TlsConfig) (o : Os) :
    result (Reservation * option Endpoint) ListenerError * Os :=
  match reservation_bind listener o with
  | (Err e, o) => (Err e, o)
  | (Ok r, o) => let (e, o) := from_reservation r tls o in (result_map (pair r) e, o)
  end.

(** C27: a TLS configuration is never silently dropped: an API, metrics or public
    listener that was given one and was bound is a TCP listener whose acceptor
    holds the configured key and certificate, which match, and trusts the
    configured authority; it refuses a client exactly when certificates are
    requested and required and the client has no valid one; it speaks exactly TLS
    1.2 and 1.3, or of these the configured one only (so none for a configured TLS
    1.0 or 1.1); below TLS 1.3 it uses the configured ciphers, and in TLS 1.3 the
    suites of Mozilla's intermediate policy, which no setting changes. *)
Theorem configured_tls_is_enforced `{!OpenSslLaws} listener tls o :
  (forall b o', api_bind listener (Some tls) o = (Ok b, o') ->
     o' = o /\ exists address a, listener = ListenTcp address /\ b = BoundTls address a /\ enforces tls a) /\
  (forall r e o', prebound_new listener (Some tls) o = (Ok (r, e), o') ->
     exists address a bound, listener = ListenTcp address /\ r = ReservedTcp address bound /\ e = Some (EndpointTls address a) /\ enforces tls a).
Proof.
  split.
  - intros b o' Hb. unfold api_bind in Hb. destruct listener as [address|path]; [|done].
    destruct (tcp_bind address) as [[]|]; [|done]. simpl in Hb. destruct (build_ssl_acceptor tls) as [a|] eqn:Ha; [|done].
    injection Hb as <- <-. split; [done|]. exists address, a. split_and!; [done|done|by apply build_ssl_acceptor_enforces].
  - intros r e o' Hb. unfold prebound_new in Hb. destruct (reservation_bind listener o) as [[r1|] o1] eqn:Hr; [|done].
    unfold from_reservation in Hb. destruct r1 as [key bound|owner]; [|done]. simpl in Hb.
    destruct (build_ssl_acceptor tls) as [a|] eqn:Ha; [|done]. simpl in Hb. injection Hb as <- <- <-.
    unfold reservation_bind in Hr. destruct listener as [address|path].
    + destruct (to_socket_addrs _) as [[|x l]|]; [done| |done]. simpl in Hr. destruct (tcp_bind x) as [[]|]; [|done].
      injection Hr as <- <- <-. exists address, a, x. split_and!; [done|done|done|by apply build_ssl_acceptor_enforces].
    + destruct (bind_unix_socket _ o) as [[ow|] o2]; [|done]. unfold unix_bind in Hr.
      destruct (guarded _ _ o2) as [[x|] o3]; simpl in Hr; done.
Qed.

End Binding.

(** ** Redirects and metrics *)

Module Redirect.
Section Redirect.
Context `{HeaderLib} `{UriLib}.

Record Response : Type := mkResponse {
  status : Z;
  headers : HeaderMap;
  body : string
}.

Definition empty_response (status : Z) : Response := mkResponse status header_empty EmptyString.

Definition redirect_hostname (host : string) : option string :=
  if starts_with_char "[" host then
    match split_once "]" host with
    | Some (inner, _) => Some (inner +:+ "]")       (* host[..=closing] *)
    | None => None
    end
  else opt_filter (fun h => negb (is_empty h)) (Some (match split_once colon host with Some (h, _) => h | None => host end)).

Definition redirect_request (https_port : Z) (uri : Uri) (request : HeaderMap) : Response :=
  match header_get HOST request ≫= value_to_str with
  | None => empty_response 400
  | Some host =>
      match redirect_hostname host with
      | None => empty_response 400
      | Some host =>
          let location := "https://" +:+ host +:+ ":" +:+ show_Z https_port +:+ raw_path_and_query uri in
          match value_from_str location with
          | Some v => mkResponse 301 (header_insert LOCATION v header_empty) EmptyString
          | None => empty_response 400
          end
      end
  end.

(** [render_metrics]; the static header is always valid. *)
Definition render_metrics `{F64} (m : Metrics) : option Response :=
  text ← render_prometheus m;
  Some (mkResponse 200 (header_insert CONTENT_TYPE (value_from_static "text/plain; version=0.0.4; charset=utf-8") header_empty) text).

Lemma redirect_hostname_spec host name :
  redirect_hostname host = Some name ->
  name <> EmptyString /\ exists rest, host = name +:+ rest /\
    if starts_with_char "[" host then ends_with_char "]" name = true else contains_char colon name = false.
Proof.
  unfold redirect_hostname. destruct (starts_with_char "[" host) eqn:Hb.
  - destruct (split_once "]" host) as [[inner rest]|] eqn:Hs; [|done]. intros [= <-]. apply split_once_Some in Hs as [-> _].
    split; [by destruct inner|]. exists rest. split; [by rewrite <- str_app_assoc|]. apply (ends_with_char_app "]").
  - destruct (split_once colon host) as [[h rest]|] eqn:Hs; simpl; [destruct h as [|a h]; [done|]; intros [= <-]|destruct host as [|a host]; [done|]; intros [= <-]].
    + apply split_once_Some in Hs as [-> Hc]. split; [done|]. by exists (String colon rest).
    + apply split_once_None in Hs. split; [done|]. exists EmptyString. split; [|done]. by rewrite str_app_nil_r.
Qed.

(** The redirect listener answers every request with a permanent redirect to
    the same path and query over HTTPS on the configured port, under the host
    name the client asked for without the port it gave, or with 400 and no
    location when there is no usable host. *)
Theorem redirects_go_to_https `{!HeaderLaws} https_port uri request :
  let r := redirect_request https_port uri request in
  body r = EmptyString /\
  (status r = 400 /\ get_all LOCATION (headers r) = [] \/
   status r = 301 /\ exists host name rest v,
     header_get HOST request ≫= value_to_str = Some host /\ host = name +:+ rest /\ name <> EmptyString /\
     (if starts_with_char "[" host then ends_with_char "]" name = true else contains_char colon name = false) /\
     get_all LOCATION (headers r) = [v] /\
     value_as_bytes v = "https://" +:+ name +:+ ":" +:+ show_Z https_port +:+ raw_path_and_query uri).
Proof.
  cbv zeta. unfold redirect_request. assert (He : get_all LOCATION (headers (empty_response 400)) = []) by apply get_all_empty.
  destruct (header_get HOST request ≫= value_to_str) as [host|]; [|split; [done|by left]].
  destruct (redirect_hostname host) as [name|] eqn:Hn; [|split; [done|by left]].
  destruct (value_from_str _) as [v|] eqn:Hv; [|split; [done|by left]]. split; [done|]. right. split; [done|].
  apply redirect_hostname_spec in Hn as (Hne & rest & Hhost & Hform). exists host, name, rest, v. split_and!; try done.
  - simpl. rewrite get_all_insert. by rewrite decide_True.
  - by apply value_bytes.
Qed.

End Redirect.
End Redirect.

(** ** Witnesses *)

Module ListenerExamples.
Import SimplePlatform SimpleHttp.

#[export] Instance openssl : OpenSsl := {
  PKey := string; Chain := string; Dh := string;
  read_file path := Some path;
  mozilla_intermediate_v5 := Some (mkPolicy [TLS1; TLS1_1] "ECDHE+AESGCM" ["TLS_AES_128_GCM_SHA256"] "ffdhe2048");
  private_key_from_pem pem passphrase := Some pem;
  usable_key _ := true;
  chain_file path := Some path;
  ca_file _ := true;
  protocol_available _ := true;
  cipher_list _ := true;
  params_from_pem pem := Some pem;
  usable_dh _ := true;
  key_matches _ _ := true
}.

#[export] Instance openssl_laws : OpenSslLaws.
Proof. split. by intros p [= <-]. Qed.

Definition mutual : TlsConfig := mkTlsConfig (Some "k.pem") (Some "c.pem") (Some "ca.pem") None true true (Some "TLSv1.2") None None.

Lemma configured_tls_is_enforced_witness :
  exists a, api_bind (fun _ => Ok tt) (ListenTcp "127.0.0.1:8001") (Some mutual) (start []) = (Ok (BoundTls "127.0.0.1:8001" a), start []) /\
    enforces mutual a.
Proof.
  destruct (api_bind (fun _ => Ok tt) (ListenTcp "127.0.0.1:8001") (Some mutual) (start [])) as [[b|e] o'] eqn:Hb; [|discriminate].
  destruct (proj1 (configured_tls_is_enforced (fun _ => Ok tt) (fun a => Ok [a]) (ListenTcp "127.0.0.1:8001") mutual (start [])) b o' Hb)
    as (-> & address & a & [= <-] & -> & Ha).
  exists a. by split.
Defined.

Definition lab_uri : @Uri uris := "/lab?x=1".
Definition lab_request : HeaderMap := header_insert HOST (value_from_static "hub.example:8000") header_empty.

Lemma redirects_go_to_https_witness :
  Redirect.status (Redirect.redirect_request 443 lab_uri lab_request) = 301 /\
  exists v, get_all LOCATION (Redirect.headers (Redirect.redirect_request 443 lab_uri lab_request)) = [v].
Proof.
  split; [reflexivity|].
  destruct (Redirect.redirects_go_to_https 443 lab_uri lab_request) as (_ & [[Hs _]|(_ & h & n & r & v & _ & _ & _ & _ & Hv & _)]).
  - discriminate.
  - exists v. exact Hv.
Defined.

Lemma management_accepts_stop_before_shutdown_witness :
  let s := Management.mkServer (Management.WatchValue true) (Some Management_default) Management.SignalWaiting false [] in
  rtc Management.step (Management.start true) s /\ Management.signal (Management.drain_turns s) = Management.SignalDone.
Proof.
  intros s. assert (Hr : rtc Management.step (Management.start true) s).
  { apply rtc_once. exact (Management.step_notify (Management.WatchValue true) (Management.start true) eq_refl). }
  split; [exact Hr|]. by apply (Management.management_accepts_stop_before_shutdown s Hr).
Defined.

End ListenerExamples.
