(* ===== verification/ErrorFiles.v ===== *)
(** * Opening error files (src/errors.rs, [read_bounded_file_sync] and below)

    The error page of a status is a file below the configured directory.  It is
    reached descriptor by descriptor without following a link, checked to be a
    regular file of bounded size before it is opened for reading, and compared
    with what was opened, while other processes may change the names at any
    point. *)

From S2P Require Import Prelude RustStr Http Config Upstream Errors FileSystem PathOwnership.

Section ErrorFiles.
Context `{Platform}.

(** The directory a path starts from. *)
Definition open_start (root : Path) : Io FileIdentity :=
  match root with
  | RootDir :: _ => look (fun f => open_path f [])
  | _ => look (fun f => let? names := realpath f [CurDir] in open_path f names)
  end.

Fixpoint open_components (components : Path) (directory : FileIdentity) : Io FileIdentity :=
  match components with
  | [] => ret directory
  | (RootDir | CurDir) :: components => open_components components directory
  | Normal name :: components =>
      let* directory := open_directory_at directory name in
      open_components components directory
  | ParentDir :: _ => throw (other "parent component")
  end.

(** What [fstat] of a descriptor answers: the node and its size. *)
Definition fstat_size (i : FileIdentity) : Io (Node * Z) :=
  look (fun f => let? n := fstat_call f i in Ok (n, st_size f i)).

(** The last component, below its directory. *)
Definition open_regular_entry (directory : FileIdentity) (filename : string) : Io FileIdentity :=
  (* opened for its identity alone, so that a link is opened itself *)
  let* stat_only := look (fun f => let? (i, _) := stat_call f directory filename in Ok i) in
  let* (before, size) := fstat_size stat_only in
  do* require (is_file_mode (st_mode before) && negb (size <? 0) && (size <=? MAX_ERROR_BODY_BYTES)) "not a bounded regular file" in
  let* readable := look (fun f => open_file_call f directory filename) in
  let* (after, _) := fstat_size readable in
  do* require (bool_decide (stat_only = readable) && is_file_mode (st_mode after)) "the file was replaced" in
  ret readable.

Definition open_bounded_regular_file (root : Path) (filename : string) (after_root_open : Io unit) : Io FileIdentity :=
  let* directory := open_start root in
  do* after_root_open in
  let* directory := open_components root directory in
  open_regular_entry directory filename.

(** [read_bounded_file_sync_with_hook], with what a read of the open file
    delivers: the metadata and the contents are those of the opened inode. *)
Definition read_bounded_file_sync_with_hook (contents : FileIdentity -> OpenFile) (root : Path) (filename : string)
    (after_root_open : Io unit) (o : Os) : option string * Os :=
  if negb (component_count filename =? 1)%nat then (None, o)
  else
    let (r, o) := open_bounded_regular_file root filename after_root_open o in
    (read_bounded_file (fun _ => contents <$> ok r) filename, o).

(** ** What is opened *)

(** Directories, each an entry of the one before it and no link when it was opened. *)
Inductive descends (now : Fs -> Prop) : Path -> FileIdentity -> FileIdentity -> Prop :=
| desc_nil d : descends now [] d d
| desc_root p d d' : descends now p d d' -> descends now (RootDir :: p) d d'
| desc_cur p d d' : descends now p d d' -> descends now (CurDir :: p) d d'
| desc_name f name p d d1 d' :
    now f -> open_dir_call f d name = Ok d1 -> descends now p d1 d' -> descends now (Normal name :: p) d d'.

Lemma descends_mono (P Q : Fs -> Prop) p d d' : (forall f, P f -> Q f) -> descends P p d d' -> descends Q p d d'.
Proof. intros HPQ. induction 1; econstructor; eauto. Qed.

Lemma open_components_ok p d o d' o' :
  open_components p d o = (Ok d', o') -> after_others o o' /\ descends (moment o o') p d d' /\ ParentDir ∉ p.
Proof.
  revert d o. induction p as [|c p IH]; intros d o Hok; cbn [open_components] in Hok.
  { apply ret_ok in Hok as [-> ->]. split; [apply rtc_refl|]. split; [constructor|apply not_elem_of_nil]. }
  destruct c as [| | |name]; [..|done|].
  - apply IH in Hok as (Ha & Hd & Hp). split; [done|]. split; [by constructor|]. by apply not_elem_of_cons.
  - apply IH in Hok as (Ha & Hd & Hp). split; [done|]. split; [by constructor|]. by apply not_elem_of_cons.
  - apply bind_ok in Hok as (d1 & o1 & H1 & Hok). apply look_ok in H1 as [-> H1]. apply IH in Hok as (Ha & Hd & Hp).
    split; [eapply rtc_l; [done|exact Ha]|]. split; [|by apply not_elem_of_cons].
    eapply desc_name; [by apply moment_disturbed|exact H1|].
    eapply descends_mono; [|exact Hd]. intros f. apply moment_weaken; [by apply rtc_once|apply rtc_refl].
Qed.

(** The inode [i] was a regular file of bounded size. *)
Definition bounded_regular (f : Fs) (i : FileIdentity) : Prop :=
  exists n, nodes f !! i = Some n /\ is_file_mode (st_mode n) = true /\ 0 <= st_size f i <= MAX_ERROR_BODY_BYTES.

Definition start_of (f : Fs) (root : Path) : result FileIdentity Errno :=
  match root with
  | RootDir :: _ => open_path f []
  | _ => let? names := realpath f [CurDir] in open_path f names
  end.

Lemma open_start_look root : open_start root = look (fun f => start_of f root).
Proof. by destruct root as [|[] ?]. Qed.

Lemma decides_components p d : decides (open_components p d) (fun f d' => descends (eq f) p d d').
Proof.
  revert d. induction p as [|c p IH]; intros d; cbn [open_components].
  - eapply decides_equiv; [|apply decides_ret]. intros f d'. split; [intros ->; constructor|by inversion 1].
  - destruct c as [| | |name].
    1,2: eapply decides_equiv; [|apply IH]; intros f d'; (split; [by constructor|by inversion 1]).
    { intros o _. split; [done|]. intros a. split; [done|inversion 1]. }
    eapply decides_equiv; [|apply decides_bind; [apply decides_look|intros d1; apply IH]]. intros f d'. simpl. split.
    + intros (d1 & H1 & Hd). by eapply desc_name.
    + inversion 1; subst. eauto.
Qed.

(** The last component, opened twice. *)
Definition regular_entry (f : Fs) (d : FileIdentity) (filename : string) (i : FileIdentity) : Prop :=
  open_file_call f d filename = Ok i /\ bounded_regular f i.

Lemma bounded_size_spec size n :
  is_file_mode (st_mode n) && negb (size <? 0) && (size <=? MAX_ERROR_BODY_BYTES) = true <->
  is_file_mode (st_mode n) = true /\ 0 <= size <= MAX_ERROR_BODY_BYTES.
Proof. rewrite !andb_true_iff, negb_true_iff, Z.ltb_ge, Z.leb_le. tauto. Qed.

Lemma decides_bind_pair {A B C} (m : Io (A * B)) (k : A -> B -> Io C) P Q :
  decides m P -> (forall a b, decides (k a b) (Q a b)) ->
  decides (bind m (fun '(a, b) => k a b)) (fun f c => exists a b, P f (a, b) /\ Q a b f c).
Proof.
  intros Hm Hk. eapply decides_equiv; [|apply (decides_bind m _ P (fun p => Q p.1 p.2)); [exact Hm|intros [a b]; apply Hk]].
  intros f c. split; [intros ([a b] & ? & ?)|intros (a & b & ? & ?); exists (a, b)]; eauto.
Qed.

Lemma decides_regular_entry d filename : decides (open_regular_entry d filename) (fun f i => regular_entry f d filename i).
Proof.
  unfold open_regular_entry, fstat_size. eapply decides_equiv.
  2: { apply decides_bind; [apply decides_look|]. intros j. apply decides_bind_pair; [apply decides_look|]. intros before size.
       apply decides_bind; [apply decides_require|]. intros ?. apply decides_bind; [apply decides_look|]. intros k.
       apply decides_bind_pair; [apply decides_look|]. intros after ?. apply decides_bind; [apply decides_require|]. intros ?.
       apply decides_ret. }
  intros f i. unfold regular_entry, bounded_regular. split.
  - intros (j & _ & n & size & Hn & _ & [Hr Hs]%bounded_size_spec & k & Hk & m & ? & _ & _ & Hjk & ->).
    apply andb_true_iff in Hjk as [->%bool_decide_eq_true _]. split; [done|]. unfold fstat_call in Hn.
    destruct (nodes f !! k) as [n'|] eqn:Hnk; [|done]. injection Hn as -> <-. by exists n.
  - intros [Ho (n & Hn & Hr & Hs)]. exists i. split.
    { unfold open_file_call in Ho. destruct (stat_call f d filename) as [[j m]|]; [|done]. simpl in *. by destruct (is_some _). }
    exists n, (st_size f i). unfold fstat_call. rewrite Hn. split; [done|]. exists tt. split; [by apply bounded_size_spec|].
    exists i. split; [done|]. exists n, (st_size f i). split; [by rewrite Hn|]. exists tt. split; [|done].
    by rewrite bool_decide_true.
Qed.

Lemma decides_open root filename :
  decides (open_bounded_regular_file root filename (ret tt)) (fun f i =>
    exists d0 d, start_of f root = Ok d0 /\ descends (eq f) root d0 d /\ regular_entry f d filename i).
Proof.
  unfold open_bounded_regular_file. rewrite open_start_look. eapply decides_equiv.
  2: { apply decides_bind; [apply decides_look|]. intros d0. apply decides_bind; [apply decides_ret|]. intros ?.
       apply decides_bind; [apply decides_components|]. intros d. apply decides_regular_entry. }
  intros f i. simpl. split.
  - intros (d0 & H0 & u & _ & d & Hd & Hi). by exists d0, d.
  - intros (d0 & d & H0 & Hd & Hi). exists d0. split; [done|]. exists tt. split; [done|]. by exists d.
Qed.

(** C28: an error file is never reached through a link or a parent component:
    whatever other processes do meanwhile, each directory on the way was a real
    directory in the one before it, and the file that is opened was a regular file
    of at most one mebibyte and stood under its name in the last of them, all at
    moments of this call; and in a file system at rest, exactly those files are
    opened. *)
Theorem error_files_are_opened_safely root filename o :
  (forall i o', open_bounded_regular_file root filename (ret tt) o = (Ok i, o') ->
     after_others o o' /\ ~ (ParentDir ∈ root) /\
     (exists f0 f1 f2 d0 d, moment o o' f0 /\ moment o o' f1 /\ moment o o' f2 /\
       start_of f0 root = Ok d0 /\ descends (moment o o') root d0 d /\
       bounded_regular f1 i /\ open_file_call f2 d filename = Ok i)) /\
  (quiet o -> forall i, ((open_bounded_regular_file root filename (ret tt) o).1 = Ok i <->
     exists d0 d, start_of (fs o) root = Ok d0 /\ descends (eq (fs o)) root d0 d /\ regular_entry (fs o) d filename i)).
Proof.
  split.
  - intros i o' Hok. unfold open_bounded_regular_file in Hok. rewrite open_start_look in Hok.
    apply bind_ok in Hok as (d0 & o1 & H1 & Hok). apply look_ok in H1 as [-> H1]. set (o1 := disturbed o) in *.
    apply bind_ok in Hok as (? & o2 & [_ ->]%ret_ok & Hok). apply bind_ok in Hok as (d & o3 & H3 & Hok).
    apply open_components_ok in H3 as (Ha3 & Hd3 & Hp). unfold open_regular_entry in Hok. apply bind_ok in Hok as (j & o4 & H4 & Hok). apply look_ok in H4 as [-> H4].
    apply bind_ok in Hok as ([before size] & o5 & H5 & Hok). apply look_ok in H5 as [-> H5].
    apply bind_ok in Hok as (? & o6 & [Hb ->]%require_ok & Hok). apply bind_ok in Hok as (k & o7 & H7 & Hok). apply look_ok in H7 as [-> H7].
    apply bind_ok in Hok as ([after size2] & o8 & H8 & Hok). apply look_ok in H8 as [-> H8].
    apply bind_ok in Hok as (? & o9 & [Hc ->]%require_ok & Hok). apply ret_ok in Hok as [-> ->].
    apply andb_true_iff in Hc as [Hjk _]. apply bool_decide_eq_true in Hjk as ->. apply bounded_size_spec in Hb as [Hreg Hsize].
    assert (Hstep : forall x, after_others x (disturbed x)) by (intros; by apply rtc_once).
    assert (Ha : after_others o o3) by (etrans; [apply Hstep|exact Ha3]).
    set (o4 := disturbed o3) in *. set (o5 := disturbed o4) in *. set (o7 := disturbed o5) in *. set (o8 := disturbed o7) in *.
    assert (H38 : after_others o3 o8) by (do 3 (etrans; [apply Hstep|]); apply Hstep).
    split; [by etrans|]. split; [done|]. exists (fs o1), (fs o5), (fs o7), d0, d. split_and!; try done.
    + exists o1. split; [apply Hstep|]. split; [by etrans|done].
    + exists o5. split; [etrans; [exact Ha|]; etrans; apply Hstep|]. split; [etrans; apply Hstep|done].
    + exists o7. split; [etrans; [exact Ha|]; etrans; [apply Hstep|]; etrans; apply Hstep|]. split; [apply Hstep|done].
    + eapply descends_mono; [|exact Hd3]. intros f. apply moment_weaken; [apply Hstep|done].
    + unfold fstat_call in H5. destruct (nodes (fs o5) !! k) as [n|] eqn:Hn; [|done]. injection H5 as -> <-. by exists before.
  - intros Hq i. by apply (decides_open root filename o Hq).
Qed.

End ErrorFiles.

Module ErrorFileExamples.
Import SimplePlatform.

(** The unrelated file of [/run] is a regular file of 300 bytes. *)
Lemma error_files_are_opened_safely_witness :
  quiet (start []) /\ (open_bounded_regular_file [RootDir; Normal "run"] "other" (ret tt) (start [])).1 = Ok intruder_id /\
  ParentDir ∉ [RootDir; Normal "run"].
Proof.
  destruct (error_files_are_opened_safely [RootDir; Normal "run"] "other" (start [])) as [Hsafe Hquiet].
  split; [done|]. assert (Hok : (open_bounded_regular_file [RootDir; Normal "run"] "other" (ret tt) (start [])).1 = Ok intruder_id).
  { apply Hquiet; [done|]. exists slash_id, run_id. split; [reflexivity|]. split; [|split; [reflexivity|]].
    - apply desc_root. eapply desc_name; [reflexivity|reflexivity|constructor].
    - exists intruder_node. split_and!; (reflexivity || done). }
  split; [exact Hok|]. destruct (open_bounded_regular_file _ _ _ _) as [r o'] eqn:Hr. simpl in Hok. subst r. apply (Hsafe _ _ eq_refl).
Defined.

(** A directory and a file that is not there are refused, and so is a path
    with a parent component. *)
Example refused_files :
  (open_bounded_regular_file [RootDir] "run" (ret tt) (start [])).1 = Err (other "not a bounded regular file") /\
  (open_bounded_regular_file [RootDir; Normal "run"] "404.html" (ret tt) (start [])).1 = Err (OsError ENOENT) /\
  (open_bounded_regular_file [RootDir; Normal "run"; ParentDir] "other" (ret tt) (start [])).1 = Err (other "parent component").
Proof. by vm_compute. Qed.

End ErrorFileExamples.
