(* ===== verification/Startup.v ===== *)
(** * Process start (src/main.rs, and opening the Redis backend)

    [run] takes its resources in order (the PID file, the backend, the proxy, the
    API, metrics and redirect listeners, the public listener) and serves; when a
    step fails, what was taken is dropped in the reverse order.  What clap, tokio,
    the backends, the network and Pingora answer is the [Outside]. *)

From S2P Require Import Prelude RustStr Route RouteTable Store Tracker Registry RegistryConc Metrics Activity.
From S2P Require Import Percent Http Sidecar Config Upstream Errors ErrorClient SocketAddr Lifecycle Proxy.
From S2P Require Import FileSystem PathOwnership Publication Listener.

(** ** Opening the Redis backend *)

Module RedisSetup.

Definition DEFAULT_OPERATION_TIMEOUT : Duration := from_secs 2.

Record RedisStoreConfig : Type := mkRedisConfig { url : string; key : string; operation_timeout : Duration }.

Definition redis_config (url : string) : RedisStoreConfig := mkRedisConfig url DEFAULT_REDIS_ROUTE_KEY DEFAULT_OPERATION_TIMEOUT.
Definition with_key (key : string) (c : RedisStoreConfig) : RedisStoreConfig := mkRedisConfig (url c) key (operation_timeout c).
Definition with_operation_timeout (t : Duration) (c : RedisStoreConfig) : RedisStoreConfig := mkRedisConfig (url c) (key c) t.

(** [redis::AsyncConnectionConfig] *)
Record ConnectionConfig : Type := mkConnection { connection_timeout : option Duration; response_timeout : option Duration }.

(** The crate [redis]: parsing a URL, and connecting under a configuration. *)
Class RedisLib : Type := {
  Client : Type;
  Connection : Type;
  client_open : string -> option Client;
  get_connection : Client -> ConnectionConfig -> option Connection
}.

Section Setup.
Context `{RedisLib}.

Record RedisStore : Type := mkRedisStore {
  client : Client;
  connection : option Connection;
  store_key : string;
  store_timeout : Duration
}.

Definition connection_config (operation_timeout : Duration) : ConnectionConfig :=
  mkConnection (Some operation_timeout) (Some operation_timeout).

Definition redis_connect (config : RedisStoreConfig) : result RedisStore StoreError :=
  let? client := ok_or (client_open (url config)) (Backend "connect") in
  let? connection := ok_or (get_connection client (connection_config (operation_timeout config))) (Backend "connect") in
  Ok (mkRedisStore client (Some connection) (key config) (operation_timeout config)).

(** [None] from [in_time] is the timeout around the whole connection attempt. *)
Definition connect_new (operation : string) (in_time : bool) (s : RedisStore) : result Connection StoreError :=
  if in_time then ok_or (get_connection (client s) (connection_config (store_timeout s))) (Backend operation)
  else Err (Backend operation).

End Setup.
End RedisSetup.

(** ** Start *)

Inductive StartupError : Type :=
| StartCli (exit_code : Z)
| StartConfig (e : ConfigError)
| StartProxy (e : ProxyBuildError)
| StartListener (e : ListenerError)
| StartPidFile (e : PidFileError)
| StartStore (e : StoreError)
| StartRuntime (e : IoError)
| StartPingora (e : string)
| MissingRedisConfig
| MissingSidecarConfig
| InvalidRedirectListener
| StartPublicService.

Section Startup.
Context `{Platform} `{OpenSsl} `{HeaderLib} `{UrlLib} `{UriLib} `{F64} `{RetryLib} `{Rustls}.
Context {Env St : Type} `{!Store Env View St}.

(** What the server's services are made of: the proxy, and the listeners, of which
    all but the public one are started once it is ready. *)
Record Services : Type := mkServices {
  sv_proxy : ChpProxy (St := St);
  sv_public : Reservation * option Endpoint;
  sv_api : BoundListener;
  sv_metrics : option BoundListener;
  sv_redirect : option (BoundListener * Z)
}.

(** The services that hold a listener. *)
Inductive Service : Type := PublicListener | ApiListener | MetricsListener | RedirectListener.

#[export] Instance Service_eq_dec : EqDecision Service.
Proof. solve_decision. Defined.

Definition all_services : list Service := [PublicListener; ApiListener; MetricsListener; RedirectListener].

(** What the program meets outside of the repository's code. *)
(** [target_os], as far as the code asks. *)
Inductive TargetOs : Type := LinuxOs | AndroidOs | MacOs | IosOs | OtherOs.

Record Outside : Type := mkOutside {
  target_os : TargetOs;
  arguments : result Cli Z;                              (** [Cli::try_parse], or clap's exit code *)
  environment : Config.Env;
  redis_url_valid : string -> bool;                       (** [redis::parse_redis_url] *)
  runtime_built : result unit IoError;
  memory_store : St;
  connect_redis : RedisSetup.RedisStoreConfig -> result St StoreError;
  connect_sidecar : SidecarConfig -> result St StoreError;
  mutation_env : Env;                                    (** the clock of the default route *)
  tcp_bind : string -> result unit IoError;
  to_socket_addrs : string -> result (list string) IoError;
  server_new : result unit string;
  (** [Server::run], which consumes the services: whether the public service failed,
      and in which order the runtimes let go of the services when they end. *)
  serve : Services -> Os -> bool * list Service * Os
}.

(** Code that may fail, with the file system it runs in. *)
Definition Start (A : Type) : Type := Os -> result A StartupError * Os.

Definition lift {A} (r : result A StartupError) : Start A := fun o => (r, o).

Definition and_then {A B} (m : Start A) (k : A -> Start B) : Start B := fun o =>
  match m o with (Ok a, o) => k a o | (Err e, o) => (Err e, o) end.

Notation "'let!' x := m 'in' k" := (and_then m (fun x => k))
  (at level 10, x pattern at level 0, m at level 150, k at level 200).

Definition listening {A} (m : Os -> result A ListenerError * Os) : Start A := fun o =>
  let (r, o) := m o in (map_err StartListener r, o).

(** An error on the way drops what was taken before; a success moves it on. *)
Definition unwinding {A} (m : Start A) (release : Io unit) : Start A := fun o =>
  match m o with (Ok a, o) => (Ok a, o) | (Err e, o) => (Err e, (release o).2) end.

Definition drop_bound (b : BoundListener) : Io unit :=
  match b with BoundTcp _ | BoundTls _ _ => ret tt | BoundUnix owner => drop_owned owner end.

Definition drop_option {A} (release : A -> Io unit) (a : option A) : Io unit :=
  match a with Some a => release a | None => ret tt end.

Definition drop_reservation (r : Reservation) : Io unit :=
  match r with ReservedTcp _ _ => ret tt | ReservedUnix owner => drop_owned owner end.

(** A service is dropped with the listener it holds. *)
Definition drop_service (s : Services) (x : Service) : Io unit :=
  match x with
  | PublicListener => drop_reservation (sv_public s).1
  | ApiListener => drop_bound (sv_api s)
  | MetricsListener => drop_option drop_bound (sv_metrics s)
  | RedirectListener => drop_option (fun r => drop_bound r.1) (sv_redirect s)
  end.

Definition drop_services (s : Services) (order : list Service) (o : Os) : Os :=
  fold_left (fun o x => (drop_service s x o).2) order o.

(** [Option::map(..).transpose()?] *)
Definition optionally {A B} (a : option A) (m : A -> Start B) : Start (option B) :=
  match a with
  | Some a => let! b := m a in lift (Ok (Some b))
  | None => lift (Ok None)
  end.

Definition open_store (w : Outside) (config : AppConfig) : result St StartupError :=
  match store config with
  | StoreMemory => Ok (memory_store w)
  | StoreRedis =>
      let? redis := ok_or (redis config) MissingRedisConfig in
      map_err StartStore (connect_redis w
        (RedisSetup.with_operation_timeout (operation_timeout redis)
          (RedisSetup.with_key (redis_route_key redis) (RedisSetup.redis_config (redis_url redis)))))
  | StoreSidecar =>
      let? sidecar := ok_or (sidecar config) MissingSidecarConfig in
      map_err StartStore (connect_sidecar w
        (with_request_timeout (Config.request_timeout sidecar) (with_connect_timeout (Config.connect_timeout sidecar)
          (with_bearer_token (Config.bearer_token sidecar) (new_config (sidecar_url sidecar))))))
  end.

(** The runtime, the backend, the registry and the proxy. *)
Definition prepare (w : Outside) (config : AppConfig) : result (ChpProxy (St := St)) StartupError :=
  let? _ := map_err StartRuntime (runtime_built w) in
  let? store := open_store w config in
  let? registry := map_err StartStore (load store) in
  map_err StartProxy (from_config (mutation_env w) registry config (start_with_metrics 64 Metrics_new)).1.

Definition redirect_configuration (config : AppConfig) (redirect_port : Z) : result (ListenerConfig * Z) StartupError :=
  match public_listener config with
  | ListenUnix _ => Err InvalidRedirectListener
  | ListenTcp public =>
      let? public_address := ok_or (parse_socket_addr public) InvalidRedirectListener in
      let https_port := default (addr_port public_address) (redirect_to config) in
      Ok (ListenTcp (show_socket_addr (mkSocketAddr (addr_ip public_address) redirect_port)), https_port)
  end.

Definition bind_redirect (w : Outside) (config : AppConfig) (port : Z) : Start (BoundListener * Z) :=
  let! (listener, https_port) := lift (redirect_configuration config port) in
  let! bound := listening (api_bind (tcp_bind w) listener None) in
  lift (Ok (bound, https_port)).

(** The listeners, each dropped again when a later one cannot be had. *)
Definition bind_listeners (w : Outside) (config : AppConfig) (proxy : ChpProxy (St := St)) : Start Services :=
  let! api := listening (api_bind (tcp_bind w) (api_listener config) (api_tls config)) in
  unwinding
    (let! metrics := optionally (metrics_listener config) (fun listener => listening (api_bind (tcp_bind w) listener None)) in
     unwinding
       (let! redirect := optionally (redirect_port config) (bind_redirect w config) in
        unwinding
          (let! _ := lift (map_err StartPingora (server_new w)) in
           let! public := listening (prebound_new (tcp_bind w) (to_socket_addrs w) (public_listener config) (public_tls config)) in
           lift (Ok (mkServices proxy public api metrics redirect)))
          (drop_option (fun r => drop_bound r.1) redirect))
       (drop_option drop_bound metrics))
    (drop_bound api).

Definition start_and_serve (w : Outside) (config : AppConfig) : Start unit :=
  let! proxy := lift (prepare w config) in
  let! services := bind_listeners w config proxy in
  fun o =>
    let '(failed, order, o) := serve w services o in
    (if failed then Err StartPublicService else Ok tt, drop_services services order o).

(** [_pid_file] is the first thing taken and the last thing dropped. *)
Definition with_pid_file (path : option string) (body : Start unit) : Start unit :=
  match path with
  | None => body
  | Some path => fun o =>
      match acquire (components_of path) o with
      | (Err e, o) => (Err (StartPidFile e), o)
      | (Ok guard, o) => let (r, o) := body o in (r, (drop_pid_file guard o).2)
      end
  end.

Definition ensure_public_startup_supported (t : TargetOs) : result unit ListenerError :=
  match t with
  | LinuxOs | AndroidOs | MacOs | IosOs => Ok tt
  | OtherOs => Err PublicUnsupported
  end.

Definition run (w : Outside) : Start unit :=
  let! cli := lift (map_err StartCli (arguments w)) in
  let! config := lift (map_err StartConfig (try_from (redis_url_valid w) (environment w) cli)) in
  let! _ := lift (map_err StartListener (ensure_public_startup_supported (target_os w))) in
  let! _ := listening (ensure_listener_paths_distinct
              (public_listener config :: api_listener config :: option_list (metrics_listener config))) in
  with_pid_file (Config.pid_file config) (start_and_serve w config).

(** [main]: the exit code of the process. *)
Definition main (w : Outside) (o : Os) : Z * Os :=
  match run w o with
  | (Ok _, o) => (0, o)
  | (Err (StartCli exit_code), o) => (if (0 <=? exit_code) && (exit_code <=? 255) then exit_code else 1, o)
  | (Err _, o) => (1, o)
  end.

(** ** How a start can end *)

(** Every error of [m] satisfies [P]. *)
Definition errs {A} (m : Start A) (P : StartupError -> Prop) : Prop := forall o e, (m o).1 = Err e -> P e.

Lemma errs_lift {A} (r : result A StartupError) P : (forall e, r = Err e -> P e) -> errs (lift r) P.
Proof. intros Hr o e. apply Hr. Qed.

Lemma errs_and_then {A B} (m : Start A) (k : A -> Start B) P :
  errs m P -> (forall a o, (m o).1 = Ok a -> errs (k a) P) -> errs (and_then m k) P.
Proof.
  intros Hm Hk o e. unfold and_then. specialize (Hm o). destruct (m o) as [[a|e'] o'] eqn:Hmo.
  - apply (Hk a o). by rewrite Hmo.
  - intros [= <-]. by apply Hm.
Qed.

Lemma errs_unwinding {A} (m : Start A) release P : errs m P -> errs (unwinding m release) P.
Proof.
  intros Hm o e. unfold unwinding. specialize (Hm o). destruct (m o) as [[a|e'] o']; [done|]. intros [= <-]. by apply Hm.
Qed.

Lemma errs_listening {A} (m : Os -> result A ListenerError * Os) (P : StartupError -> Prop) :
  (forall e, P (StartListener e)) -> errs (listening m) P.
Proof. intros HP o e. unfold listening. destruct (m o) as [[a|e'] o']; simpl; [done|]. intros [= <-]. apply HP. Qed.

Lemma errs_optionally {A B} (a : option A) (m : A -> Start B) P : (forall a, errs (m a) P) -> errs (optionally a m) P.
Proof. intros Hm. destruct a; simpl; [apply errs_and_then; [apply Hm|]; intros|]; by apply errs_lift. Qed.

Lemma errs_pid_file path (body : Start unit) P : (forall e, P (StartPidFile e)) -> errs body P -> errs (with_pid_file path body) P.
Proof.
  intros HP Hb. destruct path as [path|]; [|done]. intros o e. simpl. destruct (acquire _ o) as [[g|e'] o1]; [|intros [= <-]; apply HP].
  specialize (Hb o1). destruct (body o1) as [r o2]. simpl in *. apply Hb.
Qed.

(** [m] leaves the file system alone. *)
Definition still {A} (m : Start A) : Prop := forall o, (m o).2 = o.

Lemma still_and_then {A B} (m : Start A) (k : A -> Start B) :
  still m -> (forall a o, (m o).1 = Ok a -> still (k a)) -> still (and_then m k).
Proof.
  intros Hm Hk o. unfold and_then. pose proof (Hm o) as Ho.
  destruct (m o) as [[a|e] o'] eqn:Hmo; simpl in *; subst; [|done]. apply (Hk a o). by rewrite Hmo.
Qed.

Lemma still_unwinding {A} (m : Start A) release : still m -> (forall o, (release o).2 = o) -> still (unwinding m release).
Proof. intros Hm Hr o. unfold unwinding. specialize (Hm o). destruct (m o) as [[a|e] o']; simpl in *; subst; [done|apply Hr]. Qed.

Lemma still_optionally {A B} (a : option A) (m : A -> Start B) : (forall x, a = Some x -> still (m x)) -> still (optionally a m).
Proof. intros Hm. destruct a as [a|]; simpl; [|done]. apply still_and_then; [by apply Hm|done]. Qed.

Definition is_tcp (l : ListenerConfig) : Prop := match l with ListenTcp _ => True | ListenUnix _ => False end.

Lemma still_api_bind tcp l tls : is_tcp l -> still (listening (api_bind tcp l tls)).
Proof. intros Hl o. destruct l as [a|]; [|done]. unfold listening, api_bind. done. Qed.

Lemma still_prebound tcp resolve l tls : is_tcp l -> still (listening (prebound_new tcp resolve l tls)).
Proof.
  intros Hl o. destruct l as [a|]; [|done]. unfold listening, prebound_new, reservation_bind.
  destruct (resolve _) as [[|x l]|]; simpl; try done. destruct (tcp x); done.
Qed.

(** Dropping a TCP listener touches no file. *)
Definition untied (b : BoundListener) : Prop := forall o, (drop_bound b o).2 = o.

Lemma api_bind_tcp tcp l tls o b : is_tcp l -> (listening (api_bind tcp l tls) o).1 = Ok b -> untied b.
Proof.
  destruct l as [a|]; [|done]. intros _. unfold listening, api_bind. destruct (tcp a); [|done]. simpl.
  destruct tls as [tls|]; [destruct (build_ssl_acceptor tls); [|done]|]; by intros [= <-].
Qed.

Lemma optionally_ok {A B} (a : option A) (m : A -> Start B) o b :
  (optionally a m o).1 = Ok (Some b) -> exists x o', a = Some x /\ (m x o').1 = Ok b.
Proof.
  destruct a as [x|]; simpl; [|done]. unfold and_then. destruct (m x o) as [[y|e] o'] eqn:Hm; simpl; [|done].
  intros [= <-]. exists x, o. by rewrite Hm.
Qed.

Lemma redirect_is_tcp config port l https : redirect_configuration config port = Ok (l, https) -> is_tcp l.
Proof.
  unfold redirect_configuration. destruct (public_listener config) as [public|]; [|done].
  destruct (parse_socket_addr public); [|done]. by intros [= <- _].
Qed.

Lemma still_redirect w config port : still (bind_redirect w config port).
Proof.
  apply still_and_then; [done|]. intros [l https] o Hl. apply redirect_is_tcp in Hl.
  apply still_and_then; [by apply still_api_bind|done].
Qed.

Lemma redirect_untied w config port o r : (bind_redirect w config port o).1 = Ok r -> untied r.1.
Proof.
  unfold bind_redirect, and_then at 1, lift at 1. destruct (redirect_configuration config port) as [[l https]|] eqn:Hr; [|done].
  apply redirect_is_tcp in Hr. unfold and_then. destruct (listening _ o) as [[b|] o1] eqn:Hb; [|done]. intros [= <-]. simpl.
  apply (api_bind_tcp (tcp_bind w) l None o); [done|]. by rewrite Hb.
Qed.

Lemma still_drop_option {A} (release : A -> Io unit) (a : option A) :
  (forall x, a = Some x -> forall o, (release x o).2 = o) -> forall o, (drop_option release a o).2 = o.
Proof. destruct a as [x|]; [|done]. intros Hx. by apply Hx. Qed.

(** The listeners of a configuration without Unix sockets. *)
Definition tcp_only (config : AppConfig) : Prop :=
  Forall is_tcp (public_listener config :: api_listener config :: option_list (metrics_listener config)).

Lemma still_bind_listeners w config proxy : tcp_only config -> still (bind_listeners w config proxy).
Proof.
  intros Ht. unfold tcp_only in Ht. rewrite !Forall_cons in Ht. destruct Ht as (Hp & Ha & Hm). unfold bind_listeners.
  apply still_and_then; [by apply still_api_bind|]. intros api o1 Hapi. apply (api_bind_tcp _ _ _ _ _ Ha) in Hapi.
  apply still_unwinding; [|done].
  assert (Hmet : forall x, metrics_listener config = Some x -> is_tcp x).
  { intros x Hx. rewrite Hx in Hm. simpl in Hm. by apply Forall_cons in Hm as [? _]. }
  apply still_and_then; [apply still_optionally; intros l Hl; by apply still_api_bind, Hmet|]. intros metrics o2 Hmetrics.
  apply still_unwinding.
  2: { apply still_drop_option. intros b ->. apply optionally_ok in Hmetrics as (l & o' & Hl & Hb). eapply api_bind_tcp; [by apply Hmet|exact Hb]. }
  apply still_and_then; [apply still_optionally; intros port _; apply still_redirect|]. intros redirect o3 Hredirect.
  apply still_unwinding.
  2: { apply still_drop_option. intros r ->. apply optionally_ok in Hredirect as (port & o' & _ & Hr). by apply redirect_untied in Hr. }
  apply still_and_then; [done|]. intros ? _ _. apply still_and_then; [by apply still_prebound|done].
Qed.

Lemma still_distinct config : tcp_only config ->
  forall o, ensure_listener_paths_distinct (public_listener config :: api_listener config :: option_list (metrics_listener config)) o = (Ok tt, o).
Proof.
  unfold tcp_only, ensure_listener_paths_distinct, unix_bind. generalize (∅ : gset (list string)).
  generalize (public_listener config :: api_listener config :: option_list (metrics_listener config)). intros l paths Hl o.
  enough (distinct_loop l paths o = (Ok tt, o)) as -> by done. induction Hl as [|[a|] l Hx Hl IH]; done.
Qed.

Lemma and_then_ok {A B} (m : Start A) (k : A -> Start B) o b :
  (and_then m k o).1 = Ok b -> exists a o1, m o = (Ok a, o1) /\ (k a o1).1 = Ok b.
Proof. unfold and_then. destruct (m o) as [[a|e] o1]; [|done]. intros Hk. by exists a, o1. Qed.

Lemma unwinding_ok {A} (m : Start A) release o a : (unwinding m release o).1 = Ok a -> (m o).1 = Ok a.
Proof. unfold unwinding. by destruct (m o) as [[x|e] o1]. Qed.

Lemma drop_services_still s order : (forall x o, (drop_service s x o).2 = o) -> forall o, drop_services s order o = o.
Proof. intros Hx. induction order as [|x order IH]; intros o; [done|]. simpl. rewrite Hx. apply IH. Qed.

(** The services of a configuration without Unix sockets hold no file. *)
Lemma bound_untied w config proxy o s :
  tcp_only config -> (bind_listeners w config proxy o).1 = Ok s -> forall x o', (drop_service s x o').2 = o'.
Proof.
  unfold tcp_only. rewrite !Forall_cons. intros (Hp & Ha & Hm) Hs. unfold bind_listeners in Hs.
  assert (Hmet : forall x, metrics_listener config = Some x -> is_tcp x).
  { intros x Hx. rewrite Hx in Hm. simpl in Hm. by apply Forall_cons in Hm as [? _]. }
  apply and_then_ok in Hs as (api & o1 & Hapi & Hs). apply unwinding_ok in Hs.
  apply and_then_ok in Hs as (metrics & o2 & Hmetrics & Hs). apply unwinding_ok in Hs.
  apply and_then_ok in Hs as (redirect & o3 & Hredirect & Hs). apply unwinding_ok in Hs.
  apply and_then_ok in Hs as (u & o4 & _ & Hs). apply and_then_ok in Hs as (public & o5 & Hpublic & Hs).
  injection Hs as <-. intros x o'. destruct x; simpl.
  - unfold listening in Hpublic. destruct (public_listener config) as [address|]; [|done]. unfold prebound_new, reservation_bind in Hpublic.
    destruct (to_socket_addrs w _) as [[|r rs]|]; simpl in Hpublic; try done. destruct (tcp_bind w r); simpl in Hpublic; [|done].
    by destruct (public_tls config); simpl in Hpublic; [destruct (build_ssl_acceptor _)|]; simplify_eq/=.
  - eapply (api_bind_tcp _ _ _ _ _ Ha). by rewrite Hapi.
  - apply still_drop_option. intros b ->. destruct (optionally_ok (metrics_listener config) (fun l => listening (api_bind (tcp_bind w) l None)) o1 b) as (l & o'' & Hl & Hb);
      [by rewrite Hmetrics|]. eapply api_bind_tcp; [by apply Hmet|exact Hb].
  - apply still_drop_option. intros r ->. destruct (optionally_ok (redirect_port config) (bind_redirect w config) o2 r) as (port & o'' & _ & Hr);
      [by rewrite Hredirect|]. by apply redirect_untied in Hr.
Qed.

Lemma startup_supported t : t <> OtherOs -> ensure_public_startup_supported t = Ok tt.
Proof. by destruct t. Qed.

(** On any other target the start fails before it touches the file system. *)
Lemma other_targets_fail_closed w o : target_os w = OtherOs -> is_ok (run w o).1 = false /\ (run w o).2 = o.
Proof.
  intros Hos. unfold run, and_then, lift. destruct (arguments w) as [cli|]; [|done]. cbn [map_err].
  destruct (try_from _ _ cli); [|done]. cbn [map_err]. by rewrite Hos.
Qed.

(** The PID file marks the life of the process: in a file system at rest, a process with TCP listeners creates its PID file before it
    opens its backend or binds anything, everything else happens while the file is
    there, and when the process ends, in success or at whatever step it failed,
    every inode that was there before, the directory included, is as it was; where
    the name was taken the process fails at once and touches nothing. *)
Theorem pid_file_marks_the_process `{!PlatformLaws} w cli config path name b d nd bytes rest o :
  target_os w <> OtherOs -> arguments w = Ok cli -> try_from (redis_url_valid w) (environment w) cli = Ok config ->
  tcp_only config -> (forall services o, (serve w services o).2 = o) ->
  Config.pid_file config = Some path -> file_name (components_of path) = Some name ->
  quiet o -> boundary_of (fs o) (parent_or_dot (components_of path)) b d -> nodes (fs o) !! d = Some nd ->
  entropy o = Some bytes :: rest -> entries nd !! cleanup_name bytes = None -> cleanup_name bytes <> name ->
  match entries nd !! name with
  | Some _ => run w o = (Err (StartPidFile (PidCreate (OsError EEXIST))), o)
  | None => exists o1 o2, run w o = ((start_and_serve w config o1).1, o2) /\
      (exists i, lookup_at (fs o1) d name = Ok i /\ nodes (fs o) !! i = None) /\
      forall k n, nodes (fs o) !! k = Some n -> nodes (fs o2) !! k = Some n
  end.
Proof.
  intros Hos Hargs Hcfg Htcp Hserve Hpid Hname Hq Hb Hd Hent Hfree Hne.
  assert (Hrun : run w o = with_pid_file (Some path) (start_and_serve w config) o).
  { unfold run, and_then, lift, listening. rewrite Hargs. cbn [map_err]. rewrite Hcfg. cbn [map_err].
    rewrite (startup_supported _ Hos). cbn [map_err]. rewrite still_distinct by done. cbn [map_err]. by rewrite Hpid. }
  rewrite Hrun. unfold with_pid_file.
  pose proof (pid_file_bracket (components_of path) name b d nd o bytes rest Hq Hname Hb Hd Hent Hfree Hne) as Hbr.
  destruct (entries nd !! name) as [k|]; [by rewrite Hbr|]. destruct Hbr as (g & o1 & o2 & -> & Hl & Hi & Hdrop & Hkeep).
  assert (Hbody : still (start_and_serve w config)).
  { apply still_and_then; [done|]. intros proxy ? _. apply still_and_then; [by apply still_bind_listeners|]. intros services ox Hsv o'.
    specialize (Hserve services o'). destruct (serve w services o') as [[failed order] o'']. simpl in Hserve. subst o''. simpl.
    apply drop_services_still. intros x ?. by eapply (bound_untied w config proxy). }
  exists o1, o2. specialize (Hbody o1). destruct (start_and_serve w config o1) as [r o1']. simpl in Hbody. subst o1'.
  rewrite Hdrop. split; [done|]. split; [by exists (pid_file g)|done].
Qed.

(** A host that is no address literal: left out, the wildcard, or a name. *)
Definition names_no_address (ip : option string) : bool :=
  match ip with
  | None => true
  | Some host => String.eqb host "*" || match host with
                                        | EmptyString => true
                                        | String c _ => is_ascii_alphabetic c && negb (contains_char colon host)
                                        end
  end.

Lemma alphabetic_starts_no_address c : is_ascii_alphabetic c = true -> is_ascii_digit c = false /\ Ascii.eqb c "[" = false.
Proof.
  unfold is_ascii_alphabetic, is_ascii_lower, is_ascii_upper, is_ascii_digit, byte_in. intros Hc. split.
  - bool_simp. lia.
  - destruct (Ascii.eqb_spec c "["); [|done]. subst. done.
Qed.

Lemma no_address_parsed ip port : names_no_address ip = true -> parse_socket_addr (tcp_address (default "" ip) port) = None.
Proof.
  destruct ip as [host|]; simpl; [|done]. unfold tcp_address. destruct (String.eqb host "*"); simpl; [done|].
  destruct host as [|c host]; [done|]. intros [Hc Hcol]%andb_true_iff. apply negb_true_iff in Hcol. rewrite Hcol. cbn [andb].
  destruct (alphabetic_starts_no_address c Hc) as [Hd Hb]. apply (parse_socket_addr_first c); done.
Qed.

Lemma with_pid_file_ok path body o : (with_pid_file path body o).1 = Ok tt -> exists o1, (body o1).1 = Ok tt.
Proof.
  destruct path as [path|]; simpl; [|by exists o]. destruct (acquire _ o) as [[g|e] o1]; [|done].
  destruct (body o1) as [r o2] eqn:Hb. simpl. intros ->. exists o1. by rewrite Hb.
Qed.

(** What a start that ran to its end went through. *)
Lemma run_ok w o : (run w o).1 = Ok tt ->
  exists cli config proxy services o1 o2,
    arguments w = Ok cli /\ try_from (redis_url_valid w) (environment w) cli = Ok config /\
    prepare w config = Ok proxy /\ bind_listeners w config proxy o1 = (Ok services, o2) /\ (serve w services o2).1.1 = false.
Proof.
  intros Hr. apply and_then_ok in Hr as (cli & o1 & E1 & Hr). apply and_then_ok in Hr as (config & o2 & E2 & Hr).
  apply and_then_ok in Hr as (? & ? & _ & Hr). apply and_then_ok in Hr as (u & o3 & _ & Hr). apply with_pid_file_ok in Hr as [o4 Hr].
  apply and_then_ok in Hr as (proxy & o5 & E5 & Hr). apply and_then_ok in Hr as (services & o6 & E6 & Hr).
  unfold lift in E1, E2, E5. injection E1 as E1 <-. injection E2 as E2 <-. injection E5 as E5 <-.
  exists cli, config, proxy, services, o4, o6. split_and!; [..|by destruct (serve w services o6) as [[[] ?] ?]].
  - by destruct (arguments w); simplify_eq/=.
  - by destruct (try_from _ _ _); simplify_eq/=.
  - done.
  - done.
Qed.

Lemma bind_listeners_redirect w config proxy port o :
  redirect_port config = Some port -> is_ok (bind_listeners w config proxy o).1 = true -> is_ok (redirect_configuration config port) = true.
Proof.
  intros Hp Hb. destruct (bind_listeners w config proxy o).1 as [s|] eqn:Hs; [|done]. unfold bind_listeners in Hs.
  apply and_then_ok in Hs as (api & o1 & _ & Hs). apply unwinding_ok in Hs. apply and_then_ok in Hs as (metrics & o2 & _ & Hs).
  apply unwinding_ok in Hs. apply and_then_ok in Hs as (redirect & o3 & Hr & _). rewrite Hp in Hr. simpl in Hr.
  assert (Hr1 : (bind_redirect w config port o2).1 = Ok (default (BoundTcp "", 0) redirect)).
  { unfold and_then in Hr. destruct (bind_redirect w config port o2) as [[x|] o4]; [|done]. by injection Hr as <- _. }
  apply and_then_ok in Hr1 as ([l https] & o5 & Hc & _). unfold lift in Hc. by injection Hc as -> _.
Qed.

Lemma try_from_redirect v env cli config :
  try_from v env cli = Ok config ->
  redirect_port config = nonzero_port (cli_redirect_port cli) /\ public_listener config = public_listener_of cli /\
  (store config = StoreRedis -> is_Some (redis config)) /\ (store config = StoreSidecar -> is_Some (sidecar config)).
Proof.
  intros Hc. unfold try_from in Hc. inv_ok Hc. injection Hc as <-. cbn [redirect_port public_listener store redis sidecar].
  split; [done|]. split; [done|]. split.
  - intros ->. match goal with E : parse_redis_runtime _ _ _ = Ok _ |- _ => unfold parse_redis_runtime in E; cbn [negb] in E;
      rewrite bool_decide_true in E by done; cbn [negb] in E; inv_ok E; by injection E as <- end.
  - intros ->. match goal with E : parse_sidecar_runtime _ _ = Ok _ |- _ => unfold parse_sidecar_runtime in E;
      rewrite bool_decide_true in E by done; cbn [negb] in E; inv_ok E; by injection E as <- end.
Qed.

(** C39: the HTTPS redirect needs an address literal: with a redirect port and a
    public host that is left out (the default), the wildcard, or a name, or a
    public Unix socket, an accepted configuration never serves, whatever the rest
    of the system does; with an IPv4 or IPv6 literal the redirect listens on that
    address at its own port, written in the form the standard library reads back,
    and sends clients to the configured or the public port. *)
Theorem redirect_needs_an_address_literal w :
  (forall cli port o, arguments w = Ok cli -> nonzero_port (cli_redirect_port cli) = Some port ->
     is_Some (socket cli) \/ names_no_address (ip cli) = true -> (run w o).1 <> Ok tt) /\
  (forall config public address port, public_listener config = ListenTcp public ->
     parse_socket_addr public = Some address -> 0 <= port <= u16_max ->
     exists text, redirect_configuration config port = Ok (ListenTcp text, default (addr_port address) (redirect_to config)) /\
       parse_socket_addr text = Some (mkSocketAddr (addr_ip address) port)).
Proof.
  split.
  - intros cli port o Hargs Hport Hhost Hrun. apply run_ok in Hrun as (cli' & config & proxy & services & o1 & o2 & Ha & Hc & _ & Hb & _).
    rewrite Hargs in Ha. injection Ha as <-. apply try_from_redirect in Hc as (Hrp & Hpl & _). rewrite Hport in Hrp.
    assert (Hok := bind_listeners_redirect w config proxy port o1 Hrp). rewrite Hb in Hok. specialize (Hok eq_refl).
    unfold redirect_configuration, public_listener_of in *. rewrite Hpl in Hok. destruct (socket cli) as [path|]; [done|].
    destruct Hhost as [[? ?]|Hhost]; [done|]. by rewrite no_address_parsed in Hok.
  - intros config public address port Hl Hp Hport. unfold redirect_configuration. rewrite Hl, Hp. cbn [ok_or].
    eexists. split; [done|]. apply parse_show. apply parse_range in Hp as [Hip _]. by split.
Qed.

(** The errors of a start whose arguments were accepted. *)
Definition not_missing (e : StartupError) : Prop :=
  match e with StartCli _ | MissingRedisConfig | MissingSidecarConfig => False | _ => True end.

Lemma errs_redirect w config port : errs (bind_redirect w config port) not_missing.
Proof.
  apply errs_and_then; [|intros [l https] _ _; apply errs_and_then; [by apply errs_listening|intros; by apply errs_lift]].
  apply errs_lift. unfold redirect_configuration. destruct (public_listener config) as [public|]; [|by intros e [= <-]].
  by destruct (parse_socket_addr public); intros e [= <-].
Qed.

Lemma errs_bind_listeners w config proxy : errs (bind_listeners w config proxy) not_missing.
Proof.
  unfold bind_listeners. apply errs_and_then; [by apply errs_listening|]. intros api _ _. apply errs_unwinding.
  apply errs_and_then; [apply errs_optionally; intros; by apply errs_listening|]. intros metrics _ _. apply errs_unwinding.
  apply errs_and_then; [apply errs_optionally; intros; apply errs_redirect|]. intros redirect _ _. apply errs_unwinding.
  apply errs_and_then; [apply errs_lift; by destruct (server_new w); intros ? [= <-]|]. intros _ _ _.
  apply errs_and_then; [by apply errs_listening|intros; by apply errs_lift].
Qed.

Lemma prepare_not_missing w config e :
  (store config = StoreRedis -> is_Some (redis config)) -> (store config = StoreSidecar -> is_Some (sidecar config)) ->
  prepare w config = Err e -> not_missing e.
Proof.
  intros Hr Hs. unfold prepare. destruct (runtime_built w) as [[]|x]; [|by intros [= <-]]. cbn [map_err].
  assert (Hopen : forall e, open_store w config = Err e -> not_missing e).
  { intros e'. unfold open_store. destruct (store config) eqn:Hst; [done| |].
    - destruct (Hr eq_refl) as [x ->]. cbn [ok_or]. by destruct (connect_redis w _); intros [= <-].
    - destruct (Hs eq_refl) as [x ->]. cbn [ok_or]. by destruct (connect_sidecar w _); intros [= <-]. }
  destruct (open_store w config) as [s|x]; [|intros [= <-]; by apply Hopen]. destruct (load s) as [r|x]; [|by intros [= <-]]. cbn [map_err].
  by destruct (from_config _ r config _).1; intros [= <-].
Qed.

Lemma errs_accepted w cli : arguments w = Ok cli -> errs (run w) not_missing.
Proof.
  intros Hargs. unfold run. rewrite Hargs. apply errs_and_then; [by apply errs_lift|]. intros cli' o0 [= <-].
  apply errs_and_then; [apply errs_lift; by destruct (try_from _ _ _); intros ? [= <-]|]. intros config o Hc.
  assert (Hcfg : try_from (redis_url_valid w) (environment w) cli = Ok config).
  { unfold lift in Hc. simpl in Hc. by destruct (try_from _ _ _); simplify_eq/=. }
  apply try_from_redirect in Hcfg as (_ & _ & Hr & Hs).
  apply errs_and_then; [apply errs_lift; by destruct (target_os w); intros ? [= <-]|]. intros _ _ _.
  apply errs_and_then; [by apply errs_listening|]. intros _ _ _. apply errs_pid_file; [done|].
  apply errs_and_then; [apply errs_lift; intros e; by apply prepare_not_missing|]. intros proxy _ _.
  apply errs_and_then; [apply errs_bind_listeners|]. intros services _ _ o' e. destruct (serve w services o') as [[failed ?] ?].
  destruct failed; by intros [= <-].
Qed.

(** A start never stumbles over its own configuration: the errors for a
    validated backend configuration that is missing cannot occur; and the process
    exits with success only when clap answered itself or the services ran, all
    listeners bound and the proxy built, and the public one did not fail. *)
Theorem successful_exit_means_served w o :
  (forall e, (run w o).1 = Err e -> e <> MissingRedisConfig /\ e <> MissingSidecarConfig) /\
  ((main w o).1 = 0 ->
   arguments w = Err 0 \/
   exists cli config proxy services o1 o2,
     arguments w = Ok cli /\ try_from (redis_url_valid w) (environment w) cli = Ok config /\
     prepare w config = Ok proxy /\ bind_listeners w config proxy o1 = (Ok services, o2) /\ (serve w services o2).1.1 = false).
Proof.
  destruct (arguments w) as [cli|code] eqn:Hargs.
  - pose proof (errs_accepted w cli Hargs o) as Herr. split; [intros e He; by apply Herr in He; destruct e|].
    unfold main. destruct (run w o) as [[[]|e] o'] eqn:Hr.
    + intros _. right. rewrite <- Hargs. apply (run_ok w o). by rewrite Hr.
    + by specialize (Herr e eq_refl); destruct e.
  - unfold main, run, and_then, lift. rewrite Hargs. cbn [map_err fst]. split; [by intros e [= <-]|].
    destruct ((0 <=? code) && (code <=? 255)); [|done]. intros ->. by left.
Qed.

End Startup.

(** ** Witnesses *)

Module StartupExamples.
Import SimplePlatform SimpleHttp ListenerExamples ErrorClientExamples.

#[local] Instance retry : RetryLib := sample_retry.

Definition arguments_with (host : option string) (redirect : option Z) (pid api metrics : option string) : Cli := {|
  ip := host; cli_port := Some 8443; socket := None; ssl_key := Some "k.pem"; ssl_cert := Some "c.pem"; ssl_ca := None;
  ssl_request_cert := false; ssl_reject_unauthorized := false; ssl_protocol := None;
  ssl_ciphers := None; ssl_allow_rc4 := false; ssl_dhparam := None; api_ip := None;
  api_port := None; api_socket := api; api_ssl_key := None; api_ssl_cert := None;
  api_ssl_ca := None; api_ssl_request_cert := false; api_ssl_reject_unauthorized := false;
  client_ssl_key := None; client_ssl_cert := None; client_ssl_ca := None;
  client_ssl_request_cert := false; client_ssl_reject_unauthorized := false;
  cli_default_target := Some "http://127.0.0.1:9000/base"; cli_error_target := None;
  cli_error_path := None; cli_redirect_port := redirect; cli_redirect_to := None; cli_pid_file := pid;
  cli_x_forward := true; cli_prepend_path := true; cli_include_prefix := true;
  cli_auto_rewrite := false; cli_change_origin := false; cli_protocol_rewrite := None;
  cli_custom_header := []; insecure := false; cli_host_routing := false;
  metrics_ip := None; metrics_port := None; metrics_socket := metrics; cli_log_level := "INFO";
  cli_timeout := None; cli_proxy_timeout := None; storage_backend := None;
  keep_alive_timeout := Some 0 |}.

(** A system in which everything works, with the in-memory backend. *)
Definition working (cli : Cli) : Outside (Env := MemoryStore.Clock) (St := MemoryStore.t) := {|
  arguments := Ok cli; environment := fun _ => None; redis_url_valid := fun _ => true;
  target_os := LinuxOs; runtime_built := Ok tt; memory_store := MemoryStore.new;
  connect_redis := fun _ => Err (Backend "connect"); connect_sidecar := fun _ => Err (Backend "connect");
  mutation_env := MemoryStore.mkClock None 5;
  tcp_bind := fun _ => Ok tt; to_socket_addrs := fun a => Ok [a];
  server_new := Ok tt; serve := fun _ o => (false, all_services, o) |}.

Definition config_of (cli : Cli) : result AppConfig ConfigError := try_from (fun _ => true) (fun _ => None) cli.

Definition pid_cli : Cli := arguments_with (Some "127.0.0.1") (Some 8080) (Some "/run/proxy.pid") None None.

(** What matters here of its configuration. *)
Lemma pid_config config : config_of pid_cli = Ok config ->
  Config.pid_file config = Some "/run/proxy.pid" /\ public_listener config = ListenTcp "127.0.0.1:8443" /\ tcp_only config.
Proof.
  intros Hc. assert (Hl : result_map (fun c => (Config.pid_file c, public_listener c, api_listener c, metrics_listener c)) (config_of pid_cli)
    = Ok (Some "/run/proxy.pid", ListenTcp "127.0.0.1:8443", ListenTcp "localhost:8444", None)) by (vm_compute; reflexivity).
  rewrite Hc in Hl. simpl in Hl. injection Hl as H1 H2 H3 H4. unfold tcp_only. rewrite H1, H2, H3, H4. split_and!; [done..|].
  by repeat constructor.
Qed.

Lemma pid_config_ok : exists config, config_of pid_cli = Ok config.
Proof.
  assert (Hok : is_ok (config_of pid_cli) = true) by (vm_compute; reflexivity).
  destruct (config_of pid_cli) as [config|]; [by exists config|done].
Qed.

Lemma pid_file_marks_the_process_witness :
  (run (working pid_cli) (start [])).1 = Ok tt /\
  exists o1 o2, (run (working pid_cli) (start [])).2 = o2 /\
    (exists i, lookup_at (fs o1) run_id "proxy.pid" = Ok i /\ nodes start_fs !! i = None) /\
    forall k n, nodes start_fs !! k = Some n -> nodes (fs o2) !! k = Some n.
Proof.
  split; [vm_compute; reflexivity|]. destruct pid_config_ok as [config Hc]. destruct (pid_config config Hc) as (Hpath & _ & Htcp).
  destruct (pid_file_marks_the_process (working pid_cli) pid_cli config "/run/proxy.pid" "proxy.pid" OwnershipExamples.run_boundary
    run_id run_node "abcdefghijklmnop" [Some "qrstuvwxyzabcdef"; Some "0123456789abcdef"] (start [])) as (o1 & o2 & Hrun & Hi & Hk);
    [discriminate|reflexivity|exact Hc|exact Htcp|reflexivity|exact Hpath|reflexivity|reflexivity|apply OwnershipExamples.run_is_captured
    |reflexivity|reflexivity|reflexivity|discriminate|].
  exists o1, o2. rewrite Hrun. split; [reflexivity|]. split; [exact Hi|exact Hk].
Defined.

(** Without [--ip] the same command never serves. *)
Lemma redirect_needs_an_address_literal_witness :
  (run (working (arguments_with None (Some 8080) None None None)) (start [])).1 <> Ok tt /\
  exists text, parse_socket_addr text = Some (mkSocketAddr (V4 127 0 0 1) 8080).
Proof.
  destruct (redirect_needs_an_address_literal (working (arguments_with None (Some 8080) None None None))) as [Hno Hyes]. split.
  - apply (Hno (arguments_with None (Some 8080) None None None) 8080); [reflexivity|reflexivity|right; reflexivity].
  - destruct pid_config_ok as [config Hc]. destruct (pid_config config Hc) as (_ & Hpublic & _).
    destruct (Hyes config "127.0.0.1:8443" (mkSocketAddr (V4 127 0 0 1) 8443) 8080) as (text & _ & Ht);
      [exact Hpublic|vm_compute; reflexivity|vm_compute; split; discriminate|]. exists text. exact Ht.
Defined.

Lemma successful_exit_means_served_witness :
  (main (working pid_cli) (start [])).1 = 0 /\
  exists config proxy services o1 o2, bind_listeners (working pid_cli) config proxy o1 = (Ok services, o2).
Proof.
  assert (Hm : (main (working pid_cli) (start [])).1 = 0) by (vm_compute; reflexivity). split; [exact Hm|].
  destruct (proj2 (successful_exit_means_served (working pid_cli) (start [])) Hm) as [Hno|(cli & config & proxy & services & o1 & o2 & _ & _ & _ & Hb & _)];
    [discriminate Hno|]. by exists config, proxy, services, o1, o2.
Defined.

End StartupExamples.
