(* ===== verification/Redaction.v ===== *)
(** * What diagnostics show (the [Debug] implementations, and the panic hook of route_table.rs)

    Configurations and backends that hold credentials write their own [Debug]
    output, and a panic inside a supervised mutation, whose message is whatever
    the backend put into it, is reported by a hook of the program's own.  A value
    is concealed when every secret in it is overwritten; the theorem is that
    diagnostics do not tell a value from its concealed form. *)

From S2P Require Import Prelude RustStr Route Store Tracker Http Sidecar Config Startup.

(** ** [Debug] output *)

(** How the standard library and the crate [url] write the plain fields. *)
Class DebugLib `{UrlLib} : Type := {
  str_debug : string -> string;
  path_debug : string -> string;
  duration_debug : Duration -> string;
  url_debug : Url -> string
}.

Definition bool_debug (b : bool) : string := if b then "true" else "false".

Definition option_debug {A} (d : A -> string) (a : option A) : string :=
  match a with Some a => "Some(" +:+ d a +:+ ")" | None => "None" end.

Fixpoint comma_separated (l : list string) : string :=
  match l with
  | [] => ""
  | [x] => x
  | x :: l => x +:+ ", " +:+ comma_separated l
  end.

(** [DebugStruct]: [finish] and [finish_non_exhaustive]. *)
Definition field (name value : string) : string := name +:+ ": " +:+ value.
Definition debug_struct (name : string) (fields : list string) : string := name +:+ " { " +:+ comma_separated fields +:+ " }".
Definition debug_struct_open (name : string) (fields : list string) : string := debug_struct name (fields ++ [".."]).

Section Debug.
Context `{DebugLib}.

Definition redacted : string := str_debug "<redacted>".

Definition ListenerConfig_debug (l : ListenerConfig) : string :=
  match l with ListenTcp a => "Tcp(" +:+ str_debug a +:+ ")" | ListenUnix p => "Unix(" +:+ path_debug p +:+ ")" end.

Definition TlsConfig_debug (c : TlsConfig) : string :=
  debug_struct "TlsConfig"
    [field "key" (option_debug path_debug (tls_key c)); field "cert" (option_debug path_debug (tls_cert c));
     field "ca" (option_debug path_debug (tls_ca c));
     field "key_passphrase" (option_debug (fun _ => redacted) (key_passphrase c));
     field "request_cert" (bool_debug (request_cert c)); field "reject_unauthorized" (bool_debug (reject_unauthorized c));
     field "protocol" (option_debug str_debug (tls_protocol c)); field "ciphers" (option_debug str_debug (tls_ciphers c));
     field "dhparam" (option_debug path_debug (tls_dhparam c))].

Definition SidecarRuntimeConfig_debug (c : SidecarRuntimeConfig) : string :=
  debug_struct "SidecarRuntimeConfig"
    [field "url" redacted; field "bearer_token" redacted;
     field "connect_timeout" (duration_debug (Config.connect_timeout c));
     field "request_timeout" (duration_debug (Config.request_timeout c))].

Definition RedisRuntimeConfig_debug (c : RedisRuntimeConfig) : string :=
  debug_struct "RedisRuntimeConfig"
    [field "url" redacted; field "route_key" (str_debug (redis_route_key c));
     field "operation_timeout" (duration_debug (Config.operation_timeout c))].

Definition LogLevel_debug (l : LogLevel) : string :=
  match l with LogDebug => "Debug" | LogInfo => "Info" | LogWarn => "Warn" | LogError => "Error" end.

Definition StoreConfig_debug (s : StoreConfig) : string :=
  match s with StoreMemory => "Memory" | StoreRedis => "Redis" | StoreSidecar => "Sidecar" end.

Definition headers_debug (h : gmap string string) : string :=
  "{" +:+ comma_separated (map (fun kv : string * string => str_debug kv.1 +:+ ": " +:+ str_debug kv.2)
    (merge_sort (fun a b => string_le a.1 b.1) (map_to_list h))) +:+ "}".

Definition ProxyOptions_debug (p : ProxyOptions) : string :=
  debug_struct "ProxyOptions"
    [field "x_forward" (bool_debug (x_forward p)); field "prepend_path" (bool_debug (prepend_path p));
     field "include_prefix" (bool_debug (include_prefix p)); field "auto_rewrite" (bool_debug (auto_rewrite p));
     field "change_origin" (bool_debug (change_origin p));
     field "protocol_rewrite" (option_debug str_debug (protocol_rewrite p));
     field "custom_headers" (headers_debug (custom_headers p));
     field "verify_upstream_tls" (bool_debug (verify_upstream_tls p)); field "host_routing" (bool_debug (host_routing p));
     field "timeout_ms" (option_debug show_Z (timeout_ms p)); field "proxy_timeout_ms" (option_debug show_Z (proxy_timeout_ms p));
     field "keep_alive_timeout_ms" (option_debug show_Z (keep_alive_timeout_ms p))].

Definition AppConfig_debug (c : AppConfig) : string :=
  debug_struct "AppConfig"
    [field "public_listener" (ListenerConfig_debug (public_listener c));
     field "api_listener" (ListenerConfig_debug (api_listener c));
     field "metrics_listener" (option_debug ListenerConfig_debug (metrics_listener c));
     field "public_tls" (option_debug TlsConfig_debug (public_tls c));
     field "api_tls" (option_debug TlsConfig_debug (api_tls c));
     field "client_tls" (option_debug TlsConfig_debug (client_tls c));
     field "default_target" (option_debug url_debug (default_target c));
     field "error_target" (option_debug url_debug (error_target c));
     field "error_path" (option_debug path_debug (error_path c));
     field "redirect_port" (option_debug show_Z (redirect_port c));
     field "redirect_to" (option_debug show_Z (redirect_to c));
     field "pid_file" (option_debug path_debug (Config.pid_file c));
     field "auth_token" (option_debug (fun _ => redacted) (Config.auth_token c));
     field "log_level" (LogLevel_debug (log_level c));
     field "store" (StoreConfig_debug (Config.store c));
     field "redis" (option_debug RedisRuntimeConfig_debug (redis c));
     field "sidecar" (option_debug SidecarRuntimeConfig_debug (sidecar c));
     field "proxy" (ProxyOptions_debug (Config.proxy c))].

(** The clients of the backends. *)
Definition SidecarConfig_debug (c : SidecarConfig) : string :=
  debug_struct "SidecarConfig"
    [field "base_url" redacted; field "bearer_token" (option_debug (fun _ => redacted) (Sidecar.bearer_token c));
     field "connect_timeout" (duration_debug (config_connect_timeout c));
     field "request_timeout" (duration_debug (config_request_timeout c));
     field "max_attempts" (show_nat (config_max_attempts c));
     field "initial_backoff" (duration_debug (config_initial_backoff c));
     field "max_backoff" (duration_debug (config_max_backoff c))].

Definition RedisStoreConfig_debug (c : RedisSetup.RedisStoreConfig) : string :=
  debug_struct "RedisStoreConfig"
    [field "url" redacted; field "key" (str_debug (RedisSetup.key c));
     field "operation_timeout" (duration_debug (RedisSetup.operation_timeout c))].

Definition RedisStore_debug `{RedisSetup.RedisLib} (s : RedisSetup.RedisStore) : string :=
  debug_struct_open "RedisStore"
    [field "key" (str_debug (RedisSetup.store_key s)); field "operation_timeout" (duration_debug (RedisSetup.store_timeout s))].

Definition SidecarStore_debug (s : SidecarStore) : string :=
  debug_struct_open "SidecarStore"
    [field "base_url" redacted; field "max_attempts" (show_nat (max_attempts s));
     field "initial_backoff" (duration_debug (initial_backoff s)); field "max_backoff" (duration_debug (max_backoff s));
     field "connect_timeout" (duration_debug (Sidecar.connect_timeout s));
     field "request_timeout" (duration_debug (Sidecar.request_timeout s))].

Definition operation_debug (op : MutationOperation) : string :=
  match op with Add => "Add" | Put => "Put" | UpdateActivity => "UpdateActivity" | Delete => "Delete" end.

Definition DetachedMutationFailure_debug (f : DetachedMutationFailure) : string :=
  debug_struct "DetachedMutationFailure"
    [field "operation" (operation_debug (failure_operation f)); field "error" (str_debug "[redacted StoreError]")].

(** ** Concealed values *)

Definition hidden : string := "".

Definition conceal_tls (c : TlsConfig) : TlsConfig :=
  mkTlsConfig (tls_key c) (tls_cert c) (tls_ca c) ((fun _ => hidden) <$> key_passphrase c) (request_cert c) (reject_unauthorized c)
    (tls_protocol c) (tls_ciphers c) (tls_dhparam c).

Definition conceal_redis (c : RedisRuntimeConfig) : RedisRuntimeConfig :=
  mkRedisRuntime hidden (redis_route_key c) (Config.operation_timeout c).

Definition conceal_sidecar (c : SidecarRuntimeConfig) : SidecarRuntimeConfig :=
  mkSidecarRuntime hidden hidden (Config.connect_timeout c) (Config.request_timeout c).

(** Key passphrases, the API token, the Redis URL, the sidecar URL and its token. *)
Definition conceal (c : AppConfig) : AppConfig :=
  mkAppConfig (public_listener c) (api_listener c) (metrics_listener c) (conceal_tls <$> public_tls c) (conceal_tls <$> api_tls c)
    (conceal_tls <$> client_tls c) (default_target c) (error_target c) (error_path c) (redirect_port c) (redirect_to c)
    (Config.pid_file c) ((fun _ => hidden) <$> Config.auth_token c) (log_level c) (Config.store c)
    (conceal_redis <$> redis c) (conceal_sidecar <$> sidecar c) (Config.proxy c).

Definition conceal_sidecar_config (c : SidecarConfig) : SidecarConfig :=
  mkSidecarConfig hidden ((fun _ => hidden) <$> Sidecar.bearer_token c) (config_connect_timeout c) (config_request_timeout c)
    (config_max_attempts c) (config_initial_backoff c) (config_max_backoff c).

Definition conceal_redis_config (c : RedisSetup.RedisStoreConfig) : RedisSetup.RedisStoreConfig :=
  RedisSetup.mkRedisConfig hidden (RedisSetup.key c) (RedisSetup.operation_timeout c).

Lemma option_debug_conceal {A} (d : A -> string) (c : A -> A) (a : option A) :
  (forall x, d (c x) = d x) -> option_debug d (c <$> a) = option_debug d a.
Proof. intros Hd. destruct a as [x|]; simpl; [by rewrite Hd|done]. Qed.

Lemma tls_debug_conceal c : TlsConfig_debug (conceal_tls c) = TlsConfig_debug c.
Proof. unfold TlsConfig_debug, conceal_tls. simpl. by rewrite option_debug_conceal. Qed.

Lemma app_debug_conceal c : AppConfig_debug (conceal c) = AppConfig_debug c.
Proof.
  unfold AppConfig_debug, conceal. cbn [public_listener api_listener metrics_listener public_tls api_tls client_tls default_target
    error_target error_path redirect_port redirect_to Config.pid_file Config.auth_token log_level Config.store redis sidecar Config.proxy].
  rewrite !(option_debug_conceal TlsConfig_debug) by apply tls_debug_conceal. by rewrite !option_debug_conceal.
Qed.

End Debug.

(** ** Panics of supervised mutations *)

Module PanicHook.

(** [std::panic::PanicHookInfo]: the message, and the place. *)
Record PanicInfo : Type := mkPanicInfo { payload : string; location : option (string * Z * Z) }.

Definition redaction_line (location : option (string * Z * Z)) : string :=
  match location with
  | Some (file, line, column) =>
      "route mutation panic redacted at " +:+ file +:+ ":" +:+ show_Z line +:+ ":" +:+ show_Z column
  | None => "route mutation panic redacted at unknown source location"
  end.

(** The [Once] of the installation. *)
Inductive Hooks : Type := Untouched | Installed.

Definition install_route_mutation_panic_hook_at_startup (h : Hooks) : Hooks :=
  match h with Installed => Installed | Untouched => Installed end.

Section Hook.
(** What the hook that was there before writes. *)
Variable previous_hook : PanicInfo -> list string.

Definition report (h : Hooks) (polling : bool) (i : PanicInfo) : list string :=
  match h with
  | Untouched => previous_hook i
  | Installed => if negb polling then previous_hook i else [redaction_line (location i)]
  end.

(** What runs on one thread: code that ends, panics, or polls a supervised
    mutation (whose code may poll others) and goes on. *)
Inductive Code : Type :=
| Finish
| Panic (i : PanicInfo)
| Poll (mutation rest : Code).

(** The thread-local flag, entered and restored by [SupervisedMutationPollScope]. *)
Definition enter (polling : bool) : bool * bool := (polling, true).
Definition leave (previous polling : bool) : bool := previous.

Record Outcome : Type := mkRan { written : list string; panicked : bool; flag : bool }.

(** A run of the code, unwinding included: the scope of a poll is left on both
    ways out, and [CatchUnwindFuture::poll] turns a panic into a value. *)
Fixpoint run_code (h : Hooks) (polling : bool) (c : Code) : Outcome :=
  match c with
  | Finish => mkRan [] false polling
  | Panic i => mkRan (report h polling i) true polling
  | Poll mutation rest =>
      let (previous, inside) := enter polling in
      let polled := run_code h inside mutation in
      let after := run_code h (leave previous (flag polled)) rest in
      mkRan (written polled ++ written after) (panicked after) (flag after)
  end.

(** The same code with every message that a supervised mutation panics with
    overwritten. *)
Fixpoint conceal_code (supervised : bool) (c : Code) : Code :=
  match c with
  | Finish => Finish
  | Panic i => Panic (if supervised then mkPanicInfo hidden (location i) else i)
  | Poll mutation rest => Poll (conceal_code true mutation) (conceal_code supervised rest)
  end.

Lemma flag_restored h polling c : flag (run_code h polling c) = polling.
Proof. revert polling. by induction c as [|i|m IHm r IHr]; intros polling; simpl. Qed.

Lemma conceal_run polling c : run_code Installed polling (conceal_code polling c) = run_code Installed polling c.
Proof.
  revert polling. induction c as [|i|m IHm r IHr]; intros polling; simpl; [done|by destruct polling|].
  rewrite IHm. unfold leave. by rewrite IHr.
Qed.

(** Panics outside of mutations are reported as before. *)
Lemma other_panics_delegated i : written (run_code Installed false (Panic i)) = previous_hook i.
Proof. done. Qed.

End Hook.
End PanicHook.

(** ** Theorems *)

(** C40: diagnostics keep secrets: the debug output of a configuration, and of the
    settings and clients of the backends, is that of the value with its key
    passphrases, tokens, and backend URLs overwritten, and a reported failure shows
    nothing of its error; a panic of a supervised mutation is written without its
    message, however mutations are nested and whatever follows, while a panic
    outside of them goes to the hook that was there before, and the flag that tells
    them apart is restored on every way out. *)
Theorem diagnostics_are_redacted `{DebugLib} `{RedisSetup.RedisLib} :
  (forall c : AppConfig, AppConfig_debug c = AppConfig_debug (conceal c)) /\
  (forall c : SidecarConfig, SidecarConfig_debug c = SidecarConfig_debug (conceal_sidecar_config c)) /\
  (forall s client url, SidecarStore_debug s = SidecarStore_debug (mkSidecarStore client url (max_attempts s)
     (initial_backoff s) (max_backoff s) (Sidecar.connect_timeout s) (Sidecar.request_timeout s))) /\
  (forall c, RedisStoreConfig_debug c = RedisStoreConfig_debug (conceal_redis_config c)) /\
  (forall s client connection, RedisStore_debug s =
     RedisStore_debug (RedisSetup.mkRedisStore client connection (RedisSetup.store_key s) (RedisSetup.store_timeout s))) /\
  (forall op e e', DetachedMutationFailure_debug (mkFailure op e) = DetachedMutationFailure_debug (mkFailure op e')) /\
  (forall previous_hook h polling c,
     let installed := PanicHook.install_route_mutation_panic_hook_at_startup h in
     PanicHook.run_code previous_hook installed polling c
       = PanicHook.run_code previous_hook installed polling (PanicHook.conceal_code polling c) /\
     PanicHook.flag (PanicHook.run_code previous_hook installed polling c) = polling /\
     forall i, PanicHook.written (PanicHook.run_code previous_hook installed false (PanicHook.Panic i)) = previous_hook i).
Proof.
  split_and!; try done.
  - intros c. by rewrite app_debug_conceal.
  - intros c. unfold SidecarConfig_debug, conceal_sidecar_config. simpl. by rewrite option_debug_conceal.
  - intros previous_hook h polling c. replace (PanicHook.install_route_mutation_panic_hook_at_startup h) with PanicHook.Installed by by destruct h.
    cbv zeta. split; [by rewrite PanicHook.conceal_run|]. split; [apply PanicHook.flag_restored|done].
Qed.
