(* ===== verification/Unwinding.v ===== *)
(** * What a process leaves behind (src/main.rs over the Unix listeners and the PID file)

    The entries a start makes public are a ledger: the directory, the name and
    the inode of each, newest first.  In a file system at rest,
    each step of [run] extends the ledger by one entry or leaves it, each drop
    takes its entry off, in whatever order the services let go, and with an empty
    ledger every inode is as it was. *)

From S2P Require Import Prelude RustStr Http Config Upstream ErrorClient Proxy Metrics Registry Store.
From S2P Require Import FileSystem PathOwnership Publication Listener Startup.

(** New entries do not change what a path that resolved resolves to. *)
Class ResolutionLaws `{Platform} : Prop := {
  realpath_grows f f' p names : grows f f' -> realpath f p = Ok names -> realpath f' p = Ok names
}.

Section Ledger.
Context `{Platform} `{!PlatformLaws} `{!ResolutionLaws}.
#[local] Set Default Proof Using "All".

Definition Entry : Type := FileIdentity * string * FileIdentity.

Definition publish (e : Entry) (k : FileIdentity) (es : gmap string FileIdentity) : gmap string FileIdentity :=
  if decide (e.1.1 = k) then <[e.1.2 := e.2]> es else es.

Definition published (l : list Entry) (k : FileIdentity) (es : gmap string FileIdentity) : gmap string FileIdentity :=
  foldr (fun e es => publish e k es) es l.

(** Each entry of the ledger was free when it was made. *)
Fixpoint was_free (f : Fs) (l : list Entry) : Prop :=
  match l with
  | [] => True
  | e :: l => (exists n, nodes f !! e.1.1 = Some n /\ published l e.1.1 (entries n) !! e.1.2 = None) /\ was_free f l
  end.

(** The random names still to be drawn: enough of them, and unused. *)
Definition unused (f : Fs) (names : list string) (e : option string) : Prop :=
  exists bytes, e = Some bytes /\
    (forall k n, nodes f !! k = Some n -> entries n !! cleanup_name bytes = None /\ entries n !! stage_name bytes = None) /\
    ~ (cleanup_name bytes ∈ names) /\ ~ (stage_name bytes ∈ names).

Definition supplied (f : Fs) (names : list string) (need : nat) (o : Os) : Prop :=
  (need <= length (entropy o))%nat /\ Forall (unused f names) (entropy o).

Record ledger (f : Fs) (names : list string) (l : list Entry) (o : Os) : Prop := {
  lg_quiet : quiet o;
  lg_root : root (fs o) = root f;
  lg_nodes k n : nodes f !! k = Some n -> nodes (fs o) !! k = Some (set_entries (published l k (entries n)) n);
  lg_inodes e : e ∈ l -> nodes f !! e.2 = None /\ exists m, nodes (fs o) !! e.2 = Some m /\ is_dir_mode (st_mode m) = false;
  lg_free : was_free f l;
  lg_names e : e ∈ l -> e.1.2 ∈ names
}.

Lemma published_sub f l k n : was_free f l -> nodes f !! k = Some n -> entries n ⊆ published l k (entries n).
Proof.
  induction l as [|e l IH]; simpl; [done|]. intros [(m & Hm & Hfree) Hl] Hn. etrans; [by apply IH|].
  unfold publish. case_decide as Hk; [|done]. subst k. rewrite Hm in Hn. injection Hn as ->. by apply insert_subseteq.
Qed.

Lemma published_other l k es x : (forall e, e ∈ l -> e.1.2 <> x) -> published l k es !! x = es !! x.
Proof.
  induction l as [|e l IH]; simpl; [done|]. intros Hx. rewrite <- IH by (intros; apply Hx; set_solver).
  unfold publish. case_decide; [|done]. apply lookup_insert_ne. apply Hx. set_solver.
Qed.

Lemma ledger_grows f names l o : ledger f names l o -> grows f (fs o).
Proof. intros Hl. split; [apply Hl|]. intros k n Hk. eexists. split; [by apply Hl|]. eapply published_sub; [apply Hl|done]. Qed.

Lemma boundary_kept f names l o path b d : ledger f names l o -> boundary_of f path b d -> boundary_of (fs o) path b d.
Proof.
  intros Hl (Hr & Hn & Hc). apply ledger_grows in Hl. split; [by eapply realpath_grows|]. split; [done|]. by eapply chain_grows.
Qed.

Lemma ledger_start o names : quiet o -> ledger (fs o) names [] o.
Proof. intros Hq. split; try done; [intros k n Hk; by destruct n|by intros e ?%elem_of_nil|by intros e ?%elem_of_nil]. Qed.

(** With an empty ledger nothing has changed. *)
Lemma ledger_empty f names o k n : ledger f names [] o -> nodes f !! k = Some n -> nodes (fs o) !! k = Some n.
Proof. intros Hl Hk. rewrite (lg_nodes _ _ _ _ Hl k n Hk). by destruct n. Qed.

(** A name drawn next, in a directory of the ledger. *)
Lemma drawn f names need o : supplied f names (S need) o ->
  exists bytes rest, entropy o = Some bytes :: rest /\ unused f names (Some bytes) /\
    forall o', entropy o' = rest -> supplied f names need o'.
Proof.
  intros [Hlen Hall]. destruct (entropy o) as [|e rest]; simpl in Hlen; [lia|]. apply Forall_cons in Hall as [He Hrest].
  pose proof He as (bytes & -> & _). exists bytes, rest. split; [done|]. split; [done|]. intros o' Ho. split; rewrite Ho; [lia|done].
Qed.

Lemma unused_free f names l o bytes d n :
  ledger f names l o -> unused f names (Some bytes) -> nodes f !! d = Some n ->
  published l d (entries n) !! cleanup_name bytes = None /\ published l d (entries n) !! stage_name bytes = None.
Proof.
  intros Hl (b & [= <-] & Hfree & Hc & Hs) Hd. destruct (Hfree d n Hd) as [Hu1 Hu2].
  rewrite !published_other; [done|..]; intros e He Heq; apply (lg_names _ _ _ _ Hl) in He; congruence.
Qed.

(** A new entry. *)
Lemma ledger_extend f names l o o' d n name i m :
  ledger f names l o -> quiet o' -> root (fs o') = root (fs o) -> nodes f !! d = Some n -> name ∈ names ->
  published l d (entries n) !! name = None -> nodes (fs o) !! i = None -> nodes (fs o') !! i = Some m -> is_dir_mode (st_mode m) = false ->
  nodes (fs o') !! d = Some (set_entries (<[name := i]> (published l d (entries n))) n) ->
  (forall k x, k <> d -> nodes (fs o) !! k = Some x -> nodes (fs o') !! k = Some x) ->
  ledger f names ((d, name, i) :: l) o'.
Proof.
  intros Hl Hq Hroot Hd Hname Hfree Hi Hm Hfile Hd' Hkeep.
  assert (Hfi : nodes f !! i = None).
  { destruct (nodes f !! i) as [x|] eqn:Hx; [|done]. apply (lg_nodes _ _ _ _ Hl) in Hx. congruence. }
  split; try done.
  - rewrite Hroot. apply Hl.
  - intros k x Hk. unfold published. cbn [foldr]. unfold publish at 1. cbn. case_decide as Hdk.
    + subst k. rewrite Hd in Hk. by injection Hk as <-.
    + apply Hkeep; [done|]. by apply (lg_nodes _ _ _ _ Hl).
  - intros e [->|He]%elem_of_cons; [by split; [|exists m]|]. destruct (lg_inodes _ _ _ _ Hl e He) as (Hnone & x & Hx & Hxm).
    split; [done|]. exists x. split; [|done]. apply Hkeep; [congruence|done].
  - split; [by exists n|apply Hl].
  - intros e [->|He]%elem_of_cons; [done|]. by apply (lg_names _ _ _ _ Hl).
Qed.

(** The newest entry is taken off. *)
Lemma ledger_drop f names l o o' d n name i :
  ledger f names ((d, name, i) :: l) o -> quiet o' -> root (fs o') = root (fs o) -> nodes f !! d = Some n ->
  nodes (fs o') !! d = Some (set_entries (published l d (entries n)) n) ->
  (forall k x, k <> d -> nodes (fs o) !! k = Some x -> nodes (fs o') !! k = Some x) ->
  ledger f names l o'.
Proof.
  intros Hl Hq Hroot Hd Hd' Hkeep. split; try done.
  - rewrite Hroot. apply Hl.
  - intros k x Hk. destruct (decide (k = d)) as [->|Hkd]; [rewrite Hd in Hk; by injection Hk as <-|].
    apply Hkeep; [done|]. rewrite (lg_nodes _ _ _ _ Hl k x Hk). unfold published. cbn [foldr]. unfold publish at 1. cbn.
    by rewrite decide_False by congruence.
  - intros e He. destruct (lg_inodes _ _ _ _ Hl e) as (Hnone & x & Hx & Hxm); [set_solver|].
    split; [done|]. exists x. split; [|done]. apply Hkeep; [congruence|done].
  - apply (lg_free _ _ _ _ Hl).
  - intros e He. apply (lg_names _ _ _ _ Hl). set_solver.
Qed.

Lemma ledger_kept f names l o o' :
  ledger f names l o -> quiet o' -> root (fs o') = root (fs o) ->
  (forall k x, nodes (fs o) !! k = Some x -> nodes (fs o') !! k = Some x) -> ledger f names l o'.
Proof.
  intros Hl Hq Hroot Hkeep. split; try done.
  - rewrite Hroot. apply Hl.
  - intros k n Hk. apply Hkeep. by apply (lg_nodes _ _ _ _ Hl).
  - intros e He. destruct (lg_inodes _ _ _ _ Hl e He) as (Hnone & x & Hx & Hxm). split; [done|]. exists x. split; [by apply Hkeep|done].
  - apply Hl.
  - apply (lg_names _ _ _ _ Hl).
Qed.

Lemma supplied_weaken f names n m o o' : supplied f names n o -> (m <= n)%nat -> entropy o' = entropy o -> supplied f names m o'.
Proof. intros [Hlen Hall] Hle He. split; rewrite He; [lia|done]. Qed.

Lemma boundary_node f path b d : boundary_of f path b d ->
  exists n c, nodes f !! d = Some n /\ last (components b) = Some c /\ component_holds f c d.
Proof.
  intros Hb. destruct (boundary_last _ _ _ _ Hb) as (cs & c & Hcs). destruct Hb as (_ & _ & Hc). rewrite Hcs in Hc.
  apply chain_last in Hc. pose proof Hc as (_ & n & Hn & _). exists n, c. by rewrite Hcs, last_snoc.
Qed.

(** Binding extends the ledger by the socket, or fails and leaves it. *)
Lemma bind_ledger f names l need o path name b d :
  ledger f names l o -> supplied f names (S (S need)) o ->
  file_name path = Some name -> name ∈ names -> boundary_of f (parent_or_dot path) b d ->
  exists r o', bind_unix_socket path o = (r, o') /\ supplied f names need o' /\
    match r with
    | Ok owner => exists i, owner = mkOwned path i true d (canonical_path b) name b /\ ledger f names ((d, name, i) :: l) o'
    | Err _ => ledger f names l o'
    end.
Proof.
  intros Hl Hsup Hname Hin Hb. destruct (boundary_node _ _ _ _ Hb) as (n & c & Hd & _ & _).
  destruct (drawn _ _ _ _ Hsup) as (b1 & rest1 & Hent & Hun & Hnext).
  destruct (drawn _ _ _ (mkOs (fs o) [] rest1 []) (Hnext (mkOs (fs o) [] rest1 []) eq_refl)) as (b2 & rest2 & Hent2 & _ & Hnext2).
  simpl in Hent2. subst rest1. destruct (unused_free _ _ _ _ _ _ _ Hl Hun Hd) as [_ Hst].
  assert (Hne : stage_name b1 <> name) by (intros Heq; destruct Hun as (? & [= <-] & _ & _ & Hno); congruence).
  destruct (publication_quiet path name b d _ o b1 b2 rest2 (lg_quiet _ _ _ _ Hl) Hname (boundary_kept _ _ _ _ _ _ _ Hl Hb)
    (lg_nodes _ _ _ _ Hl d n Hd) Hent Hst Hne) as (o' & Hq & Hp).
  cbn [entries set_entries] in Hp. destruct (published l d (entries n) !! name) as [k|] eqn:Hfree.
  - destruct Hp as (Hbind & He & Hroot & Hkeep). eexists _, o'. split; [exact Hbind|]. split; [by apply Hnext2|]. by eapply ledger_kept.
  - destruct Hp as (i & Hbind & He & Hroot & Hi & Hs & Hd' & Hkeep). eexists _, o'. split; [exact Hbind|]. split.
    + eapply supplied_weaken; [exact (Hnext (mkOs (fs o) [] (Some b2 :: rest2) []) eq_refl)|lia|exact He].
    + exists i. split; [done|]. by eapply (ledger_extend _ _ _ _ _ _ n _ _ published_socket).
Qed.

(** Dropping the newest owner takes its entry off. *)
Lemma drop_ledger f names l need o path name b d i :
  ledger f names ((d, name, i) :: l) o -> supplied f names (S need) o -> boundary_of f (parent_or_dot path) b d ->
  exists o', drop_owned (mkOwned path i true d (canonical_path b) name b) o = (Ok tt, o') /\ supplied f names need o' /\ ledger f names l o'.
Proof.
  intros Hl Hsup Hb. destruct (boundary_node _ _ _ _ Hb) as (n & c & Hd & Hlast & Hc).
  destruct (drawn _ _ _ _ Hsup) as (bytes & rest & Hent & Hun & Hnext). set (p := mkOwned path i true d (canonical_path b) name b).
  destruct (unused_free _ _ _ _ _ _ _ Hl Hun Hd) as [Hcl _]. pose proof (lg_nodes _ _ _ _ Hl d n Hd) as Hdo.
  assert (Hset : settled (fs o) p (set_entries (published ((d, name, i) :: l) d (entries n)) n)).
  { split; [done|]. exists c. split; [done|]. eapply component_grows; [by eapply ledger_grows|done]. }
  assert (Hne : cleanup_name bytes <> name).
  { intros Heq. destruct Hun as (? & [= <-] & _ & Hno & _). apply Hno. rewrite Heq. apply (lg_names _ _ _ _ Hl (d, name, i)). set_solver. }
  destruct (cleanup_quiet p o _ bytes rest (lg_quiet _ _ _ _ Hl) eq_refl Hset Hent Hcl Hne) as (j & o' & Hclean & Hq & He & Hj & Hf).
  { apply (lg_inodes _ _ _ _ Hl (d, name, i)). set_solver. }
  exists o'. split; [unfold drop_owned; by rewrite (bind_run _ _ _ _ _ Hclean)|]. split; [by apply Hnext|].
  pose proof (settled_safe _ _ _ Hset) as [Hm _]. pose proof (lg_free _ _ _ _ Hl) as [(n' & Hn' & Hfree) _]. cbn in Hn', Hfree.
  rewrite Hd in Hn'. injection Hn' as <-.
  eapply (ledger_drop f names l o o' d n name i); [done|done|by rewrite Hf|done| |].
  - rewrite Hf. rewrite (shape_d _ _ _ _ Hdo Hm Hj). cbn [entries set_entries]. unfold cleaned. cbn [public_name owned_identity p].
    unfold published at 1 2 3. cbn [foldr]. unfold publish at 1 3 5. cbn. rewrite !decide_True by done.
    rewrite bool_decide_true by (by rewrite lookup_insert_eq). by rewrite delete_insert_id.
  - intros k x Hk Hx. rewrite Hf. by apply (shape_other _ _ _ _ Hdo Hm Hj).
Qed.

End Ledger.

(** ** The steps of a start *)

Section Unwinding.
Context `{Platform} `{!PlatformLaws} `{!ResolutionLaws} `{OpenSsl}.
Context `{HeaderLib} `{UrlLib} `{UriLib} `{F64} `{RetryLib} `{Rustls}.
Context {Env St : Type} `{!Store Env View St}.
#[local] Set Default Proof Using "All".

(** What one drop takes off the ledger, wherever it is in it. *)
Definition releases (f : Fs) (names : list string) (release : Io unit) (es : list Entry) : Prop :=
  forall l left o, ledger f names (es ++ l) o -> supplied f names (length es + left) o ->
    ledger f names l (release o).2 /\ supplied f names left (release o).2.

(** [need] random names suffice for [m]: a failure leaves the ledger, and a success
    adds the entries that its result holds, with a name left to drop each. *)
Definition yields {A} (f : Fs) (names : list string) (l : list Entry) (need : nat) (m : Start A) (held : A -> list Entry -> Prop) : Prop :=
  forall left o, ledger f names l o -> supplied f names (need + left) o ->
    match m o with
    | (Ok a, o') => exists es, held a es /\ ledger f names (es ++ l) o' /\ supplied f names (length es + left) o'
    | (Err _, o') => ledger f names l o' /\ supplied f names left o'
    end.

Lemma yields_still {A B} f names l need (m : Start A) (k : A -> Start B) held :
  still m -> (forall a o, (m o).1 = Ok a -> yields f names l need (k a) held) -> yields f names l need (and_then m k) held.
Proof.
  intros Hm Hk left o Hl Hsup. unfold and_then. pose proof (Hm o) as Ho. destruct (m o) as [[a|e] o1] eqn:Hmo; simpl in Ho; subst o1.
  - apply (Hk a o); [by rewrite Hmo|done|done].
  - split; [done|]. eapply supplied_weaken; [exact Hsup|lia|done].
Qed.

(** Code whose result is dropped again when what follows fails. *)
Lemma yields_then {A B} f names l n1 n2 (m : Start A) (k : A -> Start B) (release : A -> Io unit) (held1 : A -> list Entry -> Prop) held :
  yields f names l n1 m held1 -> (forall a es, held1 a es -> releases f names (release a) es) ->
  (forall a es, held1 a es -> yields f names (es ++ l) n2 (k a) (fun b es2 => held b (es2 ++ es))) ->
  yields f names l (n1 + n2) (and_then m (fun a => unwinding (k a) (release a))) held.
Proof.
  intros Hm Hrel Hk left o Hl Hsup. specialize (Hm (n2 + left)%nat o Hl). rewrite Nat.add_assoc in Hm. specialize (Hm Hsup).
  unfold and_then. destruct (m o) as [[a|e] o1]; [|destruct Hm as [? Hs]; split; [done|]; by eapply supplied_weaken; [exact Hs|lia|]].
  destruct Hm as (es & Hes & Hl1 & Hs1). specialize (Hk a es Hes (length es + left)%nat o1 Hl1). unfold unwinding.
  destruct (k a o1) as [[b|e] o2].
  - destruct Hk as (es2 & Hes2 & Hl2 & Hs2); [eapply supplied_weaken; [exact Hs1|lia|done]|]. exists (es2 ++ es). split; [done|].
    split; [by rewrite <- app_assoc|]. eapply supplied_weaken; [exact Hs2|rewrite length_app; lia|done].
  - destruct Hk as [Hl2 Hs2]; [eapply supplied_weaken; [exact Hs1|lia|done]|]. by apply (Hrel a es Hes).
Qed.

(** A release that touches no file. *)
Lemma releases_nothing f names release : (forall o, (release o).2 = o) -> releases f names release [].
Proof. intros Hr l left o Hl Hsup. by rewrite Hr. Qed.

Lemma releases_owned f names path name b d i :
  boundary_of f (parent_or_dot path) b d ->
  releases f names (drop_owned (mkOwned path i true d (canonical_path b) name b)) [(d, name, i)].
Proof.
  intros Hb l left o Hl Hsup. destruct (drop_ledger f names l left o path name b d i Hl Hsup Hb) as (o' & Hd & Hs & Hl'). by rewrite Hd.
Qed.

(** Where a listener may be: the parent of a Unix path is an authentic directory. *)
Definition placed (f : Fs) (names : list string) (path : Path) (name : string) (b : AuthenticatedBoundary) (d : FileIdentity) : Prop :=
  file_name path = Some name /\ name ∈ names /\ boundary_of f (parent_or_dot path) b d.

Definition listener_placed (f : Fs) (names : list string) (listener : ListenerConfig) : Prop :=
  match listener with
  | ListenTcp _ => True
  | ListenUnix path => exists name b d, placed f names (components_of path) name b d
  end.

Lemma owned_unix_bind_quiet path o owner o1 :
  bind_unix_socket path o = (Ok owner, o1) -> quiet o1 -> owned_unix_bind path o = (Ok owner, o1).
Proof.
  intros Hb Hq. unfold owned_unix_bind. rewrite Hb. unfold unix_bind, socket_call.
  erewrite guarded_run; [done|]. erewrite bind_run by (by apply look_run). by erewrite bind_run by (by apply look_run).
Qed.

(** ** The listeners *)

Lemma yields_api_bind f names l tcp listener tls :
  listener_placed f names listener ->
  yields f names l 3 (listening (api_bind tcp listener tls)) (fun b es => releases f names (drop_bound b) es).
Proof.
  intros Hplaced left o Hl Hsup. destruct listener as [address|path].
  - pose proof (still_api_bind tcp (ListenTcp address) tls I o) as Ho.
    destruct (listening _ o) as [[bound|e] o1] eqn:Hb; simpl in Ho; subst o1.
    + exists []. split; [|split; [done|eapply supplied_weaken; [exact Hsup|simpl; lia|done]]].
      apply releases_nothing. eapply (api_bind_tcp tcp (ListenTcp address) tls o); [done|by rewrite Hb].
    + split; [done|]. eapply supplied_weaken; [exact Hsup|lia|done].
  - destruct Hplaced as (name & b & d & Hname & Hin & Hb). unfold listening, api_bind.
    destruct tls as [tls|]; [split; [done|]; by eapply supplied_weaken; [exact Hsup|lia|]|].
    destruct (bind_ledger f names l (S left) o (components_of path) name b d) as (r & o1 & Hbind & Hs1 & Hr); try done.
    destruct r as [owner|e].
    + destruct Hr as (i & -> & Hl1). rewrite (owned_unix_bind_quiet _ _ _ _ Hbind (lg_quiet _ _ _ _ Hl1)). cbn [result_map map_err].
      exists [(d, name, i)]. split; [by apply releases_owned|done].
    + unfold owned_unix_bind. rewrite Hbind. cbn [result_map map_err]. split; [done|]. by eapply supplied_weaken; [exact Hs1|lia|].
Qed.

Lemma yields_prebound f names l tcp resolve listener tls :
  listener_placed f names listener ->
  yields f names l 3 (listening (prebound_new tcp resolve listener tls)) (fun p es => releases f names (drop_reservation p.1) es).
Proof.
  intros Hplaced left o Hl Hsup. destruct listener as [address|path].
  - pose proof (still_prebound tcp resolve (ListenTcp address) tls I o) as Ho.
    destruct (listening _ o) as [[p|e] o1] eqn:Hb; simpl in Ho; subst o1.
    + exists []. split; [|split; [done|eapply supplied_weaken; [exact Hsup|simpl; lia|done]]].
      apply releases_nothing. unfold listening, prebound_new, reservation_bind in Hb.
      destruct (resolve _) as [[|x rs]|]; simpl in Hb; try done. destruct (tcp x); simpl in Hb; [|done].
      by destruct tls; simpl in Hb; [destruct (build_ssl_acceptor _)|]; simplify_eq/=.
    + split; [done|]. eapply supplied_weaken; [exact Hsup|lia|done].
  - destruct Hplaced as (name & b & d & Hname & Hin & Hb). unfold listening, prebound_new, reservation_bind.
    destruct (bind_ledger f names l (S left) o (components_of path) name b d) as (r & o1 & Hbind & Hs1 & Hr); try done. rewrite Hbind.
    destruct r as [owner|e]; [|split; [done|]; by eapply supplied_weaken; [exact Hs1|lia|]]. destruct Hr as (i & -> & Hl1).
    unfold unix_bind, socket_call. erewrite guarded_run by (erewrite bind_run by (apply look_run; [apply Hl1|done]); done). cbn [map_err result_map].
    unfold from_reservation. destruct tls as [tls|]; cbn [map_err result_map].
    + destruct (drop_ledger f names l left o1 (components_of path) name b d i Hl1 Hs1 Hb) as (o3 & Hdrop & Hs3 & Hl3). rewrite Hdrop. done.
    + exists [(d, name, i)]. split; [by apply releases_owned|done].
Qed.

Lemma yields_of_still {A} f names l (m : Start A) (held : A -> list Entry -> Prop) :
  still m -> (forall a o, (m o).1 = Ok a -> held a []) -> yields f names l 0 m held.
Proof.
  intros Hm Hh left o Hl Hsup. pose proof (Hm o) as Ho. specialize (fun a => Hh a o). destruct (m o) as [[a|e] o1]; simpl in *; subst o1; [|done].
  exists []. split; [by apply Hh|done].
Qed.

Lemma yields_weaken {A} f names l n n' (m : Start A) held : (n <= n')%nat -> yields f names l n m held -> yields f names l n' m held.
Proof. intros Hle Hm left o Hl Hsup. apply Hm; [done|]. eapply supplied_weaken; [exact Hsup|lia|done]. Qed.

Lemma yields_optionally {A B} f names l n (a : option A) (m : A -> Start B) (release : B -> Io unit) :
  (forall x, a = Some x -> yields f names l n (m x) (fun b es => releases f names (release b) es)) ->
  yields f names l n (optionally a m) (fun b es => releases f names (drop_option release b) es).
Proof.
  intros Hm. destruct a as [x|]; simpl.
  - intros left o Hl Hsup. specialize (Hm x eq_refl left o Hl Hsup). unfold and_then. destruct (m x o) as [[b|e] o1]; [|done]. exact Hm.
  - apply (yields_weaken _ _ _ 0); [lia|]. apply yields_of_still; [done|]. intros b o [= <-]. by apply releases_nothing.
Qed.

(** Every listener of a configuration is placed. *)
Definition listeners_placed (f : Fs) (names : list string) (config : AppConfig) : Prop :=
  listener_placed f names (public_listener config) /\ listener_placed f names (api_listener config) /\
  forall listener, metrics_listener config = Some listener -> listener_placed f names listener.

(** What the services hold together, each its own part. *)
Definition services_hold (f : Fs) (names : list string) (s : Services (St := St)) (es : list Entry) : Prop :=
  exists held : Service -> list Entry,
    (forall x, releases f names (drop_service s x) (held x)) /\ es ≡ₚ concat (map held all_services).

Lemma yields_bind_listeners f names l (w : Outside (Env := Env) (St := St)) config proxy :
  listeners_placed f names config -> yields f names l 9 (bind_listeners w config proxy) (services_hold f names).
Proof.
  intros (Hpub & Hapi & Hmet). unfold bind_listeners.
  apply (yields_then f names l 3 6 _ _ drop_bound (fun b es => releases f names (drop_bound b) es)); [by apply yields_api_bind|done|].
  intros api ea Ha.
  apply (yields_then f names _ 3 3 _ _ (drop_option drop_bound) (fun b es => releases f names (drop_option drop_bound b) es));
    [apply yields_optionally; intros x Hx; by apply yields_api_bind, Hmet|done|].
  intros metrics em Hm.
  apply (yields_then f names _ 0 3 _ _ (drop_option (fun r : BoundListener * Z => drop_bound r.1))
    (fun r es => es = [] /\ releases f names (drop_option (fun r => drop_bound r.1) r) es)).
  - apply yields_of_still; [apply still_optionally; intros; apply still_redirect|]. intros redirect o Hr. split; [done|].
    apply releases_nothing, still_drop_option. intros r ->. apply optionally_ok in Hr as (port & o' & _ & Hb). by apply redirect_untied in Hb.
  - by intros r es [_ ?].
  - intros redirect er [-> Hr]. apply yields_still; [done|]. intros u o _ left o1 Hl Hsup.
    pose proof (yields_prebound f names _ (tcp_bind w) (to_socket_addrs w) _ (public_tls config) Hpub left o1 Hl Hsup) as Hy.
    unfold and_then. destruct (listening (prebound_new _ _ _ _) o1) as [[public|e] o2]; [|done]. destruct Hy as (ep & Hp & Hl2 & Hs2).
    exists ep. split; [|done]. exists (fun x => match x with PublicListener => ep | ApiListener => ea | MetricsListener => em | RedirectListener => [] end).
    split; [by intros []|]. simpl. rewrite !app_nil_r. rewrite <- app_assoc. by rewrite (Permutation_app_comm em ea).
Qed.

(** *** The services let go in any order *)

Lemma published_cons e l k es : published (e :: l) k es = publish e k (published l k es).
Proof. done. Qed.

Lemma publish_taken e k es x : e.1.1 = k -> e.1.2 = x -> publish e k es !! x = None -> False.
Proof. intros Hk <-. unfold publish. rewrite decide_True by done. by rewrite lookup_insert_eq. Qed.

Lemma publish_swap f l x y n k :
  was_free f (x :: y :: l) -> nodes f !! k = Some n ->
  publish x k (publish y k (published l k (entries n))) = publish y k (publish x k (published l k (entries n))).
Proof.
  intros [(m & Hm & Hfree) _] Hn. unfold publish. destruct (decide (x.1.1 = k)) as [Hx|Hx], (decide (y.1.1 = k)) as [Hy|Hy]; try done.
  apply insert_insert_ne. intros Heq. rewrite published_cons in Hfree. by eapply publish_taken; [| |exact Hfree]; congruence.
Qed.

Lemma was_free_swap f l x y : was_free f (x :: y :: l) -> was_free f (y :: x :: l).
Proof.
  intros ((m & Hm & Hx) & (n & Hn & Hy) & Hl). rewrite published_cons in Hx.
  split; [exists n; split; [done|]|split; [exists m; split; [done|]|done]].
  - rewrite published_cons. unfold publish. destruct (decide (x.1.1 = y.1.1)) as [Hd|]; [|done]. rewrite lookup_insert_ne; [done|]. intros Heq.
    by eapply (publish_taken y); [| |exact Hx]; congruence.
  - unfold publish in Hx. destruct (decide (y.1.1 = x.1.1)); [|done]. by apply lookup_insert_None in Hx as [? _].
Qed.

Lemma permuted f l l' : l ≡ₚ l' -> was_free f l ->
  was_free f l' /\ forall k n, nodes f !! k = Some n -> published l k (entries n) = published l' k (entries n).
Proof.
  induction 1 as [|x l l' _ IH|y x l|l1 l2 l3 _ IH1 _ IH2]; intros Hfree; [done|..].
  - destruct Hfree as [(n & Hn & Hx) Hl]. destruct (IH Hl) as [Hl' Heq]. split; [split; [|done]; exists n; by rewrite <- Heq|].
    intros k m Hk. rewrite !published_cons. by rewrite (Heq k m).
  - split; [by apply was_free_swap|]. intros k n Hk. rewrite !published_cons. by apply (publish_swap f).
  - destruct (IH1 Hfree) as [F2 E1]. destruct (IH2 F2) as [F3 E2]. split; [done|]. intros k n Hk. by rewrite E1, E2.
Qed.

Lemma ledger_perm f names l l' o : l ≡ₚ l' -> ledger f names l o -> ledger f names l' o.
Proof.
  intros Hp Hl. destruct (permuted f l l' Hp (lg_free _ _ _ _ Hl)) as [Hfree Heq]. split; [apply Hl|apply Hl|..|done|].
  - intros k n Hk. rewrite <- Heq by done. by apply Hl.
  - intros e He. apply (lg_inodes _ _ _ _ Hl). by rewrite Hp.
  - intros e He. apply (lg_names _ _ _ _ Hl). by rewrite Hp.
Qed.

Lemma drop_services_ledger f names (s : Services (St := St)) held order l left o :
  (forall x, releases f names (drop_service s x) (held x)) ->
  ledger f names (concat (map held order) ++ l) o -> supplied f names (length (concat (map held order)) + left) o ->
  ledger f names l (drop_services s order o) /\ supplied f names left (drop_services s order o).
Proof.
  intros Hx. revert o. induction order as [|x order IH]; intros o Hl Hsup; [done|]. simpl in *. rewrite <- app_assoc in Hl.
  destruct (Hx x _ (length (concat (map held order)) + left)%nat o Hl) as [Hl1 Hs1].
  { eapply supplied_weaken; [exact Hsup|rewrite length_app; lia|done]. }
  by apply IH.
Qed.

(** The server gives back what it was given: it changes no file itself, and its
    runtimes drop each service once, in whatever order. *)
Definition lets_go (w : Outside (Env := Env) (St := St)) : Prop :=
  forall s o, exists failed order, serve w s o = (failed, order, o) /\ order ≡ₚ all_services.

Lemma start_ledger f names l (w : Outside (Env := Env) (St := St)) config :
  listeners_placed f names config -> lets_go w ->
  forall left o, ledger f names l o -> supplied f names (9 + left) o ->
    ledger f names l (start_and_serve w config o).2 /\ supplied f names left (start_and_serve w config o).2.
Proof.
  intros Hp Hserve left o Hl Hsup. unfold start_and_serve, and_then at 1 3, lift. destruct (prepare w config) as [proxy|e].
  - pose proof (yields_bind_listeners f names l w config proxy Hp left o Hl Hsup) as Hy. unfold and_then.
    destruct (bind_listeners w config proxy o) as [[services|e] o1]; [|done]. destruct Hy as (es & (held & Hheld & Hes) & Hl1 & Hs1).
    destruct (Hserve services o1) as (failed & order & -> & Horder). cbn [snd].
    assert (Hperm : es ≡ₚ concat (map held order)) by (rewrite Hes; by rewrite Horder).
    apply (drop_services_ledger f names services held order l left o1 Hheld).
    + eapply ledger_perm; [|exact Hl1]. by rewrite Hperm.
    + by rewrite <- (Permutation_length Hperm).
  - split; [done|]. eapply supplied_weaken; [exact Hsup|lia|done].
Qed.

(** The PID file opens the ledger. *)
Lemma acquire_ledger o names name b d path :
  quiet o -> placed (fs o) names path name b d ->
  exists r o1, acquire path o = (r, o1) /\ entropy o1 = entropy o /\
    match r with
    | Ok g => exists i, pid_owned g = mkOwned path i true d (canonical_path b) name b /\ ledger (fs o) names [(d, name, i)] o1
    | Err _ => o1 = o
    end.
Proof.
  intros Hq (Hname & Hin & Hb). destruct (boundary_node _ _ _ _ Hb) as (n & c & Hd & _ & Hc). pose proof Hc as (_ & n' & Hn' & (Hm & _) & _).
  rewrite Hd in Hn'. injection Hn' as <-. pose proof (acquire_quiet path name b d n o Hq Hname Hb Hd Hm) as Hacq. cbv zeta in Hacq.
  destruct (entries n !! name) as [k|] eqn:Hfree; [by eexists _, o|]. set (i := fresh_identity (fs o)) in *.
  pose proof (fresh_identity_new (fs o)) as Hi. fold i in Hi. eexists _, _. split; [exact Hacq|]. split; [done|]. exists i. split; [done|].
  eapply (ledger_extend (fs o) names [] o _ d n name i (new_node (fs o) d S_IFREG 438)); try done.
  - by apply ledger_start.
  - simpl. rewrite lookup_insert_ne by congruence. by rewrite lookup_insert_eq.
  - unfold is_dir_mode, new_node. cbn [st_mode]. rewrite (Z.land_comm 438), Z.land_lor_distr_l, <- Z.land_assoc. by rewrite Z.land_0_r.
  - simpl. by rewrite lookup_insert_eq.
  - intros k x Hk Hx. simpl. rewrite lookup_insert_ne by done. by rewrite lookup_insert_ne by congruence.
Qed.

(** C13: a process leaves no trace: in a file system at rest, where nobody else
    acts and no call fails, with unused random names at hand, whose configured
    paths lie in authentic directories, and whatever the backend,
    the network, OpenSSL and Pingora answer, however [run] ends - at any failure of
    the start, after the services ran, or after the public service failed, and in
    whatever order the services then let go of their listeners - every inode that
    was there before is exactly as it was, the directories included: neither the
    PID file nor a socket nor a staging directory stays behind. *)
Theorem process_leaves_no_trace (w : Outside (Env := Env) (St := St)) cli config names o :
  arguments w = Ok cli -> try_from (redis_url_valid w) (environment w) cli = Ok config -> lets_go w ->
  quiet o -> listeners_placed (fs o) names config ->
  (forall path, Config.pid_file config = Some path -> exists name b d, placed (fs o) names (components_of path) name b d) ->
  supplied (fs o) names 10 o ->
  forall k n, nodes (fs o) !! k = Some n -> nodes (fs (run w o).2) !! k = Some n.
Proof.
  intros Hargs Hcfg Hserve Hq Hplaced Hpid Hsup k n Hk. unfold run, and_then, lift. rewrite Hargs. cbn [map_err]. rewrite Hcfg. cbn [map_err].
  destruct (ensure_public_startup_supported (target_os w)) as [u0|e0]; cbn [map_err]; [|done].
  unfold listening, ensure_listener_paths_distinct, unix_bind.
  match goal with |- context [distinct_loop ?ls ?s o] => destruct (distinct_loop_spec ls s o Hq) as [Ho _] end.
  destruct (distinct_loop _ _ o) as [[u|e1] o1]; simpl in Ho; subst o1; cbn [map_err]; [|done].
  destruct (Config.pid_file config) as [path|]; cbn [with_pid_file].
  - destruct (Hpid path eq_refl) as (name & b & d & Hpl). destruct (acquire_ledger o names name b d (components_of path) Hq Hpl) as (r & o1 & -> & He1 & Hr).
    destruct r as [g|e1]; [|by subst o1]. destruct Hr as (i & Hg & Hl).
    destruct (start_ledger (fs o) names _ w config Hplaced Hserve 1 o1 Hl) as [Hl2 Hs2]; [by eapply supplied_weaken; [exact Hsup|lia|]|].
    destruct (start_and_serve w config o1) as [r o2]. cbn [snd] in *.
    destruct (drop_ledger (fs o) names [] 0 o2 (components_of path) name b d i Hl2 Hs2) as (o3 & Hdrop & _ & Hl3); [apply Hpl|].
    unfold drop_pid_file. rewrite Hg. unfold drop_owned in Hdrop. rewrite Hdrop. by eapply ledger_empty.
  - destruct (start_ledger (fs o) names [] w config Hplaced Hserve 1 o (ledger_start o names Hq)) as [Hl2 _]; [by eapply supplied_weaken; [exact Hsup|lia|]|].
    by eapply ledger_empty.
Qed.

End Unwinding.

(** ** Witnesses *)

Module UnwindingExamples.
Import SimplePlatform SimpleHttp ListenerExamples ErrorClientExamples StartupExamples.

#[local] Instance retry : RetryLib := sample_retry.

Lemma walk_grows f f' names d i : grows f f' -> walk f d names = Ok i -> walk f' d names = Ok i.
Proof.
  intros Hg. revert d. induction names as [|name names IH]; intros d; simpl; [done|].
  destruct (lookup_at f d name) as [j|] eqn:Hj; [|done]. rewrite (lookup_grows _ _ _ _ _ Hg Hj). apply IH.
Qed.

#[export] Instance resolution_laws : ResolutionLaws.
Proof.
  split. intros f f' p names Hg. destruct p as [|c p]; [done|]. simpl. unfold simple_realpath.
  destruct (walk f (root f) _) as [i|] eqn:Hw; [|done]. rewrite (proj1 Hg). by rewrite (walk_grows _ _ _ _ _ Hg Hw).
Qed.

(** A PID file and two sockets in [/run], and a public port that is taken. *)
Definition socket_cli : Cli :=
  arguments_with (Some "127.0.0.1") None (Some "/run/proxy.pid") (Some "/run/api.sock") (Some "/run/metrics.sock").

Definition port_taken : Outside (Env := MemoryStore.Clock) (St := MemoryStore.t) := {|
  arguments := Ok socket_cli; environment := fun _ => None; redis_url_valid := fun _ => true;
  target_os := LinuxOs; runtime_built := Ok tt; memory_store := MemoryStore.new;
  connect_redis := fun _ => Err (Backend "connect"); connect_sidecar := fun _ => Err (Backend "connect");
  mutation_env := MemoryStore.mkClock None 5;
  tcp_bind := fun _ => Err (OsError (EOTHER 98)); to_socket_addrs := fun a => Ok [a];
  server_new := Ok tt; serve := fun _ o => (false, all_services, o) |}.

Definition draws : list (option string) :=
  map Some ["aaaaaaaaaaaaaaaa"; "bbbbbbbbbbbbbbbb"; "cccccccccccccccc"; "dddddddddddddddd"; "eeeeeeeeeeeeeeee";
            "ffffffffffffffff"; "gggggggggggggggg"; "hhhhhhhhhhhhhhhh"; "iiiiiiiiiiiiiiii"; "jjjjjjjjjjjjjjjj"].

Definition calm_start : Os := mkOs start_fs [] draws [].
Definition file_names : list string := ["proxy.pid"; "api.sock"; "metrics.sock"].

Lemma start_unused bytes : unused start_fs file_names (Some bytes).
Proof.
  exists bytes. split; [done|]. split.
  - intros k n Hk. unfold start_fs in Hk. cbn [nodes] in Hk.
    apply lookup_insert_Some in Hk as [[_ <-]|[_ Hk]]; [by split; apply lookup_singleton_ne|].
    apply lookup_insert_Some in Hk as [[_ <-]|[_ Hk]]; [by split; apply lookup_singleton_ne|].
    apply lookup_insert_Some in Hk as [[_ <-]|[_ Hk]]; [by split; apply lookup_empty|]. by rewrite lookup_empty in Hk.
  - split; intros Hin; repeat (apply elem_of_cons in Hin as [Hin|Hin]; [discriminate Hin|]); by apply elem_of_nil in Hin.
Qed.

Lemma run_placed path name :
  file_name (components_of path) = Some name -> name ∈ file_names -> parent_or_dot (components_of path) = parent_or_dot OwnershipExamples.pid_path ->
  placed start_fs file_names (components_of path) name OwnershipExamples.run_boundary run_id.
Proof. intros Hn Hin Hp. split; [done|]. split; [done|]. rewrite Hp. apply OwnershipExamples.run_is_captured. Qed.

Lemma socket_config config : config_of socket_cli = Ok config ->
  Config.pid_file config = Some "/run/proxy.pid" /\ listeners_placed start_fs file_names config.
Proof.
  intros Hc. assert (Hl : result_map (fun c => (Config.pid_file c, public_listener c, api_listener c, metrics_listener c)) (config_of socket_cli)
    = Ok (Some "/run/proxy.pid", ListenTcp "127.0.0.1:8443", ListenUnix "/run/api.sock", Some (ListenUnix "/run/metrics.sock"))) by (vm_compute; reflexivity).
  rewrite Hc in Hl. simpl in Hl. injection Hl as H1 H2 H3 H4. unfold listeners_placed. rewrite H1, H2, H3, H4. split; [done|]. split; [done|]. split.
  - exists "api.sock", OwnershipExamples.run_boundary, run_id. apply run_placed; [done|unfold file_names; set_solver|done].
  - intros l [= <-]. exists "metrics.sock", OwnershipExamples.run_boundary, run_id. apply run_placed; [done|unfold file_names; set_solver|done].
Qed.

Lemma socket_config_ok : exists config, config_of socket_cli = Ok config.
Proof.
  assert (Hok : is_ok (config_of socket_cli) = true) by (vm_compute; reflexivity).
  destruct (config_of socket_cli) as [config|]; [by exists config|done].
Qed.

(** The same with a free port and a server that lets go in another order. *)
Definition serving : Outside (Env := MemoryStore.Clock) (St := MemoryStore.t) := {|
  arguments := Ok socket_cli; environment := fun _ => None; redis_url_valid := fun _ => true;
  target_os := LinuxOs; runtime_built := Ok tt; memory_store := MemoryStore.new;
  connect_redis := fun _ => Err (Backend "connect"); connect_sidecar := fun _ => Err (Backend "connect");
  mutation_env := MemoryStore.mkClock None 5;
  tcp_bind := fun _ => Ok tt; to_socket_addrs := fun a => Ok [a];
  server_new := Ok tt; serve := fun _ o => (false, [ApiListener; RedirectListener; PublicListener; MetricsListener], o) |}.

Lemma pid_placed config path : config_of socket_cli = Ok config -> Config.pid_file config = Some path ->
  exists name b d, placed start_fs file_names (components_of path) name b d.
Proof.
  intros Hc Hp. destruct (socket_config config Hc) as [Hpid _]. rewrite Hpid in Hp. injection Hp as <-.
  exists "proxy.pid", OwnershipExamples.run_boundary, run_id. apply (run_placed "/run/proxy.pid" "proxy.pid"); [reflexivity|left|reflexivity].
Qed.

Lemma process_leaves_no_trace_witness :
  (run port_taken calm_start).1 = Err (StartListener (TcpBind (OsError (EOTHER 98)))) /\
  (forall k n, nodes start_fs !! k = Some n -> nodes (fs (run port_taken calm_start).2) !! k = Some n) /\
  (run serving calm_start).1 = Ok tt /\
  (forall k n, nodes start_fs !! k = Some n -> nodes (fs (run serving calm_start).2) !! k = Some n).
Proof.
  destruct socket_config_ok as [config Hc]. destruct (socket_config config Hc) as [_ Hl].
  assert (Hsup : supplied (fs calm_start) file_names 10 calm_start) by (split; [simpl; lia|repeat constructor; apply start_unused]).
  split; [vm_compute; reflexivity|]. split; [|split; [vm_compute; reflexivity|]].
  - apply (process_leaves_no_trace port_taken socket_cli config file_names calm_start);
      [reflexivity|exact Hc| |reflexivity|exact Hl|intros path Hp; exact (pid_placed config path Hc Hp)|exact Hsup].
    intros s o. exists false, all_services. split; reflexivity.
  - apply (process_leaves_no_trace serving socket_cli config file_names calm_start);
      [reflexivity|exact Hc| |reflexivity|exact Hl|intros path Hp; exact (pid_placed config path Hc Hp)|exact Hsup].
    intros s o. exists false, [ApiListener; RedirectListener; PublicListener; MetricsListener]. split; [reflexivity|].
    apply (bool_decide_unpack _). vm_compute. exact I.
Defined.

End UnwindingExamples.
