(* ===== verification/Waiting.v ===== *)
(** * Waiting on a notification (the wait loops of api_server.rs, route_table.rs and activity.rs)

    Every wait of the program is the same loop over a [tokio::sync::Notify]: make a
    [notified()] future, look whether the awaited condition holds, and await the
    future when it does not.  Whoever makes a condition true does so first and
    calls [notify_waiters] afterwards, with no lock around both, so a waiter may
    look between the two.  [wait_step] interleaves all of these accesses; the
    theorems show that no wake-up is lost. *)

From S2P Require Import Prelude RustStr Route RouteTable Store Tracker Registry RegistryConc.
From S2P Require Import Metrics Activity Lifecycle.

(** ** The loop *)

(** Where a waiter stands: at the head of its loop, holding a future and about to
    look, awaiting the future, or back at its caller.  [woken] is whether a
    notification came since the future was made: [Notify] delivers it even to a
    future that is not polled yet. *)
Inductive Turn : Type :=
| Looping
| Looking (woken : bool)
| Awaiting (woken : bool)
| Returned.

#[export] Instance Turn_eq_dec : EqDecision Turn.
Proof. solve_decision. Defined.

(** One turn of a waiter that finds its condition [now]; [None] is a waiter that
    sleeps or has returned. *)
Definition turn (now : bool) (t : Turn) : option Turn :=
  match t with
  | Looping => Some (Looking false)
  | Looking woken => Some (if now then Returned else Awaiting woken)
  | Awaiting true => Some Looping
  | Awaiting false | Returned => None
  end.

(** [Notify::notify_waiters], for one waiter. *)
Definition wake_up (t : Turn) : Turn :=
  match t with
  | Looking _ => Looking true
  | Awaiting _ => Awaiting true
  | Looping => Looping
  | Returned => Returned
  end.

Section Waiting.
Context {State Wait : Type}.
(** What changes the state; the flag tells that the change is followed by a call
    of [notify_waiters]. *)
Variable event : State -> bool -> State -> Prop.
(** What each waiter looks at. *)
Variable holds : Wait -> State -> bool.

(** The state, the calls of [notify_waiters] still to be made, and the waiters. *)
Record Room : Type := mkRoom { now : State; owed : nat; waiters : gmap nat (Wait * Turn) }.

Definition room (s : State) : Room := mkRoom s 0 ∅.

Inductive wait_step (r : Room) : Room -> Prop :=
| wait_event notifies s :
    event (now r) notifies s ->
    wait_step r (mkRoom s (if (notifies : bool) then S (owed r) else owed r) (waiters r))
| wait_notify n :
    owed r = S n -> wait_step r (mkRoom (now r) n (prod_map id wake_up <$> waiters r))
| wait_arrive i c :
    waiters r !! i = None -> wait_step r (mkRoom (now r) (owed r) (<[i := (c, Looping)]> (waiters r)))
| wait_turn i c t t' :
    waiters r !! i = Some (c, t) -> turn (holds c (now r)) t = Some t' ->
    wait_step r (mkRoom (now r) (owed r) (<[i := (c, t')]> (waiters r)))
| wait_leave i : wait_step r (mkRoom (now r) (owed r) (delete i (waiters r))).

Definition waiting (s : State) (r : Room) : Prop := rtc wait_step (room s) r.

(** ** Conditions that are announced *)

(** The change that makes a condition true is followed by a notification; [Inv] is
    what the component keeps true. *)
Class Announced (Inv : State -> Prop) : Prop := {
  announced_inv s notifies s' : Inv s -> event s notifies s' -> Inv s';
  announced c s notifies s' :
    Inv s -> event s notifies s' -> holds c s = false -> holds c s' = true -> notifies = true
}.

(** A waiter sleeps unnotified only while its condition does not hold or a
    notification is still to come. *)
Record room_inv (Inv : State -> Prop) (r : Room) : Prop := {
  room_state : Inv (now r);
  room_sleep i c : waiters r !! i = Some (c, Awaiting false) -> holds c (now r) = true -> (0 < owed r)%nat
}.

Context `{!Announced Inv}.
#[local] Set Default Proof Using "All".

Lemma room_inv_start s : Inv s -> room_inv Inv (room s).
Proof. intros Hs. split; [done|]. intros i c. simpl. by rewrite lookup_empty. Qed.

Lemma room_inv_step r r' : room_inv Inv r -> wait_step r r' -> room_inv Inv r'.
Proof.
  intros [Hs Hw] Hstep. destruct Hstep as [b s He|n Hn|i c Hi|i c t t' Hi Ht|i]; split; simpl; try done.
  - by eapply announced_inv.
  - intros i c Hi Hc. destruct (holds c (now r)) eqn:Hb.
    + specialize (Hw i c Hi Hb). destruct b; lia.
    + rewrite (announced c _ _ _ Hs He Hb Hc). lia.
  - intros i c. rewrite lookup_fmap. destruct (waiters r !! i) as [[c' t]|]; [|done].
    destruct t as [|[]|[]|]; by intros [= <-].
  - intros j c'. destruct (decide (i = j)) as [<-|Hne]; [by rewrite lookup_insert_eq|].
    rewrite lookup_insert_ne by done. apply Hw.
  - intros j c'. destruct (decide (i = j)) as [<-|Hne].
    + rewrite lookup_insert_eq. intros [= <- ->]. destruct t as [|b|[]|]; simplify_eq/=.
      by destruct (holds c (now r)).
    + rewrite lookup_insert_ne by done. apply Hw.
  - intros j c'. rewrite lookup_delete_Some. intros [_ Hj]. by apply (Hw j).
Qed.

Lemma waiting_inv s r : Inv s -> waiting s r -> room_inv Inv r.
Proof.
  intros Hs Hr. revert r Hr. apply (rtc_ind_r (room_inv Inv)); [by apply room_inv_start|].
  intros. by eapply room_inv_step.
Qed.

(** ** How far a waiter is from its return *)

Definition distance (t : Turn) : nat :=
  match t with Returned => 0 | Looking _ => 1 | Looping => 2 | Awaiting true => 3 | Awaiting false => 4 end.

Lemma wake_up_distance t : (distance (wake_up t) <= distance t)%nat.
Proof. destruct t as [|[]|[]|]; simpl; lia. Qed.

Lemma turn_distance t t' : turn true t = Some t' -> (distance t' < distance t)%nat.
Proof. destruct t as [|[]|[]|]; intros; simplify_eq/=; lia. Qed.

(** While its condition holds, nothing that anyone does delays a waiter. *)
Lemma never_delayed r r' i c t :
  wait_step r r' -> waiters r !! i = Some (c, t) -> holds c (now r) = true ->
  (exists t', waiters r' !! i = Some (c, t') /\ (distance t' <= distance t)%nat) \/ waiters r' !! i = None.
Proof.
  intros Hstep Hi Hc. destruct Hstep as [b s He|n Hn|j d Hj|j d u u' Hj Hu|j]; simpl.
  - left. by exists t.
  - left. exists (wake_up t). rewrite lookup_fmap, Hi. split; [done|]. apply wake_up_distance.
  - left. exists t. rewrite lookup_insert_ne by congruence. done.
  - left. destruct (decide (j = i)) as [->|Hne].
    + rewrite Hi in Hj. injection Hj as <- <-. rewrite Hc in Hu. exists u'. rewrite lookup_insert_eq.
      split; [done|]. apply turn_distance in Hu. lia.
    + exists t. by rewrite lookup_insert_ne.
  - destruct (decide (j = i)) as [->|Hne]; [right; by rewrite lookup_delete_eq|].
    left. exists t. by rewrite lookup_delete_ne.
Qed.

(** A waiter whose condition holds comes nearer by its own turn, or by the
    notification that is owed to it. *)
Lemma comes_nearer r i c t :
  room_inv Inv r -> waiters r !! i = Some (c, t) -> holds c (now r) = true -> t <> Returned ->
  exists r' t', wait_step r r' /\ now r' = now r /\ waiters r' !! i = Some (c, t') /\ (distance t' < distance t)%nat.
Proof.
  intros [_ Hw] Hi Hc Ht. destruct (turn true t) as [t'|] eqn:Htt.
  - eexists _, t'. split; [eapply (wait_turn r i c t t'); [done|by rewrite Hc]|]. simpl.
    rewrite lookup_insert_eq. split_and!; [done..|]. by apply turn_distance.
  - destruct t as [|b|[]|]; try done. specialize (Hw i c Hi Hc). destruct (owed r) as [|n] eqn:Hn; [lia|].
    eexists _, (Awaiting true). split; [by eapply (wait_notify r n)|]. simpl. rewrite lookup_fmap, Hi. simpl.
    split_and!; [done..|lia].
Qed.

(** So it returns, after at most four steps that change nothing else of the state. *)
Lemma waiter_returns n r i c t :
  room_inv Inv r -> waiters r !! i = Some (c, t) -> holds c (now r) = true -> (distance t <= n)%nat ->
  exists k r', (k <= n)%nat /\ nsteps wait_step k r r' /\ now r' = now r /\ waiters r' !! i = Some (c, Returned).
Proof.
  revert r t. induction n as [|n IH]; intros r t Hinv Hi Hc Hd.
  - exists 0%nat, r. split; [lia|]. split; [constructor|]. split; [done|]. destruct t as [|[]|[]|]; simpl in Hd; try lia. done.
  - destruct (decide (t = Returned)) as [->|Hne].
    { exists 0%nat, r. split; [lia|]. split; [constructor|]. done. }
    destruct (comes_nearer r i c t Hinv Hi Hc Hne) as (r1 & t1 & Hstep & Hn & Hi1 & Hd1).
    destruct (IH r1 t1) as (k & r2 & Hk & Hrun & Hn2 & Hi2); [by eapply room_inv_step|done|by rewrite Hn|lia|].
    exists (S k), r2. split; [lia|]. split; [by eapply nsteps_l|]. split; [congruence|done].
Qed.

(** A waiter returns only when it has seen its condition. *)
Lemma returns_when_seen r r' i c t :
  wait_step r r' -> waiters r !! i = Some (c, t) -> t <> Returned -> waiters r' !! i = Some (c, Returned) ->
  holds c (now r) = true /\ now r' = now r.
Proof.
  intros Hstep Hi Ht. destruct Hstep as [b s He|n Hn|j d Hj|j d u u' Hj Hu|j]; simpl.
  - rewrite Hi. congruence.
  - rewrite lookup_fmap, Hi. simpl. intros [= Hw]. by destruct t as [|[]|[]|].
  - destruct (decide (j = i)) as [->|Hne]; [by rewrite lookup_insert_eq|]. rewrite lookup_insert_ne by done. rewrite Hi. congruence.
  - destruct (decide (j = i)) as [->|Hne]; [|rewrite lookup_insert_ne by done; rewrite Hi; congruence].
    rewrite Hi in Hj. injection Hj as <- <-. rewrite lookup_insert_eq. intros [= ->].
    destruct t as [|b|[]|]; simplify_eq/=. by destruct (holds c (now r)).
  - destruct (decide (j = i)) as [->|Hne]; [by rewrite lookup_delete_eq|]. rewrite lookup_delete_ne by done. rewrite Hi. congruence.
Qed.

(** What a wait loop promises. *)
Definition wakes (s0 : State) : Prop :=
  forall r i c t, waiting s0 r -> waiters r !! i = Some (c, t) ->
    (holds c (now r) = true ->
       (exists k r', (k <= 4)%nat /\ nsteps wait_step k r r' /\ now r' = now r /\ waiters r' !! i = Some (c, Returned)) /\
       (forall r', wait_step r r' ->
          (exists t', waiters r' !! i = Some (c, t') /\ (distance t' <= distance t)%nat) \/ waiters r' !! i = None)) /\
    (forall r', wait_step r r' -> t <> Returned -> waiters r' !! i = Some (c, Returned) -> holds c (now r) = true).

Lemma announced_wakes s0 : Inv s0 -> wakes s0.
Proof.
  intros Hs r i c t Hr Hi. pose proof (waiting_inv _ _ Hs Hr) as Hinv. split.
  - intros Hc. split; [|intros; by eapply never_delayed]. eapply waiter_returns; [done|done|done|].
    destruct t as [|[]|[]|]; simpl; lia.
  - intros r' Hstep Ht Hr'. by eapply returns_when_seen.
Qed.

End Waiting.

Arguments mkRoom {State Wait}.
Arguments now {State Wait}.
Arguments owed {State Wait}.
Arguments waiters {State Wait}.

(** ** The waits of the program *)

(** [ManagementLifecycle]: one [Notify] for the request to stop, one for its
    acknowledgement. *)
Inductive stop_event (m : ManagementLifecycle) : bool -> ManagementLifecycle -> Prop :=
| stop_asked : stop_event m true (request_stop m)
| stop_answered : stop_event m false (management_acknowledge m).

Inductive stopped_event (m : ManagementLifecycle) : bool -> ManagementLifecycle -> Prop :=
| stopped_asked : stopped_event m false (request_stop m)
| stopped_answered : stopped_event m true (management_acknowledge m).

Definition is_stop_requested (_ : unit) (m : ManagementLifecycle) : bool := stop_requested m.
Definition are_accepts_stopped (_ : unit) (m : ManagementLifecycle) : bool := management_accepts_stopped m.

Definition wait_for_stop_requested := wait_step stop_event is_stop_requested.
Definition wait_for_accepts_stopped := wait_step stopped_event are_accepts_stopped.

#[export] Instance stop_announced : Announced stop_event is_stop_requested (fun _ => True).
Proof. split; [done|]. intros c s b s' _ He Hno Hyes. destruct He; [done|]. unfold is_stop_requested in *. simpl in Hyes. congruence. Qed.

#[export] Instance stopped_announced : Announced stopped_event are_accepts_stopped (fun _ => True).
Proof. split; [done|]. intros c s b s' _ He Hno Hyes. destruct He; [|done]. unfold are_accepts_stopped in *. simpl in Hyes. congruence. Qed.

(** [TrafficLifecycle]: the acknowledgement of a stop and the last release share
    one [Notify]. *)
Inductive TrafficWait : Type := AcceptsStopped | Drained.

Definition traffic_condition (c : TrafficWait) (w : TrafficWorld) : bool :=
  match c with AcceptsStopped => accepts_stopped (tw w) | Drained => drained (tw w) end.

Definition last_release (w w' : TrafficWorld) : bool := (traffic_active (tw w) =? 1) && (traffic_active (tw w') =? 0).

(** The second store of an acknowledgement. *)
Definition acknowledged (w : TrafficWorld) : TrafficWorld :=
  mkTrafficWorld (mkTraffic false (traffic_active (tw w)) true) (checked w) (added w) (admitted w) (retreating w) (over_released w).

Inductive traffic_event (w : TrafficWorld) : bool -> TrafficWorld -> Prop :=
| traffic_moves w' :
    traffic_step w w' -> accepts_stopped (tw w') = accepts_stopped (tw w) -> traffic_event w (last_release w w') w'
| traffic_acknowledges : accepting (tw w) = false -> traffic_event w true (acknowledged w).

Definition traffic_wait := wait_step traffic_event traffic_condition.

Lemma emptied_by_one w w' :
  traffic_inv w -> traffic_step w w' -> traffic_active (tw w) <> 0 -> traffic_active (tw w') = 0 -> traffic_active (tw w) = 1.
Proof.
  intros [Hc Hw _ _] Hstep Hno Hyes. destruct Hstep as [|?|n Hn Hb|n Hn Ha|n Hn Ha|n Hn|n Hn| |]; simpl in Hyes; try done.
  - unfold wrapping_add in Hyes. rewrite Z.mod_small in Hyes; lia.
  - unfold finish_in, traffic_finish in Hyes. destruct (Z.eqb_spec (traffic_active (tw w)) 0); [done|]. simpl in Hyes. lia.
  - unfold finish_in, traffic_finish in Hyes. destruct (Z.eqb_spec (traffic_active (tw w)) 0); [done|]. simpl in Hyes. lia.
Qed.

#[export] Instance traffic_announced : Announced traffic_event traffic_condition traffic_inv.
Proof.
  split.
  - intros s b s' Hinv He. eapply traffic_inv_step; [exact Hinv|]. destruct He as [s' Hstep _|Ha]; [done|by apply tr_acknowledge].
  - intros c s b s' Hinv He Hno Hyes. destruct He as [s' Hstep Hsame|]; [|done]. destruct c; simpl in Hno, Hyes; [congruence|].
    unfold drained in *. apply Z.eqb_neq in Hno. apply Z.eqb_eq in Hyes. unfold last_release.
    by rewrite (emptied_by_one _ _ Hinv Hstep Hno Hyes), Hyes.
Qed.

(** [MutationTracker::seal_and_drain]: each released mutation notifies. *)
Definition no_active (_ : unit) (w : World) : bool := active (w_tracker w) =? 0.

Inductive registry_event (w : World) : bool -> World -> Prop :=
| registry_moves w' : step w w' -> registry_event w (active (w_tracker w') <? active (w_tracker w)) w'.

Definition drain_wait := wait_step registry_event no_active.

#[export] Instance drain_announced : Announced registry_event no_active structure_inv.
Proof.
  split.
  - intros s b s' Hinv []. by eapply structure_step.
  - intros c s b s' Hinv [s1 Hstep] Hno Hyes. unfold no_active in *. bool_simp. apply Z.ltb_lt.
    pose proof (inv_active _ Hinv). lia.
Qed.

(** [ActivityWriter::flush]: the worker notifies after each attempt, and before it
    goes back to sleep. *)
Section Flush.
Context `{F64}.

Definition worker_notifies (a a' : ActivityWriter) : bool :=
  match worker a, worker a' with
  | WPersist _ _ _, WLoop | WLoop, WRecv => true
  | _, _ => false
  end.

Inductive activity_event (a : ActivityWriter) : bool -> ActivityWriter -> Prop :=
| activity_moves a' : activity_step a a' -> activity_event a (worker_notifies a a') a'.

Definition flushed (watermark : Z) (a : ActivityWriter) : bool := watermark_is_complete watermark (pending a).

Definition flush := wait_step activity_event flushed.

(** Recording an observation completes no watermark. *)
Lemma accept_incomplete w key at_ p p' :
  accept_observation key at_ p = Some p' -> watermark_is_complete w p' = true -> watermark_is_complete w p = true.
Proof.
  unfold accept_observation. intros (q & _ & Heq)%bind_Some. rewrite !watermark_complete_spec. intros Hall k e Hk.
  destruct (p_by_key p !! key) as [x|] eqn:Hx; injection Heq as <-; simpl in Hall.
  - destruct (decide (key = k)) as [<-|Hne]; [|apply (Hall k e); by rewrite lookup_insert_ne].
    rewrite Hk in Hx. injection Hx as <-. specialize (Hall key _ (lookup_insert_eq _ _ _)) as [Hi Hp]. simpl in Hi, Hp.
    split; [done|]. by destruct (pending_oldest_sequence e).
  - apply (Hall k e). rewrite lookup_insert_ne by congruence. done.
Qed.

Lemma pop_incomplete w p k at_ s p' :
  queue_inv None p -> pop_ready p = Popped k at_ s p' -> watermark_is_complete w p' = true -> watermark_is_complete w p = true.
Proof.
  intros Hq Hpop. pose proof (pop_queue _ Hq) as Hs. rewrite Hpop in Hs. destruct Hs as (_ & _ & e & He & _ & Hes & Hp').
  rewrite !watermark_complete_spec, Hp'. intros Hall j x Hj. destruct (decide (k = j)) as [<-|Hne]; [|apply (Hall j x); by rewrite lookup_insert_ne].
  rewrite He in Hj. injection Hj as <-. specialize (Hall k _ (lookup_insert_eq _ _ _)) as [Hi _]. simpl in Hi. rewrite Hes. split; [|done].
  destruct (in_flight_oldest_sequence e) as [q|] eqn:Hf; [|done]. assert (None = Some (k, q)) by (apply (q_flight _ _ Hq); by exists e). done.
Qed.

#[export] Instance flush_announced : Announced activity_event flushed activity_inv.
Proof.
  split.
  - intros s b s' Hinv []. by eapply activity_inv_step.
  - intros w a b a' Hinv [a1 Hstep] Hno Hyes. unfold flushed in *.
    destruct Hstep as [key at_ el a1 Hrec|Hsend|Hal Hwk Hw|Hal Hwk Hp|key at_ q p Hal Hwk Hp|key at_ q failed Hal Hwk| ].
    + exfalso. unfold record_admit in Hrec. simpl in Hrec. destruct (accepts _ _ _); simpl in Hrec.
      * apply bind_Some in Hrec as (p & Hp & [= <-]). simpl in Hyes. by rewrite (accept_incomplete _ _ _ _ _ Hp Hyes) in Hno.
      * injection Hrec as <-. simpl in Hyes. congruence.
    + exfalso. unfold try_send in Hyes. simpl in Hyes. destruct (worker_alive a); simpl in Hyes; congruence.
    + simpl in Hyes. congruence.
    + simpl in Hyes. congruence.
    + pose proof (a_queue a Hinv) as Hq. rewrite Hwk in Hq. simpl in Hyes. by rewrite (pop_incomplete _ _ _ _ _ _ Hq Hp Hyes) in Hno.
    + unfold worker_notifies. rewrite Hwk. by destruct failed.
    + simpl in Hyes. congruence.
Qed.

(** The activity of a room while nobody arrives, takes a turn or leaves. *)
Lemma room_follows a a' (r : Room) :
  rtc activity_step a a' -> now r = a -> exists r', rtc flush r r' /\ now r' = a' /\ waiters r' = waiters r.
Proof.
  intros Hr. revert r. induction Hr as [a|a b c Hab _ IH]; intros r Hn; [by exists r|].
  destruct (IH (mkRoom b (if worker_notifies a b then S (owed r) else owed r) (waiters r)) eq_refl) as (r' & Hrun & Hn' & Hw').
  exists r'. split; [|done]. eapply rtc_l; [|done]. apply wait_event. rewrite Hn. by apply activity_moves.
Qed.

End Flush.

(** ** Theorems *)

(** C19: no wake-up is lost, on any of the program's waits (the request to stop the
    management listener and its acknowledgement, the acknowledged stop and the
    drain of the public traffic, the drain of the mutations, the flush of the
    activity): at every point of every interleaving, a waiter whose condition
    holds can return within four steps that leave the state alone, nothing that
    anyone does sets it back, and it never returns without having seen the
    condition. *)
Theorem no_wakeup_is_lost `{F64} :
  wakes stop_event is_stop_requested Management_default /\
  wakes stopped_event are_accepts_stopped Management_default /\
  wakes traffic_event traffic_condition traffic_initial /\
  (forall m, wakes registry_event no_active (initial m)) /\
  (forall capacity m, wakes activity_event flushed (start_with_metrics capacity m)).
Proof.
  split_and!; intros.
  - eapply announced_wakes; [apply stop_announced|done].
  - eapply announced_wakes; [apply stopped_announced|done].
  - eapply announced_wakes; [apply traffic_announced|]. apply traffic_reachable_inv. by apply rtc_refl.
  - eapply announced_wakes; [apply drain_announced|]. apply structure_initial.
  - eapply announced_wakes; [apply flush_announced|]. apply activity_inv_start.
Qed.

(** A flush returns: wherever it stands in its loop and whatever is pending,
    while the worker lives there is a run, without help from new observations, at
    the end of which the flush is back at its caller. *)
Theorem flush_returns `{F64} capacity m r i watermark t :
  waiting activity_event flushed (start_with_metrics capacity m) r ->
  waiters r !! i = Some (watermark, t) -> worker_alive (now r) = true ->
  exists r', rtc flush r r' /\ waiters r' !! i = Some (watermark, Returned) /\ flushed watermark (now r') = true.
Proof.
  intros Hr Hi Hal. pose proof (waiting_inv _ _ _ _ (activity_inv_start capacity m) Hr) as Hinv.
  destruct (writer_drains (now r) (room_state _ _ _ Hinv) Hal) as (a' & Hrun & He).
  destruct (room_follows _ _ r Hrun eq_refl) as (r1 & Hr1 & Hn1 & Hw1).
  assert (Hf : flushed watermark (now r1) = true).
  { rewrite Hn1. apply watermark_complete_spec. intros k e. by rewrite He, lookup_empty. }
  assert (Hinv1 : room_inv flushed activity_inv r1).
  { apply (waiting_inv _ _ _ _ (activity_inv_start capacity m)). unfold waiting. etrans; [exact Hr|exact Hr1]. }
  destruct (waiter_returns activity_event flushed 4 r1 i watermark t Hinv1) as (k & r2 & _ & Hr2 & Hn2 & Hi2);
    [by rewrite Hw1|done|destruct t as [|[]|[]|]; simpl; lia|].
  exists r2. split; [|by rewrite Hn2]. etrans; [done|]. by apply (rtc_nsteps_2 k).
Qed.

(** ** Witnesses *)

(** A flush of one accepted observation, at the head of its loop. *)
Definition flushing : Room := mkRoom writer_a 0 {[ 0%nat := (1, Looping) ]}.

Lemma flushing_reached : waiting activity_event flushed (start_with_metrics 1 Metrics_new) flushing.
Proof.
  apply (rtc_l _ _ (mkRoom writer_a 0 ∅)).
  - apply (wait_event _ _ (room (start_with_metrics 1 Metrics_new)) false writer_a).
    change false with (worker_notifies (start_with_metrics 1 Metrics_new) writer_a).
    apply activity_moves, (act_record _ (normalize "/a") 5 0). reflexivity.
  - apply rtc_once. apply (wait_arrive _ _ (mkRoom writer_a 0 ∅) 0 1). reflexivity.
Qed.

Lemma flush_returns_witness :
  flushed 1 writer_a = false /\ exists r', waiters r' !! 0%nat = Some (1, Returned) /\ flushed 1 (now r') = true.
Proof.
  split; [reflexivity|].
  destruct (flush_returns 1 Metrics_new flushing 0 1 Looping flushing_reached eq_refl eq_refl) as (r' & _ & Hi & Hf).
  exists r'. split; [exact Hi|exact Hf].
Defined.
