(* ===== verification/System.v ===== *)
(** * The ordered shutdown over the running components (src/shutdown.rs with route_table.rs, activity.rs and api_server.rs)

    [ShutdownCoordinator::start] runs while the listeners, the public requests, the
    mutations and the activity worker go on.  Here the coordinator's phases are
    interleaved with every step of those components, at the points where it looks
    at them, and any of its deadlines may pass at any time.  The worker's attempts
    are mutations of the registry, so what the drain does to it shows. *)

From S2P Require Import Prelude RustStr Route RouteTable Store Tracker Registry RegistryConc.
From S2P Require Import Metrics Activity Lifecycle.

(** ** The coordinator *)

(** Where [start] stands, with what its earlier phases came to: [true] is a phase
    that ended, [false] one whose deadline passed (and was logged). *)
Inductive Coordinator : Type :=
| Idle                                                    (** in [wait_for_shutdown] *)
| Stopping (management public : bool)                     (** in [join!] under the first deadline *)
| Draining (accepts : bool)                               (** in [drain_mutations] *)
| Marking (accepts drained : bool)                        (** about to call [flush] *)
| Flushing (accepts drained : bool) (watermark : Z)
| Clearing (accepts drained flushed : bool)               (** in [wait_for_drain] *)
| Completed (accepts drained flushed cleared : bool).

Section System.
Context `{F64}.

Record System : Type := mkSystem {
  s_management : ManagementLifecycle;
  s_traffic : TrafficWorld;
  s_registry : World;
  s_activity : ActivityWriter;
  s_attempt : option nat;                (** the task of the worker's attempt *)
  s_coordinator : Coordinator;
  s_mark : option ActivityWriter         (** ghost: the writer when [flush] was called *)
}.

Definition system_start (contents : gmap RouteKey RouteData) (capacity : nat) (m : Metrics) : System :=
  mkSystem Management_default traffic_initial (initial contents) (start_with_metrics capacity m) None Idle None.

Definition with_management m s := mkSystem m (s_traffic s) (s_registry s) (s_activity s) (s_attempt s) (s_coordinator s) (s_mark s).
Definition with_traffic t s := mkSystem (s_management s) t (s_registry s) (s_activity s) (s_attempt s) (s_coordinator s) (s_mark s).
Definition with_registry r s := mkSystem (s_management s) (s_traffic s) r (s_activity s) (s_attempt s) (s_coordinator s) (s_mark s).
Definition with_activity a s := mkSystem (s_management s) (s_traffic s) (s_registry s) a (s_attempt s) (s_coordinator s) (s_mark s).
Definition with_attempt i s := mkSystem (s_management s) (s_traffic s) (s_registry s) (s_activity s) i (s_coordinator s) (s_mark s).
Definition with_coordinator c s := mkSystem (s_management s) (s_traffic s) (s_registry s) (s_activity s) (s_attempt s) c (s_mark s).
Definition with_mark a s := mkSystem (s_management s) (s_traffic s) (s_registry s) (s_activity s) (s_attempt s) (s_coordinator s) a.

(** [seal_and_drain] up to its first await, as the coordinator runs it. *)
Definition begin_drain (accepts : bool) (s : System) : System :=
  let (outcome, t) := drain_start (w_tracker (s_registry s)) in
  with_coordinator (if is_some outcome then Marking accepts true else Draining accepts)
    (with_registry (set_tracker t (s_registry s)) s).

(** Its deadline. *)
Definition give_up_drain (accepts : bool) (s : System) : System :=
  let (outcome, t) := drain_deadline (w_tracker (s_registry s)) in
  with_coordinator (Marking accepts (negb (timed_out outcome))) (with_registry (set_tracker t (s_registry s)) s).

(** The steps of [ShutdownCoordinator::start]. *)
Inductive coordinate (s : System) : System -> Prop :=
| co_signal : s_coordinator s = Idle -> coordinate s (with_coordinator (Stopping false false) s)
| co_management p :
    s_coordinator s = Stopping false p -> management_accepts_stopped (s_management s) = true ->
    coordinate s (with_coordinator (Stopping true p) s)
| co_public m :
    s_coordinator s = Stopping m false -> accepts_stopped (tw (s_traffic s)) = true ->
    coordinate s (with_coordinator (Stopping m true) s)
| co_drain m p :
    s_coordinator s = Stopping m p -> coordinate s (begin_drain (m && p) s)
| co_drained a outcome t :
    s_coordinator s = Draining a -> drain_check (w_tracker (s_registry s)) = (Some outcome, t) ->
    coordinate s (with_coordinator (Marking a true) (with_registry (set_tracker t (s_registry s)) s))
| co_drain_deadline a :
    s_coordinator s = Draining a -> coordinate s (give_up_drain a s)
| co_mark a d :
    s_coordinator s = Marking a d ->
    coordinate s (with_mark (Some (s_activity s))
      (with_coordinator (Flushing a d (accepted_through (pending (s_activity s)))) s))
| co_flushed a d watermark :
    s_coordinator s = Flushing a d watermark -> watermark_is_complete watermark (pending (s_activity s)) = true ->
    coordinate s (with_coordinator (Clearing a d true) s)
| co_flush_deadline a d watermark :
    s_coordinator s = Flushing a d watermark -> coordinate s (with_coordinator (Clearing a d false) s)
| co_cleared a d f :
    s_coordinator s = Clearing a d f -> drained (tw (s_traffic s)) = true ->
    coordinate s (with_coordinator (Completed a d f true) s)
| co_clear_deadline a d f :
    s_coordinator s = Clearing a d f -> coordinate s (with_coordinator (Completed a d f false) s).

(** ** Everything together *)

Definition awaits_reply (a : ActivityWriter) : bool :=
  match worker a with WPersist _ _ _ => true | _ => false end.

(** The worker's attempt: admitted as a mutation, refused, answered, or lost with
    its task. *)
Inductive attempt_step (s : System) : System -> Prop :=
| attempt_begins i key at_ sequence active t :
    worker (s_activity s) = WPersist key at_ sequence -> worker_alive (s_activity s) = true -> s_attempt s = None ->
    w_tasks (s_registry s) !! i = None -> Z.of_nat (size (w_tasks (s_registry s))) < usize_max ->
    begin UpdateActivity (w_tracker (s_registry s)) = Ok (active, t) ->
    attempt_step s (with_attempt (Some i)
      (with_registry (set_tracker t (set_tasks (<[i := mkTask (MPersist key at_) PWaiting]> (w_tasks (s_registry s))) (s_registry s))) s))
| attempt_refused key at_ sequence e :
    worker (s_activity s) = WPersist key at_ sequence -> worker_alive (s_activity s) = true -> s_attempt s = None ->
    begin UpdateActivity (w_tracker (s_registry s)) = Err e ->
    attempt_step s (with_activity (worker_finish key at_ true (s_activity s)) s)
| attempt_answered i key at_ sequence m res :
    worker (s_activity s) = WPersist key at_ sequence -> worker_alive (s_activity s) = true -> s_attempt s = Some i ->
    task_at (s_registry s) i m (PAck res) ->
    attempt_step s (with_attempt None
      (with_activity (worker_finish key at_ (match res with Some (Ok _) => false | _ => true end) (s_activity s)) s))
| attempt_lost i key at_ sequence :
    worker (s_activity s) = WPersist key at_ sequence -> worker_alive (s_activity s) = true -> s_attempt s = Some i ->
    w_tasks (s_registry s) !! i = None ->
    attempt_step s (with_attempt None (with_activity (worker_finish key at_ true (s_activity s)) s)).

Inductive system_step (s : System) : System -> Prop :=
| sys_coordinate s' : coordinate s s' -> system_step s s'
| sys_attempt s' : attempt_step s s' -> system_step s s'
| sys_request_stop : system_step s (with_management (request_stop (s_management s)) s)
| sys_acknowledge : system_step s (with_management (management_acknowledge (s_management s)) s)
| sys_traffic t : traffic_step (s_traffic s) t -> system_step s (with_traffic t s)
| sys_registry r :
    step (s_registry s) r ->
    (forall i, s_attempt s = Some i -> w_tasks (s_registry s) !! i = None -> w_tasks r !! i = None) ->
    system_step s (with_registry r s)
| sys_activity a :
    activity_step (s_activity s) a -> (awaits_reply (s_activity s) = true -> worker a = worker (s_activity s)) ->
    system_step s (with_activity a s).

Definition system_reachable (s : System) : Prop :=
  exists contents capacity m, rtc system_step (system_start contents capacity m) s.

(** ** Each component runs as it does alone *)

Definition component_runs (s s' : System) : Prop :=
  rtc traffic_step (s_traffic s) (s_traffic s') /\ rtc step (s_registry s) (s_registry s') /\
  rtc activity_step (s_activity s) (s_activity s').

Lemma coordinate_runs s s' : coordinate s s' ->
  s_management s' = s_management s /\ s_traffic s' = s_traffic s /\ s_activity s' = s_activity s /\
  rtc step (s_registry s) (s_registry s').
Proof.
  intros Hstep. destruct Hstep as [| | |m p Hc|a o t Hc Hd|a Hc| | | | |]; try (split_and!; [done..|]; apply rtc_refl).
  - unfold begin_drain. pose proof (step_drain_start (s_registry s)) as Hs. destruct (drain_start _) as [o t].
    split_and!; [done..|]. by apply rtc_once.
  - pose proof (step_drain_check (s_registry s)) as Hs. rewrite Hd in Hs. split_and!; [done..|]. by apply rtc_once.
  - unfold give_up_drain. pose proof (step_drain_deadline (s_registry s)) as Hs. destruct (drain_deadline _) as [o t].
    split_and!; [done..|]. by apply rtc_once.
Qed.

Lemma attempt_runs s s' : attempt_step s s' ->
  s_management s' = s_management s /\ s_traffic s' = s_traffic s /\ s_coordinator s' = s_coordinator s /\ s_mark s' = s_mark s /\
  rtc step (s_registry s) (s_registry s') /\ rtc activity_step (s_activity s) (s_activity s').
Proof.
  intros Hstep. destruct Hstep as [i k at_ q am t Hw Hal Ha Hi Hb Hbeg|k at_ q e Hw Hal Ha Hbeg|i k at_ q m res Hw Hal Ha Ht|i k at_ q Hw Hal Ha Ht];
    split_and!; try done; apply rtc_once.
  - by apply (step_begin _ i (MPersist k at_) am).
  - by eapply act_persisted.
  - by eapply act_persisted.
  - by eapply act_persisted.
Qed.

Lemma system_step_runs s s' : system_step s s' -> component_runs s s'.
Proof.
  intros Hstep. destruct Hstep as [s' Hc|s' Ha| | |t Ht|r Hr _|a Ha _]; split_and!; simpl; try done; try (by apply rtc_once).
  - apply coordinate_runs in Hc as (_ & -> & _). done.
  - by apply coordinate_runs in Hc as (_ & _ & _ & ?).
  - apply coordinate_runs in Hc as (_ & _ & -> & _). done.
  - apply attempt_runs in Ha as (_ & -> & _). done.
  - by apply attempt_runs in Ha as (_ & _ & _ & _ & ? & _).
  - by apply attempt_runs in Ha as (_ & _ & _ & _ & _ & ?).
Qed.

Lemma system_runs s s' : rtc system_step s s' -> component_runs s s'.
Proof.
  induction 1 as [s|s1 s2 s3 H12 _ IH]; [by split_and!|]. apply system_step_runs in H12 as (T & R & A). destruct IH as (T' & R' & A').
  split_and!; by etrans.
Qed.

Record components_inv (s : System) : Prop := {
  ci_traffic : traffic_inv (s_traffic s);
  ci_registry : structure_inv (s_registry s);
  ci_activity : activity_inv (s_activity s)
}.

Lemma traffic_inv_run t t' : traffic_inv t -> rtc traffic_step t t' -> traffic_inv t'.
Proof. intros Ht. revert t'. apply (rtc_ind_r traffic_inv); [done|]. intros. by eapply traffic_inv_step. Qed.

Lemma structure_run r r' : structure_inv r -> rtc step r r' -> structure_inv r'.
Proof. intros Hr. revert r'. apply (rtc_ind_r structure_inv); [done|]. intros. by eapply structure_step. Qed.

Lemma activity_inv_run a a' : activity_inv a -> rtc activity_step a a' -> activity_inv a'.
Proof. intros Ha. revert a'. apply (rtc_ind_r activity_inv); [done|]. intros. by eapply activity_inv_step. Qed.

Lemma components_step s s' : components_inv s -> system_step s s' -> components_inv s'.
Proof.
  intros [T R A] (Ht & Hr & Ha)%system_step_runs.
  split; [by eapply traffic_inv_run|by eapply structure_run|by eapply activity_inv_run].
Qed.

(** ** What stays once it is reached *)

(** A sealed registry without active mutations is never written again. *)
Lemma settled_step w w' :
  structure_inv w -> seal (w_tracker w) <> Open -> active (w_tracker w) = 0 -> step w w' ->
  active (w_tracker w') = 0 /\ w_contents w' = w_contents w.
Proof.
  intros Hinv Hs Ha Hstep.
  assert (Hno : forall i m p, task_at w i m p -> counted p = true -> False).
  { intros i m p Hi Hp. pose proof (structure_active_pos w i m p Hinv Hi Hp). lia. }
  assert (Hwf := inv_tracker w Hinv).
  destruct Hstep as [i m am t Hi Hb Hbeg|m am t Hb Hbeg|i w' Ht|i w' Ht| | | | | | | |]; try done.
  - by apply begin_spec in Hbeg as (? & _).
  - by apply begin_spec in Hbeg as (? & _).
  - destruct Ht; try (exfalso; by eapply Hno); [|done]. exfalso. eapply Hno; [done|]. by destruct p.
  - destruct Ht; exfalso; by eapply Hno.
  - split; [|done]. simpl. destruct (drain_start_tracker _ Hwf) as [_ ->]. done.
  - split; [|done]. simpl. destruct (drain_check_tracker _ Hwf) as [_ ->]. done.
Qed.

Lemma settled_run w w' :
  structure_inv w -> seal (w_tracker w) <> Open -> active (w_tracker w) = 0 -> rtc step w w' ->
  seal (w_tracker w') <> Open /\ active (w_tracker w') = 0 /\ w_contents w' = w_contents w.
Proof.
  intros Hinv Hs Ha Hr. induction Hr as [w|w1 w2 w3 H12 _ IH]; [done|].
  destruct (settled_step _ _ Hinv Hs Ha H12) as [Ha2 Hc2]. destruct (sealed_step _ _ Hs H12) as [Hs2 _].
  destruct IH as (Hs3 & Ha3 & Hc3); [by eapply structure_step|done|done|]. split_and!; [done|done|congruence].
Qed.

Lemma accepts_stopped_run t t' : rtc traffic_step t t' -> accepts_stopped (tw t) = true -> accepts_stopped (tw t') = true.
Proof.
  induction 1 as [t|t1 t2 t3 H12 _ IH]; [done|]. intros Hs. apply IH.
  destruct H12; simpl; try done; unfold finish_in, traffic_finish; by destruct (traffic_active (tw t1) =? 0).
Qed.

Lemma attempted_step a a' : activity_step a a' -> forall x, x ∈ attempted a -> x ∈ attempted a'.
Proof.
  intros Hstep x Hx. destruct Hstep as [key at_ el a' Hrec| | | | |key at_ q failed _ _|]; try done.
  - unfold record_admit in Hrec. simpl in Hrec. destruct (accepts _ _ _); simpl in Hrec.
    + apply bind_Some in Hrec as (p & _ & [= <-]). done.
    + by injection Hrec as <-.
  - unfold try_send. simpl. by destruct (worker_alive a).
  - destruct failed; simpl; by right.
Qed.

Lemma attempted_run a a' : rtc activity_step a a' -> forall x, x ∈ attempted a -> x ∈ attempted a'.
Proof. induction 1 as [a|a1 a2 a3 H12 _ IH]; [done|]. intros x Hx. apply IH. by eapply attempted_step. Qed.

(** ** What each phase may rely on *)

Definition saw_management (c : Coordinator) : bool :=
  match c with
  | Idle => false
  | Stopping m _ => m
  | Draining a | Marking a _ | Flushing a _ _ | Clearing a _ _ | Completed a _ _ _ => a
  end.
Definition saw_public (c : Coordinator) : bool :=
  match c with
  | Idle => false
  | Stopping _ p => p
  | Draining a | Marking a _ | Flushing a _ _ | Clearing a _ _ | Completed a _ _ _ => a
  end.
Definition has_sealed (c : Coordinator) : bool := match c with Idle | Stopping _ _ => false | _ => true end.
Definition saw_drained (c : Coordinator) : bool :=
  match c with Marking _ d | Flushing _ d _ | Clearing _ d _ | Completed _ d _ _ => d | _ => false end.
Definition saw_flushed (c : Coordinator) : bool := match c with Clearing _ _ f | Completed _ _ f _ => f | _ => false end.
Definition saw_cleared (c : Coordinator) : bool := match c with Completed _ _ _ t => t | _ => false end.

(** Every observation accepted before the flush was called has had its attempt. *)
Definition all_attempted (mark : option ActivityWriter) (a : ActivityWriter) : Prop :=
  forall a0 s k at_, mark = Some a0 -> accepted a0 !! s = Some (k, at_) -> exists at', (k, at') ∈ attempted a /\ at_ <= at'.

Record promises (c : Coordinator) (s : System) : Prop := {
  pr_management : saw_management c = true -> management_accepts_stopped (s_management s) = true;
  pr_public : saw_public c = true -> accepts_stopped (tw (s_traffic s)) = true;
  pr_sealed : has_sealed c = true -> seal (w_tracker (s_registry s)) <> Open;
  pr_drained : saw_drained c = true -> active (w_tracker (s_registry s)) = 0;
  pr_mark a d w : c = Flushing a d w -> exists a0, s_mark s = Some a0 /\ w = accepted_through (pending a0) /\
    activity_inv a0 /\ rtc activity_step a0 (s_activity s);
  pr_flushed : saw_flushed c = true -> all_attempted (s_mark s) (s_activity s);
  pr_cleared : saw_public c = true -> saw_cleared c = true -> admitted (s_traffic s) = 0%nat
}.

Lemma sealed_when_drained c : saw_drained c = true -> has_sealed c = true.
Proof. by destruct c. Qed.

(** The components keep what a phase relies on. *)
Lemma promises_kept c s s' :
  components_inv s -> promises c s -> s_mark s' = s_mark s ->
  (management_accepts_stopped (s_management s) = true -> management_accepts_stopped (s_management s') = true) ->
  component_runs s s' -> promises c s'.
Proof.
  intros [T R A] [P1 P2 P3 P4 P5 P6 P7] Hmark Hman (Ht & Hr & Ha). split; rewrite ?Hmark.
  - intros Hc. by apply Hman, P1.
  - intros Hc. by eapply accepts_stopped_run, P2.
  - intros Hc. by eapply sealed_forever, P3.
  - intros Hc. eapply (settled_run (s_registry s)); [done|by apply P3, sealed_when_drained|by apply P4|done].
  - intros a d w Hc. destruct (P5 a d w Hc) as (a0 & Hm & Hw & Hi & Hp). exists a0. split_and!; [done..|]. by etrans.
  - intros Hc a0 q k at_ Hm Hq. destruct (P6 Hc a0 q k at_ Hm Hq) as (at' & Hin & Hle). exists at'.
    split; [by eapply attempted_run|done].
  - intros Hp Hc. specialize (P7 Hp Hc). destruct (stopped_path _ _ Ht) as [_ Hle]; [by apply (ti_stopped _ T), P2|lia].
Qed.

Lemma coordinate_mark s s' : coordinate s s' ->
  s_mark s' = s_mark s \/ exists a d, s_coordinator s = Marking a d /\ s' = with_mark (Some (s_activity s))
      (with_coordinator (Flushing a d (accepted_through (pending (s_activity s)))) s).
Proof.
  intros Hstep. destruct Hstep; try (right; by eauto); left; try done.
  - unfold begin_drain. by destruct (drain_start _).
Qed.

(** What the drain leaves: a sealed registry, and the phase it came to. *)
Lemma begin_drain_spec a s :
  seal (w_tracker (s_registry (begin_drain a s))) <> Open /\
  ((s_coordinator (begin_drain a s) = Marking a true /\ active (w_tracker (s_registry (begin_drain a s))) = 0) \/
   s_coordinator (begin_drain a s) = Draining a).
Proof.
  unfold begin_drain, drain_start. case_bool_decide as Hs; simpl; destruct (Z.eqb_spec (active (w_tracker (s_registry s))) 0); simpl; auto.
Qed.

Lemma give_up_drain_spec a s :
  exists d, s_coordinator (give_up_drain a s) = Marking a d /\
    (d = true -> active (w_tracker (s_registry (give_up_drain a s))) = 0).
Proof.
  unfold give_up_drain, drain_deadline. simpl. eexists. split; [done|]. destruct (Z.eqb_spec (active (w_tracker (s_registry s))) 0); simpl; done.
Qed.

Ltac same_phase Hc Hk :=
  rewrite Hc in Hk; destruct Hk as [K1 K2 K3 K4 K5 K6 K7]; split; cbn in *; try done;
  try (intros; apply K1; by bool_simp); try (intros; apply K2; by bool_simp).

Lemma promises_coordinate s s' :
  components_inv s -> promises (s_coordinator s) s -> coordinate s s' -> promises (s_coordinator s') s'.
Proof.
  intros Hinv HP Hstep. destruct (coordinate_runs _ _ Hstep) as (Hm & Ht & Ha & Hr).
  destruct (coordinate_mark _ _ Hstep) as [Hmark|(a & d & Hc & ->)]; cycle 1.
  { same_phase Hc HP. intros a1 d1 w [= -> -> <-]. exists (s_activity s). split_and!; [done|done|apply Hinv|apply rtc_refl]. }
  assert (Hk : promises (s_coordinator s) s').
  { eapply promises_kept; [done|done|done|by rewrite Hm|]. unfold component_runs. rewrite Ht, Ha. by split_and!. }
  destruct Hstep as [Hc|p Hc Hs|m Hc Hs|m p Hc|a o t Hc Hd|a Hc|a d Hc|a d w Hc Hw|a d w Hc|a d f Hc Hd|a d f Hc].
  - same_phase Hc Hk.
  - same_phase Hc Hk.
  - same_phase Hc Hk.
  - destruct (begin_drain_spec (m && p) s) as [Hseal [[-> Hact]| ->]]; same_phase Hc Hk.
  - assert (Hact : active (w_tracker (s_registry s)) = 0).
    { unfold drain_check in Hd. by destruct (Z.eqb_spec (active (w_tracker (s_registry s))) 0). }
    same_phase Hc Hk. intros _. unfold drain_check in Hd. rewrite Hact in Hd. by injection Hd as _ <-.
  - destruct (give_up_drain_spec a s) as (d & -> & Hact). same_phase Hc Hk.
  - same_phase Hc Hk. intros a1 d1 w [= -> -> <-]. exists (s_activity s). split_and!; [done|done|apply Hinv|apply rtc_refl].
  - same_phase Hc Hk. intros _ a0 q k at_ Hmk Hq. destruct (K5 a d w eq_refl) as (a1 & Hmk1 & -> & Hi1 & Hrun). simplify_eq/=.
    eapply complete_attempted; [apply Hinv|done| |by eapply accepted_rtc]. apply (a_accepted _ Hi1). by eexists.
  - same_phase Hc Hk.
  - same_phase Hc Hk. intros Hp _. pose proof (ci_traffic _ Hinv) as [Hcount _ _ _]. unfold drained in Hd. bool_simp. lia.
  - same_phase Hc Hk.
Qed.

Lemma promises_step s s' :
  components_inv s -> promises (s_coordinator s) s -> system_step s s' -> promises (s_coordinator s') s'.
Proof.
  intros Hinv HP Hstep. pose proof (system_step_runs _ _ Hstep) as Hruns.
  destruct Hstep as [s' Hc|s' Ha| | |t Ht|r Hr Hf|a Ha Hf]; [by eapply promises_coordinate|..].
  - destruct (attempt_runs _ _ Ha) as (Hm & _ & Hc & Hmk & _). rewrite Hc. eapply promises_kept; try done. by rewrite Hm.
  - by eapply promises_kept.
  - by eapply promises_kept.
  - by eapply promises_kept.
  - by eapply promises_kept.
  - by eapply promises_kept.
Qed.

Lemma system_inv s : system_reachable s -> components_inv s /\ promises (s_coordinator s) s.
Proof.
  intros (contents & capacity & m & Hr). revert s Hr.
  apply (rtc_ind_r (fun s => components_inv s /\ promises (s_coordinator s) s)).
  - split; [split; [by apply traffic_reachable_inv, rtc_refl|apply structure_initial|apply activity_inv_start]|]. by split.
  - intros s s' _ Hstep [Hinv HP]. split; [by eapply components_step|by eapply promises_step].
Qed.

Lemma completed_step s s' a d f c :
  s_coordinator s = Completed a d f c -> system_step s s' -> s_coordinator s' = Completed a d f c /\ s_mark s' = s_mark s.
Proof.
  intros Hc Hstep. destruct Hstep as [s' Hco|s' Ha| | |t Ht|r Hr Hf|x Hx Hf]; try done.
  - exfalso. destruct Hco; congruence.
  - destruct (attempt_runs _ _ Ha) as (_ & _ & -> & -> & _). done.
Qed.

Lemma completed_run s s' a d f c :
  s_coordinator s = Completed a d f c -> rtc system_step s s' -> s_coordinator s' = Completed a d f c /\ s_mark s' = s_mark s.
Proof.
  intros Hc Hr. induction Hr as [s|s1 s2 s3 H12 _ IH]; [done|]. destruct (completed_step _ _ _ _ _ _ Hc H12) as [Hc2 Hm2].
  destruct (IH Hc2) as [Hc3 Hm3]. split; [done|congruence].
Qed.

Lemma system_reachable_run s s' : system_reachable s -> rtc system_step s s' -> system_reachable s'.
Proof. intros (c & n & m & Hr) Hs. exists c, n, m. by etrans. Qed.

(** C9: a completed shutdown is what its phases say, for good: in every state after
    the coordinator finished, whatever still runs, admission of mutations is sealed;
    a phase that did not time out has kept its promise: the management and the
    public listener accept no more; no mutation is active and the backend is never
    written again; every observation accepted before the flush was called has had
    its attempt; and, with the listeners stopped, no public request is inside. *)
Theorem completed_shutdown_is_final s s' accepts drained flushed cleared :
  system_reachable s -> s_coordinator s = Completed accepts drained flushed cleared -> rtc system_step s s' ->
  seal (w_tracker (s_registry s')) <> Open /\
  (accepts = true -> management_accepts_stopped (s_management s') = true /\ accepting (tw (s_traffic s')) = false) /\
  (drained = true -> active (w_tracker (s_registry s')) = 0 /\ w_contents (s_registry s') = w_contents (s_registry s)) /\
  (flushed = true -> all_attempted (s_mark s) (s_activity s')) /\
  (accepts = true -> cleared = true -> admitted (s_traffic s') = 0%nat).
Proof.
  intros Hs Hc Hr. destruct (completed_run _ _ _ _ _ _ Hc Hr) as [Hc' Hm'].
  destruct (system_inv _ Hs) as [Hinv HP]. destruct (system_inv _ (system_reachable_run _ _ Hs Hr)) as [Hinv' HP'].
  rewrite Hc in HP. rewrite Hc' in HP'. destruct HP as [_ _ P3 P4 _ _ _]. destruct HP' as [Q1 Q2 Q3 Q4 _ Q6 Q7]. cbn in *.
  split_and!; [by apply Q3|..].
  - intros Ha. split; [by apply Q1|]. by apply (ti_stopped _ (ci_traffic _ Hinv')), Q2.
  - intros Hd. split; [by apply Q4|]. destruct (system_runs _ _ Hr) as (_ & Hreg & _).
    apply (settled_run (s_registry s)); [apply Hinv|by apply P3|by apply P4|done].
  - intros Hf. rewrite <- Hm'. by apply Q6.
  - done.
Qed.

(** How many steps the coordinator has left at most. *)
Definition phases_left (c : Coordinator) : nat :=
  match c with
  | Idle => 8
  | Stopping m p => 5 + (if m then 0 else 1) + (if p then 0 else 1)
  | Draining _ => 4
  | Marking _ _ => 3
  | Flushing _ _ _ => 2
  | Clearing _ _ _ => 1
  | Completed _ _ _ _ => 0
  end.

(** The coordinator always completes: as long as it has not, it can take a
    step of its own in whatever state the rest is, each of its steps brings it
    nearer, and no one else moves it, so once signalled it finishes after at most
    seven steps. *)
Theorem coordinator_always_completes s :
  (phases_left (s_coordinator s) <> 0%nat -> exists s', coordinate s s') /\
  (forall s', coordinate s s' -> (phases_left (s_coordinator s') < phases_left (s_coordinator s))%nat) /\
  (forall s', system_step s s' -> s_coordinator s' = s_coordinator s \/ coordinate s s').
Proof.
  split_and!.
  - intros Hn. destruct (s_coordinator s) as [|m p|a|a d|a d w|a d f|a d f c] eqn:Hc; [..|done]; eexists;
      [by apply co_signal|by eapply co_drain|by eapply co_drain_deadline|by eapply co_mark|by eapply co_flush_deadline|by eapply co_clear_deadline].
  - intros s' Hstep. destruct Hstep as [Hc|p Hc Hs|m Hc Hs|m p Hc|a o t Hc Hd|a Hc|a d Hc|a d w Hc Hw|a d w Hc|a d f Hc Hd|a d f Hc];
      rewrite Hc; simpl; try lia.
    + destruct (begin_drain_spec (m && p) s) as [_ [[-> _]| ->]]; simpl; lia.
  - intros s' Hstep. destruct Hstep as [s' Hco|s' Ha| | |t Ht|r Hr Hf|x Hx Hf]; try (by left); [by right|].
    left. by destruct (attempt_runs _ _ Ha) as (_ & _ & -> & _).
Qed.

(** ** A shutdown can always end well *)

(** Public requests leave once admission is off. *)
Lemma traffic_clears t :
  traffic_inv t -> accepting (tw t) = false -> exists t', rtc traffic_step t t' /\ drained (tw t') = true.
Proof.
  remember (2 * added t + admitted t + retreating t)%nat as n eqn:Hn. revert t Hn.
  induction (lt_wf n) as [n _ IH]. intros t -> Hinv Ha.
  assert (Hgo : forall t1, traffic_step t t1 -> (2 * added t1 + admitted t1 + retreating t1 < 2 * added t + admitted t + retreating t)%nat ->
    exists t', rtc traffic_step t t' /\ drained (tw t') = true).
  { intros t1 Hstep Hlt. destruct (stopped_step _ _ Ha Hstep) as [Ha1 _].
    destruct (IH _ Hlt t1 eq_refl (traffic_inv_step _ _ Hinv Hstep) Ha1) as (t' & Hr & Hd). exists t'. split; [by eapply rtc_l|done]. }
  destruct (added t) as [|k] eqn:Hadd.
  - destruct (admitted t) as [|k] eqn:Hadm.
    + destruct (retreating t) as [|k] eqn:Hret.
      * exists t. split; [done|]. apply Z.eqb_eq. rewrite (ti_count _ Hinv), Hadd, Hadm, Hret. done.
      * apply (Hgo _ (tr_retreat_finish t k Hret)). unfold finish_in. destruct (traffic_finish (tw t)). simpl. lia.
    + apply (Hgo _ (tr_release t k Hadm)). unfold finish_in. destruct (traffic_finish (tw t)). simpl. lia.
  - apply (Hgo _ (tr_retreat t k Hadd Ha)). simpl. lia.
Qed.

Lemma lift_traffic s t : rtc traffic_step (s_traffic s) t -> rtc system_step s (with_traffic t s).
Proof.
  remember (s_traffic s) as t0 eqn:Ht0. intros Hr. revert s Ht0. induction Hr as [t|t1 t2 t3 H12 _ IH]; intros s ->; [by destruct s|].
  eapply rtc_l; [by apply sys_traffic|]. by apply (IH (with_traffic t2 s)).
Qed.

Lemma lift_registry s r :
  seal (w_tracker (s_registry s)) <> Open -> rtc step (s_registry s) r -> rtc system_step s (with_registry r s).
Proof.
  remember (s_registry s) as r0 eqn:Hr0. intros Hseal Hr. revert s Hseal Hr0.
  induction Hr as [r|r1 r2 r3 H12 _ IH]; intros s Hseal ->; [by destruct s|]. destruct (sealed_step _ _ Hseal H12) as [Hs2 Hdom].
  eapply rtc_l; [apply (sys_registry _ r2 H12)|by apply (IH (with_registry r2 s))].
  intros i _ Hi. apply not_elem_of_dom in Hi. apply not_elem_of_dom. set_solver.
Qed.

(** The worker goes on, refused by a sealed registry without tasks. *)
Lemma lift_activity s a :
  seal (w_tracker (s_registry s)) <> Open -> w_tasks (s_registry s) = ∅ -> rtc (drain_step true) (s_activity s) a ->
  exists i, rtc system_step s (with_attempt i (with_activity a s)).
Proof.
  intros Hseal Htasks. remember (s_activity s) as a0 eqn:Ha0. intros Hr. revert s Hseal Htasks Ha0.
  induction Hr as [a|a1 a2 a3 H12 _ IH]; intros s Hseal Htasks ->; [exists (s_attempt s); by destruct s|].
  assert (Hstep : exists i, system_step s (with_attempt i (with_activity a2 s))).
  { destruct H12 as (Hact & Hal & Hend). destruct (worker (s_activity s)) as [| |k at_ q] eqn:Hw.
    - exists (s_attempt s). refine (sys_activity s a2 Hact _). unfold awaits_reply. by rewrite Hw.
    - exists (s_attempt s). refine (sys_activity s a2 Hact _). unfold awaits_reply. by rewrite Hw.
    - subst a2. exists None. apply sys_attempt. destruct (s_attempt s) as [i|] eqn:Hatt.
      + eapply (attempt_lost s i k at_ q); try done. by rewrite Htasks, lookup_empty.
      + assert (Hbeg : exists e, begin UpdateActivity (w_tracker (s_registry s)) = Err e).
        { unfold begin. destruct (seal (w_tracker (s_registry s))); [done|by eexists..]. }
        destruct Hbeg as [e He]. pose proof (attempt_refused s k at_ q e Hw Hal Hatt He) as Hst. by destruct s; simpl in *; subst. }
  destruct Hstep as [i Hstep]. destruct (IH (with_attempt i (with_activity a2 s)) Hseal Htasks eq_refl) as [j Hrest].
  exists j. eapply rtc_l; [exact Hstep|exact Hrest].
Qed.

Lemma reach_stopped s :
  has_sealed (s_coordinator s) = false ->
  exists s', rtc system_step s s' /\ s_coordinator s' = Stopping true true /\ s_activity s' = s_activity s.
Proof.
  intros Hc.
  assert (H1 : exists s1 m p, rtc system_step s s1 /\ s_coordinator s1 = Stopping m p /\ s_activity s1 = s_activity s).
  { destruct (s_coordinator s) as [|m p| | | | |] eqn:E; try done; [|by exists s, m, p].
    eexists _, false, false. split; [apply rtc_once, sys_coordinate; by apply co_signal|done]. }
  destruct H1 as (s1 & m & p & Hr1 & Hc1 & Ha1).
  set (s2 := with_management (management_acknowledge (s_management s1)) s1).
  assert (Hr2 : rtc system_step s1 s2) by apply rtc_once, sys_acknowledge.
  set (t := mkTrafficWorld (mkTraffic false (traffic_active (tw (s_traffic s2))) true) (checked (s_traffic s2)) (added (s_traffic s2))
              (admitted (s_traffic s2)) (retreating (s_traffic s2)) (over_released (s_traffic s2))).
  set (s3 := with_traffic t s2).
  assert (Hr3 : rtc system_step s2 s3).
  { apply lift_traffic. eapply rtc_l; [apply tr_stop_accepting|]. apply rtc_once. refine (tr_acknowledge _ _). done. }
  assert (Hr4 : rtc system_step s3 (with_coordinator (Stopping true p) s3)).
  { destruct m; [destruct s1; simpl in *; by subst|]. apply rtc_once, sys_coordinate. by apply (co_management s3 p). }
  assert (Hr5 : rtc system_step (with_coordinator (Stopping true p) s3) (with_coordinator (Stopping true true) s3)).
  { destruct p; [done|]. apply rtc_once, sys_coordinate. by apply (co_public (with_coordinator (Stopping true false) s3) true). }
  exists (with_coordinator (Stopping true true) s3). split; [|by rewrite <- Ha1]. by repeat (etrans; [eassumption|]).
Qed.

(** The drain ends once the mutations that were admitted have. *)
Lemma reach_drained s :
  system_reachable s -> s_coordinator s = Stopping true true ->
  exists s', rtc system_step s s' /\ s_coordinator s' = Marking true true /\ s_activity s' = s_activity s /\
    seal (w_tracker (s_registry s')) <> Open /\ w_tasks (s_registry s') = ∅.
Proof.
  intros Hs Hc. set (s1 := begin_drain true s).
  assert (Hr1 : rtc system_step s s1) by (apply rtc_once, sys_coordinate; by apply (co_drain s true true)).
  assert (Ha1 : s_activity s1 = s_activity s) by (unfold s1, begin_drain; by destruct (drain_start _)).
  destruct (begin_drain_spec true s) as [Hseal1 Hphase]. fold s1 in Hseal1, Hphase.
  destruct (system_inv _ (system_reachable_run _ _ Hs Hr1)) as [Hinv1 _].
  destruct (tasks_drain _ (ci_registry _ Hinv1)) as (r & Hrr & Hr & Ht). set (s2 := with_registry r s1).
  assert (Hr2 : rtc system_step s1 s2) by by apply lift_registry.
  assert (Hseal2 : seal (w_tracker (s_registry s2)) <> Open) by by apply (sealed_forever _ _ Hrr).
  assert (Hact : active (w_tracker r) = 0) by (rewrite (inv_active _ Hr), Ht; done).
  destruct Hphase as [[Hc1 _]|Hc1]; [exists s2; split; [by etrans|done]|].
  assert (Hdc : drain_check (w_tracker (s_registry s2)) = (Some (take_outcome false (w_tracker r)).1, (take_outcome false (w_tracker r)).2)).
  { unfold drain_check. simpl. by rewrite Hact. }
  eexists. split; [etrans; [exact Hr1|]; etrans; [exact Hr2|]; apply rtc_once, sys_coordinate; by eapply (co_drained s2 true)|]. done.
Qed.

(** C10: a shutdown can always end well: from every reachable state in which it has
    not reached its drain yet, with the activity worker alive, the system can run
    to a completed shutdown in which no phase timed out. *)
Theorem shutdown_can_always_end_well s :
  system_reachable s -> has_sealed (s_coordinator s) = false -> worker_alive (s_activity s) = true ->
  exists s', rtc system_step s s' /\ s_coordinator s' = Completed true true true true.
Proof.
  intros Hs Hc Hal. destruct (reach_stopped s Hc) as (s1 & Hr1 & Hc1 & Ha1).
  destruct (reach_drained s1) as (s2 & Hr2 & Hc2 & Ha2 & Hseal & Htasks); [by eapply system_reachable_run|done|].
  set (s3 := with_mark (Some (s_activity s2)) (with_coordinator (Flushing true true (accepted_through (pending (s_activity s2)))) s2)).
  assert (Hr3 : rtc system_step s2 s3) by (apply rtc_once, sys_coordinate; by apply co_mark).
  assert (Hs2 : system_reachable s2) by (eapply system_reachable_run; [exact Hs|by etrans]).
  destruct (writer_drains_with true (s_activity s3)) as (a & Hra & He);
    [apply (system_inv s2 Hs2)|change (worker_alive (s_activity s2) = true); congruence|].
  destruct (lift_activity s3 a Hseal Htasks Hra) as [i Hr4]. set (s4 := with_attempt i (with_activity a s3)) in *.
  assert (Hr5 : rtc system_step s4 (with_coordinator (Clearing true true true) s4)).
  { apply rtc_once, sys_coordinate. eapply co_flushed; [done|]. apply watermark_complete_spec. intros k e. simpl. by rewrite He, lookup_empty. }
  set (s5 := with_coordinator (Clearing true true true) s4) in *.
  assert (Hs5 : system_reachable s5) by (eapply system_reachable_run; [exact Hs2|]; by repeat (etrans; [eassumption|])).
  destruct (system_inv _ Hs5) as [Hinv5 HP5]. destruct (traffic_clears (s_traffic s5)) as (t & Hrt & Hd);
    [apply Hinv5|apply (ti_stopped _ (ci_traffic _ Hinv5)), (pr_public _ _ HP5); done|].
  exists (with_coordinator (Completed true true true true) (with_traffic t s5)). split; [|done].
  assert (Hr6 : rtc system_step s5 (with_traffic t s5)) by by apply lift_traffic.
  etrans; [exact Hr1|]. etrans; [exact Hr2|]. etrans; [exact Hr3|]. etrans; [exact Hr4|]. etrans; [exact Hr5|]. etrans; [exact Hr6|].
  apply rtc_once, sys_coordinate. by apply co_cleared.
Qed.

End System.

(** ** Witnesses *)

Module SystemExamples.

Definition stale : RouteData := {| target := "http://127.0.0.1:9000"; last_activity := 0; extra := ∅ |}.
Definition one_route : gmap RouteKey RouteData := {[ normalize "/a" := stale ]}.

(** A writer with one accepted observation, through the worker's attempt. *)
Definition told : ActivityWriter := try_send writer_a.
Definition awake : ActivityWriter := with_worker WLoop (with_wake false told).
Definition taken : PendingActivities :=
  match pop_ready (pending awake) with Popped _ _ _ p => p | _ => pending awake end.
Definition trying : ActivityWriter := with_worker (WPersist (normalize "/a") 5 1) (with_pending taken awake).
Definition refused : ActivityWriter := worker_finish (normalize "/a") 5 true trying.

Definition quiet_traffic : TrafficWorld := mkTrafficWorld (mkTraffic false 0 true) 0 0 0 0 false.
Definition sealed_registry : World := set_tracker (with_seal Tracker.Shutdown tracker_default) (initial one_route).

(** The system with its listeners stopped. *)
Definition stopped (r : World) (a : ActivityWriter) (c : Coordinator) (mark : option ActivityWriter) : System :=
  mkSystem (mkManagement false true) quiet_traffic r a None c mark.

Lemma stops : rtc system_step (system_start one_route 1 Metrics_new) (stopped (initial one_route) told (Stopping true true) None).
Proof.
  set (s := fun m t a c => mkSystem m t (initial one_route) a None c None).
  apply (rtc_l _ _ (s Management_default traffic_initial writer_a Idle)).
  { apply (sys_activity (system_start one_route 1 Metrics_new) writer_a); [|discriminate].
    apply (act_record _ (normalize "/a") 5 0). reflexivity. }
  apply (rtc_l _ _ (s Management_default traffic_initial told Idle)).
  { apply (sys_activity (s Management_default traffic_initial writer_a Idle) told); [|discriminate]. apply act_send, Nat.lt_0_1. }
  apply (rtc_l _ _ (s (mkManagement false true) traffic_initial told Idle)); [exact (sys_acknowledge _)|].
  apply (rtc_l _ _ (s (mkManagement false true) stopped_idle told Idle)); [exact (sys_traffic _ _ (tr_stop_accepting _))|].
  apply (rtc_l _ _ (s (mkManagement false true) quiet_traffic told Idle)); [refine (sys_traffic _ _ (tr_acknowledge _ _)); reflexivity|].
  apply (rtc_l _ _ (s (mkManagement false true) quiet_traffic told (Stopping false false))); [refine (sys_coordinate _ _ (co_signal _ _)); reflexivity|].
  apply (rtc_l _ _ (s (mkManagement false true) quiet_traffic told (Stopping true false))); [refine (sys_coordinate _ _ (co_management _ false _ _)); reflexivity|].
  apply rtc_once. refine (sys_coordinate _ _ (co_public _ true _ _)); reflexivity.
Qed.

(** A shutdown in which every phase ends in time, with one observation accepted
    before it and attempted during it: the drain has sealed the registry by then,
    so the attempt is refused and the backend keeps the old stamp. *)
Lemma clean_run :
  rtc system_step (system_start one_route 1 Metrics_new) (stopped sealed_registry refused (Completed true true true true) (Some told)).
Proof.
  etrans; [apply stops|]. set (q := stopped sealed_registry).
  apply (rtc_l _ _ (q told (Marking true true) None)); [refine (sys_coordinate _ _ (co_drain _ true true _)); reflexivity|].
  apply (rtc_l _ _ (q told (Flushing true true 1) (Some told))); [refine (sys_coordinate _ _ (co_mark _ true true _)); reflexivity|].
  apply (rtc_l _ _ (q awake (Flushing true true 1) (Some told))).
  { refine (sys_activity _ awake _ _); [|discriminate]. by apply (act_recv told). }
  apply (rtc_l _ _ (q trying (Flushing true true 1) (Some told))).
  { refine (sys_activity _ trying _ _); [|discriminate]. apply (act_pop awake); vm_compute; reflexivity. }
  apply (rtc_l _ _ (q refused (Flushing true true 1) (Some told))).
  { refine (sys_attempt _ _ (attempt_refused _ (normalize "/a") 5 1 (message MUTATION_ADMISSION_SEALED_ERROR) _ _ _ _)); reflexivity. }
  apply (rtc_l _ _ (q refused (Clearing true true true) (Some told))).
  { refine (sys_coordinate _ _ (co_flushed _ true true 1 _ _)); vm_compute; reflexivity. }
  apply rtc_once. refine (sys_coordinate _ _ (co_cleared _ true true true _ _)); reflexivity.
Qed.

Lemma completed_shutdown_is_final_witness :
  accepted told !! 1 = Some (normalize "/a", 5) /\ w_contents sealed_registry !! normalize "/a" = Some stale /\
  admitted quiet_traffic = 0%nat /\ exists at', (normalize "/a", at') ∈ attempted refused /\ 5 <= at'.
Proof.
  assert (Ha : accepted told !! 1 = Some (normalize "/a", 5)) by reflexivity.
  destruct (completed_shutdown_is_final (stopped sealed_registry refused (Completed true true true true) (Some told))
    (stopped sealed_registry refused (Completed true true true true) (Some told)) true true true true) as (_ & _ & _ & Hf & Ht);
    [exists one_route, 1%nat, Metrics_new; exact clean_run|reflexivity|apply rtc_refl|].
  split; [exact Ha|]. split; [reflexivity|]. split; [exact (Ht eq_refl eq_refl)|exact (Hf eq_refl told 1 (normalize "/a") 5 eq_refl Ha)].
Defined.

Lemma shutdown_can_always_end_well_witness :
  exists s', rtc system_step (system_start one_route 1 Metrics_new) s' /\ s_coordinator s' = Completed true true true true.
Proof.
  apply (shutdown_can_always_end_well (system_start one_route 1 Metrics_new)); [|reflexivity|reflexivity].
  exists one_route, 1%nat, Metrics_new. apply rtc_refl.
Defined.

End SystemExamples.
